(** * Wave code generation (iree/turbine/kernel/wave/codegen.py)

    A shallow embedding of the wave emitter: the symbolic index compiler
    [gen_sympy_index], the memory access synthesizer ([_build_mask],
    [_construct_gather_scatter_indices], [handle_read], [handle_write]),
    the shuffle and reduction handlers and the emitter's value cache.

    Conventions of the embedding.
    - An SSA value is represented by the tree of operations that defines
      it ([ir_value]); operations with regions or memory effects are also
      recorded, in emission order, in the emitter's instruction list.
    - Python exceptions are values of [exception]; a function that can
      raise returns a [result].
    - sympy expressions are trees ([expr]); sympy's constructors are taken
      as free constructors (no flattening, no evaluation on construction). *)

From Stdlib Require Import ZArith QArith Qcanon Qround List String Bool Lia.
From stdpp Require Import base option list gmap strings.

Open Scope string_scope.
Open Scope list_scope.
Open Scope Z_scope.

Set Warnings "-register-all".

(** ** Exceptions and results *)

Inductive exception : Type :=
  | CodegenError (msg : string)
  | ValidationError (msg : string)
  | NotImplementedError (msg : string)
  | AssertionError (msg : string)
  | ValueError (msg : string)
  | TypeError (msg : string)
  | IndexError (msg : string)
  | KeyError (msg : string)
  | AttributeError (msg : string)
  | StopIteration.

Inductive result (A : Type) : Type :=
  | Ok (a : A)
  | Raise (e : exception).
Arguments Ok {A} a.
Arguments Raise {A} e.

#[global] Instance result_ret : MRet result := fun A a => Ok a.
#[global] Instance result_bind : MBind result := fun A B f m =>
  match m with
  | Ok a => f a
  | Raise e => Raise e
  end.

#[global] Instance result_fmap : FMap result := fun A B f m =>
  match m with
  | Ok a => Ok (f a)
  | Raise e => Raise e
  end.

Definition is_ok {A} (r : result A) : bool :=
  match r with Ok _ => true | Raise _ => false end.

Definition raises {A} (r : result A) : Prop :=
  exists e, r = Raise e.

(** ** Target IR: types *)

Inductive scalar_type : Type :=
  | IndexType
  | IntegerType (width : positive)   (* signless integer iN *)
  | F8Type
  | F16Type
  | BF16Type
  | F32Type
  | F64Type.

Inductive ir_type : Type :=
  | Scalar (t : scalar_type)
  | VectorType (shape : list nat) (element_type : scalar_type)
  | MemRefType (shape : list Z) (element_type : scalar_type).

#[global] Instance scalar_type_eq_dec : EqDecision scalar_type.
Proof. solve_decision. Defined.
#[global] Instance ir_type_eq_dec : EqDecision ir_type.
Proof. solve_decision. Defined.

Definition i1 : scalar_type := IntegerType 1.
Definition i32 : scalar_type := IntegerType 32.

Definition _is_float_type (t : scalar_type) : bool :=
  match t with
  | F8Type | F16Type | BF16Type | F32Type | F64Type => true
  | _ => false
  end.

Definition _is_integer_like_type (t : scalar_type) : bool :=
  match t with
  | IndexType | IntegerType _ => true
  | _ => false
  end.

(** Bit width of a float element type ([element.type.width]). *)
Definition float_width (t : scalar_type) : Z :=
  match t with
  | F8Type => 8
  | F16Type | BF16Type => 16
  | F32Type => 32
  | F64Type => 64
  | IndexType => 64
  | IntegerType w => Z.pos w
  end.

(** ** Target IR: values

    A value is the tree of the operations that compute it.  The leaves are
    the runtime inputs: entry block arguments (kernel arguments, dynamic
    dimensions), thread and workgroup ids, the induction variable and the
    carried values of a loop, and the results ([OpResult]) of the
    operations kept in the instruction list. *)

Inductive ir_value : Type :=
  | BlockArgument (name : string) (ty : ir_type)
  | gpu_thread_id (dim : nat)
  | stream_dispatch_workgroup_id (dim : nat)
  | induction_variable (owner : nat)
  | inner_iter_arg (owner : nat) (idx : nat) (ty : ir_type)
  | OpResult (owner : nat) (idx : nat) (ty : ir_type)
  | arith_constant (ty : ir_type) (value : Z)
  | arith_constant_float (ty : ir_type) (value : Z)
  | arith_constant_dense (ty : ir_type) (values : list Z)
  | arith_addi (lhs rhs : ir_value)
  | arith_muli (lhs rhs : ir_value)
  | arith_divsi (lhs rhs : ir_value)
  | arith_ceildivsi (lhs rhs : ir_value)
  | arith_remsi (lhs rhs : ir_value)
  | arith_cmpi_slt (lhs rhs : ir_value)
  | arith_andi (lhs rhs : ir_value)
  | arith_extf (ty : ir_type) (v : ir_value)
  | arith_truncf (ty : ir_type) (v : ir_value)
  | arith_extsi (ty : ir_type) (v : ir_value)
  | arith_extui (ty : ir_type) (v : ir_value)
  | vector_splat (ty : ir_type) (v : ir_value)
  | vector_broadcast (ty : ir_type) (v : ir_value)
  | vector_extract (v : ir_value) (static_position : list nat)
  | vector_insert (v dest : ir_value) (static_position : list nat)
  | vector_constant_mask (ty : ir_type) (dims : list nat)
  | gpu_shuffle_xor (v offset width : ir_value).

#[global] Instance ir_value_eq_dec : EqDecision ir_value.
Proof. solve_decision. Defined.

Definition element_type_of (ty : ir_type) : scalar_type :=
  match ty with
  | Scalar t => t
  | VectorType _ t => t
  | MemRefType _ t => t
  end.

(** The type of the result of [arith.cmpi]: i1 with the operand's shape. *)
Definition cmp_result_type (ty : ir_type) : ir_type :=
  match ty with
  | VectorType shape _ => VectorType shape i1
  | _ => Scalar i1
  end.

Fixpoint type_of (v : ir_value) : ir_type :=
  match v with
  | BlockArgument _ ty => ty
  | gpu_thread_id _ | stream_dispatch_workgroup_id _ => Scalar IndexType
  | induction_variable _ => Scalar IndexType
  | inner_iter_arg _ _ ty => ty
  | OpResult _ _ ty => ty
  | arith_constant ty _ => ty
  | arith_constant_float ty _ => ty
  | arith_constant_dense ty _ => ty
  | arith_addi a _ | arith_muli a _ | arith_divsi a _
  | arith_ceildivsi a _ | arith_remsi a _ | arith_andi a _ => type_of a
  | arith_cmpi_slt a _ => cmp_result_type (type_of a)
  | arith_extf ty _ | arith_truncf ty _ => ty
  | arith_extsi ty _ | arith_extui ty _ => ty
  | vector_splat ty _ | vector_broadcast ty _ => ty
  | vector_extract a _ => Scalar (element_type_of (type_of a))
  | vector_insert _ dest _ => type_of dest
  | vector_constant_mask ty _ => ty
  | gpu_shuffle_xor a _ _ => type_of a
  end.

(** ** Target IR: integer semantics

    [index] is taken as a 64-bit two's complement integer; every integer
    operation wraps around at the width of its element type.  A boolean
    (i1) is 0 or 1. *)

Definition index_bitwidth : Z := 64.

Definition wrap_signed (w z : Z) : Z :=
  (z + 2 ^ (w - 1)) mod 2 ^ w - 2 ^ (w - 1).

Definition elem_wrap (t : scalar_type) (z : Z) : Z :=
  match t with
  | IndexType => wrap_signed index_bitwidth z
  | IntegerType 1 => z mod 2
  | IntegerType w => wrap_signed (Z.pos w) z
  | _ => z
  end.

Arguments wrap_signed : simpl never.
Arguments elem_wrap : simpl never.

Inductive rt_value : Type :=
  | RInt (z : Z)
  | RVec (zs : list Z).

#[global] Instance rt_value_eq_dec : EqDecision rt_value.
Proof. solve_decision. Defined.

(** Element-wise application of a partial binary operation. *)
Fixpoint zip_with_opt (f : Z -> Z -> option Z) (xs ys : list Z)
  : option (list Z) :=
  match xs, ys with
  | [], [] => Some []
  | x :: xs', y :: ys' =>
      match f x y, zip_with_opt f xs' ys' with
      | Some z, Some zs => Some (z :: zs)
      | _, _ => None
      end
  | _, _ => None
  end.

Definition lift2 (f : Z -> Z -> option Z) (a b : option rt_value)
  : option rt_value :=
  match a, b with
  | Some (RInt x), Some (RInt y) => RInt <$> f x y
  | Some (RVec xs), Some (RVec ys) => RVec <$> zip_with_opt f xs ys
  | _, _ => None
  end.

Definition ceil_div (x y : Z) : Z := - ((- x) / y).

Definition sem_addi (t : scalar_type) (x y : Z) : option Z :=
  Some (elem_wrap t (x + y)).
Definition sem_muli (t : scalar_type) (x y : Z) : option Z :=
  Some (elem_wrap t (x * y)).
Definition sem_divsi (t : scalar_type) (x y : Z) : option Z :=
  if y =? 0 then None else Some (elem_wrap t (Z.quot x y)).
Definition sem_ceildivsi (t : scalar_type) (x y : Z) : option Z :=
  if y =? 0 then None else Some (elem_wrap t (ceil_div x y)).
Definition sem_remsi (t : scalar_type) (x y : Z) : option Z :=
  if y =? 0 then None else Some (elem_wrap t (Z.rem x y)).
Definition sem_cmpi_slt (x y : Z) : option Z :=
  Some (if x <? y then 1 else 0).
Definition sem_andi (t : scalar_type) (x y : Z) : option Z :=
  Some (elem_wrap t (Z.land x y)).

(** The runtime bindings of the leaves. *)
Record runtime : Type := {
  rt_argument : string -> Z;
  rt_thread_id : nat -> Z;
  rt_workgroup_id : nat -> Z;
  rt_induction_variable : nat -> Z
}.

Fixpoint eval (env : runtime) (v : ir_value) : option rt_value :=
  match v with
  | BlockArgument name (Scalar t) =>
      Some (RInt (elem_wrap t (rt_argument env name)))
  | gpu_thread_id d => Some (RInt (elem_wrap IndexType (rt_thread_id env d)))
  | stream_dispatch_workgroup_id d =>
      Some (RInt (elem_wrap IndexType (rt_workgroup_id env d)))
  | induction_variable o =>
      Some (RInt (elem_wrap IndexType (rt_induction_variable env o)))
  | arith_constant (Scalar t) z => Some (RInt (elem_wrap t z))
  | arith_constant_dense (VectorType [n] t) zs =>
      if decide (length zs = n) then Some (RVec (map (elem_wrap t) zs))
      else None
  | arith_addi a b =>
      lift2 (sem_addi (element_type_of (type_of a))) (eval env a) (eval env b)
  | arith_muli a b =>
      lift2 (sem_muli (element_type_of (type_of a))) (eval env a) (eval env b)
  | arith_divsi a b =>
      lift2 (sem_divsi (element_type_of (type_of a))) (eval env a) (eval env b)
  | arith_ceildivsi a b =>
      lift2 (sem_ceildivsi (element_type_of (type_of a)))
            (eval env a) (eval env b)
  | arith_remsi a b =>
      lift2 (sem_remsi (element_type_of (type_of a))) (eval env a) (eval env b)
  | arith_cmpi_slt a b => lift2 sem_cmpi_slt (eval env a) (eval env b)
  | arith_andi a b =>
      lift2 (sem_andi (element_type_of (type_of a))) (eval env a) (eval env b)
  | vector_splat (VectorType [n] _) a =>
      match eval env a with
      | Some (RInt z) => Some (RVec (repeat z n))
      | _ => None
      end
  | vector_constant_mask (VectorType [n] _) [k] =>
      Some (RVec (repeat 1 (Nat.min k n) ++ repeat 0 (n - k)%nat))
  | _ => None
  end.

(** Lane [i] of a runtime value. *)
Definition lane (r : rt_value) (i : nat) : option Z :=
  match r with
  | RInt _ => None
  | RVec zs => zs !! i
  end.

(** ** Symbolic expressions (the sympy trees the compiler walks) *)

(** A symbol is a named index symbol or the lane-offset symbol produced by
    [idxc.iota n]. *)
Inductive symbol : Type :=
  | Named (name : string)
  | IOTA (n : nat).

#[global] Instance symbol_eq_dec : EqDecision symbol.
Proof. solve_decision. Defined.

Inductive expr : Type :=
  | Symbol (s : symbol)
  | Integer (z : Z)
  | Rational (p q : Z)
  | Mul (args : list expr)
  | Add (args : list expr)
  | Mod (p q : expr)
  | floor (e : expr)
  | ceiling (e : expr)
  | StrictLessThan (lhs rhs : expr)
  | And (lhs rhs : expr)
  | BooleanFalse
  | BooleanTrue
  | UnevaluatedExpr (e : expr)
  | Other (kind : string) (args : list expr).

(** [sympy.postorder_traversal]: the arguments in order, then the node. *)
Fixpoint postorder_traversal (e : expr) : list expr :=
  let fix go (l : list expr) : list expr :=
    match l with
    | [] => []
    | a :: l' => postorder_traversal a ++ go l'
    end in
  match e with
  | Symbol _ | Integer _ | Rational _ _ | BooleanFalse | BooleanTrue => [e]
  | Mul args | Add args | Other _ args => go args ++ [e]
  | Mod p q | StrictLessThan p q | And p q =>
      postorder_traversal p ++ postorder_traversal q ++ [e]
  | floor a | ceiling a | UnevaluatedExpr a => postorder_traversal a ++ [e]
  end.

(** [expr.free_symbols] *)
Fixpoint free_symbols (e : expr) : list symbol :=
  let fix go (l : list expr) : list symbol :=
    match l with
    | [] => []
    | a :: l' => free_symbols a ++ go l'
    end in
  match e with
  | Symbol s => [s]
  | Integer _ | Rational _ _ | BooleanFalse | BooleanTrue => []
  | Mul args | Add args | Other _ args => go args
  | Mod p q | StrictLessThan p q | And p q => free_symbols p ++ free_symbols q
  | floor a | ceiling a | UnevaluatedExpr a => free_symbols a
  end.

(** [expr.is_number]: no symbol occurs in the tree. *)
Definition is_number (e : expr) : bool :=
  match free_symbols e with [] => true | _ => false end.

(** [expr.subs]: replace symbols by expressions, by structure. *)
Fixpoint subs (sigma : symbol -> option expr) (e : expr) : expr :=
  match e with
  | Symbol s => match sigma s with Some r => r | None => e end
  | Integer _ | Rational _ _ | BooleanFalse | BooleanTrue => e
  | Mul args => Mul (map (subs sigma) args)
  | Add args => Add (map (subs sigma) args)
  | Other k args => Other k (map (subs sigma) args)
  | Mod p q => Mod (subs sigma p) (subs sigma q)
  | StrictLessThan p q => StrictLessThan (subs sigma p) (subs sigma q)
  | And p q => And (subs sigma p) (subs sigma q)
  | floor a => floor (subs sigma a)
  | ceiling a => ceiling (subs sigma a)
  | UnevaluatedExpr a => UnevaluatedExpr (subs sigma a)
  end.

(** A substitution given, as in Python, by a list of pairs: the first pair
    for a symbol wins. *)
Fixpoint subs_of_list (l : list (symbol * expr)) (s : symbol) : option expr :=
  match l with
  | [] => None
  | (k, v) :: l' => if decide (k = s) then Some v else subs_of_list l' s
  end.

(** ** The indexing context

    [IndexingContext] lives outside this file; the compiler uses its table
    of frozen symbols [subs], [get_val] and [iota]. *)

Inductive py_value : Type :=
  | PyInt (z : Z)
  | PyTuple (zs : list Z)
  | PyOther.

Record IndexingContext : Type := {
  idxc_subs : gmap string Z
}.

Definition idxc_sigma (idxc : IndexingContext) (s : symbol) : option expr :=
  match s with
  | Named n => Integer <$> idxc_subs idxc !! n
  | IOTA _ => None
  end.

(** [subs_idxc] of wave/utils.py: substitute the frozen symbols. *)
Definition subs_idxc (idxc : IndexingContext) (e : expr) : expr :=
  subs (idxc_sigma idxc) e.

(** Modelled from the spec: [idxc.iota k] is missing from the sources; it
    is the symbol standing for the lane offsets [0..k), whose compile-time
    value is the tuple (0, ..., k-1). *)
Definition iota (k : nat) : expr := Symbol (IOTA k).

Definition lane_offsets (k : nat) : list Z := map Z.of_nat (seq 0 k).

Definition get_val (idxc : IndexingContext) (s : symbol) : option py_value :=
  match s with
  | Named n => PyInt <$> idxc_subs idxc !! n
  | IOTA k => Some (PyTuple (lane_offsets k))
  end.

(** ** The symbolic index compiler: [gen_sympy_index] *)

(** An operand on the compiler's stack: a concrete value or a deferred
    rational ([_Rational(numerator, denominator)]). *)
Inductive stack_item : Type :=
  | Val (v : ir_value)
  | _Rational (numerator denominator : ir_value).

Definition _check_vec_scalar (a b : ir_value) : bool :=
  match type_of a with
  | VectorType _ et => bool_decide (Scalar et = type_of b)
  | _ => false
  end.

Definition _broadcast (a b : ir_value) : result (ir_value * ir_value) :=
  if decide (type_of a = type_of b) then Ok (a, b)
  else if _check_vec_scalar a b then Ok (a, vector_splat (type_of a) b)
  else if _check_vec_scalar b a then Ok (vector_splat (type_of b) a, b)
  else Raise (CodegenError "Cannot broadcast").

Definition get_const_val (arg : ir_value) : option Z :=
  match arg with
  | arith_constant _ value => Some value
  | _ => None
  end.

Definition muli_fold (lhs rhs : ir_value) : ir_value :=
  if decide (get_const_val lhs = Some 1) then rhs
  else if decide (get_const_val rhs = Some 1) then lhs
  else arith_muli lhs rhs.

(** The pattern [op( *_broadcast(a, b))] of the source. *)
Definition broadcast_then (op : ir_value -> ir_value -> ir_value)
    (a b : ir_value) : result ir_value :=
  '(a', b') ← _broadcast a b; Ok (op a' b').

(** [x + (a/b)] becomes [(x*b + a) / b]. *)
Definition _add (lhs rhs : stack_item) : result stack_item :=
  match lhs, rhs with
  | _Rational ln ld, Val r =>
      numerator ← broadcast_then muli_fold ld r;
      numerator ← broadcast_then arith_addi numerator ln;
      Ok (_Rational numerator ld)
  | Val l, _Rational rn rd =>
      numerator ← broadcast_then muli_fold l rd;
      numerator ← broadcast_then arith_addi numerator rn;
      Ok (_Rational numerator rd)
  | _Rational ln ld, _Rational rn rd =>
      lhs_numerator ← broadcast_then muli_fold ln rd;
      rhs_numerator ← broadcast_then muli_fold rn ld;
      numerator ← broadcast_then arith_addi lhs_numerator rhs_numerator;
      denominator ← broadcast_then muli_fold ld rd;
      Ok (_Rational numerator denominator)
  | Val l, Val r => Val <$> broadcast_then arith_addi l r
  end.

(** [x * (a/b)] becomes [(x * a) / b]. *)
Definition _mul (lhs rhs : stack_item) : result stack_item :=
  match lhs, rhs with
  | _Rational ln ld, Val r =>
      numerator ← broadcast_then muli_fold ln r;
      Ok (_Rational numerator ld)
  | Val l, _Rational rn rd =>
      numerator ← broadcast_then muli_fold l rn;
      Ok (_Rational numerator rd)
  | _Rational ln ld, _Rational rn rd =>
      numerator ← broadcast_then muli_fold ln rn;
      denominator ← broadcast_then muli_fold ld rd;
      Ok (_Rational numerator denominator)
  | Val l, Val r => Val <$> broadcast_then muli_fold l r
  end.

Definition _floor (value : stack_item) : result stack_item :=
  match value with
  | _Rational n d => Val <$> broadcast_then arith_divsi n d
  | Val _ => Ok value
  end.

Definition _ceiling (value : stack_item) : result stack_item :=
  match value with
  | _Rational n d => Val <$> broadcast_then arith_ceildivsi n d
  | Val _ => Ok value
  end.

Definition is_rational (it : stack_item) : bool :=
  match it with _Rational _ _ => true | Val _ => false end.

(** [stack.pop()] : the stack is a list whose head is the top. *)
Definition pop (stack : list stack_item)
  : result (stack_item * list stack_item) :=
  match stack with
  | top :: rest => Ok (top, rest)
  | [] => Raise (IndexError "pop from empty list")
  end.

(** [terms.append((arg, stack.pop()))] for every argument, in order. *)
Fixpoint pop_terms (args : list expr) (stack : list stack_item)
  : result (list (expr * stack_item) * list stack_item) :=
  match args with
  | [] => Ok ([], stack)
  | arg :: args' =>
      '(top, stack') ← pop stack;
      '(terms, stack'') ← pop_terms args' stack';
      Ok ((arg, top) :: terms, stack'')
  end.

(** The sort key of [_group_rationals]: how many induction variables the
    argument uses. *)
Definition _key (induction_var_syms : list string) (arg : expr * stack_item)
  : nat :=
  length (filter (fun sym => bool_decide (Named sym ∈ free_symbols arg.1))
                 induction_var_syms).

(** [terms.sort(key=_key, reverse=True)]: stable, largest key first. *)
Fixpoint insert_by_key {A} (key : A -> nat) (x : A) (l : list A) : list A :=
  match l with
  | [] => [x]
  | y :: l' =>
      if (key y <=? key x)%nat then x :: y :: l'
      else y :: insert_by_key key x l'
  end.

Definition sort_by_key_reverse {A} (key : A -> nat) (l : list A) : list A :=
  foldr (insert_by_key key) [] l.

(** The second half of [_group_rationals]: sort the terms when there are
    induction variables, then the non-rationals before the rationals. *)
Definition arrange_terms (induction_var_syms : list string)
    (terms : list (expr * stack_item)) : list stack_item :=
  let terms :=
    if (0 <? length induction_var_syms)%nat
    then sort_by_key_reverse (_key induction_var_syms) terms
    else terms in
  let vals := map snd terms in
  let rationals := filter (fun v => is_rational v = true) vals in
  let non_rationals := filter (fun v => is_rational v = false) vals in
  non_rationals ++ rationals.

Definition _group_rationals (induction_var_syms : list string)
    (stack : list stack_item) (args : list expr)
  : result (list stack_item * list stack_item) :=
  '(terms, stack') ← pop_terms args stack;
  Ok (arrange_terms induction_var_syms terms, stack').

Fixpoint fold_apply (func : stack_item -> stack_item -> result stack_item)
    (value : stack_item) (rest : list stack_item) : result stack_item :=
  match rest with
  | [] => Ok value
  | val :: rest' => value' ← func value val; fold_apply func value' rest'
  end.

Definition _apply (args : list stack_item)
    (func : stack_item -> stack_item -> result stack_item)
  : result stack_item :=
  match args with
  | [] => Raise (AssertionError "len(args) > 0")
  | value :: rest => fold_apply func value rest
  end.

Definition _enforce_non_rational (val : stack_item) : result ir_value :=
  match val with
  | _Rational _ _ => Raise (CodegenError "Rational is not supported yet")
  | Val v => Ok v
  end.

Definition _get_const (val : py_value) : result ir_value :=
  match val with
  | PyInt z => Ok (arith_constant (Scalar IndexType) z)
  | PyTuple zs =>
      Ok (arith_constant_dense (VectorType [length zs] IndexType) zs)
  | PyOther => Raise (CodegenError "Unsupported const val")
  end.

(** Sequencing a list of fallible computations, left to right. *)
Fixpoint mapM {A B} (f : A -> result B) (l : list A) : result (list B) :=
  match l with
  | [] => Ok []
  | a :: l' => b ← f a; bs ← mapM f l'; Ok (b :: bs)
  end.

(** The final check of [gen_sympy_index]: a single value that is not a
    rational. *)
Definition concrete (it : stack_item) : result ir_value :=
  match it with
  | Val v => Ok v
  | _Rational _ _ => Raise (CodegenError "Expected single result")
  end.

Section GenSympyIndex.

Context (idxc : IndexingContext).
Context (dynamics : gmap string ir_value).
Context (induction_var_syms : list string).

Definition lookup_dynamics (s : symbol) : option ir_value :=
  match s with
  | Named n => dynamics !! n
  | IOTA _ => None
  end.

(** Two operands popped, both required concrete, then one operation. *)
Definition binary_concrete (op : ir_value -> ir_value -> ir_value)
    (stack : list stack_item) : result (list stack_item) :=
  '(rhs, stack) ← pop stack;
  '(lhs, stack) ← pop stack;
  rhs ← _enforce_non_rational rhs;
  lhs ← _enforce_non_rational lhs;
  res ← broadcast_then op lhs rhs;
  Ok (Val res :: stack).

(** One iteration of the loop over the post-order traversal. *)
Definition visit (stack : list stack_item) (term : expr)
  : result (list stack_item) :=
  match term with
  | Symbol s =>
      match get_val idxc s with
      | Some res => c ← _get_const res; Ok (Val c :: stack)
      | None =>
          match lookup_dynamics s with
          | Some v => Ok (Val v :: stack)
          | None => Raise (CodegenError "Unknown symbol")
          end
      end
  | Integer z => c ← _get_const (PyInt z); Ok (Val c :: stack)
  | Mul args =>
      '(args, stack) ← _group_rationals induction_var_syms stack args;
      r ← _apply args _mul; Ok (r :: stack)
  | Add args =>
      '(args, stack) ← _group_rationals induction_var_syms stack args;
      r ← _apply args _add; Ok (r :: stack)
  | Mod _ _ => binary_concrete arith_remsi stack
  | floor _ =>
      '(top, stack) ← pop stack; r ← _floor top; Ok (r :: stack)
  | ceiling _ =>
      '(top, stack) ← pop stack; r ← _ceiling top; Ok (r :: stack)
  | Rational p q =>
      numerator ← _get_const (PyInt p);
      denominator ← _get_const (PyInt q);
      Ok (_Rational numerator denominator :: stack)
  | StrictLessThan _ _ => binary_concrete arith_cmpi_slt stack
  | And _ _ => binary_concrete arith_andi stack
  | BooleanFalse => Ok (Val (arith_constant (Scalar i1) 0) :: stack)
  | BooleanTrue => Ok (Val (arith_constant (Scalar i1) 1) :: stack)
  | UnevaluatedExpr _ => Ok stack
  | Other _ _ => Raise (CodegenError "Can not handle")
  end.

Fixpoint run (terms : list expr) (stack : list stack_item)
  : result (list stack_item) :=
  match terms with
  | [] => Ok stack
  | term :: terms' => stack' ← visit stack term; run terms' stack'
  end.

Definition gen_sympy_index (e : expr) : result ir_value :=
  let e := subs (idxc_sigma idxc) e in
  stack ← run (postorder_traversal e) [];
  match stack with
  | [Val v] => Ok v
  | _ => Raise (CodegenError "Expected single result")
  end.

(** [gen_sympy_index] on one [And] node with the arguments [args], of any
    number: sympy keeps a conjunction of conjunctions as a single node with
    all the predicates as its arguments ([And] above is such a node with
    two).  The traversal visits the arguments in order and then the node,
    for which the [And] case pops two operands whatever their number. *)
Definition gen_sympy_index_And (args : list expr) : result ir_value :=
  let args := map (subs (idxc_sigma idxc)) args in
  stack ← run (flat_map postorder_traversal args) [];
  stack ← binary_concrete arith_andi stack;
  match stack with
  | [Val v] => Ok v
  | _ => Raise (CodegenError "Expected single result")
  end.

(** The same lowering by recursion on the tree instead of a stack: what
    the loop leaves on the stack for one expression.  [run_lower] below
    proves that the stack loop computes exactly this. *)
Definition lower_binary (op : ir_value -> ir_value -> ir_value)
    (lhs rhs : stack_item) : result stack_item :=
  rhs ← _enforce_non_rational rhs;
  lhs ← _enforce_non_rational lhs;
  Val <$> broadcast_then op lhs rhs.

Fixpoint lower (e : expr) : result stack_item :=
  let fix lower_args (l : list expr) : result (list stack_item) :=
    match l with
    | [] => Ok []
    | a :: l' => v ← lower a; vs ← lower_args l'; Ok (v :: vs)
    end in
  match e with
  | Symbol s =>
      match get_val idxc s with
      | Some res => Val <$> _get_const res
      | None =>
          match lookup_dynamics s with
          | Some v => Ok (Val v)
          | None => Raise (CodegenError "Unknown symbol")
          end
      end
  | Integer z => Val <$> _get_const (PyInt z)
  | Rational p q =>
      numerator ← _get_const (PyInt p);
      denominator ← _get_const (PyInt q);
      Ok (_Rational numerator denominator)
  | Mul args =>
      vs ← lower_args args;
      _apply (arrange_terms induction_var_syms (zip args (reverse vs))) _mul
  | Add args =>
      vs ← lower_args args;
      _apply (arrange_terms induction_var_syms (zip args (reverse vs))) _add
  | Mod p q => l ← lower p; r ← lower q; lower_binary arith_remsi l r
  | floor a => v ← lower a; _floor v
  | ceiling a => v ← lower a; _ceiling v
  | StrictLessThan p q =>
      l ← lower p; r ← lower q; lower_binary arith_cmpi_slt l r
  | And p q => l ← lower p; r ← lower q; lower_binary arith_andi l r
  | BooleanFalse => Ok (Val (arith_constant (Scalar i1) 0))
  | BooleanTrue => Ok (Val (arith_constant (Scalar i1) 1))
  | UnevaluatedExpr a => lower a
  | Other _ args => _ ← lower_args args; Raise (CodegenError "Can not handle")
  end.

Definition lower_args (l : list expr) : result (list stack_item) :=
  mapM lower l.

End GenSympyIndex.

(** ** Index sequences, index mappings, constraints *)

(** [IndexSequence(start, size, stride)] *)
Record IndexSequence : Type := {
  start : expr;
  size : expr;
  stride : expr
}.

(** An entry of a node's index: an [IndexSequence] or a plain [IndexExpr]. *)
Inductive index_entry : Type :=
  | IdxSeq (s : IndexSequence)
  | IdxExpr (e : expr).

(** A node's index, a Python dict in insertion order: dimension -> entry. *)
Definition index_dict : Type := list (string * index_entry).

(** Modelled from the spec: [IndexMapping] (lang/wave_types.py) is missing
    from the sources.  It has its iterators, per-axis input and output
    expressions, and an identity predicate per side; a side is identity
    when its expressions are the iterators, one to one and in order, with
    no permutation or computed remap. *)
Record IndexMapping : Type := {
  iters : list symbol;
  input_mapping : list (string * expr);
  output_mapping : list (string * expr)
}.

Definition input_shape (m : IndexMapping) : list string :=
  map fst (input_mapping m).
Definition output_shape (m : IndexMapping) : list string :=
  map fst (output_mapping m).

(** [it != val] fails for every pair of [zip(iters, values)]. *)
Fixpoint is_passthrough (its : list symbol) (vals : list expr) : bool :=
  match its, vals with
  | [], [] => true
  | it :: its', Symbol s :: vals' =>
      bool_decide (it = s) && is_passthrough its' vals'
  | _, _ => false
  end.

Definition is_input_identity (m : IndexMapping) : bool :=
  is_passthrough (iters m) (map snd (input_mapping m)).
Definition is_output_identity (m : IndexMapping) : bool :=
  is_passthrough (iters m) (map snd (output_mapping m)).
Definition is_identity (m : IndexMapping) : bool :=
  is_input_identity m && is_output_identity m.

(** [tuple(mapping[sym] for sym in symbols)] *)
Fixpoint _map_indices (mapping : list (string * expr)) (symbols : list string)
  : result (list expr) :=
  match symbols with
  | [] => Ok []
  | sym :: symbols' =>
      match list_find (fun kv => kv.1 = sym) mapping with
      | Some (_, (_, e)) => es ← _map_indices mapping symbols'; Ok (e :: es)
      | None => Raise (KeyError "mapping")
      end
  end.

Definition map_input_indices (m : IndexMapping) (symbols : list string)
  : result (list expr) := _map_indices (input_mapping m) symbols.
Definition map_output_indices (m : IndexMapping) (symbols : list string)
  : result (list expr) := _map_indices (output_mapping m) symbols.

(** The constraints the emitter inspects (wave/constraints.py is outside
    the sources): the tile shape of a hardware constraint and the
    dimension and induction variable of a tiling constraint. *)
Inductive Constraint : Type :=
  | HardwareConstraint (mma_matrix_shapes : Z * Z * Z)
  | WorkgroupConstraint (dim : string)
  | WaveConstraint (dim : string)
  | TilingConstraint (dim : string) (induction_var : string).

Inductive address_space : Type :=
  | GLOBAL_ADDRESS_SPACE
  | SHARED_ADDRESS_SPACE.

#[global] Instance address_space_eq_dec : EqDecision address_space.
Proof. solve_decision. Defined.

(** ** Graph nodes *)

(** A reference to another node as an operand: the node's identity and
    the symbolic shape of its type ([get_custom(node).type.symbolic_shape]). *)
Record node_ref : Type := {
  ref_name : nat;
  ref_symbolic_shape : list string
}.

(** An operand of a node. *)
Inductive py_arg : Type :=
  | ArgNode (n : node_ref)
  | ArgInt (z : Z)
  | ArgNone
  | ArgExpr (e : expr)
  | ArgMapping (m : IndexMapping)
  | ArgStr (s : string)
  | ArgSeq (l : list py_arg).

Record node_info : Type := {
  node_name : nat;                       (* identity of the fx.Node *)
  node_op : string;                      (* node.op *)
  tkw_op_name : string;
  node_args : list py_arg;
  node_index : option index_dict;        (* None: no index attribute *)
  node_count : option Z;                 (* node.count *)
  memory_type_address_space : address_space;
  is_iter_arg : bool                     (* placeholder tagged IterArg *)
}.

(** A node with the subgraph it owns ([trace.get_subgraph], resolved);
    only reduction nodes own one. *)
Inductive fx_node : Type :=
  | FxNode (info : node_info) (subgraph : list fx_node).

Definition info_of (n : fx_node) : node_info :=
  match n with FxNode i _ => i end.
Definition subgraph_of (n : fx_node) : list fx_node :=
  match n with FxNode _ g => g end.

(** ** Instructions kept in emission order *)

Inductive operation : Type :=
  | vector_load (id : nat) (result_type : ir_type) (base : ir_value)
      (indices : list ir_value)
  | vector_maskedload (id : nat) (result_type : ir_type) (base : ir_value)
      (indices : list ir_value) (mask passthru : ir_value)
  | vector_gather (id : nat) (result_type : ir_type) (base : ir_value)
      (indices : list ir_value) (index_vec mask passthru : ir_value)
  | vector_store (value base : ir_value) (indices : list ir_value)
  | vector_maskedstore (base : ir_value) (indices : list ir_value)
      (mask value : ir_value)
  | vector_scatter (base : ir_value) (indices : list ir_value)
      (index_vec mask value : ir_value)
  | scf_for (id : nat) (lower_bound upper_bound step : ir_value)
      (init_args : list ir_value) (body : list operation)
      (yielded : list ir_value)
  | other_operation (name : string) (operands : list ir_value).

(** ** The emitter *)

(** The attributes of one [WaveEmitter] instance. [ip_ops] is what has been
    inserted at the instance's insertion point, oldest first. *)
Record WaveEmitter : Type := {
  constraints : list Constraint;
  dynamic_symbols : list string;
  entry_block_arguments : list ir_value;
  resolve_by_reference : nat -> result ir_value;
  workgroup_ids : list ir_value;
  thread_ids : list ir_value;
  induction_vars : gmap string ir_value;
  dynamic_dims : gmap string ir_value;
  ip_ops : list operation
}.

(** What a handler sees: the instance [self], the class attribute
    [WaveEmitter._node_values] (a [ClassVar]: one dict object for the
    class, reached through every instance) and, of the IR context, the
    counter that names the operations with results created so far and the
    results of each. *)
Record state : Type := {
  _node_values : gmap nat (list ir_value);
  self : WaveEmitter;
  next_op : nat;
  op_results : gmap nat (list ir_value)   (* results of the created ops *)
}.

Definition set_node_values (nv : gmap nat (list ir_value)) (st : state)
  : state :=
  {| _node_values := nv; self := self st; next_op := next_op st;
     op_results := op_results st |}.

Definition set_self (e : WaveEmitter) (st : state) : state :=
  {| _node_values := _node_values st; self := e; next_op := next_op st;
     op_results := op_results st |}.

Definition set_ip_ops (ops : list operation) (e : WaveEmitter) : WaveEmitter :=
  {| constraints := constraints e;
     dynamic_symbols := dynamic_symbols e;
     entry_block_arguments := entry_block_arguments e;
     resolve_by_reference := resolve_by_reference e;
     workgroup_ids := workgroup_ids e;
     thread_ids := thread_ids e;
     induction_vars := induction_vars e;
     dynamic_dims := dynamic_dims e;
     ip_ops := ops |}.

Definition set_induction_vars (iv : gmap string ir_value) (e : WaveEmitter)
  : WaveEmitter :=
  {| constraints := constraints e;
     dynamic_symbols := dynamic_symbols e;
     entry_block_arguments := entry_block_arguments e;
     resolve_by_reference := resolve_by_reference e;
     workgroup_ids := workgroup_ids e;
     thread_ids := thread_ids e;
     induction_vars := iv;
     dynamic_dims := dynamic_dims e;
     ip_ops := ip_ops e |}.

(** Insert an operation at the insertion point. *)
Definition insert_op (op : operation) (st : state) : state :=
  set_self (set_ip_ops (ip_ops (self st) ++ [op]) (self st)) st.

(** The results of a new operation [id] with the given result types. *)
Definition results_of_types (id : nat) (tys : list ir_type) : list ir_value :=
  imap (fun i ty => OpResult id i ty) tys.

(** Create an operation with results: its identity is the next free one. *)
Definition create_op (result_types : list ir_type) (st : state)
  : nat * state :=
  (next_op st,
   {| _node_values := _node_values st; self := self st;
      next_op := S (next_op st);
      op_results := <[next_op st := results_of_types (next_op st)
                                      result_types]> (op_results st) |}).

(** [WaveEmitter.lookup_node_values] *)
Definition lookup_node_values (st : state) (node : nat)
  : result (list ir_value * state) :=
  match _node_values st !! node with
  | Some values => Ok (values, st)
  | None =>
      v ← resolve_by_reference (self st) node;
      Ok ([v], set_node_values (<[node := [v]]> (_node_values st)) st)
  end.

(** [WaveEmitter.bind_node_proxy] *)
Definition bind_node_proxy (st : state) (node : nat) (proxy : ir_value)
  : state :=
  set_node_values (<[node := [proxy]]> (_node_values st)) st.

(** [WaveEmitter.bind_node_proxies] *)
Definition bind_node_proxies (st : state) (node : nat)
    (proxies : list ir_value) : state :=
  set_node_values (<[node := proxies]> (_node_values st)) st.

(** The loop of [emit_program_invariants] over the entry block arguments:
    every argument of type index takes the next dynamic symbol. *)
Fixpoint bind_dynamic_dims (args : list ir_value) (symbols : list string)
    (dims : gmap string ir_value) : result (gmap string ir_value) :=
  match args with
  | [] => Ok dims
  | arg :: args' =>
      if decide (type_of arg = Scalar IndexType) then
        match symbols with
        | [] => Raise StopIteration
        | sym :: symbols' =>
            bind_dynamic_dims args' symbols' (<[sym := arg]> dims)
        end
      else bind_dynamic_dims args' symbols dims
  end.

(** [WaveEmitter.emit_program_invariants] *)
Definition emit_program_invariants (st : state) : result state :=
  let e := self st in
  dims ← bind_dynamic_dims (entry_block_arguments e) (dynamic_symbols e) ∅;
  Ok (set_self
        {| constraints := constraints e;
           dynamic_symbols := dynamic_symbols e;
           entry_block_arguments := entry_block_arguments e;
           resolve_by_reference := resolve_by_reference e;
           workgroup_ids := [stream_dispatch_workgroup_id 0;
                             stream_dispatch_workgroup_id 1;
                             stream_dispatch_workgroup_id 2];
           thread_ids := [gpu_thread_id 0; gpu_thread_id 1; gpu_thread_id 2];
           induction_vars := ∅;
           dynamic_dims := dims;
           ip_ops := ip_ops e |} st).

(** [get_induction_vars] *)
Fixpoint tiling_induction_vars (cs : list Constraint)
    (ivs : gmap string ir_value) : result (list string * list ir_value) :=
  match cs with
  | [] => Ok ([], [])
  | TilingConstraint dim induction_var :: cs' =>
      match ivs !! dim with
      | None => Raise (AssertionError "Could not find induction var")
      | Some v =>
          '(syms, vars) ← tiling_induction_vars cs' ivs;
          Ok (induction_var :: syms, v :: vars)
      end
  | _ :: cs' => tiling_induction_vars cs' ivs
  end.

Definition get_induction_vars (emitter : WaveEmitter)
  : result (list string * list ir_value) :=
  if decide (induction_vars emitter = ∅) then Ok ([], [])
  else tiling_induction_vars (constraints emitter) (induction_vars emitter).

(** The names of lang/global_symbols.py (outside the sources); only that
    they are six distinct symbols matters. *)
Definition THREAD_0 : string := "$T0".
Definition THREAD_1 : string := "$T1".
Definition THREAD_2 : string := "$T2".
Definition WORKGROUP_0 : string := "$WG0".
Definition WORKGROUP_1 : string := "$WG1".
Definition WORKGROUP_2 : string := "$WG2".

(** [dict(zip(keys, values))]: a later pair replaces an earlier one. *)
Definition dict_of_zip (keys : list string) (values : list ir_value)
  : gmap string ir_value :=
  foldl (fun m kv => <[kv.1 := kv.2]> m) ∅ (zip keys values).

(** [get_emitter_subs] *)
Definition get_emitter_subs (emitter : WaveEmitter)
  : result (gmap string ir_value) :=
  '(induction_var_syms, induction_vars) ← get_induction_vars emitter;
  let all_symbols :=
    thread_ids emitter ++ workgroup_ids emitter ++ induction_vars in
  let dynamics :=
    dict_of_zip
      ([THREAD_0; THREAD_1; THREAD_2; WORKGROUP_0; WORKGROUP_1; WORKGROUP_2]
       ++ induction_var_syms) all_symbols in
  (* dynamics.update(emitter.dynamic_dims) *)
  Ok (dynamic_dims emitter ∪ dynamics).

(** [_gen_sympy_index_full] *)
Definition _gen_sympy_index_full (idxc : IndexingContext)
    (emitter : WaveEmitter) (e : expr) : result ir_value :=
  subs ← get_emitter_subs emitter;
  '(induction_var_syms, _) ← get_induction_vars emitter;
  gen_sympy_index idxc subs induction_var_syms e.

(** [get_constant_attr] followed by [arith.ConstantOp]: a constant of the
    element type. *)
Definition get_constant (value : Z) (element_type : scalar_type)
  : ir_value :=
  if _is_integer_like_type element_type
  then arith_constant (Scalar element_type) value
  else arith_constant_float (Scalar element_type) value.

(** ** Exact value of a symbolic expression

    What a sympy tree denotes over the rationals, for a valuation of its
    symbols; the value of an [iota] symbol is the lane offset it stands
    for on the lane considered. *)

Definition valuation : Type := symbol -> Qc.

Definition Z2Qc (z : Z) : Qc := Q2Qc (inject_Z z).

Definition Qc_floor (q : Qc) : Z := Qfloor (this q).
Definition Qc_ceiling (q : Qc) : Z := Qceiling (this q).

Fixpoint sym_eval (rho : valuation) (e : expr) : Qc :=
  let fix sum (l : list expr) : Qc :=
    match l with
    | [] => Z2Qc 0
    | a :: l' => (sym_eval rho a + sum l')%Qc
    end in
  let fix prod (l : list expr) : Qc :=
    match l with
    | [] => Z2Qc 1
    | a :: l' => (sym_eval rho a * prod l')%Qc
    end in
  match e with
  | Symbol s => rho s
  | Integer z => Z2Qc z
  | Rational p q => (Z2Qc p / Z2Qc q)%Qc
  | Mul args => prod args
  | Add args => sum args
  | Mod p q =>
      let x := sym_eval rho p in
      let y := sym_eval rho q in
      (x - y * Z2Qc (Qc_floor (x / y)))%Qc
  | floor a => Z2Qc (Qc_floor (sym_eval rho a))
  | ceiling a => Z2Qc (Qc_ceiling (sym_eval rho a))
  | StrictLessThan a b =>
      if Qclt_le_dec (sym_eval rho a) (sym_eval rho b) then Z2Qc 1 else Z2Qc 0
  | And a b => (sym_eval rho a * sym_eval rho b)%Qc
  | BooleanFalse => Z2Qc 0
  | BooleanTrue => Z2Qc 1
  | UnevaluatedExpr a => sym_eval rho a
  | Other _ _ => Z2Qc 0
  end.

(** [int(offset)] for a number: truncation toward zero. *)
Definition py_int (e : expr) : Z :=
  let q := sym_eval (fun _ => Z2Qc 0) e in
  Z.quot (Qnum (this q)) (Z.pos (Qden (this q))).

(** Python's arithmetic on sympy expressions, as tree constructors. *)
Definition py_add (a b : expr) : expr := Add [a; b].
Definition py_mul (a b : expr) : expr := Mul [a; b].
Definition py_sub (a b : expr) : expr := Add [a; Mul [Integer (-1); b]].
Definition py_lt (a b : expr) : expr := StrictLessThan a b.

(** [expr.subs(list of pairs)]: the pairs are applied one after the other. *)
Definition subs_pairs (l : list (symbol * expr)) (e : expr) : expr :=
  foldl (fun e kv => subs (fun s => if decide (kv.1 = s) then Some kv.2
                                    else None) e) e l.

(** ** The memory access synthesizer *)

Definition _get_start_index (i : index_entry) : expr :=
  match i with
  | IdxSeq s => start s
  | IdxExpr e => e
  end.

Definition _get_start_indices (src_indices : index_dict) : list expr :=
  map (fun kv => _get_start_index kv.2) src_indices.

(** [sum(i * s for i, s in zip(indices, strides))] *)
Definition _compute_offset (indices strides : list expr) : expr :=
  foldl py_add (Integer 0) (zip_with py_mul indices strides).

Definition _is_identity_mapping (mapping : IndexMapping)
    (input_shape_ output_shape_ : option (list string)) : bool :=
  if negb (is_identity mapping) then false
  else if match input_shape_ with
          | Some sh => bool_decide (input_shape mapping ≠ sh)
          | None => false
          end then false
  else if match output_shape_ with
          | Some sh => bool_decide (output_shape mapping ≠ sh)
          | None => false
          end then false
  else true.

(** [subs[-1] = (subs[-1][0], v)] *)
Definition replace_last_value (l : list (symbol * expr)) (v : expr)
  : result (list (symbol * expr)) :=
  match reverse l with
  | [] => Raise (IndexError "list index out of range")
  | (k, _) :: rest => Ok (reverse rest ++ [(k, v)])
  end.

(** [l[-1]] *)
Definition py_last {A} (l : list A) : result A :=
  match last l with
  | Some a => Ok a
  | None => Raise (IndexError "list index out of range")
  end.

(** [isinstance(offsets_vec, VectorType)] where [offsets_vec] is a value:
    a value is never an instance of a type class. *)
Definition isinstance_VectorType (v : ir_value) : bool := false.

(** The values [_construct_gather_scatter_indices] holds when it reaches its
    loop over the lanes. *)
Record gs_setup : Type := {
  gs_index_mapping : list expr;
  gs_iters : list symbol;
  gs_result_index : index_dict;
  gs_strides : list expr;
  gs_start_indices_orig : list expr;
  gs_start_indices_offset : expr
}.

Section MemoryAccess.

Context (idxc : IndexingContext).
(** [find_index_bounds] and [strides_from_symbolic_shape] are utilities
    outside the sources: the bounded dimensions of an index (or None), and
    the strides of a symbolic shape. *)
Context (find_index_bounds :
           list Constraint -> index_dict -> option (list string)).
Context (strides_from_symbolic_shape :
           IndexingContext -> list string -> list expr).

Definition _build_start_indices (emitter : WaveEmitter)
    (src_indices : index_dict) : result (list ir_value) :=
  mapM (_gen_sympy_index_full idxc emitter) (_get_start_indices src_indices).

(** [new_index[dim]] *)
Definition dict_get (d : list (string * expr)) (k : string) : result expr :=
  match list_find (fun kv => kv.1 = k) d with
  | Some (_, (_, e)) => Ok e
  | None => Raise (KeyError k)
  end.

(** The predicates [_build_mask] reduces, [new_index[dim] < dim] for every
    bounded dimension, in the order of [bounds]. *)
Definition mask_preds (index : index_dict) (elements_per_thread : nat)
    (bounds : list string) : result (list expr) :=
  last_dim ← py_last (map fst index);
  let new_index := map (fun kv => (kv.1, _get_start_index kv.2)) index in
  let new_index :=
    map (fun kv => if decide (kv.1 = last_dim)
                   then (kv.1, py_add kv.2 (iota elements_per_thread))
                   else kv) new_index in
  mapM (fun dim => e ← dict_get new_index dim;
                   Ok (py_lt e (Symbol (Named dim)))) bounds.

(** [_gen_sympy_index_full] on
    [functools.reduce(lambda a, b: sympy.And(a, b), preds)].  An empty
    sequence cannot be reduced; the reduction of one predicate is the
    predicate; that of two or more is one [And] node with all of them as
    arguments, since sympy's And flattens a nested conjunction. *)
Definition gen_mask_expr (emitter : WaveEmitter) (preds : list expr)
  : result ir_value :=
  match preds with
  | [] => Raise (TypeError "reduce() of empty iterable")
  | [p] => _gen_sympy_index_full idxc emitter p
  | _ =>
      subs ← get_emitter_subs emitter;
      '(induction_var_syms, _) ← get_induction_vars emitter;
      gen_sympy_index_And idxc subs induction_var_syms preds
  end.

Definition _build_mask (emitter : WaveEmitter) (index : index_dict)
    (elements_per_thread : nat) : result (option ir_value) :=
  match find_index_bounds (constraints emitter) index with
  | None => Ok None
  | Some bounds =>
      preds ← mask_preds index elements_per_thread bounds;
      mask ← gen_mask_expr emitter preds;
      let mask_vec_type := VectorType [elements_per_thread] i1 in
      if decide (type_of mask ≠ mask_vec_type)
      then Ok (Some (vector_splat mask_vec_type mask))
      else Ok (Some mask)
  end.

(** [expr.start] of an index entry: only an [IndexSequence] has it. *)
Definition entry_start (i : index_entry) : result expr :=
  match i with
  | IdxSeq s => Ok (start s)
  | IdxExpr _ => Raise (AttributeError "start")
  end.

(** [[(sym, expr.start) for sym, expr in zip(iters.keys(), index.values())]] *)
Fixpoint zip_starts (its : list symbol) (index : index_dict)
  : result (list (symbol * expr)) :=
  match its, index with
  | it :: its', (_, entry) :: index' =>
      s ← entry_start entry;
      rest ← zip_starts its' index';
      Ok ((it, s) :: rest)
  | _, _ => Ok []
  end.

(** [list(idxc.subs.items())] *)
Definition idxc_items : list (symbol * expr) :=
  map (fun kv => (Named kv.1, Integer kv.2)) (map_to_list (idxc_subs idxc)).

(** The offset of one lane on the constant path: the body of the loop
    over [range(elements_per_thread)], up to [subs_idxc]. *)
Definition lane_offset_expr (index_mapping : list expr)
    (its : list symbol) (start_indices_orig strides : list expr)
    (start_indices_offset : expr) (thread_offset : Z) (i : nat)
  : result expr :=
  let subs0 := zip its start_indices_orig in
  last_start ← py_last start_indices_orig;
  subs1 ← replace_last_value subs0
            (py_add (py_add last_start (Integer (Z.of_nat i)))
                    (Integer thread_offset));
  let indices := map (subs_pairs subs1) index_mapping in
  let offset := py_sub (_compute_offset indices strides)
                       start_indices_offset in
  Ok (subs_idxc idxc offset).

(** The loop: the constant offsets found so far and [need_dynamic_offsets]. *)
Fixpoint constant_offsets (lane_expr : nat -> result expr)
    (lanes : list nat) : result (list Z * bool) :=
  match lanes with
  | [] => Ok ([], false)
  | i :: lanes' =>
      offset ← lane_expr i;
      if is_number offset then
        '(offsets, need_dynamic_offsets) ← constant_offsets lane_expr lanes';
        Ok (py_int offset :: offsets, need_dynamic_offsets)
      else Ok ([], true)
  end.

(** The offset expression of the general path, over the [iota] symbol. *)
Definition general_offset_expr (index_mapping : list expr)
    (its : list symbol) (start_indices_orig strides : list expr)
    (elements_per_thread : nat) (thread_offset : Z) : result expr :=
  let subs0 := zip its start_indices_orig in
  last_start ← py_last start_indices_orig;
  let off := py_add (py_add last_start (iota elements_per_thread))
                    (Integer thread_offset) in
  subs1 ← replace_last_value subs0 off;
  let indices := map (subs_pairs subs1) index_mapping in
  Ok (_compute_offset indices strides).

(** The [if need_dynamic_offsets or True:] branch. *)
Definition general_path (emitter : WaveEmitter) (symbolc_shape : list string)
    (index_mapping : list expr) (its : list symbol)
    (start_indices_orig strides : list expr)
    (elements_per_thread : nat) (thread_offset : Z)
  : result (list ir_value * ir_value) :=
  let offsets_vec_type := VectorType [elements_per_thread] IndexType in
  let result_index := map (fun key => (key, IdxExpr (Integer 0)))
                          symbolc_shape in
  start_indices ← _build_start_indices emitter result_index;
  e ← general_offset_expr index_mapping its start_indices_orig strides
        elements_per_thread thread_offset;
  offsets_vec ← _gen_sympy_index_full idxc emitter e;
  let offsets_vec :=
    if negb (isinstance_VectorType offsets_vec)
    then vector_splat offsets_vec_type offsets_vec
    else offsets_vec in
  Ok (start_indices, offsets_vec).

(** The [else:] branch: the offsets as one constant vector. *)
Definition constant_path (emitter : WaveEmitter) (result_index : index_dict)
    (offsets : list Z) (elements_per_thread : nat)
  : result (list ir_value * ir_value) :=
  let offsets_vec_type := VectorType [elements_per_thread] IndexType in
  start_indices ← _build_start_indices emitter result_index;
  Ok (start_indices, arith_constant_dense offsets_vec_type offsets).

(** What [_construct_gather_scatter_indices] computes before its loop. *)
Definition gather_scatter_setup (symbolc_shape : list string)
    (index : index_dict) (mapping : IndexMapping) (is_read : bool)
  : result gs_setup :=
  index_mapping ←
    (if is_read then
       if is_output_identity mapping
       then map_input_indices mapping symbolc_shape
       else Raise (AssertionError
                     "non-identity output mapping is not supported yet")
     else
       if is_input_identity mapping
       then map_output_indices mapping symbolc_shape
       else Raise (AssertionError
                     "non-identity input mapping is not supported yet"));
  let index_mapping := map (subs_idxc idxc) index_mapping in
  let its := iters mapping in
  starts ← zip_starts its index;
  let subs0 := starts ++ idxc_items in
  let result_index :=
    zip symbolc_shape (map (fun m => IdxExpr (subs_pairs subs0 m))
                           index_mapping) in
  let strides := strides_from_symbolic_shape idxc symbolc_shape in
  let start_indices := _get_start_indices result_index in
  let start_indices_orig := _get_start_indices index in
  let start_indices_offset := _compute_offset start_indices strides in
  Ok {| gs_index_mapping := index_mapping;
        gs_iters := its;
        gs_result_index := result_index;
        gs_strides := strides;
        gs_start_indices_orig := start_indices_orig;
        gs_start_indices_offset := start_indices_offset |}.

Definition _construct_gather_scatter_indices (emitter : WaveEmitter)
    (symbolc_shape : list string) (index : index_dict)
    (mapping : IndexMapping) (elements_per_thread : nat) (is_read : bool)
    (thread_offset : Z) : result (list ir_value * ir_value * ir_value) :=
  su ← gather_scatter_setup symbolc_shape index mapping is_read;
  '(offsets, need_dynamic_offsets) ←
    constant_offsets
      (lane_offset_expr (gs_index_mapping su) (gs_iters su)
         (gs_start_indices_orig su) (gs_strides su)
         (gs_start_indices_offset su) thread_offset)
      (seq 0 elements_per_thread);
  '(start_indices, offsets_vec) ←
    (if need_dynamic_offsets || true
     then general_path emitter symbolc_shape (gs_index_mapping su)
            (gs_iters su) (gs_start_indices_orig su) (gs_strides su)
            elements_per_thread thread_offset
     else constant_path emitter (gs_result_index su) offsets
            elements_per_thread);
  mask ← _build_mask emitter index elements_per_thread;
  let mask :=
    match mask with
    | Some m => m
    | None => vector_constant_mask (VectorType [elements_per_thread] i1)
                [elements_per_thread]
    end in
  Ok (start_indices, offsets_vec, mask).

(** Modelled from the spec: [cast_py_value], [cast_vector],
    [cast_kernel_buffer] and [cast_py_literal] (compiler/vector_codegen.py)
    are missing from the sources.  A node operand lowers to the value the
    cache holds for it ([lookup_node_values]); an integer literal lowers to
    a constant of the requested element type; a kernel buffer is a node
    whose value is a memref; a literal count is itself. *)
Definition cast_py_value (st : state) (value : py_arg)
    (element_type : option scalar_type) : result (ir_value * state) :=
  match value with
  | ArgNode n =>
      '(values, st) ← lookup_node_values st (ref_name n);
      match values with
      | [v] => Ok (v, st)
      | _ => Raise (AssertionError "Expected exactly one value for node")
      end
  | ArgInt z =>
      Ok (arith_constant (Scalar (default IndexType element_type)) z, st)
  | _ => Raise (CodegenError "Cannot cast the operand")
  end.

Definition cast_vector (st : state) (value : py_arg)
    (element_type : option scalar_type) : result (ir_value * state) :=
  '(v, st) ← cast_py_value st value element_type;
  match type_of v with
  | VectorType _ _ => Ok (v, st)
  | ty => Ok (vector_splat (VectorType [] (element_type_of ty)) v, st)
  end.

Definition cast_kernel_buffer (st : state) (kb : py_arg)
  : result (ir_value * ir_type * state) :=
  '(v, st) ← cast_py_value st kb None;
  match type_of v with
  | MemRefType _ _ => Ok (v, type_of v, st)
  | _ => Raise (CodegenError "Expected a KernelBuffer")
  end.

Definition cast_py_literal (value : py_arg) : result nat :=
  match value with
  | ArgInt z =>
      if 0 <=? z then Ok (Z.to_nat z)
      else Raise (ValueError "negative count")
  | _ => Raise (CodegenError "Cannot cast the literal")
  end.

(** [_get_symbolic_shape]: [get_custom(node).type.symbolic_shape]. *)
Definition _get_symbolic_shape (node : py_arg) : result (list string) :=
  match node with
  | ArgNode n => Ok (ref_symbolic_shape n)
  | _ => Raise (ValueError "Expected an fx.Node")
  end.

(** The [mapping] operand: None or an [IndexMapping]. *)
Definition as_mapping (a : py_arg) : result (option IndexMapping) :=
  match a with
  | ArgNone => Ok None
  | ArgMapping m => Ok (Some m)
  | _ => Raise (AttributeError "is_identity")
  end.

Definition shape_of (ty : ir_type) : list nat :=
  match ty with
  | VectorType shape _ => shape
  | _ => []
  end.

(** The loop of [handle_read] over the lanes of a mapped read: one gather
    of one element per lane. *)
Fixpoint read_lanes (st : state) (kb_src : ir_value)
    (element_type : scalar_type) (passthru : ir_value)
    (input_shape_ : list string) (index : index_dict)
    (mapping : IndexMapping) (lanes : list nat) (res : ir_value)
  : result (ir_value * state) :=
  match lanes with
  | [] => Ok (res, st)
  | i :: lanes' =>
      '(start_indices, offsets_vec, mask) ←
        _construct_gather_scatter_indices (self st) input_shape_ index
          mapping 1 true (Z.of_nat i);
      let vec_type1 := VectorType [1%nat] element_type in
      let '(id, st) := create_op [vec_type1] st in
      let st := insert_op (vector_gather id vec_type1 kb_src start_indices
                             offsets_vec mask passthru) st in
      let r := vector_extract (OpResult id 0 vec_type1) [0%nat] in
      read_lanes st kb_src element_type passthru input_shape_ index mapping
        lanes' (vector_insert r res [i])
  end.

(** The branch of [handle_read] for an absent or identity mapping. *)
Definition read_identity_path (st : state) (node : fx_node)
    (kb_src : ir_value) (vector_type : ir_type) (index : index_dict)
    (ept : nat) : result (ir_value * state) :=
  let element_type := element_type_of vector_type in
  start_indices ← _build_start_indices (self st) index;
  mask ← _build_mask (self st) index ept;
  let '(id, st) := create_op [vector_type] st in
  let result_ := OpResult id 0 vector_type in
  match mask with
  | None =>
      Ok (result_, insert_op (vector_load id vector_type kb_src
                                start_indices) st)
  | Some mask =>
      if decide (memory_type_address_space (info_of node)
                 = SHARED_ADDRESS_SPACE)
      then Ok (result_, insert_op (vector_load id vector_type kb_src
                                     start_indices) st)
      else
        let zero := get_constant 0 element_type in
        let passthru := vector_splat vector_type zero in
        Ok (result_, insert_op (vector_maskedload id vector_type kb_src
                                  start_indices mask passthru) st)
  end.

(** The branch of [handle_read] for any other mapping. *)
Definition read_mapped_path (st : state) (kb_src : ir_value)
    (vector_type : ir_type) (input_shape_ : list string)
    (index : index_dict) (mapping : IndexMapping) (ept : nat)
  : result (ir_value * state) :=
  let element_type := element_type_of vector_type in
  let zero := get_constant 0 element_type in
  let result_ := vector_splat vector_type zero in
  let passthru := vector_splat (VectorType [1%nat] element_type) zero in
  read_lanes st kb_src element_type passthru input_shape_ index mapping
    (seq 0 ept) result_.

Definition handle_read (st : state) (node : fx_node) : result state :=
  match node_args (info_of node) with
  | [memory; elements_per_thread; mapping; _] =>
      ept ← cast_py_literal elements_per_thread;
      '(kb_src, kb_ir_type, st) ← cast_kernel_buffer st memory;
      match node_index (info_of node) with
      | None =>
          Raise (ValidationError "codegen expected read to have index attr.")
      | Some index =>
          let element_type := element_type_of kb_ir_type in
          let vector_type := VectorType [ept] element_type in
          input_shape_ ← _get_symbolic_shape memory;
          mapping ← as_mapping mapping;
          '(result_, st) ←
            match mapping with
            | None =>
                read_identity_path st node kb_src vector_type index ept
            | Some m =>
                if _is_identity_mapping m (Some input_shape_) None
                then read_identity_path st node kb_src vector_type index ept
                else read_mapped_path st kb_src vector_type input_shape_
                       index m ept
            end;
          Ok (bind_node_proxy st (node_name (info_of node)) result_)
      end
  | _ => Raise (ValidationError "Malformed arguments")
  end.

(** The branch of [handle_write] for an absent or identity mapping. *)
Definition write_identity_path (st : state) (node : fx_node)
    (kb_dest insert_vector : ir_value) (index : index_dict) (ept : nat)
  : result state :=
  start_indices ← _build_start_indices (self st) index;
  mask ← _build_mask (self st) index ept;
  match mask with
  | None => Ok (insert_op (vector_store insert_vector kb_dest start_indices) st)
  | Some mask =>
      if decide (memory_type_address_space (info_of node)
                 = SHARED_ADDRESS_SPACE)
      then Ok (insert_op (vector_store insert_vector kb_dest start_indices) st)
      else Ok (insert_op (vector_maskedstore kb_dest start_indices mask
                            insert_vector) st)
  end.

(** The branch of [handle_write] for any other mapping. *)
Definition write_mapped_path (st : state) (kb_dest insert_vector : ir_value)
    (input_shape_ output_shape_ : list string) (index : index_dict)
    (mapping : IndexMapping) (ept : nat) : result state :=
  if decide (input_shape_ ≠ input_shape mapping)
  then Raise (AssertionError "non-identity input mapping is not supported yet")
  else
    '(start_indices, offsets_vec, mask) ←
      _construct_gather_scatter_indices (self st) output_shape_ index
        mapping ept false 0;
    if decide (ept = 1%nat)
    then Ok (insert_op (vector_maskedstore kb_dest start_indices mask
                          insert_vector) st)
    else Ok (insert_op (vector_scatter kb_dest start_indices offsets_vec
                          mask insert_vector) st).

Definition handle_write (st : state) (node : fx_node) : result state :=
  match node_args (info_of node) with
  | [register; memory; elements_per_thread; mapping] =>
      '(kb_dest, kb_ir_type, st) ← cast_kernel_buffer st memory;
      '(insert_vector, st) ←
        cast_vector st register (Some (element_type_of kb_ir_type));
      ept ← cast_py_literal elements_per_thread;
      if decide (shape_of (type_of insert_vector) ≠ [ept])
      then Raise (AssertionError "Shape doesn't match")
      else
        match node_index (info_of node) with
        | None =>
            Raise (ValidationError
                     "codegen expected read to have index attr.")
        | Some index =>
            input_shape_ ← _get_symbolic_shape register;
            output_shape_ ← _get_symbolic_shape memory;
            mapping ← as_mapping mapping;
            match mapping with
            | None =>
                write_identity_path st node kb_dest insert_vector index ept
            | Some m =>
                if _is_identity_mapping m (Some input_shape_)
                     (Some output_shape_)
                then write_identity_path st node kb_dest insert_vector
                       index ept
                else write_mapped_path st kb_dest insert_vector input_shape_
                       output_shape_ index m ept
            end
        end
  | _ => Raise (ValidationError "Malformed arguments")
  end.

End MemoryAccess.

(** ** Cross-lane shuffle *)

(** [math.prod(shape)] *)
Definition math_prod (shape : list nat) : nat := foldr Nat.mul 1%nat shape.

Definition is_int_literal (a : py_arg) : bool :=
  match a with ArgInt _ => true | _ => false end.

Definition handle_shuffle (st : state) (node : fx_node) : result state :=
  match node_args (info_of node) with
  | [src; offset; width] =>
      if negb (is_int_literal offset) || negb (is_int_literal width)
      then Raise (NotImplementedError
             "Non-const width or offset is not yet implemented for shuffleOp.")
      else
        '(src, st) ← cast_py_value st src None;
        '(offset, st) ← cast_py_value st offset (Some i32);
        '(width, st) ← cast_py_value st width (Some i32);
        match type_of src with
        | VectorType shape elem =>
            if decide (math_prod shape ≠ 1%nat)
            then Raise (NotImplementedError
                   "Currently only support unit vector for shuffleOp.")
            else
              (* Scalarize. *)
              let static_pos := map (fun _ => 0%nat) shape in
              let element := vector_extract src static_pos in
              let element_original_type := type_of element in
              (* Pad to 32 bit if needed. *)
              if negb (_is_float_type elem)
              then Raise (NotImplementedError
                     "Currently only support shuffle for floats.")
              else if 32 <? float_width elem
              then Raise (ValueError "Cannot shuffle more than 32 bit.")
              else
                let element :=
                  if float_width elem <? 32
                  then arith_extf (Scalar F32Type) element
                  else element in
                (* Shuffle data between other threads in a warp. *)
                let shuffled_val := gpu_shuffle_xor element offset width in
                (* Reconstruct to original shape and dtype. *)
                let shuffled_val :=
                  if decide (element_original_type ≠ type_of shuffled_val)
                  then arith_truncf element_original_type shuffled_val
                  else shuffled_val in
                let vec_result := vector_broadcast (type_of src)
                                    shuffled_val in
                Ok (bind_node_proxy st (node_name (info_of node)) vec_result)
        | _ => Raise (NotImplementedError
                 "Scalar src is not implemented yet for shuffleOp.")
        end
  | _ => Raise (ValidationError "Malformed arguments")
  end.

(** ** Control flow: reductions *)

(** [pytree.tree_flatten]: the leaves of nested sequences, left to right. *)
Fixpoint tree_flatten (a : py_arg) : list py_arg :=
  let fix go (l : list py_arg) : list py_arg :=
    match l with
    | [] => []
    | x :: l' => tree_flatten x ++ go l'
    end in
  match a with
  | ArgSeq l => go l
  | _ => [a]
  end.

(** [[cast_py_value(emitter, arg) for arg in args]] *)
Fixpoint cast_py_values (st : state) (args : list py_arg)
  : result (list ir_value * state) :=
  match args with
  | [] => Ok ([], st)
  | a :: args' =>
      '(v, st) ← cast_py_value st a None;
      '(vs, st) ← cast_py_values st args';
      Ok (v :: vs, st)
  end.

(** Modelled from the spec: [Reduction.iter_args] and
    [Reduction.captured_vars] are missing from the sources; they are the
    nested carried-value placeholders and the placeholders of the
    externally captured values of the subgraph, in graph order. *)
Definition iter_args (subgraph : list fx_node) : list nat :=
  map (fun n => node_name (info_of n))
    (filter (fun n => node_op (info_of n) = "placeholder"
                      ∧ is_iter_arg (info_of n) = true) subgraph).

Definition captured_vars (subgraph : list fx_node) : list nat :=
  map (fun n => node_name (info_of n))
    (filter (fun n => node_op (info_of n) = "placeholder"
                      ∧ is_iter_arg (info_of n) = false) subgraph).

(** [for i, v in enumerate(forOp.inner_iter_args):
       emitter.bind_node_proxy(iter_args[i], IRProxyValue(v))] *)
Fixpoint bind_iter_args (st : state) (iter_args_ : list nat)
    (inner : list ir_value) (i : nat) : result state :=
  match inner with
  | [] => Ok st
  | v :: inner' =>
      match iter_args_ !! i with
      | None => Raise (IndexError "list index out of range")
      | Some n => bind_iter_args (bind_node_proxy st n v) iter_args_ inner'
                    (S i)
      end
  end.

(** [for root_v, subgraph_v in zip(implicit_capture, captured_vars):
       emitter._node_values[subgraph_v] = emitter.lookup_node_values(root_v)] *)
Fixpoint alias_captured (st : state) (pairs : list (py_arg * nat))
  : result state :=
  match pairs with
  | [] => Ok st
  | (root_v, subgraph_v) :: pairs' =>
      match root_v with
      | ArgNode r =>
          '(values, st) ← lookup_node_values st (ref_name r);
          alias_captured (bind_node_proxies st subgraph_v values) pairs'
      | _ => Raise (AssertionError "isinstance(node, fx.Node)")
      end
  end.

(** The truth value of an IR value object ([if not step:]). *)
Definition value_truthy (v : ir_value) : bool := true.

(** [int(node.count)] *)
Definition int_of_count (count : option Z) : result Z :=
  match count with
  | Some c => Ok c
  | None => Raise (TypeError "int() argument must not be 'NoneType'")
  end.

Definition as_symbol_name (a : py_arg) : result string :=
  match a with
  | ArgExpr (Symbol (Named n)) => Ok n
  | _ => Raise (TypeError "axis is not a symbol")
  end.

Definition as_seq (a : py_arg) : result (list py_arg) :=
  match a with
  | ArgSeq l => Ok l
  | _ => Raise (TypeError "object is not iterable")
  end.

(** The value [_emit_graph] returns: the operands of the output node, or
    None when the graph has none. *)
Definition return_leaves (r : option (list py_arg)) : list py_arg :=
  match r with
  | Some args => tree_flatten (ArgSeq args)
  | None => [ArgNone]
  end.

(** [handle_reduction]; the recursive emission of the subgraph,
    [emitter._emit_graph(subgraph)], is the parameter [emit_subgraph]. *)
Definition handle_reduction
    (emit_subgraph : state -> result (option (list py_arg) * state))
    (st : state) (node : fx_node) : result state :=
  match node_args (info_of node) with
  | [axis; init_args; subgraph; implicit_capture] =>
      (* Flatten init_args and get IR values for each of them. *)
      '(flat_init_args, st) ← cast_py_values st (tree_flatten init_args);
      let start_ := arith_constant (Scalar IndexType) 0 in
      count ← int_of_count (node_count (info_of node));
      let end_ := arith_constant (Scalar IndexType) count in
      let step := arith_constant (Scalar IndexType) 1 in
      if negb (value_truthy step)
      then Raise (CodegenError "Could not determine step size for reduction")
      else
        let '(forOp, st) := create_op (map type_of flat_init_args) st in
        axis ← as_symbol_name axis;
        let outer_ops := ip_ops (self st) in
        let st := set_self (set_induction_vars
                              (<[axis := induction_variable forOp]>
                                 (induction_vars (self st))) (self st)) st in
        (* with InsertionPoint(forOp.body): *)
        let st := set_self (set_ip_ops [] (self st)) st in
        let inner_iter_args :=
          imap (fun i v => inner_iter_arg forOp i (type_of v))
               flat_init_args in
        st ← bind_iter_args st (iter_args (subgraph_of node))
               inner_iter_args 0;
        implicit_capture ← as_seq implicit_capture;
        st ← alias_captured st
               (zip implicit_capture (captured_vars (subgraph_of node)));
        '(return_values, st) ← emit_subgraph st;
        '(flat_ret_values, st) ← cast_py_values st
                                   (return_leaves return_values);
        let body := ip_ops (self st) in
        let st := set_self (set_ip_ops
                    (outer_ops ++ [scf_for forOp start_ end_ step
                                     flat_init_args body flat_ret_values])
                    (self st)) st in
        Ok (bind_node_proxies st (node_name (info_of node))
              (results_of_types forOp (map type_of flat_init_args)))
  | _ => Raise (ValidationError "Malformed arguments")
  end.

(** [value.owner.results]: the results of the operation that defines a
    value; a block argument is owned by a block, which has none. *)
Definition owner_results (st : state) (v : ir_value)
  : result (list ir_value) :=
  match v with
  | OpResult owner _ _ =>
      match op_results st !! owner with
      | Some rs => Ok rs
      | None => Raise (AttributeError "results")
      end
  | BlockArgument _ _ | induction_variable _ | inner_iter_arg _ _ _ =>
      Raise (AttributeError "results")
  | _ => Ok [v]
  end.

(** [l[i]] for a Python integer: a negative index counts from the end. *)
Definition py_getitem {A} (l : list A) (i : Z) : result A :=
  let n := Z.of_nat (length l) in
  let j := if i <? 0 then i + n else i in
  if (0 <=? j) && (j <? n) then
    match l !! Z.to_nat j with
    | Some a => Ok a
    | None => Raise (IndexError "index out of range")
    end
  else Raise (IndexError "index out of range").

Definition handle_get_result (st : state) (node : fx_node) : result state :=
  match node_args (info_of node) with
  | [value; res_idx] =>
      match value, res_idx with
      | ArgNode r, ArgInt i =>
          '(values, st) ← lookup_node_values st (ref_name r);
          v0 ← py_getitem values 0;
          results ← owner_results st v0;
          res ← py_getitem results i;
          Ok (bind_node_proxy st (node_name (info_of node)) res)
      | _, _ => Raise (TypeError "get_result operands")
      end
  | _ => Raise (ValidationError "Malformed arguments")
  end.

Definition handle_shared_memory_barrier (st : state) (node : fx_node)
  : result state :=
  Ok (insert_op (other_operation "amdgpu.lds_barrier" []) st).

Definition handle_getitem (st : state) (node : fx_node) : result state :=
  Raise (NotImplementedError "getitem: Currently only stub implementation").

(** ** The dispatch engine *)

Section Dispatch.

Context (idxc : IndexingContext).
Context (find_index_bounds :
           list Constraint -> index_dict -> option (list string)).
Context (strides_from_symbolic_shape :
           IndexingContext -> list string -> list expr).

(** A handler; its first argument is [emitter._emit_graph] on the subgraph
    of the node, which only [handle_reduction] calls. *)
Definition handler : Type :=
  (state -> result (option (list py_arg) * state)) ->
  state -> fx_node -> result state.

(** The handlers registered by [@handle_op] that are not embedded here. *)
Definition other_handler_names : list string :=
  ["register"; "allocate"; "mma"; "add"; "sub"; "mul"; "truediv";
   "maximum"; "neg"; "exp2"; "extract_slice"; "broadcast"].

Context (other_handlers : string -> state -> fx_node -> result state).

(** [WaveEmitter.OP_HANDLERS] *)
Definition OP_HANDLERS (target_op : string) : option handler :=
  if decide (target_op = "read")
  then Some (fun _ => handle_read idxc find_index_bounds
                        strides_from_symbolic_shape)
  else if decide (target_op = "write")
  then Some (fun _ => handle_write idxc find_index_bounds
                        strides_from_symbolic_shape)
  else if decide (target_op = "shuffle") then Some (fun _ => handle_shuffle)
  else if decide (target_op = "reduction") then Some handle_reduction
  else if decide (target_op = "get_result")
  then Some (fun _ => handle_get_result)
  else if decide (target_op = "shared_memory_barrier")
  then Some (fun _ => handle_shared_memory_barrier)
  else if decide (target_op = "getitem") then Some (fun _ => handle_getitem)
  else if bool_decide (target_op ∈ other_handler_names)
  then Some (fun _ => other_handlers target_op)
  else None.

(** [WaveEmitter._emit_function_call_node], given the emission of the
    node's subgraph. *)
Definition emit_function_call_node_with
    (emit_subgraph : state -> result (option (list py_arg) * state))
    (st : state) (node : fx_node) : result state :=
  match OP_HANDLERS (tkw_op_name (info_of node)) with
  | None => Raise (CodegenError "No handler registered for op")
  | Some handler => handler emit_subgraph st node
  end.

(** [WaveEmitter._emit_function_call_node]: look the handler up and call
    it.  The recursion of the source goes through [handle_reduction], which
    emits the subgraph of its node with [_emit_graph]; here it follows the
    nesting of the subgraphs. *)
Fixpoint _emit_function_call_node (st : state) (node : fx_node)
    {struct node} : result state :=
  match node with
  | FxNode _ subgraph =>
      emit_function_call_node_with
        ((fix emit_graph (graph : list fx_node) (st : state) {struct graph}
            : result (option (list py_arg) * state) :=
            match graph with
            | [] => Ok (None, st)
            | n :: graph' =>
                st ←
                  (if bool_decide (node_op (info_of n) = "call_function")
                      || bool_decide (node_op (info_of n) = "call_method")
                   then _emit_function_call_node st n
                   else Ok st);
                if bool_decide (node_op (info_of n) = "output")
                then Ok (Some (node_args (info_of n)), st)
                else emit_graph graph' st
            end) subgraph)
        st node
  end.

(** [WaveEmitter._emit_graph]: the nodes in order; an output node ends the
    traversal and returns its operands. *)
Fixpoint _emit_graph (graph : list fx_node) (st : state) {struct graph}
  : result (option (list py_arg) * state) :=
  match graph with
  | [] => Ok (None, st)
  | node :: graph' =>
      st ←
        (if bool_decide (node_op (info_of node) = "call_function")
            || bool_decide (node_op (info_of node) = "call_method")
         then _emit_function_call_node st node
         else Ok st);
      if bool_decide (node_op (info_of node) = "output")
      then Ok (Some (node_args (info_of node)), st)
      else _emit_graph graph' st
  end.

(** [WaveEmitter.emit] *)
Definition emit (st : state) (graph : list fx_node) : result state :=
  st ← emit_program_invariants st;
  '(_, st) ← _emit_graph graph st;
  Ok st.

End Dispatch.

(** ** The class and its instances

    [_node_values] is declared [ClassVar[dict] = {}]: the dict is created
    once, when the class is defined, and every instance reaches the same
    object through [self._node_values].  A program state therefore holds
    one cache for the class and the attributes of each instance. *)

Record program : Type := {
  WaveEmitter_node_values : gmap nat (list ir_value);
  instances : gmap nat WaveEmitter;
  context_next_op : nat;
  context_op_results : gmap nat (list ir_value)
}.

(** The state after the class definition has run. *)
Definition class_defined : program :=
  {| WaveEmitter_node_values := ∅;
     instances := ∅;
     context_next_op := 0;
     context_op_results := ∅ |}.

(** [WaveEmitter(root_sig, trace, constraints, dynamic_symbols)] followed
    by [__post_init__]: a new instance [id], its insertion point at the
    start of the entry block. *)
Definition new_WaveEmitter (id : nat) (entry_block_arguments_ : list ir_value)
    (resolve_by_reference_ : nat -> result ir_value)
    (constraints_ : list Constraint) (dynamic_symbols_ : list string)
    (p : program) : program :=
  {| WaveEmitter_node_values := WaveEmitter_node_values p;
     instances :=
       <[id := {| constraints := constraints_;
                  dynamic_symbols := dynamic_symbols_;
                  entry_block_arguments := entry_block_arguments_;
                  resolve_by_reference := resolve_by_reference_;
                  workgroup_ids := [];
                  thread_ids := [];
                  induction_vars := ∅;
                  dynamic_dims := ∅;
                  ip_ops := [] |}]> (instances p);
     context_next_op := context_next_op p;
     context_op_results := context_op_results p |}.

(** What a method called on instance [id] sees. *)
Definition state_of (p : program) (id : nat) : option state :=
  e ← instances p !! id;
  Some {| _node_values := WaveEmitter_node_values p;
          self := e;
          next_op := context_next_op p;
          op_results := context_op_results p |}.

(** The program after a method of instance [id] has returned [st]. *)
Definition store_state (p : program) (id : nat) (st : state) : program :=
  {| WaveEmitter_node_values := _node_values st;
     instances := <[id := self st]> (instances p);
     context_next_op := next_op st;
     context_op_results := op_results st |}.

(** Call a method on instance [id]. *)
Definition call_method (id : nat) (method : state -> result state)
    (p : program) : result program :=
  match state_of p id with
  | None => Raise (AttributeError "no such instance")
  | Some st => st' ← method st; Ok (store_state p id st')
  end.

(** ** Notions used in the statements *)

(** The range of [index]. *)
Definition index_min : Z := - 2 ^ 63.
Definition index_max : Z := 2 ^ 63 - 1.

(** The operations the binary combinators of the index compiler emit. *)
Definition binary_ops : list (ir_value -> ir_value -> ir_value) :=
  [arith_addi; arith_muli; muli_fold; arith_divsi; arith_ceildivsi;
   arith_remsi; arith_cmpi_slt; arith_andi].

(** Each operation with what it computes on one pair of elements. *)
Definition op_semantics (t : scalar_type)
  : list ((ir_value -> ir_value -> ir_value) * (Z -> Z -> option Z)) :=
  [(arith_addi, sem_addi t); (arith_muli, sem_muli t);
   (arith_divsi, sem_divsi t); (arith_ceildivsi, sem_ceildivsi t);
   (arith_remsi, sem_remsi t); (arith_cmpi_slt, sem_cmpi_slt);
   (arith_andi, sem_andi t)].

(** The broadcast rule for a binary combinator [f] that emits the operation
    [op] and returns its result as [ret]: operands of the same type reach
    the operation unchanged; of a vector and a scalar of its element type,
    in either order, the scalar reaches it splatted to the vector's type,
    and the result has the vector's shape; two vectors of different shapes
    fail with CodegenError [Cannot broadcast]. *)
Definition obeys_broadcast_rule {R : Type}
    (f : ir_value -> ir_value -> result R) (ret : ir_value -> R)
    (op : ir_value -> ir_value -> ir_value) : Prop :=
  (forall a b, type_of a = type_of b -> f a b = Ok (ret (op a b))) /\
  (forall a b shape t,
     type_of a = VectorType shape t -> type_of b = Scalar t ->
     f a b = Ok (ret (op a (vector_splat (VectorType shape t) b))) /\
     f b a = Ok (ret (op (vector_splat (VectorType shape t) b) a)) /\
     shape_of (type_of (op a (vector_splat (VectorType shape t) b)))
     = shape /\
     shape_of (type_of (op (vector_splat (VectorType shape t) b) a))
     = shape) /\
  (forall a b s1 t1 s2 t2,
     type_of a = VectorType s1 t1 -> type_of b = VectorType s2 t2 ->
     s1 <> s2 -> f a b = Raise (CodegenError "Cannot broadcast")).

(** The values an operand on the stack is made of. *)
Definition components (it : stack_item) : list ir_value :=
  match it with
  | Val v => [v]
  | _Rational numerator denominator => [numerator; denominator]
  end.

(** Two values of the same type that agree under every runtime binding. *)
Definition same_value (v w : ir_value) : Prop :=
  type_of v = type_of w /\ forall env, eval env v = eval env w.


(** The start expression of a dimension of an index. *)
Definition index_start (index : index_dict) (dim : string) : option expr :=
  match list_find (fun kv => kv.1 = dim) index with
  | Some (_, (_, entry)) => Some (_get_start_index entry)
  | None => None
  end.

(** The innermost dimension of an index: its last key. *)
Definition last_dim (index : index_dict) : option string :=
  last (map fst index).

(** The lane offset added to a dimension: the lane number on the innermost
    dimension, nothing elsewhere. *)
Definition lane_offset (index : index_dict) (dim : string) (i : nat) : Z :=
  if decide (last_dim index = Some dim) then Z.of_nat i else 0.

(** Lane [i] is in bounds: on every bounded dimension the start plus the
    lane offset, as an index value, is below the size. *)
Definition lane_in_bounds (index : index_dict) (starts sizes : string -> Z)
    (bounds : list string) (i : nat) : bool :=
  forallb (fun d => elem_wrap IndexType (starts d + lane_offset index d i)
                    <? sizes d) bounds.

(** A boolean as the value of an i1. *)
Definition b2z (b : bool) : Z := if b then 1 else 0.

(** A lowered predicate [v] denotes the per-lane booleans [f]: a scalar i1
    for a predicate that is the same on every lane, or a vector of [k]. *)
Definition mask_denotes (k : nat) (env : runtime) (v : ir_value)
    (f : nat -> bool) : Prop :=
  (type_of v = Scalar i1 /\
   exists b, eval env v = Some (RInt (b2z b)) /\ forall i, f i = b) \/
  (type_of v = VectorType [k] i1 /\
   eval env v = Some (RVec (map (fun i => b2z (f i)) (seq 0 k)))).

(** An expression lowers to a predicate value that denotes [f]. *)
Definition pred_denotes (idxc : IndexingContext)
    (dynamics : gmap string ir_value) (ivs : list string) (k : nat)
    (env : runtime) (p : expr) (f : nat -> bool) : Prop :=
  exists v, lower idxc dynamics ivs p = Ok (Val v) /\ mask_denotes k env v f.

(** What is known of a bounded dimension: its start expression and its size
    symbol lower to scalars of type index, with these runtime values. *)
Definition bounded_dim_lowers (idxc : IndexingContext) (em : WaveEmitter)
    (env : runtime) (index : index_dict) (starts sizes : string -> Z)
    (d : string) : Prop :=
  exists e sv bv,
    index_start index d = Some e /\
    _gen_sympy_index_full idxc em e = Ok sv /\
    type_of sv = Scalar IndexType /\
    _gen_sympy_index_full idxc em (Symbol (Named d)) = Ok bv /\
    type_of bv = Scalar IndexType /\
    eval env sv = Some (RInt (starts d)) /\
    eval env bv = Some (RInt (sizes d)).

(** [new_index] of [_build_mask], for the last dimension [ld]. *)
Definition new_index_of (index : index_dict) (k : nat) (ld : string)
  : list (string * expr) :=
  map (fun kv => if decide (kv.1 = ld)
                 then (kv.1, py_add kv.2 (iota k))
                 else kv)
      (map (fun kv : string * index_entry => (kv.1, _get_start_index kv.2))
           index).

(** The predicate of one bounded dimension, as [mask_preds] builds it. *)
Definition bound_pred (k : nat) (ld d : string) (e : expr) : expr :=
  py_lt (if decide (d = ld) then py_add e (iota k) else e) (Symbol (Named d)).

(** The mapping operand is absent or an identity mapping for these shapes. *)
Definition identity_or_absent (mapping : py_arg)
    (input_shape_ output_shape_ : option (list string)) : Prop :=
  mapping = ArgNone \/
  exists m, mapping = ArgMapping m /\
            _is_identity_mapping m input_shape_ output_shape_ = true.


(** ** Example kernels

    The copy and transposed-access kernels of the end-to-end tests and the
    reduction and shuffle scenarios, with M = 256 and N = 128. *)

Definition ex_idxc : IndexingContext :=
  {| idxc_subs := <["M" := 256]> (<["N" := 128]> ∅) |}.

(** No dimension is bounded. *)
Definition ex_no_bounds (cs : list Constraint) (index : index_dict)
  : option (list string) := None.

(** The innermost dimension N is bounded. *)
Definition ex_bounds_N (cs : list Constraint) (index : index_dict)
  : option (list string) := Some ["N"].

(** Row-major strides of a symbolic shape. *)
Fixpoint ex_strides_of (shape : list string) : list expr :=
  match shape with
  | [] => []
  | _ :: rest =>
      Mul (Integer 1 :: map (fun d => Symbol (Named d)) rest)
      :: ex_strides_of rest
  end.

Definition ex_strides (idxc : IndexingContext) (shape : list string)
  : list expr := ex_strides_of shape.

(** Handlers that are not embedded are not used by the examples. *)
Definition ex_other_handlers (name : string) (st : state) (node : fx_node)
  : result state := Raise (NotImplementedError name).

Definition ex_memref : ir_type := MemRefType [256; 128] F16Type.

(** Kernel arguments: node 0 is buffer a, node 1 is buffer b, node 2 a
    register argument. *)
Definition ex_resolve (node : nat) : result ir_value :=
  match node with
  | 0%nat => Ok (BlockArgument "a" ex_memref)
  | 1%nat => Ok (BlockArgument "b" ex_memref)
  | 2%nat => Ok (BlockArgument "acc" (VectorType [4%nat] F32Type))
  | 3%nat => Ok (BlockArgument "src" (VectorType [1%nat] F16Type))
  | _ => Raise (KeyError "node")
  end.

Definition ex_node (name : nat) (op tkw : string) (args : list py_arg)
    (index : option index_dict) (count : option Z) (iter_arg : bool)
  : node_info :=
  {| node_name := name; node_op := op; tkw_op_name := tkw;
     node_args := args; node_index := index; node_count := count;
     memory_type_address_space := GLOBAL_ADDRESS_SPACE;
     is_iter_arg := iter_arg |}.

Definition ex_ref (name : nat) (shape : list string) : node_ref :=
  {| ref_name := name; ref_symbolic_shape := shape |}.

Definition ex_seq (e : expr) : index_entry :=
  IdxSeq {| start := e; size := Integer 1; stride := Integer 1 |}.

(** The index of a thread: row [$WG1], columns [4*$T0 ..]. *)
Definition ex_index : index_dict :=
  [("M", ex_seq (Symbol (Named WORKGROUP_1)));
   ("N", ex_seq (Mul [Integer 4; Symbol (Named THREAD_0)]))].

(** A new emitter for these kernels, as instance [id]. *)
Definition ex_new_emitter (id : nat) (p : program) : program :=
  new_WaveEmitter id [] ex_resolve
    [WorkgroupConstraint "M"; WorkgroupConstraint "N"] [] p.

(** res = read(a, elements_per_thread=4); write(res, b, elements_per_thread=4) *)
Definition ex_read_node : fx_node :=
  FxNode (ex_node 10 "call_function" "read"
            [ArgNode (ex_ref 0 ["M"; "N"]); ArgInt 4; ArgNone; ArgNone]
            (Some ex_index) None false) [].

Definition ex_write_node : fx_node :=
  FxNode (ex_node 11 "call_function" "write"
            [ArgNode (ex_ref 10 ["M"; "N"]); ArgNode (ex_ref 1 ["M"; "N"]);
             ArgInt 4; ArgNone]
            (Some ex_index) None false) [].

Definition ex_output_node (name : nat) (args : list py_arg) : fx_node :=
  FxNode (ex_node name "output" "output" args None None false) [].

Definition ex_copy_graph : list fx_node :=
  [FxNode (ex_node 0 "placeholder" "placeholder" [] None None false) [];
   FxNode (ex_node 1 "placeholder" "placeholder" [] None None false) [];
   ex_read_node; ex_write_node; ex_output_node 12 [ArgNone]].

(** The two iterators of a two-dimensional mapping. *)
Definition ex_i : symbol := Named "$index0".
Definition ex_j : symbol := Named "$index1".

(** A mapping that swaps the coordinates on its input side and is the
    identity on its output side. *)
Definition ex_swap_inputs : IndexMapping :=
  {| iters := [ex_i; ex_j];
     input_mapping := [("M", Symbol ex_j); ("N", Symbol ex_i)];
     output_mapping := [("N", Symbol ex_i); ("M", Symbol ex_j)] |}.

(** A mapping that is the identity on its input side and swaps the
    coordinates on its output side. *)
Definition ex_swap_outputs : IndexMapping :=
  {| iters := [ex_i; ex_j];
     input_mapping := [("M", Symbol ex_i); ("N", Symbol ex_j)];
     output_mapping := [("M", Symbol ex_j); ("N", Symbol ex_i)] |}.

(** A mapping that is the identity on neither side. *)
Definition ex_swap_both : IndexMapping :=
  {| iters := [ex_i; ex_j];
     input_mapping := [("M", Symbol ex_j); ("N", Symbol ex_i)];
     output_mapping := [("M", Symbol ex_j); ("N", Symbol ex_i)] |}.

Definition ex_mapped_read (m : IndexMapping) : fx_node :=
  FxNode (ex_node 10 "call_function" "read"
            [ArgNode (ex_ref 0 ["M"; "N"]); ArgInt 2; ArgMapping m; ArgNone]
            (Some ex_index) None false) [].

Definition ex_mapped_write (m : IndexMapping) : fx_node :=
  FxNode (ex_node 11 "call_function" "write"
            [ArgNode (ex_ref 10 ["M"; "N"]); ArgNode (ex_ref 1 ["N"; "M"]);
             ArgInt 4; ArgMapping m]
            (Some ex_index) None false) [].

(** A state in which the class has been defined and instance 1 has gone
    through [emit_program_invariants]. *)
Definition ex_state : result state :=
  match state_of (ex_new_emitter 1 class_defined) 1 with
  | Some st => emit_program_invariants st
  | None => Raise (AttributeError "no such instance")
  end.

(** The attributes of a new emitter, and the state its first method call
    sees right after the class definition. *)
Definition ex_emitter : WaveEmitter :=
  {| constraints := [WorkgroupConstraint "M"; WorkgroupConstraint "N"];
     dynamic_symbols := [];
     entry_block_arguments := [];
     resolve_by_reference := ex_resolve;
     workgroup_ids := [];
     thread_ids := [];
     induction_vars := ∅;
     dynamic_dims := ∅;
     ip_ops := [] |}.

Definition ex_fresh_state : state :=
  {| _node_values := ∅; self := ex_emitter; next_op := 0; op_results := ∅ |}.

(** The cache a pass of instance [id] starts with: what the instance sees
    once [emit] has run [emit_program_invariants]. *)
Definition cache_at_start (p : program) (id : nat)
  : result (gmap nat (list ir_value)) :=
  match state_of p id with
  | None => Raise (AttributeError "no such instance")
  | Some st => st' ← emit_program_invariants st; Ok (_node_values st')
  end.

(** One emission pass of instance [id] over the copy kernel. *)
Definition ex_pass (id : nat) (p : program) : result program :=
  call_method id
    (fun st => emit ex_idxc ex_no_bounds ex_strides ex_other_handlers st
                 ex_copy_graph) p.

(** The state of instance 1 once [emit_program_invariants] has run, and
    the state after the read of the copy kernel has been lowered in it. *)
Definition ex_ready_state : state :=
  match ex_state with
  | Ok st => st
  | Raise _ => ex_fresh_state
  end.

Definition ex_after_read : state :=
  match handle_read ex_idxc ex_no_bounds ex_strides ex_ready_state
          ex_read_node with
  | Ok st => st
  | Raise _ => ex_ready_state
  end.

(** The state in which the pass of instance 1 over the copy kernel ends. *)
Definition ex_after_pass : state :=
  match emit ex_idxc ex_no_bounds ex_strides ex_other_handlers
          ex_fresh_state ex_copy_graph with
  | Ok st => st
  | Raise _ => ex_fresh_state
  end.

(** A shuffle of the unit vector [src] (node 3) with offset 16, width 32. *)
Definition ex_shuffle_node : fx_node :=
  FxNode (ex_node 20 "call_function" "shuffle"
            [ArgNode (ex_ref 3 ["M"]); ArgInt 16; ArgInt 32]
            None None false) [].

(** ** The steps of a shuffle *)

(** A vector of one element of a float type of at most 32 bits. *)
Definition single_element_float_vector (ty : ir_type) : Prop :=
  exists shape elem,
    ty = VectorType shape elem /\ math_prod shape = 1%nat /\
    _is_float_type elem = true /\ float_width elem <= 32.

(** The operand reduced to a scalar. *)
Definition scalarize (src : ir_value) : ir_value :=
  vector_extract src (map (fun _ => 0%nat) (shape_of (type_of src))).

(** The scalar extended by [ext] to 32 bits if it is narrower. *)
Definition pad_to_32 (ext : ir_type -> ir_value -> ir_value)
    (element : ir_value) : ir_value :=
  if float_width (element_type_of (type_of element)) <? 32
  then ext (Scalar F32Type) element
  else element.

(** The shuffled scalar truncated back to the type [ty] when it was
    extended. *)
Definition truncate_back (ty : ir_type) (shuffled_val : ir_value) : ir_value :=
  if float_width (element_type_of ty) <? 32
  then arith_truncf ty shuffled_val
  else shuffled_val.

(** Scalarize, extend, shuffle by exclusive-or with the given offset and
    width, truncate back, broadcast to the type of the operand. *)
Definition shuffle_steps (ext : ir_type -> ir_value -> ir_value)
    (src : ir_value) (offset width : Z) : ir_value :=
  vector_broadcast (type_of src)
    (truncate_back (type_of (scalarize src))
       (gpu_shuffle_xor (pad_to_32 ext (scalarize src))
          (arith_constant (Scalar i32) offset)
          (arith_constant (Scalar i32) width))).

(** The errors of a shuffle whose operand is not supported. *)
Definition shuffle_shape_errors : list exception :=
  [NotImplementedError "Scalar src is not implemented yet for shuffleOp.";
   NotImplementedError "Currently only support unit vector for shuffleOp.";
   NotImplementedError "Currently only support shuffle for floats.";
   ValueError "Cannot shuffle more than 32 bit."].

(** ** Operations and their results *)

(** From [s] to [s'] operations were only created: the operations of [s]
    keep their results. *)
Definition results_kept (s s' : state) : Prop :=
  (next_op s <= next_op s')%nat /\
  forall id, (id < next_op s)%nat -> op_results s' !! id = op_results s !! id.

(** A reduction over K with trip count 4 that carries the register [acc]
    (node 2) unchanged, and the selection of its result 0. *)
Definition ex_reduction_node : fx_node :=
  FxNode (ex_node 40 "call_function" "reduction"
            [ArgExpr (Symbol (Named "K"));
             ArgSeq [ArgNode (ex_ref 2 ["M"; "N"])];
             ArgStr "region_0"; ArgSeq []]
            None (Some 4) false)
    [FxNode (ex_node 30 "placeholder" "placeholder" [] None None true) [];
     ex_output_node 31 [ArgSeq [ArgNode (ex_ref 30 ["M"; "N"])]]].

Definition ex_get_result_node : fx_node :=
  FxNode (ex_node 41 "call_function" "get_result"
            [ArgNode (ex_ref 40 ["M"; "N"]); ArgInt 0]
            None None false) [].

(** ** Offsets of a gather or scatter *)

(** Truncation toward zero of a rational. *)
Definition Qc_trunc (q : Qc) : Z :=
  Z.quot (Qnum (this q)) (Z.pos (Qden (this q))).

(** A valuation that gives the frozen symbols the values of the indexing
    context. *)
Definition agrees_with (idxc : IndexingContext) (rho : valuation) : Prop :=
  forall n z, idxc_subs idxc !! n = Some z -> rho (Named n) = Z2Qc z.

(** The valuation on lane [i] of a vector of [k] lanes. *)
Definition on_lane (rho : valuation) (k i : nat) : valuation :=
  fun s => if decide (s = IOTA k) then Z2Qc (Z.of_nat i) else rho s.

(** An index whose start indices are the numbers 3 and 8, and runtime
    bindings in which every leaf is 0. *)
Definition ex_const_index : index_dict :=
  [("M", ex_seq (Integer 3)); ("N", ex_seq (Integer 8))].

Definition ex_runtime : runtime :=
  {| rt_argument := fun _ => 0;
     rt_thread_id := fun _ => 0;
     rt_workgroup_id := fun _ => 0;
     rt_induction_variable := fun _ => 0 |}.

(** What the synthesizer returns for a read of four elements with the
    mapping [ex_swap_inputs] at that index. *)
Definition ex_gather_indices : list ir_value * ir_value * ir_value :=
  match _construct_gather_scatter_indices ex_idxc ex_no_bounds ex_strides
          (self ex_ready_state) ["M"; "N"] ex_const_index ex_swap_inputs
          4 true 0 with
  | Ok r => r
  | Raise _ => ([], arith_constant (Scalar IndexType) 0,
                arith_constant (Scalar IndexType) 0)
  end.

(** Runtime bindings in which thread x is [t] and every other leaf is 0,
    and the dynamic symbols of a thread and a workgroup. *)
Definition ex_runtime_thread (t : Z) : runtime :=
  {| rt_argument := fun _ => 0;
     rt_thread_id := fun d => match d with 0%nat => t | _ => 0 end;
     rt_workgroup_id := fun _ => 0;
     rt_induction_variable := fun _ => 0 |}.

Definition ex_dynamics : gmap string ir_value :=
  <[THREAD_0 := gpu_thread_id 0]>
    (<[WORKGROUP_1 := stream_dispatch_workgroup_id 1]> ∅).

(** ** Integer value of an index expression *)

(** The integer an expression built from symbols, integers, sums and
    products denotes: a frozen symbol has its value in the indexing
    context, any other symbol its runtime value [rho]; [floor], [ceiling]
    and [UnevaluatedExpr] do not change an integer. *)
Fixpoint int_value (idxc : IndexingContext) (rho : string -> Z) (e : expr)
  : Z :=
  let fix sum (l : list expr) : Z :=
    match l with
    | [] => 0
    | a :: l' => int_value idxc rho a + sum l'
    end in
  let fix prod (l : list expr) : Z :=
    match l with
    | [] => 1
    | a :: l' => int_value idxc rho a * prod l'
    end in
  match e with
  | Symbol (Named n) =>
      match idxc_subs idxc !! n with
      | Some z => z
      | None => rho n
      end
  | Integer z => z
  | Add args => sum args
  | Mul args => prod args
  | floor a | ceiling a | UnevaluatedExpr a => int_value idxc rho a
  | _ => 0
  end.

(** The expressions in question: every symbol is frozen or dynamic, every
    sum and product has an argument. *)
Fixpoint integral (idxc : IndexingContext) (dynamics : gmap string ir_value)
    (e : expr) : bool :=
  let fix all (l : list expr) : bool :=
    match l with
    | [] => true
    | a :: l' => integral idxc dynamics a && all l'
    end in
  match e with
  | Symbol (Named n) =>
      bool_decide (is_Some (idxc_subs idxc !! n))
      || bool_decide (is_Some (dynamics !! n))
  | Integer _ => true
  | Add args | Mul args =>
      match args with [] => false | _ => all args end
  | floor a | ceiling a | UnevaluatedExpr a => integral idxc dynamics a
  | _ => false
  end.

(** The dynamic symbols are scalars of type index whose runtime values
    are given by [rho]. *)
Definition dynamics_denote (env : runtime) (rho : string -> Z)
    (dynamics : gmap string ir_value) : Prop :=
  forall n v, dynamics !! n = Some v ->
    type_of v = Scalar IndexType /\ eval env v = Some (RInt (rho n)).

(** A stack item is a concrete scalar of type index whose runtime value is
    [z], wrapped to the width of index. *)
Definition denotes (env : runtime) (it : stack_item) (z : Z) : Prop :=
  exists v, it = Val v /\ type_of v = Scalar IndexType /\
            eval env v = Some (RInt (elem_wrap IndexType z)).

(** Runtime values of the dynamic symbols [ex_dynamics] on thread [t] of
    workgroup 0. *)
Definition ex_rho (t : Z) (n : string) : Z :=
  if decide (n = THREAD_0) then t else 0.

(** A symbol the index compiler can give a value: an iota, a symbol
    frozen in the indexing context or a dynamic one. *)
Definition bound_symbol (idxc : IndexingContext)
    (dynamics : gmap string ir_value) (s : symbol) : Prop :=
  match s with
  | IOTA _ => True
  | Named n => is_Some (idxc_subs idxc !! n) \/ is_Some (dynamics !! n)
  end.

(** The names under which [@handle_op] registers a handler. *)
Definition registered_ops : list string :=
  ["read"; "write"; "shuffle"; "reduction"; "get_result";
   "shared_memory_barrier"; "getitem"] ++ other_handler_names.

(** A node that [_emit_graph] passes over: neither a call nor the output. *)
Definition passed_over (n : fx_node) : Prop :=
  node_op (info_of n) <> "call_function" /\
  node_op (info_of n) <> "call_method" /\
  node_op (info_of n) <> "output".

(** The entry block arguments of type index, in order. *)
Definition index_arguments (args : list ir_value) : list ir_value :=
  filter (fun a => type_of a = Scalar IndexType) args.

(** The tiling constraints among the constraints, in order: dimension and
    induction variable symbol. *)
Definition tiling_constraints (cs : list Constraint)
  : list (string * string) :=
  omap (fun c => match c with
                 | TilingConstraint dim induction_var =>
                     Some (dim, induction_var)
                 | _ => None
                 end) cs.

(** The symbols of the thread and workgroup ids with the values
    [emit_program_invariants] gives them. *)
Definition id_symbols : list (string * ir_value) :=
  [(THREAD_0, gpu_thread_id 0); (THREAD_1, gpu_thread_id 1);
   (THREAD_2, gpu_thread_id 2);
   (WORKGROUP_0, stream_dispatch_workgroup_id 0);
   (WORKGROUP_1, stream_dispatch_workgroup_id 1);
   (WORKGROUP_2, stream_dispatch_workgroup_id 2)].

(** An emitter for a kernel tiled along K and J whose entry block has a
    buffer and two index arguments, with the given dynamic symbols. *)
Definition ex_dynamic_state (symbols : list string) : state :=
  {| _node_values := ∅;
     self := {| constraints := [TilingConstraint "K" "$ARGK";
                                WorkgroupConstraint "M";
                                TilingConstraint "J" "$ARGJ"];
                dynamic_symbols := symbols;
                entry_block_arguments :=
                  [BlockArgument "a" ex_memref;
                   BlockArgument "m" (Scalar IndexType);
                   BlockArgument "n" (Scalar IndexType)];
                resolve_by_reference := ex_resolve;
                workgroup_ids := [];
                thread_ids := [];
                induction_vars := ∅;
                dynamic_dims := ∅;
                ip_ops := [] |};
     next_op := 0;
     op_results := ∅ |}.

(** The branch of [handle_read] a mapping operand selects. *)
Definition read_path (idxc : IndexingContext)
    (find_index_bounds : list Constraint -> index_dict -> option (list string))
    (strides_from_symbolic_shape : IndexingContext -> list string -> list expr)
    (st : state) (node : fx_node) (kb_src : ir_value) (vector_type : ir_type)
    (input_shape_ : list string) (index : index_dict)
    (mapping : option IndexMapping) (ept : nat) : result (ir_value * state) :=
  match mapping with
  | None =>
      read_identity_path idxc find_index_bounds st node kb_src vector_type
        index ept
  | Some m =>
      if _is_identity_mapping m (Some input_shape_) None
      then read_identity_path idxc find_index_bounds st node kb_src
             vector_type index ept
      else read_mapped_path idxc find_index_bounds
             strides_from_symbolic_shape st kb_src vector_type input_shape_
             index m ept
  end.

(** The branch of [handle_write] a mapping operand selects. *)
Definition write_path (idxc : IndexingContext)
    (find_index_bounds : list Constraint -> index_dict -> option (list string))
    (strides_from_symbolic_shape : IndexingContext -> list string -> list expr)
    (st : state) (node : fx_node) (kb_dest insert_vector : ir_value)
    (input_shape_ output_shape_ : list string) (index : index_dict)
    (mapping : option IndexMapping) (ept : nat) : result state :=
  match mapping with
  | None =>
      write_identity_path idxc find_index_bounds st node kb_dest
        insert_vector index ept
  | Some m =>
      if _is_identity_mapping m (Some input_shape_) (Some output_shape_)
      then write_identity_path idxc find_index_bounds st node kb_dest
             insert_vector index ept
      else write_mapped_path idxc find_index_bounds
             strides_from_symbolic_shape st kb_dest insert_vector
             input_shape_ output_shape_ index m ept
  end.

(** The node with other operands. *)
Definition with_args (node : fx_node) (args : list py_arg) : fx_node :=
  match node with
  | FxNode info subgraph =>
      FxNode {| node_name := node_name info;
                node_op := node_op info;
                tkw_op_name := tkw_op_name info;
                node_args := args;
                node_index := node_index info;
                node_count := node_count info;
                memory_type_address_space := memory_type_address_space info;
                is_iter_arg := is_iter_arg info |} subgraph
  end.

(** A mapping that is the identity on both sides. *)
Definition ex_identity : IndexMapping :=
  {| iters := [ex_i; ex_j];
     input_mapping := [("M", Symbol ex_i); ("N", Symbol ex_j)];
     output_mapping := [("M", Symbol ex_i); ("N", Symbol ex_j)] |}.

(** The state after the read of the copy kernel has been lowered with the
    dimension N bounded. *)
Definition ex_after_masked_read : state :=
  match handle_read ex_idxc ex_bounds_N ex_strides ex_ready_state
          ex_read_node with
  | Ok st => st
  | Raise _ => ex_ready_state
  end.

(** The state after a read through [ex_swap_inputs] has been lowered. *)
Definition ex_after_mapped_read : state :=
  match handle_read ex_idxc ex_no_bounds ex_strides ex_ready_state
          (ex_mapped_read ex_swap_inputs) with
  | Ok st => st
  | Raise _ => ex_ready_state
  end.
(** The operand is the node [n]. *)
Definition refers_to (a : py_arg) (n : nat) : Prop :=
  exists r, a = ArgNode r /\ ref_name r = n.

(** The state after the register read by the copy kernel has been written
    through [ex_swap_outputs]. *)
Definition ex_after_mapped_write : state :=
  match handle_write ex_idxc ex_no_bounds ex_strides ex_after_read
          (ex_mapped_write ex_swap_outputs) with
  | Ok st => st
  | Raise _ => ex_after_read
  end.

(** The dynamic symbols of an emitter that has gone through
    [emit_program_invariants] without dynamic dimensions. *)
Definition ex_ready_dynamics : gmap string ir_value :=
  dict_of_zip
    [THREAD_0; THREAD_1; THREAD_2; WORKGROUP_0; WORKGROUP_1; WORKGROUP_2]
    [gpu_thread_id 0; gpu_thread_id 1; gpu_thread_id 2;
     stream_dispatch_workgroup_id 0; stream_dispatch_workgroup_id 1;
     stream_dispatch_workgroup_id 2].

(** [sum(a * b for a, b in zip(l, k))] over the integers. *)
Definition dot_product (l k : list Z) : Z :=
  foldr Z.add 0 (zip_with Z.mul l k).

(** The state after the reduction of the example has been lowered. *)
Definition ex_after_reduction : state :=
  match handle_reduction
          (_emit_graph ex_idxc ex_no_bounds ex_strides ex_other_handlers
             (subgraph_of ex_reduction_node))
          ex_ready_state ex_reduction_node with
  | Ok st => st
  | Raise _ => ex_ready_state
  end.

(** What lowering keeps of an emitter: its attributes but the induction
    variables and the insertion point are unchanged, a registered
    induction variable stays registered, and operations are only appended
    at the insertion point. *)
Definition emitter_kept (e e' : WaveEmitter) : Prop :=
  constraints e' = constraints e /\
  dynamic_symbols e' = dynamic_symbols e /\
  entry_block_arguments e' = entry_block_arguments e /\
  resolve_by_reference e' = resolve_by_reference e /\
  workgroup_ids e' = workgroup_ids e /\
  thread_ids e' = thread_ids e /\
  dynamic_dims e' = dynamic_dims e /\
  (forall a, is_Some (induction_vars e !! a) ->
             is_Some (induction_vars e' !! a)) /\
  exists ops, ip_ops e' = ip_ops e ++ ops.

(** A graph with the reduction of the example, the selection of its
    result and an output node, and the state after it has been lowered. *)
Definition ex_loop_graph : list fx_node :=
  [ex_reduction_node; ex_get_result_node; ex_output_node 42 [ArgNone]].

Definition ex_after_loop : state :=
  match _emit_graph ex_idxc ex_no_bounds ex_strides ex_other_handlers
          ex_loop_graph ex_ready_state with
  | Ok (_, st) => st
  | Raise _ => ex_ready_state
  end.

(** The mask operand of a gather or scatter: the bounds mask, or the
    constant mask of [k] lanes that are all true when no dimension is
    bounded. *)
Definition mask_or_all_true (mask : option ir_value) (k : nat) : ir_value :=
  match mask with
  | Some m => m
  | None => vector_constant_mask (VectorType [k] i1) [k]
  end.

(** An index over three dimensions and an indexing context that freezes
    the three sizes; all three dimensions are bounded. *)
Definition ex_idxc3 : IndexingContext :=
  {| idxc_subs := <["K" := 64]> (idxc_subs ex_idxc) |}.

Definition ex_index3 : index_dict :=
  [("K", ex_seq (Symbol (Named WORKGROUP_0)));
   ("M", ex_seq (Symbol (Named WORKGROUP_1)));
   ("N", ex_seq (Mul [Integer 4; Symbol (Named THREAD_0)]))].

Definition ex_bounds_KMN (cs : list Constraint) (index : index_dict)
  : option (list string) := Some ["K"; "M"; "N"].

Definition ex_bounds_MN (cs : list Constraint) (index : index_dict)
  : option (list string) := Some ["M"; "N"].

(** * Properties *)

(** ** Results *)

Lemma bind_Ok {A B} (m : result A) (f : A -> result B) (b : B) :
  m ≫= f = Ok b <-> exists a, m = Ok a /\ f a = Ok b.
Proof.
  destruct m; simpl; split.
  - eauto.
  - intros (a' & [= <-] & H). done.
  - discriminate.
  - intros (? & ? & ?). discriminate.
Qed.

Lemma fmap_Ok {A B} (m : result A) (f : A -> B) (b : B) :
  f <$> m = Ok b <-> exists a, m = Ok a /\ f a = b.
Proof.
  destruct m; simpl; split.
  - intros [= <-]. eauto.
  - intros (a' & [= <-] & <-). done.
  - discriminate.
  - intros (? & ? & ?). discriminate.
Qed.

(** ** The stack loop computes [lower] *)

(** Induction on expressions, through the argument lists. *)
Lemma expr_nested_ind (P : expr -> Prop)
  (HSym : forall s, P (Symbol s))
  (HInt : forall z, P (Integer z))
  (HRat : forall p q, P (Rational p q))
  (HMul : forall args, Forall P args -> P (Mul args))
  (HAdd : forall args, Forall P args -> P (Add args))
  (HMod : forall p q, P p -> P q -> P (Mod p q))
  (HFloor : forall a, P a -> P (floor a))
  (HCeil : forall a, P a -> P (ceiling a))
  (HLt : forall p q, P p -> P q -> P (StrictLessThan p q))
  (HAnd : forall p q, P p -> P q -> P (And p q))
  (HFalse : P BooleanFalse)
  (HTrue : P BooleanTrue)
  (HUnev : forall a, P a -> P (UnevaluatedExpr a))
  (HOther : forall k args, Forall P args -> P (Other k args)) :
  forall e, P e.
Proof.
  fix IH 1. intros e.
  assert (HL : forall l, Forall P l).
  { fix IHl 1. intros [|a l]; constructor; [apply IH | apply IHl]. }
  destruct e.
  - apply HSym.
  - apply HInt.
  - apply HRat.
  - apply HMul, HL.
  - apply HAdd, HL.
  - apply HMod; apply IH.
  - apply HFloor, IH.
  - apply HCeil, IH.
  - apply HLt; apply IH.
  - apply HAnd; apply IH.
  - apply HFalse.
  - apply HTrue.
  - apply HUnev, IH.
  - apply HOther, HL.
Qed.

Lemma pop_terms_zip args ws stack :
  length ws = length args ->
  pop_terms args (ws ++ stack) = Ok (zip args ws, stack).
Proof.
  revert ws.
  induction args as [|a args IH]; intros [|w ws] Hl; simpl in *; try done.
  rewrite IH by lia. done.
Qed.

Section StackLoop.

Context (idxc : IndexingContext).
Context (dynamics : gmap string ir_value).
Context (ivs : list string).

Lemma run_app l1 l2 stack :
  run idxc dynamics ivs (l1 ++ l2) stack =
  run idxc dynamics ivs l1 stack ≫= run idxc dynamics ivs l2.
Proof.
  revert stack. induction l1 as [|t l1 IH]; intros stack; simpl; [done|].
  destruct (visit idxc dynamics ivs stack t); simpl; [apply IH | done].
Qed.

Lemma lower_args_length l vs :
  lower_args idxc dynamics ivs l = Ok vs -> length vs = length l.
Proof.
  revert vs. induction l as [|a l IH]; intros vs; simpl.
  - intros [= <-]. done.
  - unfold lower_args in *. simpl.
    destruct (lower idxc dynamics ivs a); simpl; [|done].
    destruct (mapM (lower idxc dynamics ivs) l) eqn:E; simpl; [|done].
    intros [= <-]. simpl. f_equal. by apply IH.
Qed.

Lemma run_postorder_args l stack :
  Forall (fun e => forall stack,
    run idxc dynamics ivs (postorder_traversal e) stack =
    lower idxc dynamics ivs e ≫= fun v => Ok (v :: stack)) l ->
  run idxc dynamics ivs (flat_map postorder_traversal l) stack =
  lower_args idxc dynamics ivs l ≫= fun vs => Ok (reverse vs ++ stack).
Proof.
  intros H. revert stack. induction H as [|a l Ha _ IH]; intros stack; [done|].
  unfold lower_args in *. simpl.
  rewrite run_app, Ha.
  destruct (lower idxc dynamics ivs a) as [v|]; simpl; [|done].
  rewrite IH.
  destruct (mapM (lower idxc dynamics ivs) l) as [vs|]; simpl; [|done].
  by rewrite reverse_cons, <- app_assoc.
Qed.

Lemma postorder_go l :
  (fix go (l : list expr) : list expr :=
     match l with
     | [] => []
     | a :: l' => postorder_traversal a ++ go l'
     end) l = flat_map postorder_traversal l.
Proof. induction l as [|a l IH]; simpl; [done | by rewrite IH]. Qed.

Lemma lower_go l :
  (fix lower_args (l : list expr) : result (list stack_item) :=
     match l with
     | [] => Ok []
     | a :: l' =>
         v ← lower idxc dynamics ivs a; vs ← lower_args l'; Ok (v :: vs)
     end) l = lower_args idxc dynamics ivs l.
Proof.
  unfold lower_args.
  induction l as [|a l IH]; simpl; [done|].
  destruct (lower idxc dynamics ivs a); simpl; [|done]. by rewrite IH.
Qed.

Lemma visit_group args vs stack f :
  length vs = length args ->
  (_group_rationals ivs (reverse vs ++ stack) args ≫=
   fun '(args, stack) => _apply args f ≫= fun r => Ok (r :: stack)) =
  _apply (arrange_terms ivs (zip args (reverse vs))) f ≫=
  fun r => Ok (r :: stack).
Proof.
  intros Hl. unfold _group_rationals.
  rewrite pop_terms_zip by (by rewrite length_reverse). done.
Qed.

(** Running the loop over the traversal of [e] pushes [lower e]. *)
Lemma run_lower e : forall stack,
  run idxc dynamics ivs (postorder_traversal e) stack =
  lower idxc dynamics ivs e ≫= fun v => Ok (v :: stack).
Proof.
  induction e as [s|z|p q|args IH|args IH|p q IHp IHq|a IHa|a IHa
                 |p q IHp IHq|p q IHp IHq| | |a IHa|k args IH]
    using expr_nested_ind; intros stack.
  - simpl. destruct (get_val idxc s) as [res|]; simpl.
    + destruct (_get_const res); done.
    + destruct (lookup_dynamics dynamics s); done.
  - done.
  - done.
  - simpl. rewrite postorder_go, lower_go, run_app, run_postorder_args by done.
    destruct (lower_args idxc dynamics ivs args) as [vs|] eqn:E; simpl; [|done].
    apply lower_args_length in E.
    rewrite (visit_group args vs stack _mul E).
    destruct (_apply _ _); done.
  - simpl. rewrite postorder_go, lower_go, run_app, run_postorder_args by done.
    destruct (lower_args idxc dynamics ivs args) as [vs|] eqn:E; simpl; [|done].
    apply lower_args_length in E.
    rewrite (visit_group args vs stack _add E).
    destruct (_apply _ _); done.
  - simpl. rewrite run_app, IHp.
    destruct (lower idxc dynamics ivs p) as [l|]; simpl; [|done].
    rewrite run_app, IHq.
    destruct (lower idxc dynamics ivs q) as [r|]; simpl; [|done].
    unfold binary_concrete, lower_binary. simpl.
    destruct r, l; simpl; try done.
    destruct (broadcast_then _ _ _); done.
  - simpl. rewrite run_app, IHa.
    destruct (lower idxc dynamics ivs a) as [v|]; simpl; [|done].
    destruct (_floor v); done.
  - simpl. rewrite run_app, IHa.
    destruct (lower idxc dynamics ivs a) as [v|]; simpl; [|done].
    destruct (_ceiling v); done.
  - simpl. rewrite run_app, IHp.
    destruct (lower idxc dynamics ivs p) as [l|]; simpl; [|done].
    rewrite run_app, IHq.
    destruct (lower idxc dynamics ivs q) as [r|]; simpl; [|done].
    unfold binary_concrete, lower_binary. simpl.
    destruct r, l; simpl; try done.
    destruct (broadcast_then _ _ _); done.
  - simpl. rewrite run_app, IHp.
    destruct (lower idxc dynamics ivs p) as [l|]; simpl; [|done].
    rewrite run_app, IHq.
    destruct (lower idxc dynamics ivs q) as [r|]; simpl; [|done].
    unfold binary_concrete, lower_binary. simpl.
    destruct r, l; simpl; try done.
    destruct (broadcast_then _ _ _); done.
  - done.
  - done.
  - simpl. rewrite run_app, IHa.
    destruct (lower idxc dynamics ivs a) as [v|]; simpl; done.
  - simpl. rewrite postorder_go, lower_go, run_app, run_postorder_args by done.
    destruct (lower_args idxc dynamics ivs args) as [vs|] eqn:E; simpl; done.
Qed.

Lemma gen_lower e :
  gen_sympy_index idxc dynamics ivs e =
  lower idxc dynamics ivs (subs (idxc_sigma idxc) e) ≫= concrete.
Proof.
  unfold gen_sympy_index. rewrite run_lower.
  destruct (lower _ _ _ _) as [[v|n d]|]; done.
Qed.

Lemma gen_Ok_lower e v :
  gen_sympy_index idxc dynamics ivs e = Ok v ->
  lower idxc dynamics ivs (subs (idxc_sigma idxc) e) = Ok (Val v).
Proof.
  rewrite gen_lower.
  destruct (lower _ _ _ _) as [[w|n d]|]; simpl; [|done..].
  by intros [= <-].
Qed.

(** What the loop leaves on the stack for the arguments of an [And]. *)
Lemma run_And_args args :
  run idxc dynamics ivs (flat_map postorder_traversal args) [] =
  lower_args idxc dynamics ivs args ≫= fun vs => Ok (reverse vs).
Proof.
  rewrite run_postorder_args.
  - destruct (lower_args idxc dynamics ivs args); [|done].
    simpl. by rewrite app_nil_r.
  - apply Forall_forall. intros e _. apply run_lower.
Qed.

(** An [And] node with two arguments is the binary [And]. *)
Lemma gen_And_two p q :
  gen_sympy_index_And idxc dynamics ivs [p; q] =
  gen_sympy_index idxc dynamics ivs (And p q).
Proof.
  rewrite gen_lower. unfold gen_sympy_index_And. cbn zeta.
  rewrite run_And_args. unfold lower_args. cbn [map mapM subs lower].
  destruct (lower idxc dynamics ivs (subs _ p)) as [l|]; [|done].
  cbn [mbind result_bind].
  destruct (lower idxc dynamics ivs (subs _ q)) as [r|]; [|done].
  cbn [mbind result_bind reverse rev_append].
  unfold binary_concrete, lower_binary. cbn [pop mbind result_bind].
  destruct (_enforce_non_rational r); [|done]. cbn [mbind result_bind].
  destruct (_enforce_non_rational l); [|done]. cbn [mbind result_bind].
  by destruct (broadcast_then arith_andi _ _).
Qed.

(** With three or more arguments the two operands popped leave the others
    on the stack, and the final check fails. *)
Lemma gen_And_many args :
  (3 <= length args)%nat ->
  is_ok (gen_sympy_index_And idxc dynamics ivs args) = false.
Proof.
  intros Hlen. unfold gen_sympy_index_And. cbn zeta. rewrite run_And_args.
  destruct (lower_args idxc dynamics ivs _) as [vs|] eqn:Hvs; [|done].
  apply lower_args_length in Hvs. rewrite length_map in Hvs.
  cbn [mbind result_bind].
  destruct (reverse vs) as [|rhs [|lhs [|third rest]]] eqn:Hrev;
    try (apply (f_equal length) in Hrev; rewrite length_reverse in Hrev;
         simpl in Hrev; lia).
  unfold binary_concrete. cbn [pop mbind result_bind].
  destruct rhs as [r|]; [|done]. destruct lhs as [l|]; [|done].
  cbn [_enforce_non_rational mbind result_bind].
  by destruct (broadcast_then arith_andi l r).
Qed.

End StackLoop.

(** ** The broadcast rule *)

Lemma broadcast_same a b :
  type_of a = type_of b -> _broadcast a b = Ok (a, b).
Proof. intros H. unfold _broadcast. by rewrite decide_True. Qed.

Lemma broadcast_vec_scalar a b shape t :
  type_of a = VectorType shape t -> type_of b = Scalar t ->
  _broadcast a b = Ok (a, vector_splat (VectorType shape t) b).
Proof.
  intros Ha Hb. unfold _broadcast, _check_vec_scalar.
  rewrite Ha, Hb. rewrite decide_False by done.
  by rewrite bool_decide_eq_true_2.
Qed.

Lemma broadcast_scalar_vec a b shape t :
  type_of a = Scalar t -> type_of b = VectorType shape t ->
  _broadcast a b = Ok (vector_splat (VectorType shape t) a, b).
Proof.
  intros Ha Hb. unfold _broadcast, _check_vec_scalar.
  rewrite Ha, Hb. rewrite decide_False by done.
  by rewrite bool_decide_eq_true_2.
Qed.

Lemma broadcast_vec_vec_mismatch a b s1 t1 s2 t2 :
  type_of a = VectorType s1 t1 -> type_of b = VectorType s2 t2 ->
  type_of a ≠ type_of b ->
  _broadcast a b = Raise (CodegenError "Cannot broadcast").
Proof.
  intros Ha Hb Hne. unfold _broadcast, _check_vec_scalar.
  rewrite decide_False by done. rewrite Ha, Hb.
  rewrite !bool_decide_eq_false_2 by done. done.
Qed.

(** Lane [i] of an element-wise operation between a vector and a
    replicated scalar. *)
Lemma zip_with_opt_repeat f xs y :
  (forall x x', is_Some (f x y) -> is_Some (f x' y)) ->
  forall i x, xs !! i = Some x ->
  (zip_with_opt f xs (repeat y (length xs)) ≫= fun zs => zs !! i) = f x y.
Proof.
  intros Hdef. induction xs as [|x0 xs IH]; intros i x Hi; [done|].
  simpl. destruct (f x0 y) as [z|] eqn:Ez.
  - destruct (zip_with_opt f xs (repeat y (length xs))) as [zs|] eqn:Ezs.
    + destruct i as [|i]; simpl in *.
      * by injection Hi as <-.
      * specialize (IH i x Hi). done.
    + destruct i as [|i]; simpl in *.
      * injection Hi as <-. exfalso.
        destruct xs as [|x1 xs]; [done|].
        specialize (IH 0%nat x1 eq_refl). simpl in IH.
        destruct (Hdef x0 x1) as [z' Hz']; [by rewrite Ez|]. congruence.
      * by specialize (IH i x Hi).
  - simpl. destruct i as [|i]; simpl in *.
    + by injection Hi as <-.
    + symmetry. destruct (f x y) eqn:E; [|done].
      destruct (Hdef x x0) as [z' Hz']; [by rewrite E|]. congruence.
Qed.

Lemma lift2_vec_splat_lane f xs y i x :
  (forall x x', is_Some (f x y) -> is_Some (f x' y)) ->
  xs !! i = Some x ->
  (lift2 f (Some (RVec xs)) (Some (RVec (repeat y (length xs)))) ≫=
   fun r => lane r i) = f x y.
Proof.
  intros Hdef Hi. simpl.
  rewrite <- (zip_with_opt_repeat f xs y Hdef i x Hi).
  destruct (zip_with_opt f xs _); done.
Qed.

Lemma width_of_op op a b n t :
  op ∈ binary_ops ->
  type_of a = VectorType [n] t ->
  type_of b = VectorType [n] t ->
  shape_of (type_of (op a b)) = [n].
Proof.
  intros Hop Ha Hb. unfold binary_ops in Hop.
  repeat (apply elem_of_cons in Hop as [-> | Hop]); simpl; rewrite ?Ha; try done.
  - unfold muli_fold. repeat case_decide; simpl; by rewrite ?Ha, ?Hb.
  - by apply elem_of_nil in Hop.
Qed.

Lemma op_semantics_defined t op sem y x x' :
  (op, sem) ∈ op_semantics t -> is_Some (sem x y) -> is_Some (sem x' y).
Proof.
  intros Hin. unfold op_semantics in Hin.
  repeat (apply elem_of_cons in Hin as [[= -> ->] | Hin]);
    try (by apply elem_of_nil in Hin);
    unfold sem_addi, sem_muli, sem_divsi, sem_ceildivsi, sem_remsi,
           sem_cmpi_slt, sem_andi;
    try done; destruct (y =? 0); done.
Qed.

Lemma eval_op_semantics env t op sem a b :
  (op, sem) ∈ op_semantics t ->
  element_type_of (type_of a) = t ->
  eval env (op a b) = lift2 sem (eval env a) (eval env b).
Proof.
  intros Hin Ht. unfold op_semantics in Hin.
  repeat (apply elem_of_cons in Hin as [[= -> ->] | Hin]);
    try (by apply elem_of_nil in Hin); simpl; by rewrite ?Ht.
Qed.

(** ** Integer semantics *)

Lemma wrap_signed_range w z :
  0 < w -> - 2 ^ (w - 1) <= wrap_signed w z < 2 ^ (w - 1).
Proof.
  intros Hw. unfold wrap_signed.
  assert (H2 : 2 ^ w = 2 * 2 ^ (w - 1)).
  { rewrite <- Z.pow_succ_r by lia. f_equal. lia. }
  assert (0 < 2 ^ (w - 1)) by (apply Z.pow_pos_nonneg; lia).
  pose proof (Z.mod_pos_bound (z + 2 ^ (w - 1)) (2 ^ w)). lia.
Qed.

Lemma wrap_signed_small w z :
  0 < w -> - 2 ^ (w - 1) <= z < 2 ^ (w - 1) -> wrap_signed w z = z.
Proof.
  intros Hw Hz. unfold wrap_signed.
  assert (H2 : 2 ^ w = 2 * 2 ^ (w - 1)).
  { rewrite <- Z.pow_succ_r by lia. f_equal. lia. }
  rewrite Z.mod_small by lia. lia.
Qed.

Lemma index_wrap_range z :
  index_min <= elem_wrap IndexType z <= index_max.
Proof.
  unfold elem_wrap, index_bitwidth, index_min, index_max.
  pose proof (wrap_signed_range 64 z ltac:(lia)).
  change (64 - 1) with 63 in *. lia.
Qed.

Lemma index_wrap_small z :
  index_min <= z <= index_max -> elem_wrap IndexType z = z.
Proof.
  unfold elem_wrap, index_bitwidth, index_min, index_max. intros H.
  apply wrap_signed_small; [lia|]. change (64 - 1) with 63. lia.
Qed.

Lemma lift2_RInt f a b x :
  lift2 f a b = Some (RInt x) ->
  exists u v, a = Some (RInt u) /\ b = Some (RInt v) /\ f u v = Some x.
Proof.
  destruct a as [[u|us]|], b as [[v|vs]|]; simpl; try done.
  - destruct (f u v) eqn:E; simpl; [|done]. intros [= <-]. eauto.
  - destruct (zip_with_opt f us vs); done.
Qed.

(** Every scalar of type index evaluates inside the 64-bit signed range. *)
Lemma eval_index_range env v x :
  type_of v = Scalar IndexType ->
  eval env v = Some (RInt x) ->
  index_min <= x <= index_max.
Proof.
  intros Ht He.
  destruct v; simpl in Ht, He; try done;
    try (subst ty; injection He as <-; apply index_wrap_range);
    try (injection He as <-; apply index_wrap_range);
    try (rewrite Ht in He; apply lift2_RInt in He as (u & w & _ & _ & He);
         simpl in He;
         unfold sem_addi, sem_muli, sem_divsi, sem_ceildivsi, sem_remsi,
                sem_andi in He;
         try destruct (w =? 0); try done;
         injection He as <-; apply index_wrap_range).
  all: try (subst ty; done).
  destruct (type_of v1); done.
Qed.



Lemma lift2_RVec f a b zs :
  lift2 f a b = Some (RVec zs) -> exists us, a = Some (RVec us).
Proof.
  destruct a as [[u|us]|], b as [[v|vs]|]; simpl; try done.
  - destruct (f u v); done.
  - eauto.
Qed.

(** Only a value of vector type evaluates to a vector. *)
Lemma eval_vector_type env v zs :
  eval env v = Some (RVec zs) ->
  exists shape t, type_of v = VectorType shape t.
Proof.
  revert zs.
  induction v; intros zs He; simpl in He; try done;
    try (apply lift2_RVec in He as [us Hus];
         destruct (IHv1 us Hus) as (shape & t & Ht); simpl; rewrite Ht;
         simpl; eauto).
  - destruct ty; done.
  - destruct ty; try done.
  - destruct ty as [|shape t|]; try done. simpl. eauto.
  - destruct ty as [|shape t|]; try done. simpl. eauto.
  - destruct ty as [|shape t|]; try done. simpl. eauto.
Qed.

Lemma eval_scalar_shape env v t zs :
  type_of v = Scalar t -> eval env v = Some (RVec zs) -> False.
Proof.
  intros Ht He. apply eval_vector_type in He as (shape & t' & He). congruence.
Qed.

(** Only a value of scalar type evaluates to an integer. *)
Lemma eval_int_type env v z :
  eval env v = Some (RInt z) -> exists t, type_of v = Scalar t.
Proof.
  revert z.
  induction v; intros z He; simpl in He; try done;
    try (apply lift2_RInt in He as (u & w & Hu & _ & _);
         destruct (IHv1 u Hu) as (t & Ht); simpl; rewrite Ht; simpl; eauto).
  all: try (destruct ty as [t| |]; try done; simpl; eauto).
  all: try (simpl; eauto).
  all: exfalso; destruct shape as [|n [|]]; try done;
    repeat case_match; done.
Qed.





Lemma type_of_muli_fold x y T :
  type_of x = T -> type_of y = T -> type_of (muli_fold x y) = T.
Proof. intros Hx Hy. unfold muli_fold. repeat case_decide; done. Qed.

Lemma get_const_val_Some v z :
  get_const_val v = Some z -> exists ty, v = arith_constant ty z.
Proof. destruct v; simpl; try done. intros [= <-]. eauto. Qed.

Lemma index_wrap_one : elem_wrap IndexType 1 = 1.
Proof. reflexivity. Qed.

(** Eliding a multiplication by the constant 1 does not change the value. *)
Lemma eval_muli_fold env x y :
  type_of x = Scalar IndexType -> type_of y = Scalar IndexType ->
  eval env (muli_fold x y) = eval env (arith_muli x y).
Proof.
  intros Hx Hy. unfold muli_fold.
  destruct (decide (get_const_val x = Some 1)) as [H1|_].
  { apply get_const_val_Some in H1 as [ty ->]. simpl in Hx. subst ty.
    simpl. rewrite index_wrap_one.
    destruct (eval env y) as [[v|vs]|] eqn:Ey; simpl;
      [|by exfalso; eapply eval_scalar_shape|done].
    unfold sem_muli. simpl. f_equal. f_equal.
    rewrite index_wrap_small; [by destruct v|].
    replace (1 * v) with v by lia. by eapply eval_index_range. }
  destruct (decide (get_const_val y = Some 1)) as [H1|_]; [|done].
  apply get_const_val_Some in H1 as [ty ->]. simpl in Hy. subst ty.
  simpl. rewrite index_wrap_one, Hx. simpl.
  destruct (eval env x) as [[v|vs]|] eqn:Ex; simpl;
    [|by exfalso; eapply eval_scalar_shape|done].
  unfold sem_muli. simpl. f_equal. f_equal.
  rewrite index_wrap_small; [lia|].
  replace (v * 1) with v by lia. by eapply eval_index_range.
Qed.

Lemma sort_two {A} (key : A -> nat) x y :
  sort_by_key_reverse key [x; y] = [x; y] \/
  sort_by_key_reverse key [x; y] = [y; x].
Proof.
  unfold sort_by_key_reverse. simpl. destruct (key y <=? key x)%nat; auto.
Qed.

Lemma arrange_val_rational ivs e1 e2 v n d :
  arrange_terms ivs [(e1, Val v); (e2, _Rational n d)] = [Val v; _Rational n d].
Proof.
  unfold arrange_terms. destruct (0 <? length ivs)%nat; [|done].
  destruct (sort_two (_key ivs) (e1, Val v) (e2, _Rational n d)) as [-> | ->]; done.
Qed.


Lemma arrange_val_val ivs e1 e2 x y :
  arrange_terms ivs [(e1, Val x); (e2, Val y)] = [Val x; Val y] \/
  arrange_terms ivs [(e1, Val x); (e2, Val y)] = [Val y; Val x].
Proof.
  unfold arrange_terms. destruct (0 <? length ivs)%nat; [|by left].
  destruct (sort_two (_key ivs) (e1, Val x) (e2, Val y)) as [-> | ->]; auto.
Qed.

Lemma broadcast_then_same op a b :
  type_of a = type_of b -> broadcast_then op a b = Ok (op a b).
Proof.
  intros H. unfold broadcast_then, _broadcast. by rewrite decide_True.
Qed.



Lemma apply_two f x y : _apply [x; y] f = f x y.
Proof. unfold _apply, fold_apply. by destruct (f x y). Qed.

Lemma mul_val_rational x n d :
  type_of x = Scalar IndexType -> type_of n = Scalar IndexType ->
  _mul (Val x) (_Rational n d) = Ok (_Rational (muli_fold x n) d).
Proof.
  intros Hx Hn. unfold _mul.
  rewrite (broadcast_then_same muli_fold x n) by congruence. done.
Qed.




Lemma same_value_refl v : same_value v v.
Proof. by split. Qed.







Section RationalFolding.

Context (idxc : IndexingContext).
Context (dynamics : gmap string ir_value).
Context (ivs : list string).

#[local] Arguments arrange_terms : simpl never.
#[local] Arguments _apply : simpl never.







Lemma gen_floor_rational e n d :
  lower idxc dynamics ivs (subs (idxc_sigma idxc) e) = Ok (_Rational n d) ->
  type_of n = type_of d ->
  gen_sympy_index idxc dynamics ivs (floor e) = Ok (arith_divsi n d).
Proof.
  intros He Ht. rewrite gen_lower. simpl. rewrite He. simpl.
  by rewrite (broadcast_then_same arith_divsi n d Ht).
Qed.

Lemma gen_ceiling_rational e n d :
  lower idxc dynamics ivs (subs (idxc_sigma idxc) e) = Ok (_Rational n d) ->
  type_of n = type_of d ->
  gen_sympy_index idxc dynamics ivs (ceiling e) = Ok (arith_ceildivsi n d).
Proof.
  intros He Ht. rewrite gen_lower. simpl. rewrite He. simpl.
  by rewrite (broadcast_then_same arith_ceildivsi n d Ht).
Qed.


End RationalFolding.

(** ** Mod *)

Section ModLowering.

Context (idxc : IndexingContext).
Context (dynamics : gmap string ir_value).
Context (ivs : list string).

(** C10: a Mod whose operands lower to concrete values is lowered to
    [arith.remsi]; on index scalars its value is the remainder of the
    truncated division, which has the sign of the left operand: zero or
    negative for a negative left operand. *)
Theorem mod_is_truncated_remainder p q vp vq :
  gen_sympy_index idxc dynamics ivs p = Ok vp ->
  gen_sympy_index idxc dynamics ivs q = Ok vq ->
  gen_sympy_index idxc dynamics ivs (Mod p q) =
    broadcast_then arith_remsi vp vq /\
  (type_of vp = Scalar IndexType -> type_of vq = Scalar IndexType ->
   gen_sympy_index idxc dynamics ivs (Mod p q) = Ok (arith_remsi vp vq) /\
   forall env x y,
     eval env vp = Some (RInt x) -> eval env vq = Some (RInt y) -> y <> 0 ->
     eval env (arith_remsi vp vq) = Some (RInt (Z.rem x y)) /\
     (x < 0 -> Z.rem x y <= 0) /\
     (0 <= x -> 0 <= Z.rem x y) /\
     Z.abs (Z.rem x y) < Z.abs y /\
     x = y * Z.quot x y + Z.rem x y).
Proof.
  intros Hp Hq.
  apply gen_Ok_lower in Hp, Hq.
  assert (Hgen : gen_sympy_index idxc dynamics ivs (Mod p q) =
                 broadcast_then arith_remsi vp vq).
  { rewrite gen_lower. simpl. rewrite Hp, Hq. unfold lower_binary. simpl.
    destruct (broadcast_then arith_remsi vp vq); done. }
  split; [done|]. intros Htp Htq.
  assert (Hb : broadcast_then arith_remsi vp vq = Ok (arith_remsi vp vq)).
  { unfold broadcast_then, _broadcast. rewrite decide_True; [done|congruence]. }
  split; [by rewrite Hgen|].
  intros env x y Hx Hy Hy0.
  pose proof (eval_index_range env vp x Htp Hx) as Hrx.
  pose proof (eval_index_range env vq y Htq Hy) as Hry.
  pose proof (Z.rem_bound_abs x y Hy0) as Habs.
  repeat split.
  - simpl. rewrite Hx, Hy, Htp. simpl. unfold sem_remsi.
    destruct (Z.eqb_spec y 0) as [|_]; [done|]. simpl.
    rewrite index_wrap_small; [done|].
    unfold index_min, index_max in *. lia.
  - intros. apply Z.rem_nonpos; lia.
  - intros. by apply Z.rem_nonneg.
  - done.
  - by apply Z.quot_rem'.
Qed.
End ModLowering.


(** ** The bounds mask *)

Lemma zip_with_opt_map2 (f : Z -> Z -> option Z) (g : Z -> Z -> Z) xs ys :
  (forall x y, f x y = Some (g x y)) ->
  length xs = length ys ->
  zip_with_opt f xs ys = Some (zip_with g xs ys).
Proof.
  intros Hf. revert ys. induction xs as [|x xs IH]; intros [|y ys] Hl;
    simpl in *; try done.
  rewrite Hf, IH by lia. done.
Qed.

Lemma zip_with_map_seq {A B C} (g : A -> B -> C) (f1 : nat -> A) (f2 : nat -> B) l :
  zip_with g (map f1 l) (map f2 l) = map (fun i => g (f1 i) (f2 i)) l.
Proof. induction l; simpl; [done | by f_equal]. Qed.

Lemma repeat_map_seq {A} (x : A) k j : repeat x k = map (fun _ => x) (seq j k).
Proof. revert j. induction k; intros j; simpl; [done | by f_equal]. Qed.

Lemma andi_bits b1 b2 :
  elem_wrap i1 (Z.land (b2z b1) (b2z b2)) = b2z (b1 && b2).
Proof. by destruct b1, b2. Qed.

Lemma and_denotes k env v1 v2 f1 f2 :
  mask_denotes k env v1 f1 -> mask_denotes k env v2 f2 ->
  exists v, broadcast_then arith_andi v1 v2 = Ok v /\
            mask_denotes k env v (fun i => f1 i && f2 i).
Proof.
  intros [[Ht1 (b1 & He1 & Hf1)] | [Ht1 He1]] [[Ht2 (b2 & He2 & Hf2)] | [Ht2 He2]].
  - exists (arith_andi v1 v2). split.
    { unfold broadcast_then, _broadcast. rewrite decide_True by congruence. done. }
    left. split; [done|]. exists (b1 && b2). split.
    + simpl. rewrite He1, He2, Ht1. simpl. by rewrite andi_bits.
    + intros i. by rewrite Hf1, Hf2.
  - exists (arith_andi (vector_splat (VectorType [k] i1) v1) v2). split.
    { unfold broadcast_then.
      by rewrite (broadcast_scalar_vec v1 v2 [k] i1 Ht1 Ht2). }
    right. split; [done|].
    simpl. rewrite He1, He2. simpl.
    rewrite (repeat_map_seq _ k 0).
    rewrite (zip_with_opt_map2 _ (fun x y => elem_wrap i1 (Z.land x y)));
      [|done|by rewrite !length_map].
    simpl. f_equal. f_equal. rewrite zip_with_map_seq.
    apply map_ext. intros i. rewrite Hf1. by destruct b1, (f2 i).
  - exists (arith_andi v1 (vector_splat (VectorType [k] i1) v2)). split.
    { unfold broadcast_then.
      by rewrite (broadcast_vec_scalar v1 v2 [k] i1 Ht1 Ht2). }
    right. split; [done|].
    simpl. rewrite He1, He2, Ht1. simpl.
    rewrite (repeat_map_seq _ k 0).
    rewrite (zip_with_opt_map2 _ (fun x y => elem_wrap i1 (Z.land x y)));
      [|done|by rewrite !length_map].
    simpl. f_equal. f_equal. rewrite zip_with_map_seq.
    apply map_ext. intros i. rewrite Hf2. by destruct b2, (f1 i).
  - exists (arith_andi v1 v2). split.
    { unfold broadcast_then, _broadcast. rewrite decide_True by congruence. done. }
    right. split; [done|].
    simpl. rewrite He1, He2, Ht1. simpl.
    rewrite (zip_with_opt_map2 _ (fun x y => elem_wrap i1 (Z.land x y)));
      [|done|by rewrite !length_map].
    simpl. f_equal. f_equal. rewrite zip_with_map_seq.
    apply map_ext. intros i. by destruct (f1 i), (f2 i).
Qed.

Lemma length_lane_offsets k : length (lane_offsets k) = k.
Proof. unfold lane_offsets. by rewrite length_map, length_seq. Qed.

Lemma index_wrap_mod_add a b :
  elem_wrap IndexType (elem_wrap IndexType a + b) = elem_wrap IndexType (a + b).
Proof.
  unfold elem_wrap, wrap_signed, index_bitwidth.
  f_equal. change (64 - 1) with 63.
  replace ((a + 2 ^ 63) mod 2 ^ 64 - 2 ^ 63 + b + 2 ^ 63)
    with ((a + 2 ^ 63) mod 2 ^ 64 + b) by lia.
  rewrite Zplus_mod_idemp_l. f_equal. lia.
Qed.

Section Mask.

Context (idxc : IndexingContext).
Context (dynamics : gmap string ir_value).
Context (ivs : list string).
Context (k : nat).
Context (env : runtime).

Lemma pred_denotes_and p1 p2 f1 f2 :
  pred_denotes idxc dynamics ivs k env p1 f1 -> pred_denotes idxc dynamics ivs k env p2 f2 ->
  pred_denotes idxc dynamics ivs k env (And p1 p2) (fun i => f1 i && f2 i).
Proof.
  intros (v1 & Hl1 & Hd1) (v2 & Hl2 & Hd2).
  destruct (and_denotes k env v1 v2 f1 f2 Hd1 Hd2) as (v & Hb & Hd).
  exists v. split; [|done].
  simpl. rewrite Hl1, Hl2. unfold lower_binary. simpl. by rewrite Hb.
Qed.

Lemma pred_denotes_ext p f g :
  (forall i, f i = g i) -> pred_denotes idxc dynamics ivs k env p f -> pred_denotes idxc dynamics ivs k env p g.
Proof.
  intros Hfg (v & Hl & [[Ht (b & He & Hb)] | [Ht He]]); exists v; split; try done.
  - left. split; [done|]. exists b. split; [done|]. intros i. by rewrite <- Hfg.
  - right. split; [done|]. rewrite He. f_equal. f_equal.
    apply map_ext. intros i. by rewrite Hfg.
Qed.

Lemma pred_denotes_fold ps : forall fs p0 f0,
  pred_denotes idxc dynamics ivs k env p0 f0 ->
  Forall2 (pred_denotes idxc dynamics ivs k env) ps fs ->
  pred_denotes idxc dynamics ivs k env (foldl And p0 ps)
    (fun i => f0 i && forallb (fun f => f i) fs).
Proof.
  induction ps as [|p ps IH]; intros fs p0 f0 H0 Hps.
  - apply Forall2_nil_inv_l in Hps as ->. simpl.
    eapply pred_denotes_ext; [|exact H0]. intros i. by rewrite andb_true_r.
  - apply Forall2_cons_inv_l in Hps as (f & fs' & Hp & Hps & ->). simpl.
    eapply pred_denotes_ext; [|apply (IH fs' (And p0 p) (fun i => f0 i && f i))].
    + intros i. simpl. by rewrite andb_assoc.
    + by apply pred_denotes_and.
    + done.
Qed.

Lemma lower_iota :
  lower idxc dynamics ivs (iota k) =
  Ok (Val (arith_constant_dense (VectorType [k] IndexType) (lane_offsets k))).
Proof. simpl. by rewrite length_lane_offsets. Qed.

Lemma key_iota it : _key ivs (iota k, it) = 0%nat.
Proof.
  unfold _key. simpl. induction ivs as [|s l IH]; [done|].
  rewrite filter_cons. rewrite decide_False; [done|].
  by intros H.
Qed.

Lemma arrange_before_iota e x y :
  arrange_terms ivs [(e, Val x); (iota k, Val y)] = [Val x; Val y].
Proof.
  unfold arrange_terms. destruct (0 <? length ivs)%nat; [|done].
  unfold sort_by_key_reverse. simpl. by rewrite key_iota.
Qed.

(** The predicate of a dimension that is not the innermost one. *)
Lemma pred_denotes_plain e size sv bv s B :
  lower idxc dynamics ivs e = Ok (Val sv) ->
  lower idxc dynamics ivs size = Ok (Val bv) ->
  type_of sv = Scalar IndexType -> type_of bv = Scalar IndexType ->
  eval env sv = Some (RInt s) -> eval env bv = Some (RInt B) ->
  pred_denotes idxc dynamics ivs k env (py_lt e size)
    (fun _ => elem_wrap IndexType (s + 0) <? B).
Proof.
  intros Hle Hls Hts Htb Hes Heb.
  exists (arith_cmpi_slt sv bv). split.
  { simpl. rewrite Hle, Hls. unfold lower_binary. simpl.
    rewrite (broadcast_then_same arith_cmpi_slt sv bv); [done|congruence]. }
  left. split; [simpl; by rewrite Hts|].
  exists (s <? B). split.
  - simpl. by rewrite Hes, Heb.
  - intros _. rewrite Z.add_0_r, index_wrap_small; [done|].
    exact (eval_index_range env sv s Hts Hes).
Qed.

(** The predicate of the innermost dimension, one lane per offset. *)
Lemma pred_denotes_lane e size sv bv s B :
  lower idxc dynamics ivs e = Ok (Val sv) ->
  lower idxc dynamics ivs size = Ok (Val bv) ->
  type_of sv = Scalar IndexType -> type_of bv = Scalar IndexType ->
  eval env sv = Some (RInt s) -> eval env bv = Some (RInt B) ->
  pred_denotes idxc dynamics ivs k env (py_lt (py_add e (iota k)) size)
    (fun i => elem_wrap IndexType (s + Z.of_nat i) <? B).
Proof.
  intros Hle Hls Hts Htb Hes Heb.
  exists (arith_cmpi_slt
            (arith_addi (arith_constant_dense (VectorType [k] IndexType) (lane_offsets k)) (vector_splat (VectorType [k] IndexType) sv))
            (vector_splat (VectorType [k] IndexType) bv)).
  split.
  { unfold py_lt, py_add. cbn [lower]. rewrite Hle.
    change (lower idxc dynamics ivs (Symbol (IOTA k)))
      with (lower idxc dynamics ivs (iota k)).
    rewrite lower_iota. cbn [mbind result_bind reverse rev_append zip zip_with].
    unfold reverse. cbn [rev_append zip zip_with].
    rewrite arrange_before_iota, apply_two. unfold _add, broadcast_then.
    rewrite (broadcast_vec_scalar (arith_constant_dense (VectorType [k] IndexType) (lane_offsets k)) sv [k] IndexType eq_refl Hts).
    cbn [mbind result_bind fmap result_fmap]. rewrite Hls.
    unfold lower_binary, broadcast_then.
    cbn [mbind result_bind _enforce_non_rational].
    rewrite (broadcast_vec_scalar
               (arith_addi (arith_constant_dense (VectorType [k] IndexType) (lane_offsets k)) (vector_splat (VectorType [k] IndexType) sv)) bv
               [k] IndexType eq_refl Htb).
    done. }
  right. split; [done|].
  cbn [eval type_of element_type_of]. rewrite Hes, Heb.
  rewrite decide_True by apply length_lane_offsets.
  cbn [lift2].
  rewrite (repeat_map_seq s k 0), (repeat_map_seq B k 0).
  unfold lane_offsets. rewrite !map_map.
  rewrite (zip_with_opt_map2 (sem_addi IndexType)
             (fun x y => elem_wrap IndexType (x + y)));
    [|done|by rewrite !length_map].
  cbn [fmap option_fmap option_map]. rewrite zip_with_map_seq.
  cbn [lift2].
  rewrite (zip_with_opt_map2 sem_cmpi_slt
             (fun x y => if x <? y then 1 else 0));
    [|done|by rewrite !length_map].
  cbn [fmap option_fmap option_map]. rewrite zip_with_map_seq.
  f_equal. f_equal. apply map_ext. intros i.
  rewrite index_wrap_mod_add, (Z.add_comm (Z.of_nat i) s).
  by destruct (_ <? _).
Qed.
End Mask.

Lemma subs_foldl_And sigma ps : forall p0,
  subs sigma (foldl And p0 ps) = foldl And (subs sigma p0) (map (subs sigma) ps).
Proof. induction ps as [|p ps IH]; intros p0; simpl; [done | by rewrite IH]. Qed.

Lemma gen_full_inv idxc em e v :
  _gen_sympy_index_full idxc em e = Ok v ->
  exists dyn ivs vars,
    get_emitter_subs em = Ok dyn /\ get_induction_vars em = Ok (ivs, vars) /\
    gen_sympy_index idxc dyn ivs e = Ok v.
Proof.
  unfold _gen_sympy_index_full. intros H.
  destruct (get_emitter_subs em) as [dyn|]; [|done]. simpl in H.
  destruct (get_induction_vars em) as [[ivs vars]|]; [|done]. simpl in H.
  by exists dyn, ivs, vars.
Qed.

Lemma gen_full_eq idxc em dyn ivs vars e :
  get_emitter_subs em = Ok dyn -> get_induction_vars em = Ok (ivs, vars) ->
  _gen_sympy_index_full idxc em e = gen_sympy_index idxc dyn ivs e.
Proof. intros H1 H2. unfold _gen_sympy_index_full. by rewrite H1, H2. Qed.

Section BoundsMask.

Context (idxc : IndexingContext).
Context (find_index_bounds :
           list Constraint -> index_dict -> option (list string)).
Context (em : WaveEmitter).
Context (index : index_dict).
Context (k : nat).
Context (env : runtime).
Context (starts sizes : string -> Z).

Lemma dict_get_new_index ld d e :
  index_start index d = Some e ->
  dict_get (new_index_of index k ld) d =
  Ok (if decide (d = ld) then py_add e (iota k) else e).
Proof.
  unfold index_start, dict_get, new_index_of. intros H.
  rewrite <- !list_fmap_compose.
  change (map ?f ?l) with (f <$> l).
  rewrite list_find_fmap.
  rewrite (list_find_ext _ (fun kv : string * index_entry => kv.1 = d)).
  2: { intros [key entry]. simpl. by destruct (decide (key = ld)). }
  destruct (list_find _ index) as [[j [key entry]]|] eqn:Ef; [|done].
  injection H as <-. simpl.
  apply list_find_Some in Ef as (_ & Hk & _). simpl in Hk. subst key.
  by destruct (decide (d = ld)).
Qed.

Lemma lane_offset_last ld d i :
  last_dim index = Some ld ->
  lane_offset index d i = if decide (d = ld) then Z.of_nat i else 0.
Proof.
  intros H. unfold lane_offset. rewrite H.
  destruct (decide (d = ld)) as [->|Hne].
  - by rewrite decide_True.
  - rewrite decide_False; [done|]. congruence.
Qed.

Lemma bound_pred_denotes dyn ivs vars ld d :
  get_emitter_subs em = Ok dyn -> get_induction_vars em = Ok (ivs, vars) ->
  last_dim index = Some ld ->
  bounded_dim_lowers idxc em env index starts sizes d ->
  exists e, index_start index d = Some e /\
    pred_denotes idxc dyn ivs k env
      (subs (idxc_sigma idxc) (bound_pred k ld d e))
      (fun i => elem_wrap IndexType (starts d + lane_offset index d i)
                <? sizes d).
Proof.
  intros Hdyn Hivs Hld (e & sv & bv & He & Hsv & Htsv & Hbv & Htbv & Hes & Heb).
  exists e. split; [done|].
  rewrite (gen_full_eq _ _ _ _ _ _ Hdyn Hivs) in Hsv.
  rewrite (gen_full_eq _ _ _ _ _ _ Hdyn Hivs) in Hbv.
  apply gen_Ok_lower in Hsv, Hbv.
  unfold bound_pred.
  eapply pred_denotes_ext.
  { intros i. by rewrite (lane_offset_last ld d i Hld). }
  destruct (decide (d = ld)) as [->|Hne].
  - apply (pred_denotes_lane _ _ _ _ _ _ _ sv bv); done.
  - apply (pred_denotes_plain _ _ _ _ _ _ _ sv bv); done.
Qed.

Lemma mapM_bound_preds dyn ivs vars ld bounds :
  get_emitter_subs em = Ok dyn -> get_induction_vars em = Ok (ivs, vars) ->
  last_dim index = Some ld ->
  Forall (bounded_dim_lowers idxc em env index starts sizes) bounds ->
  exists preds,
    mapM (fun dim => e ← dict_get (new_index_of index k ld) dim;
                     Ok (py_lt e (Symbol (Named dim)))) bounds = Ok preds /\
    Forall2 (pred_denotes idxc dyn ivs k env)
      (map (subs (idxc_sigma idxc)) preds)
      (map (fun d i => elem_wrap IndexType (starts d + lane_offset index d i)
                       <? sizes d) bounds).
Proof.
  intros Hdyn Hivs Hld Hb.
  induction Hb as [|d bounds Hd _ (preds & Hm & Hf)].
  - exists []. split; [done | constructor].
  - destruct (bound_pred_denotes dyn ivs vars ld d Hdyn Hivs Hld Hd)
      as (e & He & Hp).
    exists (bound_pred k ld d e :: preds). split.
    + simpl. rewrite (dict_get_new_index ld d e He). simpl.
      rewrite Hm. done.
    + simpl. by constructor.
Qed.

Lemma forallb_map_apply (f : string -> nat -> bool) ds i :
  forallb (fun g => g i) (map f ds) = forallb (fun d => f d i) ds.
Proof. induction ds as [|d ds IH]; simpl; [done | by rewrite IH]. Qed.

Lemma index_start_nonempty d e :
  index_start index d = Some e -> exists ld, last_dim index = Some ld.
Proof.
  unfold index_start, last_dim. intros H.
  destruct index as [|kv l] eqn:E; [done|].
  destruct (last (map fst (kv :: l))) eqn:El; [eauto|].
  apply last_None in El. done.
Qed.

(** With one or two bounded dimensions: the mask is a vector of [k]
    booleans, lane [i] the conjunction of the predicates of the bounded
    dimensions. *)
Lemma build_mask_bounded bounds :
  find_index_bounds (constraints em) index = Some bounds ->
  bounds <> [] ->
  (length bounds <= 2)%nat ->
  Forall (bounded_dim_lowers idxc em env index starts sizes) bounds ->
  exists mask,
    _build_mask idxc find_index_bounds em index k = Ok (Some mask) /\
    type_of mask = VectorType [k] i1 /\
    eval env mask =
      Some (RVec (map (fun i => b2z (lane_in_bounds index starts sizes
                                       bounds i)) (seq 0 k))).
Proof.
  intros Hfib Hne Hlen Hb.
  destruct bounds as [|d0 ds]; [done|].
  pose proof (Forall_inv Hb) as Hd0.
  destruct Hd0 as (e0 & sv0 & bv0 & He0 & Hsv0 & _).
  destruct (index_start_nonempty d0 e0 He0) as (ld & Hld).
  apply gen_full_inv in Hsv0 as (dyn & ivs & vars & Hdyn & Hivs & _).
  destruct (mapM_bound_preds dyn ivs vars ld (d0 :: ds) Hdyn Hivs Hld Hb)
    as (preds & Hm & Hf).
  destruct preds as [|p0 ps].
  { simpl in Hf. apply Forall2_nil_inv_l in Hf. done. }
  simpl in Hf. apply Forall2_cons_1 in Hf as [Hp0 Hps].
  pose proof (pred_denotes_fold idxc dyn ivs k env _ _ _ _ Hp0 Hps)
    as (v & Hlow & Hden).
  rewrite <- subs_foldl_And in Hlow.
  assert (Hgen : gen_mask_expr idxc em (p0 :: ps) = Ok v).
  { assert (length ps <= 1)%nat as Hps'.
    { apply Forall2_length in Hps. rewrite !length_map in Hps.
      simpl in Hlen. lia. }
    destruct ps as [|p1 [|p2 ps]]; [| |simpl in Hps'; lia].
    - cbn [gen_mask_expr foldl] in *.
      rewrite (gen_full_eq _ _ _ _ _ _ Hdyn Hivs), gen_lower, Hlow. done.
    - cbn [gen_mask_expr foldl] in *. rewrite Hdyn, Hivs.
      cbn [mbind result_bind]. rewrite gen_And_two, gen_lower, Hlow. done. }
  assert (Hexpr : mask_preds index k (d0 :: ds) = Ok (p0 :: ps)).
  { unfold mask_preds. unfold last_dim in Hld. unfold py_last. rewrite Hld.
    cbn [mbind result_bind].
    change (map (fun kv : string * expr => _) (map _ index))
      with (new_index_of index k ld).
    exact Hm. }
  unfold _build_mask. rewrite Hfib, Hexpr. cbn [mbind result_bind].
  rewrite Hgen. cbn [mbind result_bind].
  assert (Hfun : forall i,
    ((fun d i => elem_wrap IndexType (starts d + lane_offset index d i)
                 <? sizes d) d0 i &&
     forallb (fun f => f i)
       (map (fun d i => elem_wrap IndexType (starts d + lane_offset index d i)
                        <? sizes d) ds)) =
    lane_in_bounds index starts sizes (d0 :: ds) i).
  { intros i. unfold lane_in_bounds. simpl. by rewrite forallb_map_apply. }
  destruct Hden as [[Ht (b & He & Hfb)] | [Ht He]].
  - rewrite decide_True by (rewrite Ht; done).
    eexists. split; [done|]. split; [done|].
    cbn [eval]. rewrite He. f_equal. f_equal.
    rewrite (repeat_map_seq _ k 0). apply map_ext. intros i.
    by rewrite <- Hfun, Hfb.
  - rewrite decide_False by (rewrite Ht; intros H; by apply H).
    eexists. split; [done|]. split; [done|].
    rewrite He. f_equal. f_equal. apply map_ext. intros i.
    by rewrite <- Hfun.
Qed.

End BoundsMask.

Lemma lookup_node_values_self st n vs st' :
  lookup_node_values st n = Ok (vs, st') -> self st' = self st.
Proof.
  unfold lookup_node_values. destruct (_node_values st !! n).
  - by intros [= _ <-].
  - destruct (resolve_by_reference (self st) n); simpl; [|done].
    by intros [= _ <-].
Qed.

Lemma cast_py_value_self st a t v st' :
  cast_py_value st a t = Ok (v, st') -> self st' = self st.
Proof.
  unfold cast_py_value. destruct a; try done.
  - destruct (lookup_node_values st (ref_name n)) as [[vs st1]|] eqn:E; [|done].
    simpl. apply lookup_node_values_self in E.
    destruct vs as [|v0 [|]]; try done. by intros [= _ <-].
  - by intros [= _ <-].
Qed.

Lemma cast_kernel_buffer_self st a v ty st' :
  cast_kernel_buffer st a = Ok (v, ty, st') -> self st' = self st.
Proof.
  unfold cast_kernel_buffer.
  destruct (cast_py_value st a None) as [[v0 st1]|] eqn:E; [|done]. simpl.
  apply cast_py_value_self in E.
  destruct (type_of v0); try done. by intros [= _ _ <-].
Qed.

Lemma cast_vector_self st a t v st' :
  cast_vector st a t = Ok (v, st') -> self st' = self st.
Proof.
  unfold cast_vector.
  destruct (cast_py_value st a t) as [[v0 st1]|] eqn:E; [|done]. simpl.
  apply cast_py_value_self in E.
  destruct (type_of v0); by intros [= _ <-].
Qed.

Section Unbounded.

Context (idxc : IndexingContext).
Context (find_index_bounds :
           list Constraint -> index_dict -> option (list string)).
Context (strides_from_symbolic_shape :
           IndexingContext -> list string -> list expr).

Lemma read_identity_unbounded st node kb vt index k starts :
  find_index_bounds (constraints (self st)) index = None ->
  _build_start_indices idxc (self st) index = Ok starts ->
  read_identity_path idxc find_index_bounds st node kb vt index k =
  Ok (OpResult (next_op st) 0 vt,
      insert_op (vector_load (next_op st) vt kb starts)
        (create_op [vt] st).2).
Proof.
  intros Hfib Hs. unfold read_identity_path, _build_mask.
  rewrite Hs, Hfib. done.
Qed.

Lemma write_identity_unbounded st node kb v index k starts :
  find_index_bounds (constraints (self st)) index = None ->
  _build_start_indices idxc (self st) index = Ok starts ->
  write_identity_path idxc find_index_bounds st node kb v index k =
  Ok (insert_op (vector_store v kb starts) st).
Proof.
  intros Hfib Hs. unfold write_identity_path, _build_mask.
  rewrite Hs, Hfib. done.
Qed.

Lemma handle_read_unbounded st node memory ept mapping unused index shape st' :
  node_args (info_of node) = [memory; ept; mapping; unused] ->
  node_index (info_of node) = Some index ->
  _get_symbolic_shape memory = Ok shape ->
  identity_or_absent mapping (Some shape) None ->
  find_index_bounds (constraints (self st)) index = None ->
  handle_read idxc find_index_bounds strides_from_symbolic_shape st node
    = Ok st' ->
  exists id vt kb starts,
    ip_ops (self st') =
    ip_ops (self st) ++ [vector_load id vt kb starts].
Proof.
  intros Hargs Hidx Hshape Hmap Hfib. unfold handle_read.
  rewrite Hargs, Hidx.
  destruct (cast_py_literal ept) as [k|]; [|done]. simpl.
  destruct (cast_kernel_buffer st memory) as [[[kb ty] st1]|] eqn:Ekb; [|done].
  simpl. apply cast_kernel_buffer_self in Ekb.
  rewrite Hshape. simpl.
  assert (Hpath : forall r,
    read_identity_path idxc find_index_bounds st1 node kb
      (VectorType [k] (element_type_of ty)) index k = Ok r ->
    exists id vt kb' starts,
      ip_ops (self r.2) = ip_ops (self st) ++ [vector_load id vt kb' starts]).
  { intros r. unfold read_identity_path, _build_mask.
    rewrite Ekb, Hfib.
    destruct (_build_start_indices idxc (self st) index) as [starts|]; [|done].
    simpl. intros [= <-]. simpl. rewrite Ekb. eauto. }
  destruct Hmap as [-> | (m & -> & Hid)]; simpl.
  - destruct (read_identity_path _ _ _ _ _ _ _ _) as [[res st2]|] eqn:E; [|done].
    simpl. intros [= <-]. simpl. apply (Hpath _ eq_refl).
  - rewrite Hid.
    destruct (read_identity_path _ _ _ _ _ _ _ _) as [[res st2]|] eqn:E; [|done].
    simpl. intros [= <-]. simpl. apply (Hpath _ eq_refl).
Qed.

Lemma handle_write_unbounded st node register memory ept mapping index
    in_shape out_shape st' :
  node_args (info_of node) = [register; memory; ept; mapping] ->
  node_index (info_of node) = Some index ->
  _get_symbolic_shape register = Ok in_shape ->
  _get_symbolic_shape memory = Ok out_shape ->
  identity_or_absent mapping (Some in_shape) (Some out_shape) ->
  find_index_bounds (constraints (self st)) index = None ->
  handle_write idxc find_index_bounds strides_from_symbolic_shape st node
    = Ok st' ->
  exists v kb starts,
    ip_ops (self st') = ip_ops (self st) ++ [vector_store v kb starts].
Proof.
  intros Hargs Hidx Hin Hout Hmap Hfib. unfold handle_write.
  rewrite Hargs, Hidx.
  destruct (cast_kernel_buffer st memory) as [[[kb ty] st1]|] eqn:Ekb; [|done].
  simpl. apply cast_kernel_buffer_self in Ekb.
  destruct (cast_vector st1 register _) as [[v st2]|] eqn:Ev; [|done].
  simpl. apply cast_vector_self in Ev.
  destruct (cast_py_literal ept) as [k|]; [|done]. simpl.
  destruct (decide _); [done|].
  rewrite Hin, Hout. simpl.
  assert (Hpath : forall r,
    write_identity_path idxc find_index_bounds st2 node kb v index k = Ok r ->
    exists v' kb' starts,
      ip_ops (self r) = ip_ops (self st) ++ [vector_store v' kb' starts]).
  { intros r. unfold write_identity_path, _build_mask.
    rewrite Ev, Ekb, Hfib.
    destruct (_build_start_indices idxc (self st) index) as [starts|]; [|done].
    simpl. intros [= <-]. simpl. rewrite Ev, Ekb. eauto. }
  destruct Hmap as [-> | (m & -> & Hid)]; simpl.
  - apply Hpath.
  - rewrite Hid. apply Hpath.
Qed.

End Unbounded.

Lemma bounded_dim_start_range idxc em env index starts sizes d :
  bounded_dim_lowers idxc em env index starts sizes d ->
  index_min <= starts d <= index_max.
Proof.
  intros (e & sv & bv & _ & _ & Ht & _ & _ & He & _).
  exact (eval_index_range env sv _ Ht He).
Qed.

Lemma map_seq_lookup {A} (f : nat -> A) k i :
  (i < k)%nat -> map f (seq 0 k) !! i = Some (f i).
Proof.
  intros Hi. change (map f (seq 0 k)) with (f <$> seq 0 k).
  rewrite list_lookup_fmap, lookup_seq_lt by done. done.
Qed.

(** ** The value cache *)

Lemma emit_program_invariants_cache st st' :
  emit_program_invariants st = Ok st' -> _node_values st' = _node_values st.
Proof.
  unfold emit_program_invariants.
  destruct (bind_dynamic_dims _ _ _); simpl; [|done]. by intros [= <-].
Qed.

(** C6 (as amended): binding a node records the new values whether or not
    the node already has an entry; the call cannot fail, an earlier binding
    of the same node is replaced, and the other entries are kept. *)
Theorem bind_replaces_entry (st : state) (node : nat) (proxy : ir_value)
    (proxies : list ir_value) :
  _node_values (bind_node_proxy st node proxy) !! node = Some [proxy] /\
  _node_values (bind_node_proxies st node proxies) !! node = Some proxies /\
  (forall first,
     _node_values (bind_node_proxy (bind_node_proxy st node first) node proxy)
       !! node = Some [proxy]) /\
  (forall other,
     other <> node ->
     _node_values (bind_node_proxy st node proxy) !! other =
     _node_values st !! other).
Proof.
  unfold bind_node_proxy, bind_node_proxies. simpl. repeat split.
  - apply lookup_insert_eq.
  - apply lookup_insert_eq.
  - intros first. apply lookup_insert_eq.
  - intros other Hne. by apply lookup_insert_ne.
Qed.

Lemma call_method_Ok id method p st st' :
  state_of p id = Some st ->
  method st = Ok st' ->
  call_method id method p = Ok (store_state p id st').
Proof. intros H1 H2. unfold call_method. by rewrite H1, H2. Qed.

Lemma cache_at_start_new id args resolve cs syms p cache :
  cache_at_start (new_WaveEmitter id args resolve cs syms p) id = Ok cache ->
  cache = WaveEmitter_node_values p.
Proof.
  unfold cache_at_start, state_of, new_WaveEmitter. cbn [instances].
  rewrite lookup_insert_eq. cbn [mbind option_bind].
  destruct (emit_program_invariants _) as [st'|] eqn:H; [|done].
  cbn [mbind result_bind]. intros [= <-].
  by rewrite (emit_program_invariants_cache _ _ H).
Qed.

Lemma cache_at_start_no_arguments id resolve cs syms p :
  cache_at_start (new_WaveEmitter id [] resolve cs syms p) id
  = Ok (WaveEmitter_node_values p).
Proof.
  unfold cache_at_start, state_of, new_WaveEmitter. cbn [instances].
  by rewrite lookup_insert_eq.
Qed.

(** C2 (as amended): the lowered-value cache is one table of the class,
    shared by all emitter instances and never cleared.  It is empty when
    the first pass after the class definition starts; a pass of a second
    instance starts with the cache exactly as the pass of the first
    instance left it, so every binding created during the first pass is
    visible when the second pass starts. *)
Theorem cache_shared_between_instances (idxc : IndexingContext)
    (find_index_bounds : list Constraint -> index_dict -> option (list string))
    (strides_from_symbolic_shape : IndexingContext -> list string -> list expr)
    (other_handlers : string -> state -> fx_node -> result state)
    (graph : list fx_node) (p : program) (id1 id2 : nat) (st1 st1' : state)
    (args : list ir_value) (resolve : nat -> result ir_value)
    (cs : list Constraint) (syms : list string) :
  state_of p id1 = Some st1 ->
  emit idxc find_index_bounds strides_from_symbolic_shape other_handlers
    st1 graph = Ok st1' ->
  cache_at_start (new_WaveEmitter id1 [] resolve cs syms class_defined) id1
  = Ok ∅ /\
  exists p',
    call_method id1
      (fun st => emit idxc find_index_bounds strides_from_symbolic_shape
                   other_handlers st graph) p = Ok p' /\
    cache_at_start (new_WaveEmitter id2 [] resolve cs syms p') id2
    = Ok (_node_values st1') /\
    (forall cache,
       cache_at_start (new_WaveEmitter id2 args resolve cs syms p') id2
       = Ok cache ->
       forall node values,
         _node_values st1' !! node = Some values ->
         cache !! node = Some values).
Proof.
  intros Hst Hemit. split; [apply cache_at_start_no_arguments|].
  exists (store_state p id1 st1'). split; [|split].
  - by apply call_method_Ok with st1.
  - apply cache_at_start_no_arguments.
  - intros cache Hc node values Hn.
    by rewrite (cache_at_start_new _ _ _ _ _ _ _ Hc).
Qed.

(** ** The sides of an index mapping *)

Section MappingSides.

Context (idxc : IndexingContext).
Context (find_index_bounds :
           list Constraint -> index_dict -> option (list string)).
Context (strides_from_symbolic_shape :
           IndexingContext -> list string -> list expr).

Lemma gather_scatter_read_side emitter shape index m ept thread_offset :
  is_output_identity m = false ->
  _construct_gather_scatter_indices idxc find_index_bounds
    strides_from_symbolic_shape emitter shape index m ept true thread_offset
  = Raise (AssertionError "non-identity output mapping is not supported yet").
Proof.
  intros H. unfold _construct_gather_scatter_indices, gather_scatter_setup.
  by rewrite H.
Qed.

Lemma gather_scatter_write_side emitter shape index m ept thread_offset :
  is_input_identity m = false ->
  _construct_gather_scatter_indices idxc find_index_bounds
    strides_from_symbolic_shape emitter shape index m ept false thread_offset
  = Raise (AssertionError "non-identity input mapping is not supported yet").
Proof.
  intros H. unfold _construct_gather_scatter_indices, gather_scatter_setup.
  by rewrite H.
Qed.

Lemma read_mapped_path_side st kb vt shape index m ept :
  (0 < ept)%nat ->
  is_output_identity m = false ->
  read_mapped_path idxc find_index_bounds strides_from_symbolic_shape
    st kb vt shape index m ept
  = Raise (AssertionError "non-identity output mapping is not supported yet").
Proof.
  intros Hept H. unfold read_mapped_path.
  destruct ept as [|ept]; [lia|]. cbn [seq read_lanes].
  by rewrite gather_scatter_read_side.
Qed.

Lemma write_mapped_path_side st kb v ishape oshape index m ept :
  is_input_identity m = false ->
  write_mapped_path idxc find_index_bounds strides_from_symbolic_shape
    st kb v ishape oshape index m ept
  = Raise (AssertionError "non-identity input mapping is not supported yet").
Proof.
  intros H. unfold write_mapped_path.
  destruct (decide _); [done|].
  by rewrite gather_scatter_write_side.
Qed.

Lemma handle_read_mapped st node memory e m x ept shape kb ty st1 index :
  node_args (info_of node) = [memory; e; ArgMapping m; x] ->
  cast_py_literal e = Ok ept ->
  (0 < ept)%nat ->
  cast_kernel_buffer st memory = Ok (kb, ty, st1) ->
  node_index (info_of node) = Some index ->
  _get_symbolic_shape memory = Ok shape ->
  _is_identity_mapping m (Some shape) None = false ->
  is_output_identity m = false ->
  handle_read idxc find_index_bounds strides_from_symbolic_shape st node
  = Raise (AssertionError "non-identity output mapping is not supported yet").
Proof.
  intros Hargs He Hept Hkb Hidx Hshape Hid Hout. unfold handle_read.
  rewrite Hargs, He. cbn [mbind result_bind]. rewrite Hkb, Hidx, Hshape.
  cbn [mbind result_bind as_mapping]. rewrite Hid.
  by rewrite read_mapped_path_side.
Qed.

Lemma handle_read_lowered st node memory e m x ept shape st' :
  node_args (info_of node) = [memory; e; ArgMapping m; x] ->
  cast_py_literal e = Ok ept ->
  (0 < ept)%nat ->
  _get_symbolic_shape memory = Ok shape ->
  _is_identity_mapping m (Some shape) None = false ->
  handle_read idxc find_index_bounds strides_from_symbolic_shape st node
  = Ok st' ->
  is_output_identity m = true.
Proof.
  intros Hargs He Hept Hshape Hid Hok.
  destruct (is_output_identity m) eqn:Hout; [done|].
  destruct (cast_kernel_buffer st memory) as [[[kb ty] st1]|err] eqn:Hkb.
  - destruct (node_index (info_of node)) as [index|] eqn:Hidx.
    + by rewrite (handle_read_mapped st node memory e m x ept shape kb ty st1
                    index) in Hok.
    + unfold handle_read in Hok. rewrite Hargs, He in Hok.
      cbn [mbind result_bind] in Hok. by rewrite Hkb, Hidx in Hok.
  - unfold handle_read in Hok. rewrite Hargs, He in Hok.
    cbn [mbind result_bind] in Hok. by rewrite Hkb in Hok.
Qed.

Lemma handle_write_mapped st node register memory e m ept ishape oshape
    kb ty st1 v st2 index :
  node_args (info_of node) = [register; memory; e; ArgMapping m] ->
  cast_kernel_buffer st memory = Ok (kb, ty, st1) ->
  cast_vector st1 register (Some (element_type_of ty)) = Ok (v, st2) ->
  cast_py_literal e = Ok ept ->
  shape_of (type_of v) = [ept] ->
  node_index (info_of node) = Some index ->
  _get_symbolic_shape register = Ok ishape ->
  _get_symbolic_shape memory = Ok oshape ->
  _is_identity_mapping m (Some ishape) (Some oshape) = false ->
  is_input_identity m = false ->
  handle_write idxc find_index_bounds strides_from_symbolic_shape st node
  = Raise (AssertionError "non-identity input mapping is not supported yet").
Proof.
  intros Hargs Hkb Hv He Hsh Hidx Hi Ho Hid Hin. unfold handle_write.
  rewrite Hargs, Hkb. cbn [mbind result_bind]. rewrite Hv.
  cbn [mbind result_bind]. rewrite He. cbn [mbind result_bind].
  destruct (decide _) as [Hne|_]; [done|].
  rewrite Hidx, Hi, Ho. cbn [mbind result_bind as_mapping]. rewrite Hid.
  by rewrite write_mapped_path_side.
Qed.

Lemma handle_write_lowered st node register memory e m ishape oshape st' :
  node_args (info_of node) = [register; memory; e; ArgMapping m] ->
  _get_symbolic_shape register = Ok ishape ->
  _get_symbolic_shape memory = Ok oshape ->
  _is_identity_mapping m (Some ishape) (Some oshape) = false ->
  handle_write idxc find_index_bounds strides_from_symbolic_shape st node
  = Ok st' ->
  is_input_identity m = true /\ input_shape m = ishape.
Proof.
  intros Hargs Hi Ho Hid Hok. unfold handle_write in Hok.
  rewrite Hargs in Hok.
  destruct (cast_kernel_buffer st memory) as [[[kb ty] st1]|]; [|done].
  cbn [mbind result_bind] in Hok.
  destruct (cast_vector st1 register _) as [[v st2]|]; [|done].
  cbn [mbind result_bind] in Hok.
  destruct (cast_py_literal e) as [ept|]; [|done].
  cbn [mbind result_bind] in Hok.
  destruct (decide _); [done|].
  destruct (node_index (info_of node)) as [index|]; [|done].
  rewrite Hi, Ho in Hok. cbn [mbind result_bind as_mapping] in Hok.
  rewrite Hid in Hok. unfold write_mapped_path in Hok.
  destruct (decide (ishape ≠ input_shape m)) as [|Heq]; [done|].
  split; [|by destruct (decide (input_shape m = ishape)); [|exfalso; auto]].
  destruct (is_input_identity m) eqn:Hin; [done|].
  by rewrite gather_scatter_write_side in Hok.
Qed.

End MappingSides.

(** C1 (as amended): a read lowered with a non-identity mapping requires
    the mapping to be the identity on its output side, and a write lowered
    with a non-identity mapping requires it to be the identity on its input
    side (with the register's shape as its input shape).  A mapping that is
    not the identity on the required side fails the assertion
    [non-identity ... mapping is not supported yet], in the offset
    synthesizer and in the handlers, so a mapping that is the identity on
    neither side is never lowered. *)
Theorem mapping_identity_sides (idxc : IndexingContext)
    (find_index_bounds : list Constraint -> index_dict -> option (list string))
    (strides_from_symbolic_shape : IndexingContext -> list string -> list expr)
    (m : IndexMapping) :
  (forall st node memory e x ept shape st',
     node_args (info_of node) = [memory; e; ArgMapping m; x] ->
     cast_py_literal e = Ok ept ->
     (0 < ept)%nat ->
     _get_symbolic_shape memory = Ok shape ->
     _is_identity_mapping m (Some shape) None = false ->
     handle_read idxc find_index_bounds strides_from_symbolic_shape st node
     = Ok st' ->
     is_output_identity m = true) /\
  (forall st node register memory e ishape oshape st',
     node_args (info_of node) = [register; memory; e; ArgMapping m] ->
     _get_symbolic_shape register = Ok ishape ->
     _get_symbolic_shape memory = Ok oshape ->
     _is_identity_mapping m (Some ishape) (Some oshape) = false ->
     handle_write idxc find_index_bounds strides_from_symbolic_shape st node
     = Ok st' ->
     is_input_identity m = true /\ input_shape m = ishape) /\
  (forall emitter shape index ept thread_offset,
     is_output_identity m = false ->
     _construct_gather_scatter_indices idxc find_index_bounds
       strides_from_symbolic_shape emitter shape index m ept true
       thread_offset
     = Raise (AssertionError
                "non-identity output mapping is not supported yet")) /\
  (forall emitter shape index ept thread_offset,
     is_input_identity m = false ->
     _construct_gather_scatter_indices idxc find_index_bounds
       strides_from_symbolic_shape emitter shape index m ept false
       thread_offset
     = Raise (AssertionError
                "non-identity input mapping is not supported yet")) /\
  (forall st node memory e x ept shape kb ty st1 index,
     node_args (info_of node) = [memory; e; ArgMapping m; x] ->
     cast_py_literal e = Ok ept ->
     (0 < ept)%nat ->
     cast_kernel_buffer st memory = Ok (kb, ty, st1) ->
     node_index (info_of node) = Some index ->
     _get_symbolic_shape memory = Ok shape ->
     _is_identity_mapping m (Some shape) None = false ->
     is_output_identity m = false ->
     handle_read idxc find_index_bounds strides_from_symbolic_shape st node
     = Raise (AssertionError
                "non-identity output mapping is not supported yet")) /\
  (forall st node register memory e ept ishape oshape kb ty st1 v st2 index,
     node_args (info_of node) = [register; memory; e; ArgMapping m] ->
     cast_kernel_buffer st memory = Ok (kb, ty, st1) ->
     cast_vector st1 register (Some (element_type_of ty)) = Ok (v, st2) ->
     cast_py_literal e = Ok ept ->
     shape_of (type_of v) = [ept] ->
     node_index (info_of node) = Some index ->
     _get_symbolic_shape register = Ok ishape ->
     _get_symbolic_shape memory = Ok oshape ->
     _is_identity_mapping m (Some ishape) (Some oshape) = false ->
     is_input_identity m = false ->
     handle_write idxc find_index_bounds strides_from_symbolic_shape st node
     = Raise (AssertionError
                "non-identity input mapping is not supported yet")).
Proof.
  repeat apply conj.
  - intros *. apply handle_read_lowered.
  - intros *. apply handle_write_lowered.
  - intros *. apply gather_scatter_read_side.
  - intros *. apply gather_scatter_write_side.
  - intros *. apply handle_read_mapped.
  - intros *. apply handle_write_mapped.
Qed.

Lemma mapping_identity_sides_witness :
  handle_read ex_idxc ex_no_bounds ex_strides ex_ready_state
    (ex_mapped_read ex_swap_both)
  = Raise (AssertionError "non-identity output mapping is not supported yet")
  /\ handle_write ex_idxc ex_no_bounds ex_strides ex_after_read
       (ex_mapped_write ex_swap_both)
     = Raise (AssertionError
                "non-identity input mapping is not supported yet")
  /\ is_output_identity ex_swap_inputs = true.
Proof.
  pose proof (mapping_identity_sides ex_idxc ex_no_bounds ex_strides
                ex_swap_both) as (_ & _ & _ & _ & Hr & Hw).
  pose proof (mapping_identity_sides ex_idxc ex_no_bounds ex_strides
                ex_swap_inputs) as (Hl & _).
  split; [|split].
  - eapply (Hr ex_ready_state (ex_mapped_read ex_swap_both));
      [reflexivity | reflexivity | simpl; lia | vm_compute; reflexivity
      | reflexivity | reflexivity | reflexivity | reflexivity].
  - eapply (Hw ex_after_read (ex_mapped_write ex_swap_both));
      [reflexivity | vm_compute; reflexivity | vm_compute; reflexivity
      | reflexivity | reflexivity | reflexivity | reflexivity | reflexivity
      | reflexivity | reflexivity].
  - eapply (Hl ex_ready_state (ex_mapped_read ex_swap_inputs));
      [reflexivity | reflexivity | simpl; lia | reflexivity | reflexivity
      | vm_compute; reflexivity].
Defined.

(** A read whose mapping is not the identity on its input side is lowered
    (to gathers), a read whose mapping is the identity on its input side
    but not on its output side is refused; a write whose mapping is not the
    identity on its output side is lowered (to a scatter), and one whose
    mapping is the identity on its output side only is refused. *)
Lemma read_requires_output_identity :
  is_input_identity ex_swap_inputs = false /\
  is_ok (handle_read ex_idxc ex_no_bounds ex_strides ex_ready_state
           (ex_mapped_read ex_swap_inputs)) = true /\
  is_input_identity ex_swap_outputs = true /\
  handle_read ex_idxc ex_no_bounds ex_strides ex_ready_state
    (ex_mapped_read ex_swap_outputs)
  = Raise (AssertionError "non-identity output mapping is not supported yet")
  /\ is_output_identity ex_swap_outputs = false /\
  is_ok (handle_write ex_idxc ex_no_bounds ex_strides ex_after_read
           (ex_mapped_write ex_swap_outputs)) = true /\
  is_output_identity ex_swap_inputs = true /\
  handle_write ex_idxc ex_no_bounds ex_strides ex_after_read
    (ex_mapped_write ex_swap_inputs)
  = Raise (AssertionError "non-identity input mapping is not supported yet").
Proof. repeat split; vm_compute; reflexivity. Qed.

(** After a pass of instance 1 over the copy kernel, the pass of a new
    instance 2 starts with the value of the read node in its cache. *)
Lemma second_pass_sees_first_bindings :
  exists p' cache,
    ex_pass 1 (ex_new_emitter 1 class_defined) = Ok p' /\
    cache_at_start (ex_new_emitter 2 p') 2 = Ok cache /\
    cache !! 10%nat = Some [OpResult 0 0 (VectorType [4%nat] F16Type)].
Proof.
  eexists. eexists. split; [vm_compute; reflexivity|].
  split; [vm_compute; reflexivity|]. vm_compute. reflexivity.
Qed.

Lemma cache_shared_between_instances_witness :
  cache_at_start (ex_new_emitter 1 class_defined) 1 = Ok ∅ /\
  exists p',
    ex_pass 1 (ex_new_emitter 1 class_defined) = Ok p' /\
    cache_at_start (ex_new_emitter 2 p') 2 = Ok (_node_values ex_after_pass).
Proof.
  destruct (cache_shared_between_instances ex_idxc ex_no_bounds ex_strides
              ex_other_handlers ex_copy_graph
              (ex_new_emitter 1 class_defined) 1 2 ex_fresh_state
              ex_after_pass [] ex_resolve
              [WorkgroupConstraint "M"; WorkgroupConstraint "N"] []
              eq_refl eq_refl) as (H0 & p' & Hp & Hc & _).
  split; [exact H0|]. exists p'. split; [exact Hp | exact Hc].
Defined.

(** A second binding of node 7 replaces the first one. *)
Lemma second_bind_overwrites :
  _node_values
    (bind_node_proxy (bind_node_proxy ex_fresh_state 7 (gpu_thread_id 0))
       7 (gpu_thread_id 1)) !! 7%nat = Some [gpu_thread_id 1] /\
  _node_values
    (bind_node_proxies (bind_node_proxy ex_fresh_state 7 (gpu_thread_id 0))
       7 [gpu_thread_id 1; gpu_thread_id 2]) !! 7%nat
  = Some [gpu_thread_id 1; gpu_thread_id 2].
Proof. split; vm_compute; reflexivity. Qed.

Lemma bind_replaces_entry_witness :
  _node_values (bind_node_proxy ex_fresh_state 7 (gpu_thread_id 1))
    !! 8%nat = _node_values ex_fresh_state !! 8%nat.
Proof.
  apply (bind_replaces_entry ex_fresh_state 7 (gpu_thread_id 1) []). lia.
Defined.

(** ** Cross-lane shuffle *)

Lemma shuffle_constant_operands st node src o w :
  node_args (info_of node) = [src; ArgInt o; ArgInt w] ->
  handle_shuffle st node =
  '(v, st1) ← cast_py_value st src None;
  match type_of v with
  | VectorType shape elem =>
      if decide (math_prod shape ≠ 1%nat)
      then Raise (NotImplementedError
             "Currently only support unit vector for shuffleOp.")
      else if negb (_is_float_type elem)
      then Raise (NotImplementedError
             "Currently only support shuffle for floats.")
      else if 32 <? float_width elem
      then Raise (ValueError "Cannot shuffle more than 32 bit.")
      else Ok (bind_node_proxy st1 (node_name (info_of node))
                 (shuffle_steps arith_extf v o w))
  | _ => Raise (NotImplementedError
           "Scalar src is not implemented yet for shuffleOp.")
  end.
Proof.
  intros Hargs. unfold handle_shuffle. rewrite Hargs. cbn [is_int_literal negb orb].
  destruct (cast_py_value st src None) as [[v st1]|]; [|done].
  cbn [mbind result_bind cast_py_value default from_option mret result_ret].
  destruct (type_of v) as [|shape elem|] eqn:Hty; try done.
  destruct (decide (math_prod shape ≠ 1%nat)); [done|].
  destruct (_is_float_type elem) eqn:Hf; [|done]. cbn [negb].
  destruct (32 <? float_width elem) eqn:Hw; [done|].
  do 2 f_equal. unfold shuffle_steps, truncate_back, pad_to_32, scalarize.
  rewrite Hty. cbn [shape_of type_of element_type_of].
  rewrite Hty. cbn [element_type_of].
  destruct (float_width elem <? 32) eqn:Hlt.
  - cbn [type_of]. destruct (decide _) as [|Heq]; [done|].
    exfalso. apply Heq. intros [= ->]. simpl in Hlt. lia.
  - apply Z.ltb_ge in Hlt. apply Z.ltb_ge in Hw.
    cbn [type_of]. rewrite Hty. cbn [element_type_of].
    destruct (decide _) as [Hne|]; [|done]. done.
Qed.

(** C8 (as amended): a shuffle whose offset or width is not an integer
    literal fails (NotImplementedError); an operand that is not a vector of
    one element of a float type of at most 32 bits fails
    (NotImplementedError, or ValueError for more than 32 bits); otherwise
    the operand is reduced to a scalar, extended to f32 by a floating-point
    extension ([arith.extf]) if it is narrower, shuffled by exclusive-or
    lane offset with the given width, truncated back to its element type
    if it was extended, and broadcast to the type of the operand; the node
    is bound to that value. *)
Theorem shuffle_lowering (st : state) (node : fx_node) (src offset width
    : py_arg) :
  node_args (info_of node) = [src; offset; width] ->
  (is_int_literal offset && is_int_literal width = false ->
   handle_shuffle st node
   = Raise (NotImplementedError
        "Non-const width or offset is not yet implemented for shuffleOp.")) /\
  (forall o w v st1,
     offset = ArgInt o -> width = ArgInt w ->
     cast_py_value st src None = Ok (v, st1) ->
     (~ single_element_float_vector (type_of v) ->
      exists e, handle_shuffle st node = Raise e /\
                e ∈ shuffle_shape_errors) /\
     (single_element_float_vector (type_of v) ->
      handle_shuffle st node
      = Ok (bind_node_proxy st1 (node_name (info_of node))
              (shuffle_steps arith_extf v o w)) /\
      type_of (shuffle_steps arith_extf v o w) = type_of v /\
      (float_width (element_type_of (type_of v)) < 32 ->
       pad_to_32 arith_extf (scalarize v)
       = arith_extf (Scalar F32Type) (scalarize v)) /\
      (float_width (element_type_of (type_of v)) = 32 ->
       shuffle_steps arith_extf v o w
       = vector_broadcast (type_of v)
           (gpu_shuffle_xor (scalarize v) (arith_constant (Scalar i32) o)
              (arith_constant (Scalar i32) w))))).
Proof.
  intros Hargs. split.
  - intros Hlit. unfold handle_shuffle. rewrite Hargs.
    destruct (is_int_literal offset), (is_int_literal width); done.
  - intros o w v st1 -> -> Hv.
    rewrite (shuffle_constant_operands st node src o w Hargs), Hv.
    cbn [mbind result_bind]. split.
    + intros Hnot. unfold shuffle_shape_errors.
      destruct (type_of v) as [|shape elem|] eqn:Hty.
      * eexists; split; [done|set_solver].
      * destruct (decide (math_prod shape ≠ 1%nat)) as [|Hp];
          [eexists; split; [done|set_solver]|].
        destruct (_is_float_type elem) eqn:Hf; cbn [negb];
          [|eexists; split; [done|set_solver]].
        destruct (32 <? float_width elem) eqn:Hw;
          [eexists; split; [done|set_solver]|].
        exfalso. apply Hnot. exists shape, elem.
        apply Z.ltb_ge in Hw. repeat split; try done.
        by destruct (decide (math_prod shape = 1%nat)); [|exfalso; auto].
      * eexists; split; [done|set_solver].
    + intros (shape & elem & Hty & Hp & Hf & Hw). rewrite Hty.
      destruct (decide _) as [|_]; [done|]. rewrite Hf. cbn [negb].
      destruct (32 <? float_width elem) eqn:Hgt;
        [apply Z.ltb_lt in Hgt; lia|].
      split; [|split; [|split]].
      * done.
      * done.
      * unfold pad_to_32, scalarize. cbn [type_of element_type_of].
        rewrite Hty. cbn [element_type_of]. intros Hlt.
        by destruct (Z.ltb_spec (float_width elem) 32); [|lia].
      * unfold shuffle_steps, truncate_back, pad_to_32, scalarize.
        rewrite Hty. cbn [type_of element_type_of shape_of].
        rewrite Hty. cbn [element_type_of]. intros ->. done.
Qed.

Lemma shuffle_lowering_witness :
  handle_shuffle ex_ready_state ex_shuffle_node
  = Ok (bind_node_proxy
          (bind_node_proxies ex_ready_state 3
             [BlockArgument "src" (VectorType [1%nat] F16Type)])
          20
          (shuffle_steps arith_extf
             (BlockArgument "src" (VectorType [1%nat] F16Type)) 16 32)).
Proof.
  destruct (shuffle_lowering ex_ready_state ex_shuffle_node
              (ArgNode (ex_ref 3 ["M"])) (ArgInt 16) (ArgInt 32) eq_refl)
    as [_ H].
  destruct (H 16 32 (BlockArgument "src" (VectorType [1%nat] F16Type))
              (bind_node_proxies ex_ready_state 3
                 [BlockArgument "src" (VectorType [1%nat] F16Type)])
              eq_refl eq_refl) as [_ Hok].
  - vm_compute. reflexivity.
  - apply Hok. exists [1%nat], F16Type. simpl. repeat split; lia.
Defined.

(** The shuffle of a vector<1xf16> extends with [arith.extf]: the value it
    binds is the one of the steps with the floating-point extension, not
    with a sign or a zero extension. *)
Lemma shuffle_extends_with_extf :
  exists st' v,
    handle_shuffle ex_ready_state ex_shuffle_node = Ok st' /\
    _node_values st' !! 20%nat = Some [v] /\
    v = vector_broadcast (VectorType [1%nat] F16Type)
          (arith_truncf (Scalar F16Type)
             (gpu_shuffle_xor
                (arith_extf (Scalar F32Type)
                   (vector_extract
                      (BlockArgument "src" (VectorType [1%nat] F16Type))
                      [0%nat]))
                (arith_constant (Scalar i32) 16)
                (arith_constant (Scalar i32) 32))) /\
    v <> shuffle_steps arith_extsi
           (BlockArgument "src" (VectorType [1%nat] F16Type)) 16 32 /\
    v <> shuffle_steps arith_extui
           (BlockArgument "src" (VectorType [1%nat] F16Type)) 16 32.
Proof.
  eexists. eexists. split; [vm_compute; reflexivity|].
  split; [vm_compute; reflexivity|].
  split; [reflexivity|]. split; vm_compute; discriminate.
Qed.

(** ** Reductions *)

Lemma results_kept_refl s : results_kept s s.
Proof. by split. Qed.

Lemma results_kept_trans s1 s2 s3 :
  results_kept s1 s2 -> results_kept s2 s3 -> results_kept s1 s3.
Proof.
  intros [H1 K1] [H2 K2]. split; [lia|].
  intros id Hid. rewrite K2 by lia. by apply K1.
Qed.

Lemma results_kept_same s s' :
  next_op s' = next_op s -> op_results s' = op_results s ->
  results_kept s s'.
Proof. intros H1 H2. split; [lia|]. intros. by rewrite H2. Qed.

Lemma results_kept_create tys s :
  results_kept s (create_op tys s).2.
Proof.
  split; simpl; [lia|]. intros id Hid. apply lookup_insert_ne. lia.
Qed.

Lemma results_kept_insert_op op s : results_kept s (insert_op op s).
Proof. by apply results_kept_same. Qed.

Lemma results_kept_bind s n v : results_kept s (bind_node_proxy s n v).
Proof. by apply results_kept_same. Qed.

Lemma results_kept_binds s n vs : results_kept s (bind_node_proxies s n vs).
Proof. by apply results_kept_same. Qed.

(** What [lookup_node_values] leaves unchanged. *)
Lemma lookup_node_values_frame s n vs s' :
  lookup_node_values s n = Ok (vs, s') ->
  self s' = self s /\ next_op s' = next_op s /\ op_results s' = op_results s.
Proof.
  unfold lookup_node_values. destruct (_node_values s !! n).
  - by intros [= <- <-].
  - destruct (resolve_by_reference (self s) n); [|done].
    by intros [= <- <-].
Qed.

Lemma cast_py_value_frame s a ty v s' :
  cast_py_value s a ty = Ok (v, s') ->
  self s' = self s /\ next_op s' = next_op s /\ op_results s' = op_results s.
Proof.
  destruct a; try done; simpl.
  - destruct (lookup_node_values s (ref_name n)) as [[vs s1]|] eqn:H;
      [|done]. simpl.
    destruct vs as [|v0 [|]]; try done. intros [= <- <-].
    by apply lookup_node_values_frame in H.
  - by intros [= <- <-].
Qed.

Lemma cast_py_values_frame args : forall s vs s',
  cast_py_values s args = Ok (vs, s') ->
  self s' = self s /\ next_op s' = next_op s /\ op_results s' = op_results s.
Proof.
  induction args as [|a args IH]; intros s vs s'; simpl.
  - by intros [= <- <-].
  - destruct (cast_py_value s a None) as [[v s1]|] eqn:H1; [|done]. simpl.
    destruct (cast_py_values s1 args) as [[vs1 s2]|] eqn:H2; [|done]. simpl.
    intros [= <- <-]. apply cast_py_value_frame in H1 as (?&?&?).
    apply IH in H2 as (?&?&?). repeat split; congruence.
Qed.

Lemma cast_vector_frame s a ty v s' :
  cast_vector s a ty = Ok (v, s') ->
  self s' = self s /\ next_op s' = next_op s /\ op_results s' = op_results s.
Proof.
  unfold cast_vector.
  destruct (cast_py_value s a ty) as [[v1 s1]|] eqn:H; [|done]. simpl.
  apply cast_py_value_frame in H.
  destruct (type_of v1); by intros [= <- <-].
Qed.

Lemma cast_kernel_buffer_frame s a v ty s' :
  cast_kernel_buffer s a = Ok (v, ty, s') ->
  self s' = self s /\ next_op s' = next_op s /\ op_results s' = op_results s.
Proof.
  unfold cast_kernel_buffer.
  destruct (cast_py_value s a None) as [[v1 s1]|] eqn:H; [|done]. simpl.
  apply cast_py_value_frame in H.
  destruct (type_of v1); try done. by intros [= <- <- <-].
Qed.

Lemma bind_iter_args_frame its inner : forall s i s',
  bind_iter_args s its inner i = Ok s' ->
  self s' = self s /\ next_op s' = next_op s /\ op_results s' = op_results s.
Proof.
  induction inner as [|v inner IH]; intros s i s'; simpl.
  - by intros [= <-].
  - destruct (its !! i); [|done]. intros H. by apply IH in H.
Qed.

Lemma alias_captured_frame pairs : forall s s',
  alias_captured s pairs = Ok s' ->
  self s' = self s /\ next_op s' = next_op s /\ op_results s' = op_results s.
Proof.
  induction pairs as [|[r v] pairs IH]; intros s s'; simpl.
  - by intros [= <-].
  - destruct r; try done.
    destruct (lookup_node_values s (ref_name n)) as [[vs s1]|] eqn:H; [|done].
    simpl. intros H2. apply IH in H2 as (?&?&?).
    apply lookup_node_values_frame in H as (?&?&?).
    simpl in *. repeat split; congruence.
Qed.

Lemma frame_results_kept s s' :
  self s' = self s /\ next_op s' = next_op s /\ op_results s' = op_results s ->
  results_kept s s'.
Proof. intros (_ & H1 & H2). by apply results_kept_same. Qed.

Section ResultsKept.

Context (idxc : IndexingContext).
Context (find_index_bounds :
           list Constraint -> index_dict -> option (list string)).
Context (strides_from_symbolic_shape :
           IndexingContext -> list string -> list expr).

Lemma read_lanes_kept kb et pt shape index m lanes : forall s res r s',
  read_lanes idxc find_index_bounds strides_from_symbolic_shape s kb et pt
    shape index m lanes res = Ok (r, s') ->
  results_kept s s'.
Proof.
  induction lanes as [|i lanes IH]; intros s res r s'; cbn [read_lanes].
  - intros [= _ <-]. apply results_kept_refl.
  - destruct (_construct_gather_scatter_indices _ _ _ _ _ _ _ _ _ _)
      as [[[si ov] mk]|]; [|done].
    cbn [mbind result_bind]. intros H. apply IH in H.
    eapply results_kept_trans; [|exact H].
    eapply results_kept_trans; [apply (results_kept_create
      [VectorType [1%nat] et])|apply results_kept_insert_op].
Qed.

Lemma read_identity_path_kept s node kb vt index ept r s' :
  read_identity_path idxc find_index_bounds s node kb vt index ept
  = Ok (r, s') ->
  results_kept s s'.
Proof.
  unfold read_identity_path.
  destruct (_build_start_indices _ _ _) as [si|]; [|done].
  cbn [mbind result_bind].
  destruct (_build_mask _ _ _ _ _) as [mask|]; [|done].
  cbn [mbind result_bind].
  assert (Hc := results_kept_create [vt] s).
  destruct (create_op [vt] s) as [id s1]. simpl in Hc.
  destruct mask as [mask|]; [destruct (decide _)|];
    intros [= _ <-];
    (eapply results_kept_trans; [exact Hc|apply results_kept_insert_op]).
Qed.

Lemma handle_read_kept s node s' :
  handle_read idxc find_index_bounds strides_from_symbolic_shape s node
  = Ok s' ->
  results_kept s s'.
Proof.
  unfold handle_read.
  destruct (node_args (info_of node)) as [|memory [|e [|mp [|x [|]]]]];
    try done.
  destruct (cast_py_literal e) as [ept|]; [|done]. cbn [mbind result_bind].
  destruct (cast_kernel_buffer s memory) as [[[kb ty] s1]|] eqn:Hkb; [|done].
  cbn [mbind result_bind]. apply cast_kernel_buffer_frame in Hkb.
  apply frame_results_kept in Hkb.
  destruct (node_index (info_of node)) as [index|]; [|done].
  destruct (_get_symbolic_shape memory) as [shape|]; [|done].
  cbn [mbind result_bind].
  destruct (as_mapping mp) as [m|]; [|done]. cbn [mbind result_bind].
  match goal with
  | |- (?e ≫= _) = _ -> _ => destruct e as [[r s2]|] eqn:Hp; [|done]
  end.
  cbn [mbind result_bind]. intros [= <-].
  eapply results_kept_trans; [exact Hkb|].
  eapply results_kept_trans; [|apply results_kept_bind].
  destruct m as [m|].
  - destruct (_is_identity_mapping _ _ _).
    + by eapply read_identity_path_kept.
    + unfold read_mapped_path in Hp. by eapply read_lanes_kept.
  - by eapply read_identity_path_kept.
Qed.

Lemma handle_write_kept s node s' :
  handle_write idxc find_index_bounds strides_from_symbolic_shape s node
  = Ok s' ->
  results_kept s s'.
Proof.
  unfold handle_write.
  destruct (node_args (info_of node)) as [|register [|memory [|e [|mp [|]]]]];
    try done.
  destruct (cast_kernel_buffer s memory) as [[[kb ty] s1]|] eqn:Hkb; [|done].
  cbn [mbind result_bind]. apply cast_kernel_buffer_frame in Hkb.
  apply frame_results_kept in Hkb.
  destruct (cast_vector s1 register _) as [[v s2]|] eqn:Hv; [|done].
  cbn [mbind result_bind]. apply cast_vector_frame in Hv.
  apply frame_results_kept in Hv.
  destruct (cast_py_literal e) as [ept|]; [|done]. cbn [mbind result_bind].
  destruct (decide _); [done|].
  destruct (node_index (info_of node)) as [index|]; [|done].
  destruct (_get_symbolic_shape register) as [ishape|]; [|done].
  cbn [mbind result_bind].
  destruct (_get_symbolic_shape memory) as [oshape|]; [|done].
  cbn [mbind result_bind].
  destruct (as_mapping mp) as [m|]; [|done]. cbn [mbind result_bind].
  intros Hp.
  eapply results_kept_trans; [exact Hkb|].
  eapply results_kept_trans; [exact Hv|].
  assert (Hid : forall r,
            write_identity_path idxc find_index_bounds s2 node kb v index ept
            = Ok r -> results_kept s2 r).
  { intros r. unfold write_identity_path.
    destruct (_build_start_indices _ _ _) as [si|]; [|done].
    cbn [mbind result_bind].
    destruct (_build_mask _ _ _ _ _) as [mask|]; [|done].
    cbn [mbind result_bind].
    destruct mask as [mask|]; [destruct (decide _)|];
      intros [= <-]; apply results_kept_insert_op. }
  destruct m as [m|]; [|by apply Hid].
  destruct (_is_identity_mapping _ _ _); [by apply Hid|].
  unfold write_mapped_path in Hp.
  destruct (decide _); [done|].
  destruct (_construct_gather_scatter_indices _ _ _ _ _ _ _ _ _ _)
    as [[[si ov] mk]|]; [|done].
  cbn [mbind result_bind] in Hp.
  destruct (decide _); injection Hp as <-; apply results_kept_insert_op.
Qed.

End ResultsKept.

Lemma handle_shuffle_kept s node s' :
  handle_shuffle s node = Ok s' -> results_kept s s'.
Proof.
  unfold handle_shuffle.
  destruct (node_args (info_of node)) as [|src [|o [|w [|]]]]; try done.
  destruct (negb (is_int_literal o) || negb (is_int_literal w)); [done|].
  destruct (cast_py_value s src None) as [[v1 s1]|] eqn:H1; [|done].
  cbn [mbind result_bind]. apply cast_py_value_frame in H1.
  destruct (cast_py_value s1 o _) as [[v2 s2]|] eqn:H2; [|done].
  cbn [mbind result_bind]. apply cast_py_value_frame in H2.
  destruct (cast_py_value s2 w _) as [[v3 s3]|] eqn:H3; [|done].
  cbn [mbind result_bind]. apply cast_py_value_frame in H3.
  destruct (type_of v1); try done.
  destruct (decide _); [done|]. destruct (negb _); [done|].
  destruct (32 <? _); [done|]. intros [= <-].
  destruct H1 as (?&?&?), H2 as (?&?&?), H3 as (?&?&?).
  apply results_kept_same; simpl; congruence.
Qed.

Lemma handle_get_result_kept s node s' :
  handle_get_result s node = Ok s' -> results_kept s s'.
Proof.
  unfold handle_get_result.
  destruct (node_args (info_of node)) as [|value [|idx [|]]]; try done.
  destruct value; try done. destruct idx; try done.
  destruct (lookup_node_values s (ref_name n)) as [[vs s1]|] eqn:H1; [|done].
  cbn [mbind result_bind]. apply lookup_node_values_frame in H1.
  destruct (py_getitem vs 0); [|done]. cbn [mbind result_bind].
  destruct (owner_results s1 _); [|done]. cbn [mbind result_bind].
  destruct (py_getitem _ z); [|done]. cbn [mbind result_bind].
  intros [= <-]. destruct H1 as (?&?&?).
  apply results_kept_same; simpl; congruence.
Qed.

(** The steps of a successful [handle_reduction]. *)
Lemma handle_reduction_Ok emit_subgraph st node axis init_args subgraph
    implicit_capture st' :
  node_args (info_of node) = [axis; init_args; subgraph; implicit_capture] ->
  handle_reduction emit_subgraph st node = Ok st' ->
  exists inits st1 count s_in rv s_out yielded s_end,
    cast_py_values st (tree_flatten init_args) = Ok (inits, st1) /\
    node_count (info_of node) = Some count /\
    next_op s_in = S (next_op st1) /\
    op_results s_in !! next_op st1
    = Some (results_of_types (next_op st1) (map type_of inits)) /\
    results_kept st1 s_in /\
    emit_subgraph s_in = Ok (rv, s_out) /\
    cast_py_values s_out (return_leaves rv) = Ok (yielded, s_end) /\
    st' = bind_node_proxies
            (set_self
               (set_ip_ops
                  (ip_ops (self st1)
                   ++ [scf_for (next_op st1)
                         (arith_constant (Scalar IndexType) 0)
                         (arith_constant (Scalar IndexType) count)
                         (arith_constant (Scalar IndexType) 1)
                         inits (ip_ops (self s_end)) yielded])
                  (self s_end)) s_end)
            (node_name (info_of node))
            (results_of_types (next_op st1) (map type_of inits)).
Proof.
  intros Hargs. unfold handle_reduction. rewrite Hargs.
  destruct (cast_py_values st (tree_flatten init_args)) as [[inits st1]|]
    eqn:Hinit; [|done].
  cbn [mbind result_bind].
  destruct (node_count (info_of node)) as [count|]; [|done].
  cbn [int_of_count mbind result_bind value_truthy negb create_op].
  destruct (as_symbol_name axis) as [a|]; [|done]. cbn [mbind result_bind].
  match goal with
  | |- (bind_iter_args ?s0 _ _ _ ≫= _) = _ -> _ =>
      destruct (bind_iter_args s0 (iter_args (subgraph_of node))
                  (imap (fun i v => inner_iter_arg (next_op st1) i (type_of v))
                     inits) 0) as [s2|] eqn:Hbind; [|done]
  end.
  cbn [mbind result_bind].
  destruct (as_seq implicit_capture) as [caps|]; [|done].
  cbn [mbind result_bind].
  destruct (alias_captured s2 _) as [s_in|] eqn:Halias; [|done].
  cbn [mbind result_bind].
  destruct (emit_subgraph s_in) as [[rv s_out]|] eqn:Hemit; [|done].
  cbn [mbind result_bind].
  destruct (cast_py_values s_out (return_leaves rv)) as [[yielded s_end]|]
    eqn:Hret; [|done].
  cbn [mbind result_bind]. intros [= <-].
  apply bind_iter_args_frame in Hbind as (Hb1 & Hb2 & Hb3).
  apply alias_captured_frame in Halias as (Ha1 & Ha2 & Ha3).
  simpl in Hb1, Hb2, Hb3.
  exists inits, st1, count, s_in, rv, s_out, yielded, s_end.
  split; [done|]. split; [done|].
  split; [congruence|].
  split; [rewrite Ha3, Hb3; apply lookup_insert_eq|].
  split.
  { split; [lia|]. intros id Hid. rewrite Ha3, Hb3.
    apply lookup_insert_ne. lia. }
  split; [done|]. split; [done|]. done.
Qed.

Lemma handle_reduction_kept emit_subgraph st node st' :
  (forall s r s', emit_subgraph s = Ok (r, s') -> results_kept s s') ->
  handle_reduction emit_subgraph st node = Ok st' ->
  results_kept st st'.
Proof.
  intros Hsub Hok.
  destruct (node_args (info_of node)) as [|a [|b [|c [|d [|]]]]] eqn:Hargs;
    try (unfold handle_reduction in Hok; by rewrite Hargs in Hok).
  destruct (handle_reduction_Ok _ _ _ _ _ _ _ _ Hargs Hok)
    as (inits & st1 & count & s_in & rv & s_out & yielded & s_end
        & Hinit & _ & _ & _ & Hk & Hemit & Hret & ->).
  apply cast_py_values_frame, frame_results_kept in Hinit.
  apply cast_py_values_frame, frame_results_kept in Hret.
  apply Hsub in Hemit.
  eapply results_kept_trans; [exact Hinit|].
  eapply results_kept_trans; [exact Hk|].
  eapply results_kept_trans; [exact Hemit|].
  eapply results_kept_trans; [exact Hret|].
  by apply results_kept_same.
Qed.

(** Induction on nodes, through their subgraphs. *)
Lemma fx_node_nested_ind (P : fx_node -> Prop)
  (HNode : forall info subgraph, Forall P subgraph -> P (FxNode info subgraph)) :
  forall n, P n.
Proof.
  fix IH 1. intros [info subgraph]. apply HNode.
  induction subgraph as [|n g IHg]; constructor; [apply IH | exact IHg].
Qed.

Section DispatchKept.

Context (idxc : IndexingContext).
Context (find_index_bounds :
           list Constraint -> index_dict -> option (list string)).
Context (strides_from_symbolic_shape :
           IndexingContext -> list string -> list expr).
Context (other_handlers : string -> state -> fx_node -> result state).

(** The handlers outside the sources only create operations, too. *)
Hypothesis other_handlers_kept : forall name s node s',
  other_handlers name s node = Ok s' -> results_kept s s'.

Lemma emit_function_call_node_unfold st node :
  _emit_function_call_node idxc find_index_bounds
    strides_from_symbolic_shape other_handlers st node
  = emit_function_call_node_with idxc find_index_bounds
      strides_from_symbolic_shape other_handlers
      (_emit_graph idxc find_index_bounds strides_from_symbolic_shape
         other_handlers (subgraph_of node)) st node.
Proof. destruct node. reflexivity. Qed.

Lemma emit_function_call_node_with_kept emit_subgraph st node st' :
  (forall s r s', emit_subgraph s = Ok (r, s') -> results_kept s s') ->
  emit_function_call_node_with idxc find_index_bounds
    strides_from_symbolic_shape other_handlers emit_subgraph st node = Ok st' ->
  results_kept st st'.
Proof.
  intros Hsub. unfold emit_function_call_node_with, OP_HANDLERS.
  repeat (destruct (decide _); [first
    [ apply handle_read_kept | apply handle_write_kept
    | apply handle_shuffle_kept | by apply handle_reduction_kept
    | apply handle_get_result_kept
    | by (intros [= <-]; apply results_kept_insert_op)
    | done ]|]).
  destruct (bool_decide _); [apply other_handlers_kept|done].
Qed.

Lemma emit_graph_kept_of graph :
  Forall (fun n => forall st st',
            _emit_function_call_node idxc find_index_bounds
              strides_from_symbolic_shape other_handlers st n = Ok st' ->
            results_kept st st') graph ->
  forall s r s',
    _emit_graph idxc find_index_bounds strides_from_symbolic_shape
      other_handlers graph s = Ok (r, s') ->
    results_kept s s'.
Proof.
  induction graph as [|n g IH]; intros Hall s r s'; cbn [_emit_graph].
  - intros [= _ <-]. apply results_kept_refl.
  - apply Forall_cons in Hall as [Hn Hg]. specialize (IH Hg).
    match goal with
    | |- (?e ≫= _) = _ -> _ => destruct e as [s1|] eqn:Hs1; [|done]
    end.
    cbn [mbind result_bind].
    assert (results_kept s s1) as Hk.
    { destruct (_ || _); [by apply Hn|].
      injection Hs1 as <-. apply results_kept_refl. }
    destruct (bool_decide (node_op (info_of n) = "output")).
    + intros [= _ <-]. exact Hk.
    + intros H. apply IH in H. by eapply results_kept_trans.
Qed.

Lemma emit_function_call_node_kept node : forall st st',
  _emit_function_call_node idxc find_index_bounds
    strides_from_symbolic_shape other_handlers st node = Ok st' ->
  results_kept st st'.
Proof.
  induction node as [info subgraph IH] using fx_node_nested_ind.
  intros st st'. rewrite emit_function_call_node_unfold.
  apply emit_function_call_node_with_kept. cbn [subgraph_of].
  by apply emit_graph_kept_of.
Qed.

Lemma emit_graph_kept graph s r s' :
  _emit_graph idxc find_index_bounds strides_from_symbolic_shape
    other_handlers graph s = Ok (r, s') ->
  results_kept s s'.
Proof.
  apply emit_graph_kept_of, Forall_forall.
  intros n _. apply emit_function_call_node_kept.
Qed.

End DispatchKept.

Lemma py_getitem_nat {A} (l : list A) (i : nat) (a : A) :
  l !! i = Some a -> py_getitem l (Z.of_nat i) = Ok a.
Proof.
  intros H. unfold py_getitem.
  assert (i < length l)%nat by (by eapply lookup_lt_Some).
  destruct (Z.ltb_spec (Z.of_nat i) 0); [lia|].
  destruct (Z.leb_spec 0 (Z.of_nat i)); [|lia].
  destruct (Z.ltb_spec (Z.of_nat i) (Z.of_nat (length l))); [|lia].
  simpl. by rewrite Nat2Z.id, H.
Qed.

Section ReductionLowering.

Context (idxc : IndexingContext).
Context (find_index_bounds :
           list Constraint -> index_dict -> option (list string)).
Context (strides_from_symbolic_shape :
           IndexingContext -> list string -> list expr).
Context (other_handlers : string -> state -> fx_node -> result state).

Hypothesis other_handlers_kept : forall name s node s',
  other_handlers name s node = Ok s' -> results_kept s s'.

Lemma emit_reduction_node st node :
  tkw_op_name (info_of node) = "reduction" ->
  _emit_function_call_node idxc find_index_bounds
    strides_from_symbolic_shape other_handlers st node
  = handle_reduction
      (_emit_graph idxc find_index_bounds strides_from_symbolic_shape
         other_handlers (subgraph_of node)) st node.
Proof.
  intros Hname. rewrite emit_function_call_node_unfold.
  unfold emit_function_call_node_with, OP_HANDLERS. by rewrite Hname.
Qed.

(** C7: lowering a reduction node appends exactly one [scf.for] at the
    insertion point, from the constant 0 to the constant trip count of the
    node with the constant step 1, carrying the lowered initial values, one
    slot each; without a trip count the lowering fails; the node is bound
    to the results of the loop, the i-th being the final value of the i-th
    slot, and [get_result] with index i on the reduction binds the i-th
    result of the loop. *)
Theorem reduction_lowering (st : state) (node : fx_node)
    (axis init_args subgraph implicit_capture : py_arg) :
  tkw_op_name (info_of node) = "reduction" ->
  node_args (info_of node) = [axis; init_args; subgraph; implicit_capture] ->
  (node_count (info_of node) = None ->
   is_ok (_emit_function_call_node idxc find_index_bounds
            strides_from_symbolic_shape other_handlers st node) = false /\
   forall inits st1,
     cast_py_values st (tree_flatten init_args) = Ok (inits, st1) ->
     _emit_function_call_node idxc find_index_bounds
       strides_from_symbolic_shape other_handlers st node
     = Raise (TypeError "int() argument must not be 'NoneType'")) /\
  (forall st',
     _emit_function_call_node idxc find_index_bounds
       strides_from_symbolic_shape other_handlers st node = Ok st' ->
     exists forOp count inits st1 body yielded,
       node_count (info_of node) = Some count /\
       cast_py_values st (tree_flatten init_args) = Ok (inits, st1) /\
       ip_ops (self st')
       = ip_ops (self st)
         ++ [scf_for forOp (arith_constant (Scalar IndexType) 0)
               (arith_constant (Scalar IndexType) count)
               (arith_constant (Scalar IndexType) 1) inits body yielded] /\
       _node_values st' !! node_name (info_of node)
       = Some (imap (fun i v => OpResult forOp i (type_of v)) inits) /\
       forall getnode r i v,
         node_args (info_of getnode) = [ArgNode r; ArgInt (Z.of_nat i)] ->
         ref_name r = node_name (info_of node) ->
         inits !! i = Some v ->
         handle_get_result st' getnode
         = Ok (bind_node_proxy st' (node_name (info_of getnode))
                 (OpResult forOp i (type_of v)))).
Proof.
  intros Hname Hargs. rewrite (emit_reduction_node st node Hname). split.
  - intros Hcount. unfold handle_reduction. rewrite Hargs, Hcount.
    split.
    + by destruct (cast_py_values st (tree_flatten init_args)) as [[??]|].
    + intros inits st1 ->. done.
  - intros st' Hok.
    destruct (handle_reduction_Ok _ _ _ _ _ _ _ _ Hargs Hok)
      as (inits & st1 & count & s_in & rv & s_out & yielded & s_end
          & Hinit & Hcount & Hnext & Hres & _ & Hemit & Hret & ->).
    exists (next_op st1), count, inits, st1, (ip_ops (self s_end)), yielded.
    assert (results_of_types (next_op st1) (map type_of inits)
            = imap (fun i v => OpResult (next_op st1) i (type_of v)) inits)
      as Hresults.
    { unfold results_of_types. by rewrite imap_fmap. }
    split; [done|]. split; [done|]. split.
    { apply cast_py_values_frame in Hinit as (-> & _). done. }
    split.
    { cbn. rewrite lookup_insert_eq. by rewrite Hresults. }
    intros getnode r i v Hgargs Hr Hi.
    unfold handle_get_result. rewrite Hgargs. unfold lookup_node_values.
    rewrite Hr. cbn [bind_node_proxies set_node_values _node_values].
    rewrite lookup_insert_eq. cbn [mbind result_bind].
    rewrite Hresults.
    assert (Hlook : forall j w, inits !! j = Some w ->
              imap (fun i v => OpResult (next_op st1) i (type_of v)) inits
                !! j = Some (OpResult (next_op st1) j (type_of w))).
    { intros j w Hj. rewrite list_lookup_imap, Hj. done. }
    destruct inits as [|v0 inits'] eqn:Hinits; [done|].
    pose proof (py_getitem_nat _ 0 _ (Hlook 0%nat v0 eq_refl)) as H0.
    change (Z.of_nat 0) with 0 in H0. rewrite H0.
    cbn [mbind result_bind owner_results op_results set_self].
    apply (emit_graph_kept idxc find_index_bounds
             strides_from_symbolic_shape other_handlers
             other_handlers_kept) in Hemit as [_ Hkept].
    apply cast_py_values_frame in Hret as (_ & _ & Hops).
    cbn [op_results bind_node_proxies set_node_values set_self].
    rewrite Hops, Hkept, Hres by lia. rewrite Hresults.
    cbn [mbind result_bind].
    rewrite (py_getitem_nat _ i _ (Hlook i v Hi)). done.
Qed.

End ReductionLowering.

Lemma reduction_lowering_witness :
  exists st',
    _emit_function_call_node ex_idxc ex_no_bounds ex_strides
      ex_other_handlers ex_ready_state ex_reduction_node = Ok st' /\
    ip_ops (self st')
    = [scf_for 0 (arith_constant (Scalar IndexType) 0)
         (arith_constant (Scalar IndexType) 4)
         (arith_constant (Scalar IndexType) 1)
         [BlockArgument "acc" (VectorType [4%nat] F32Type)] []
         [inner_iter_arg 0 0 (VectorType [4%nat] F32Type)]] /\
    handle_get_result st' ex_get_result_node
    = Ok (bind_node_proxy st' 41 (OpResult 0 0 (VectorType [4%nat] F32Type))).
Proof.
  assert (Hother : forall name s node s',
            ex_other_handlers name s node = Ok s' -> results_kept s s')
    by (intros name s node s' H; discriminate H).
  destruct (_emit_function_call_node ex_idxc ex_no_bounds ex_strides
              ex_other_handlers ex_ready_state ex_reduction_node)
    as [st'|] eqn:Hrun; [|vm_compute in Hrun; discriminate Hrun].
  destruct (reduction_lowering ex_idxc ex_no_bounds ex_strides
              ex_other_handlers Hother ex_ready_state ex_reduction_node
              _ _ _ _ eq_refl eq_refl) as [_ H].
  destruct (H st' Hrun)
    as (forOp & count & inits & st1 & body & yielded
        & Hcount & Hinit & Hops & Hbound & Hget).
  vm_compute in Hinit. injection Hinit as <- <-.
  injection Hcount as <-.
  exists st'. split; [reflexivity|].
  assert (st' = st') as _ by reflexivity.
  vm_compute in Hrun. injection Hrun as <-.
  vm_compute in Hops. injection Hops as <- <- <-.
  split; [vm_compute; reflexivity|].
  apply (Hget ex_get_result_node (ex_ref 40 ["M"; "N"]) 0%nat
           (BlockArgument "acc" (VectorType [4%nat] F32Type)));
    reflexivity.
Defined.

(** ** Exact values and substitution *)

Lemma sym_eval_Add rho args :
  sym_eval rho (Add args)
  = foldr (fun a acc => (sym_eval rho a + acc)%Qc) (Z2Qc 0) args.
Proof. simpl. induction args as [|a l IH]; [done|]. simpl. by rewrite IH. Qed.

Lemma sym_eval_Mul rho args :
  sym_eval rho (Mul args)
  = foldr (fun a acc => (sym_eval rho a * acc)%Qc) (Z2Qc 1) args.
Proof. simpl. induction args as [|a l IH]; [done|]. simpl. by rewrite IH. Qed.

Lemma foldr_ext_Forall {A B} (f g : A -> B -> B) (b : B) (l : list A) :
  Forall (fun a => forall acc, f a acc = g a acc) l ->
  foldr f b l = foldr g b l.
Proof.
  induction 1 as [|a l Ha _ IH]; [done|]. simpl. by rewrite IH, Ha.
Qed.

(** The value of a substituted expression is the value of the expression
    under the valuation that gives each replaced symbol the value of its
    replacement. *)
Lemma sym_eval_subs rho sigma e :
  sym_eval rho (subs sigma e)
  = sym_eval (fun s => match sigma s with
                       | Some r => sym_eval rho r
                       | None => rho s
                       end) e.
Proof.
  induction e as [s|z|p q|args IH|args IH|p q IHp IHq|a IHa|a IHa
                 |p q IHp IHq|p q IHp IHq| | |a IHa|k args IH]
    using expr_nested_ind.
  - simpl. by destruct (sigma s).
  - done.
  - done.
  - cbn [subs]. rewrite !sym_eval_Mul, foldr_fmap.
    apply foldr_ext_Forall. eapply Forall_impl; [exact IH|].
    intros a Ha acc. simpl. by rewrite Ha.
  - cbn [subs]. rewrite !sym_eval_Add, foldr_fmap.
    apply foldr_ext_Forall. eapply Forall_impl; [exact IH|].
    intros a Ha acc. simpl. by rewrite Ha.
  - simpl. by rewrite IHp, IHq.
  - simpl. by rewrite IHa.
  - simpl. by rewrite IHa.
  - simpl. by rewrite IHp, IHq.
  - simpl. by rewrite IHp, IHq.
  - done.
  - done.
  - simpl. by rewrite IHa.
  - done.
Qed.

(** The value depends on the valuation only. *)
Lemma sym_eval_ext rho rho' e :
  (forall s, rho s = rho' s) -> sym_eval rho e = sym_eval rho' e.
Proof.
  intros Hext.
  induction e as [s|z|p q|args IH|args IH|p q IHp IHq|a IHa|a IHa
                 |p q IHp IHq|p q IHp IHq| | |a IHa|k args IH]
    using expr_nested_ind; try done.
  - apply Hext.
  - rewrite !sym_eval_Mul. apply foldr_ext_Forall.
    eapply Forall_impl; [exact IH|]. intros a Ha acc. simpl. by rewrite Ha.
  - rewrite !sym_eval_Add. apply foldr_ext_Forall.
    eapply Forall_impl; [exact IH|]. intros a Ha acc. simpl. by rewrite Ha.
  - simpl. by rewrite IHp, IHq.
  - simpl. by rewrite IHa.
  - simpl. by rewrite IHa.
  - simpl. by rewrite IHp, IHq.
  - simpl. by rewrite IHp, IHq.
Qed.

Lemma sym_eval_subs_idxc idxc rho e :
  agrees_with idxc rho ->
  sym_eval rho (subs_idxc idxc e) = sym_eval rho e.
Proof.
  intros Hrho. unfold subs_idxc. rewrite sym_eval_subs.
  apply sym_eval_ext. intros [n|k]; simpl; [|done].
  destruct (idxc_subs idxc !! n) as [z|] eqn:Hn; simpl; [|done].
  symmetry. by apply Hrho.
Qed.

Lemma free_symbols_Mul args :
  free_symbols (Mul args) = concat (map free_symbols args).
Proof. simpl. induction args as [|a l IH]; [done|]. simpl. by rewrite IH. Qed.

Lemma free_symbols_Add args :
  free_symbols (Add args) = concat (map free_symbols args).
Proof. simpl. induction args as [|a l IH]; [done|]. simpl. by rewrite IH. Qed.

(** The value depends on the valuation of the free symbols only. *)
Lemma sym_eval_coincide rho rho' e :
  (forall s, s ∈ free_symbols e -> rho s = rho' s) ->
  sym_eval rho e = sym_eval rho' e.
Proof.
  induction e as [s|z|p q|args IH|args IH|p q IHp IHq|a IHa|a IHa
                 |p q IHp IHq|p q IHp IHq| | |a IHa|k args IH]
    using expr_nested_ind; intros Hext; try done.
  - apply Hext. simpl. constructor.
  - rewrite free_symbols_Mul in Hext. rewrite !sym_eval_Mul.
    induction IH as [|a l Ha _ IHl]; [done|]. simpl.
    rewrite Ha, IHl; [done| |]; intros s Hs; apply Hext; simpl;
      rewrite elem_of_app; auto.
  - rewrite free_symbols_Add in Hext. rewrite !sym_eval_Add.
    induction IH as [|a l Ha _ IHl]; [done|]. simpl.
    rewrite Ha, IHl; [done| |]; intros s Hs; apply Hext; simpl;
      rewrite elem_of_app; auto.
  - simpl in *. rewrite IHp, IHq; [done| |]; intros; apply Hext;
      rewrite elem_of_app; auto.
  - simpl in *. by rewrite IHa.
  - simpl in *. by rewrite IHa.
  - simpl in *. rewrite IHp, IHq; [done| |]; intros; apply Hext;
      rewrite elem_of_app; auto.
  - simpl in *. rewrite IHp, IHq; [done| |]; intros; apply Hext;
      rewrite elem_of_app; auto.
  - simpl in *. by rewrite IHa.
Qed.

(** A number has one value. *)
Lemma sym_eval_number rho rho' e :
  is_number e = true -> sym_eval rho e = sym_eval rho' e.
Proof.
  unfold is_number. intros H. apply sym_eval_coincide.
  destruct (free_symbols e); [|done]. intros s Hs. by apply elem_of_nil in Hs.
Qed.

Lemma py_int_value rho e :
  is_number e = true -> py_int e = Qc_trunc (sym_eval rho e).
Proof.
  intros H. unfold py_int, Qc_trunc.
  by rewrite (sym_eval_number (fun _ => Z2Qc 0) rho e H).
Qed.

Lemma sym_eval_subs_pair rho k v e :
  sym_eval rho (subs (fun s => if decide (k = s) then Some v else None) e)
  = sym_eval (fun s => if decide (k = s) then sym_eval rho v else rho s) e.
Proof.
  rewrite sym_eval_subs. apply sym_eval_ext. intros s.
  by destruct (decide (k = s)).
Qed.

(** Two last replacements of equal value give equal values. *)
Lemma sym_eval_subs_pairs_last rho l k v v' e :
  sym_eval rho v = sym_eval rho v' ->
  sym_eval rho (subs_pairs (l ++ [(k, v)]) e)
  = sym_eval rho (subs_pairs (l ++ [(k, v')]) e).
Proof.
  intros Hv. unfold subs_pairs. rewrite !foldl_app. cbn [foldl fst snd].
  by rewrite !sym_eval_subs_pair, Hv.
Qed.

Lemma Z2Qc_0 : Z2Qc 0 = 0%Qc.
Proof. by apply Qc_is_canon. Qed.
Lemma Z2Qc_1 : Z2Qc 1 = 1%Qc.
Proof. by apply Qc_is_canon. Qed.
Lemma Z2Qc_m1 : Z2Qc (-1) = (- 1)%Qc.
Proof. by apply Qc_is_canon. Qed.

Lemma sym_eval_py_add rho a b :
  sym_eval rho (py_add a b) = (sym_eval rho a + sym_eval rho b)%Qc.
Proof. simpl. rewrite Z2Qc_0. ring. Qed.

Lemma sym_eval_py_mul rho a b :
  sym_eval rho (py_mul a b) = (sym_eval rho a * sym_eval rho b)%Qc.
Proof. simpl. rewrite Z2Qc_1. ring. Qed.

Lemma sym_eval_py_sub rho a b :
  sym_eval rho (py_sub a b) = (sym_eval rho a - sym_eval rho b)%Qc.
Proof. simpl. rewrite Z2Qc_0, Z2Qc_1, Z2Qc_m1. ring. Qed.

Lemma sym_eval_foldl_py_add rho l : forall a,
  sym_eval rho (foldl py_add a l)
  = (sym_eval rho a + foldr (fun e acc => sym_eval rho e + acc) 0 l)%Qc.
Proof.
  induction l as [|e l IH]; intros a; simpl foldl; simpl foldr.
  - ring.
  - rewrite IH, sym_eval_py_add. ring.
Qed.

(** The linear offset is the sum of the products of the values. *)
Lemma sym_eval_compute_offset rho indices strides :
  sym_eval rho (_compute_offset indices strides)
  = foldr (fun e acc => sym_eval rho e + acc)%Qc 0%Qc
      (zip_with py_mul indices strides).
Proof.
  unfold _compute_offset. rewrite sym_eval_foldl_py_add.
  cbn [sym_eval]. rewrite Z2Qc_0. ring.
Qed.

Lemma sym_eval_compute_offset_ext rho strides : forall indices indices',
  Forall2 (fun a b => sym_eval rho a = sym_eval rho b) indices indices' ->
  sym_eval rho (_compute_offset indices strides)
  = sym_eval rho (_compute_offset indices' strides).
Proof.
  intros indices indices' H. rewrite !sym_eval_compute_offset.
  revert strides. induction H as [|a b l l' Hab _ IH]; intros strides.
  - done.
  - destruct strides as [|s strides]; [done|]. cbn [zip_with foldr].
    by rewrite !sym_eval_py_mul, Hab, IH.
Qed.

Lemma replace_last_value_snoc l v r :
  replace_last_value l v = Ok r ->
  exists l' k, r = l' ++ [(k, v)] /\
               forall v', replace_last_value l v' = Ok (l' ++ [(k, v')]).
Proof.
  unfold replace_last_value. destruct (reverse l) as [|[k w] rest]; [done|].
  intros [= <-]. by exists (reverse rest), k.
Qed.

Section LaneOffsets.

Context (idxc : IndexingContext).

(** On lane [i], the offset of the constant path is the offset of the
    general path less the linear offset of the start indices. *)
Lemma lane_offset_value rho index_mapping its start_indices_orig strides
    start_indices_offset elements_per_thread thread_offset i e_lane e_general :
  agrees_with idxc rho ->
  rho (IOTA elements_per_thread) = Z2Qc (Z.of_nat i) ->
  lane_offset_expr idxc index_mapping its start_indices_orig strides
    start_indices_offset thread_offset i = Ok e_lane ->
  general_offset_expr index_mapping its start_indices_orig strides
    elements_per_thread thread_offset = Ok e_general ->
  sym_eval rho e_lane
  = (sym_eval rho e_general - sym_eval rho start_indices_offset)%Qc.
Proof.
  intros Hrho Hiota. unfold lane_offset_expr, general_offset_expr.
  destruct (py_last start_indices_orig) as [last_start|]; [|done].
  cbn [mbind result_bind].
  destruct (replace_last_value _ _) as [subs1|] eqn:Hsubs; [|done].
  apply replace_last_value_snoc in Hsubs as (l' & k & -> & Hother).
  rewrite Hother. cbn [mbind result_bind]. intros [= <-] [= <-].
  rewrite sym_eval_subs_idxc, sym_eval_py_sub by done. f_equal.
  apply sym_eval_compute_offset_ext, Forall2_fmap, Forall2_same_length_lookup.
  split; [done|]. intros j a b Ha Hb. rewrite Ha in Hb. injection Hb as <-.
  apply sym_eval_subs_pairs_last.
  rewrite !sym_eval_py_add. unfold iota. cbn [sym_eval]. by rewrite Hiota.
Qed.

End LaneOffsets.

Lemma constant_offsets_lanes lane_expr lanes : forall offsets,
  constant_offsets lane_expr lanes = Ok (offsets, false) ->
  Forall2 (fun i z => exists e, lane_expr i = Ok e /\ is_number e = true /\
                                z = py_int e) lanes offsets.
Proof.
  induction lanes as [|i lanes IH]; intros offsets; cbn [constant_offsets].
  - intros [= <-]. constructor.
  - destruct (lane_expr i) as [e|] eqn:He; [|done]. cbn [mbind result_bind].
    destruct (is_number e) eqn:Hnum; [|done].
    destruct (constant_offsets lane_expr lanes) as [[offs need]|]; [|done].
    cbn [mbind result_bind]. intros [= <- ->].
    constructor; [by exists e | by apply IH].
Qed.

Lemma agrees_with_on_lane idxc rho k i :
  agrees_with idxc rho -> agrees_with idxc (on_lane rho k i).
Proof. intros H n z Hn. unfold on_lane. simpl. by apply H. Qed.

Lemma on_lane_iota rho k i : on_lane rho k i (IOTA k) = Z2Qc (Z.of_nat i).
Proof. unfold on_lane. by rewrite decide_True. Qed.

Lemma gen_full_zero idxc em v :
  _gen_sympy_index_full idxc em (Integer 0) = Ok v ->
  v = arith_constant (Scalar IndexType) 0.
Proof.
  intros H. apply gen_full_inv in H as (dyn & ivs & vars & _ & _ & H).
  vm_compute in H. by injection H as <-.
Qed.

Lemma build_start_indices_zero idxc em shape : forall si,
  _build_start_indices idxc em
    (map (fun key : string => (key, IdxExpr (Integer 0))) shape) = Ok si ->
  si = map (fun _ => arith_constant (Scalar IndexType) 0) shape.
Proof.
  unfold _build_start_indices, _get_start_indices.
  induction shape as [|d shape IH]; intros si; cbn [map mapM].
  - by intros [= <-].
  - cbn [snd _get_start_index].
    destruct (_gen_sympy_index_full idxc em (Integer 0)) as [v|] eqn:Hv;
      [|done].
    cbn [mbind result_bind]. apply gen_full_zero in Hv as ->.
    destruct (mapM _ _) as [vs|] eqn:Hvs; [|done]. cbn [mbind result_bind].
    intros [= <-]. f_equal. by apply IH.
Qed.

Section OffsetSynthesizer.

Context (idxc : IndexingContext).
Context (find_index_bounds :
           list Constraint -> index_dict -> option (list string)).
Context (strides_from_symbolic_shape :
           IndexingContext -> list string -> list expr).

(** C5: on every invocation that returns, the offsets vector of the
    gather/scatter synthesizer comes from the general path, whatever the
    loop over the lanes has found, also when every lane's offset is a
    number: the start indices are all the constant 0 and the offsets are
    built from the lowered general offset expression, never from the
    constants of the loop.  The check before the splat is made on the value
    and not on its type, so the lowered expression is wrapped in a
    [vector.splat] whatever its type: where it is a scalar the offsets are
    that scalar on every lane, and where it is already a vector the offsets
    returned have no value under any runtime binding.  When every lane's
    offset is a number, the constant the other branch would use for lane i
    is the offset of the general path for lane i less the linear offset of
    the mapped start indices, which that branch passes as start indices:
    the two address the same elements. *)
Theorem offsets_from_general_path (emitter : WaveEmitter)
    (symbolc_shape : list string) (index : index_dict)
    (mapping : IndexMapping) (elements_per_thread : nat) (is_read : bool)
    (thread_offset : Z) (start_indices : list ir_value)
    (offsets_vec mask : ir_value) :
  _construct_gather_scatter_indices idxc find_index_bounds
    strides_from_symbolic_shape emitter symbolc_shape index mapping
    elements_per_thread is_read thread_offset
  = Ok (start_indices, offsets_vec, mask) ->
  exists su offsets need_dynamic_offsets e v,
    gather_scatter_setup idxc strides_from_symbolic_shape symbolc_shape
      index mapping is_read = Ok su /\
    constant_offsets
      (lane_offset_expr idxc (gs_index_mapping su) (gs_iters su)
         (gs_start_indices_orig su) (gs_strides su)
         (gs_start_indices_offset su) thread_offset)
      (seq 0 elements_per_thread) = Ok (offsets, need_dynamic_offsets) /\
    general_offset_expr (gs_index_mapping su) (gs_iters su)
      (gs_start_indices_orig su) (gs_strides su) elements_per_thread
      thread_offset = Ok e /\
    _gen_sympy_index_full idxc emitter e = Ok v /\
    general_path idxc emitter symbolc_shape (gs_index_mapping su)
      (gs_iters su) (gs_start_indices_orig su) (gs_strides su)
      elements_per_thread thread_offset = Ok (start_indices, offsets_vec) /\
    offsets_vec = vector_splat (VectorType [elements_per_thread] IndexType) v /\
    start_indices
    = map (fun _ => arith_constant (Scalar IndexType) 0) symbolc_shape /\
    (forall env z,
       eval env v = Some (RInt z) ->
       eval env offsets_vec = Some (RVec (repeat z elements_per_thread))) /\
    (forall env shape t,
       type_of v = VectorType shape t -> eval env offsets_vec = None) /\
    (need_dynamic_offsets = false ->
     length offsets = elements_per_thread /\
     forall rho i z,
       agrees_with idxc rho ->
       offsets !! i = Some z ->
       z = Qc_trunc
             (sym_eval (on_lane rho elements_per_thread i) e
              - sym_eval (on_lane rho elements_per_thread i)
                  (gs_start_indices_offset su))).
Proof.
  unfold _construct_gather_scatter_indices.
  destruct (gather_scatter_setup _ _ _ _ _ _) as [su|]; [|done].
  cbn [mbind result_bind].
  destruct (constant_offsets _ _) as [[offsets need]|] eqn:Hconst; [|done].
  cbn [mbind result_bind]. rewrite orb_true_r.
  destruct (general_path _ _ _ _ _ _ _ _ _) as [[si ov]|] eqn:Hgen; [|done].
  cbn [mbind result_bind].
  destruct (_build_mask _ _ _ _ _) as [mk|]; [|done].
  cbn [mbind result_bind]. intros [= <- <- _].
  pose proof Hgen as Hpath. unfold general_path in Hgen.
  destruct (_build_start_indices _ _ _) as [si'|] eqn:Hsi; [|done].
  cbn [mbind result_bind] in Hgen.
  destruct (general_offset_expr _ _ _ _ _ _) as [e|] eqn:He; [|done].
  cbn [mbind result_bind] in Hgen.
  destruct (_gen_sympy_index_full idxc emitter e) as [v|] eqn:Hv; [|done].
  cbn [mbind result_bind isinstance_VectorType negb] in Hgen.
  injection Hgen as <- <-.
  exists su, offsets, need, e, v.
  split; [done|]. split; [done|]. split; [done|]. split; [done|].
  split; [done|]. split; [done|].
  split; [by apply build_start_indices_zero in Hsi|].
  split; [intros env z Hz; simpl; by rewrite Hz|].
  split.
  { intros env shape t Ht. simpl.
    destruct (eval env v) as [[z|zs]|] eqn:Hz; try done.
    apply eval_int_type in Hz as [t' Ht']. congruence. }
  intros ->. apply constant_offsets_lanes in Hconst.
  split.
  { apply Forall2_length in Hconst. by rewrite length_seq in Hconst. }
  intros rho i z Hrho Hz.
  destruct (Forall2_lookup_r _ _ _ _ _ Hconst Hz)
    as (j & Hj & e_lane & Hlane & Hnum & ->).
  apply lookup_seq in Hj as [-> _]. cbn [Nat.add].
  rewrite (py_int_value (on_lane rho elements_per_thread i) _ Hnum).
  f_equal.
  eapply (lane_offset_value idxc); [|apply on_lane_iota|exact Hlane|exact He].
  by apply agrees_with_on_lane.
Qed.

End OffsetSynthesizer.

Lemma offsets_from_general_path_witness :
  ex_gather_indices.1.1
  = [arith_constant (Scalar IndexType) 0; arith_constant (Scalar IndexType) 0]
  /\ (exists v,
        ex_gather_indices.1.2
        = vector_splat (VectorType [4%nat] IndexType) v /\
        type_of v = VectorType [4%nat] IndexType /\
        eval ex_runtime v = Some (RVec [1027; 1155; 1283; 1411]))
  /\ eval ex_runtime ex_gather_indices.1.2 = None
  /\ exists su,
       gather_scatter_setup ex_idxc ex_strides ["M"; "N"] ex_const_index
         ex_swap_inputs true = Ok su /\
       constant_offsets
         (lane_offset_expr ex_idxc (gs_index_mapping su) (gs_iters su)
            (gs_start_indices_orig su) (gs_strides su)
            (gs_start_indices_offset su) 0) (seq 0 4)
       = Ok ([0; 128; 256; 384], false) /\
       constant_path ex_idxc (self ex_ready_state) (gs_result_index su)
         [0; 128; 256; 384] 4
       = Ok ([arith_constant (Scalar IndexType) 8;
              arith_constant (Scalar IndexType) 3],
             arith_constant_dense (VectorType [4%nat] IndexType)
               [0; 128; 256; 384]).
Proof.
  destruct (offsets_from_general_path ex_idxc ex_no_bounds ex_strides
              (self ex_ready_state) ["M"; "N"] ex_const_index ex_swap_inputs
              4 true 0 ex_gather_indices.1.1 ex_gather_indices.1.2
              ex_gather_indices.2)
    as (su & offsets & need & e & v & Hsu & Hoff & _ & _ & _ & Hov & Hsi
        & _ & Hnone & _).
  - vm_compute. reflexivity.
  - split; [exact Hsi|].
    assert (Hty : type_of v = VectorType [4%nat] IndexType
                  /\ eval ex_runtime v = Some (RVec [1027; 1155; 1283; 1411])).
    { vm_compute in Hov. injection Hov as <-. split; vm_compute; reflexivity. }
    destruct Hty as [Hty Hev].
    split; [by exists v|].
    split; [exact (Hnone ex_runtime [4%nat] IndexType Hty)|].
    eexists. split; [vm_compute; reflexivity|].
    split; vm_compute; reflexivity.
Defined.

(** ** The broadcast rule in the combinators *)

Lemma shape_of_op op a b shape t :
  op ∈ binary_ops ->
  type_of a = VectorType shape t ->
  type_of b = VectorType shape t ->
  shape_of (type_of (op a b)) = shape.
Proof.
  intros Hop Ha Hb. unfold binary_ops in Hop.
  repeat (apply elem_of_cons in Hop as [-> | Hop]); simpl; rewrite ?Ha; try done.
  - unfold muli_fold. repeat case_decide; simpl; by rewrite ?Ha, ?Hb.
  - by apply elem_of_nil in Hop.
Qed.

(** A combinator that broadcasts its two operands and emits one operation
    obeys the broadcast rule. *)
Lemma broadcast_then_obeys {R} (f : ir_value -> ir_value -> result R) ret op :
  op ∈ binary_ops ->
  (forall a b, f a b = ret <$> broadcast_then op a b) ->
  obeys_broadcast_rule f ret op.
Proof.
  intros Hop Hf. split; [|split].
  - intros a b H. by rewrite Hf, broadcast_then_same.
  - intros a b shape t Ha Hb. rewrite !Hf. unfold broadcast_then.
    rewrite (broadcast_vec_scalar a b shape t Ha Hb).
    rewrite (broadcast_scalar_vec b a shape t Hb Ha).
    repeat split; by apply (shape_of_op op _ _ shape t).
  - intros a b s1 t1 s2 t2 Ha Hb Hne. rewrite Hf. unfold broadcast_then.
    rewrite (broadcast_vec_vec_mismatch a b s1 t1 s2 t2 Ha Hb); [done|].
    rewrite Ha, Hb. congruence.
Qed.

Lemma binary_concrete_values op a b stack :
  binary_concrete op (Val b :: Val a :: stack)
  = (fun r => Val r :: stack) <$> broadcast_then op a b.
Proof.
  unfold binary_concrete. cbn. by destruct (broadcast_then op a b).
Qed.

Lemma broadcast_then_mismatch op a b s1 t1 s2 t2 :
  type_of a = VectorType s1 t1 -> type_of b = VectorType s2 t2 ->
  s1 <> s2 ->
  broadcast_then op a b = Raise (CodegenError "Cannot broadcast").
Proof.
  intros Ha Hb Hne. unfold broadcast_then.
  rewrite (broadcast_vec_vec_mismatch a b s1 t1 s2 t2 Ha Hb); [done|].
  rewrite Ha, Hb. congruence.
Qed.

(** The [Add] and [Mul] cases on two concrete operands. *)
Lemma visit_two_values idxc dynamics ivs stack x y a b :
  exists l r,
    ((l, r) = (a, b) \/ (l, r) = (b, a)) /\
    visit idxc dynamics ivs (Val b :: Val a :: stack) (Add [x; y])
    = (v ← _add (Val l) (Val r); Ok (v :: stack)) /\
    visit idxc dynamics ivs (Val b :: Val a :: stack) (Mul [x; y])
    = (v ← _mul (Val l) (Val r); Ok (v :: stack)).
Proof.
  unfold visit, _group_rationals. cbn [pop_terms pop mbind result_bind].
  destruct (arrange_val_val ivs x y b a) as [-> | ->].
  - exists b, a. split; [by right|]. by rewrite !apply_two.
  - exists a, b. split; [by left|]. by rewrite !apply_two.
Qed.

Lemma muli_fold_vec_splat env a ty b xs :
  eval env a = Some (RVec xs) ->
  muli_fold a (vector_splat ty b) = arith_muli a (vector_splat ty b).
Proof.
  intros He. unfold muli_fold.
  destruct (decide (get_const_val a = Some 1)) as [H1|_]; [|done].
  apply get_const_val_Some in H1 as [ty' ->]. by destruct ty'.
Qed.

(** C9: every binary combinator of the index compiler obeys the broadcast
    rule.  In [_broadcast], two operands of the same type pass through
    unchanged; a vector and a scalar of its element type, in either order,
    have the scalar splatted to the vector's type, and the operation then
    yields a value of the vector's width whose lane i is the operation on
    lane i of the vector and the scalar; two vectors of different shapes
    fail with CodegenError [Cannot broadcast].  So do the combinators: the
    sum [_add] and the product [_mul] of two values (addi, and muli with a
    multiplication by the constant 1 elided), the quotients [_floor] and
    [_ceiling] of a deferred rational (divsi, ceildivsi), and the [Mod],
    [StrictLessThan] and [And] cases of the traversal (remsi, cmpi slt,
    andi); the [Add] and [Mul] cases of the traversal are [_add] and
    [_mul] on the operands of the stack.  With a deferred rational as an
    operand, [_add] and [_mul] leave operands of one type unchanged and
    fail on vectors of different shapes. *)
Theorem broadcast_rule :
  (forall a b, type_of a = type_of b -> _broadcast a b = Ok (a, b)) /\
  (forall a b shape t,
     type_of a = VectorType shape t -> type_of b = Scalar t ->
     _broadcast a b = Ok (a, vector_splat (VectorType shape t) b) /\
     _broadcast b a = Ok (vector_splat (VectorType shape t) b, a)) /\
  (forall a b n t op,
     type_of a = VectorType [n] t -> type_of b = Scalar t ->
     op ∈ binary_ops ->
     exists r r',
       broadcast_then op a b = Ok r /\ shape_of (type_of r) = [n] /\
       broadcast_then op b a = Ok r' /\ shape_of (type_of r') = [n]) /\
  (forall env a b n t op sem xs y i x,
     type_of a = VectorType [n] t -> type_of b = Scalar t ->
     (op, sem) ∈ op_semantics t ->
     eval env a = Some (RVec xs) -> length xs = n ->
     eval env b = Some (RInt y) -> xs !! i = Some x ->
     (eval env (op a (vector_splat (VectorType [n] t) b)) ≫=
      fun r => lane r i) = sem x y) /\
  (forall a b s1 t1 s2 t2 op,
     type_of a = VectorType s1 t1 -> type_of b = VectorType s2 t2 ->
     s1 ≠ s2 ->
     _broadcast a b = Raise (CodegenError "Cannot broadcast") /\
     broadcast_then op a b = Raise (CodegenError "Cannot broadcast")) /\
  obeys_broadcast_rule (fun a b => _add (Val a) (Val b)) Val arith_addi /\
  obeys_broadcast_rule (fun a b => _mul (Val a) (Val b)) Val muli_fold /\
  obeys_broadcast_rule (fun a b => _floor (_Rational a b)) Val
    arith_divsi /\
  obeys_broadcast_rule (fun a b => _ceiling (_Rational a b)) Val
    arith_ceildivsi /\
  (forall idxc dynamics ivs stack x y,
     obeys_broadcast_rule
       (fun a b => visit idxc dynamics ivs (Val b :: Val a :: stack)
                     (Mod x y))
       (fun r => Val r :: stack) arith_remsi /\
     obeys_broadcast_rule
       (fun a b => visit idxc dynamics ivs (Val b :: Val a :: stack)
                     (StrictLessThan x y))
       (fun r => Val r :: stack) arith_cmpi_slt /\
     obeys_broadcast_rule
       (fun a b => visit idxc dynamics ivs (Val b :: Val a :: stack)
                     (And x y))
       (fun r => Val r :: stack) arith_andi) /\
  (forall idxc dynamics ivs stack x y a b,
     exists l r,
       ((l, r) = (a, b) \/ (l, r) = (b, a)) /\
       visit idxc dynamics ivs (Val b :: Val a :: stack) (Add [x; y])
       = (v ← _add (Val l) (Val r); Ok (v :: stack)) /\
       visit idxc dynamics ivs (Val b :: Val a :: stack) (Mul [x; y])
       = (v ← _mul (Val l) (Val r); Ok (v :: stack))) /\
  (forall env a b n t xs y i x,
     type_of a = VectorType [n] t -> type_of b = Scalar t ->
     eval env a = Some (RVec xs) -> length xs = n ->
     eval env b = Some (RInt y) -> xs !! i = Some x ->
     (eval env (muli_fold a (vector_splat (VectorType [n] t) b)) ≫=
      fun r => lane r i) = sem_muli t x y) /\
  (forall a p q r s ty,
     type_of a = ty -> type_of p = ty -> type_of q = ty ->
     type_of r = ty -> type_of s = ty ->
     _add (_Rational p q) (Val a)
     = Ok (_Rational (arith_addi (muli_fold q a) p) q) /\
     _add (Val a) (_Rational p q)
     = Ok (_Rational (arith_addi (muli_fold a q) p) q) /\
     _add (_Rational p q) (_Rational r s)
     = Ok (_Rational (arith_addi (muli_fold p s) (muli_fold r q))
             (muli_fold q s)) /\
     _mul (_Rational p q) (Val a) = Ok (_Rational (muli_fold p a) q) /\
     _mul (Val a) (_Rational p q) = Ok (_Rational (muli_fold a p) q) /\
     _mul (_Rational p q) (_Rational r s)
     = Ok (_Rational (muli_fold p r) (muli_fold q s))) /\
  (forall lhs rhs s1 t1 s2 t2,
     Forall (fun v => type_of v = VectorType s1 t1) (components lhs) ->
     Forall (fun v => type_of v = VectorType s2 t2) (components rhs) ->
     s1 ≠ s2 ->
     _add lhs rhs = Raise (CodegenError "Cannot broadcast") /\
     _mul lhs rhs = Raise (CodegenError "Cannot broadcast")).
Proof.
  split; [exact broadcast_same|].
  split.
  { intros a b shape t Ha Hb. split.
    - by apply broadcast_vec_scalar.
    - by apply broadcast_scalar_vec. }
  split.
  { intros a b n t op Ha Hb Hop.
    unfold broadcast_then.
    rewrite (broadcast_vec_scalar a b [n] t Ha Hb).
    rewrite (broadcast_scalar_vec b a [n] t Hb Ha). simpl.
    eexists _, _. repeat split; apply (width_of_op _ _ _ n t); done. }
  split.
  { intros env a b n t op sem xs y i x Ha Hb Hop Hea Hl Heb Hi.
    rewrite (eval_op_semantics env t op sem) by (by rewrite ?Ha).
    simpl. rewrite Hea, Heb. subst n.
    apply lift2_vec_splat_lane; [|done].
    intros ??. by apply (op_semantics_defined t op sem). }
  split.
  { intros a b s1 t1 s2 t2 op Ha Hb Hne.
    assert (H : _broadcast a b = Raise (CodegenError "Cannot broadcast")).
    { apply (broadcast_vec_vec_mismatch a b s1 t1 s2 t2 Ha Hb).
      rewrite Ha, Hb. congruence. }
    split; [done|]. unfold broadcast_then. by rewrite H. }
  split.
  { apply broadcast_then_obeys; [|done]. unfold binary_ops. set_solver. }
  split.
  { apply broadcast_then_obeys; [|done]. unfold binary_ops. set_solver. }
  split.
  { apply broadcast_then_obeys; [|done]. unfold binary_ops. set_solver. }
  split.
  { apply broadcast_then_obeys; [|done]. unfold binary_ops. set_solver. }
  split.
  { intros idxc dynamics ivs stack x y.
    split; [|split]; (apply broadcast_then_obeys;
      [unfold binary_ops; set_solver
      |intros a b; apply binary_concrete_values]). }
  split; [exact visit_two_values|].
  split.
  { intros env a b n t xs y i x Ha Hb Hea Hl Heb Hi.
    rewrite (muli_fold_vec_splat env a _ b xs Hea).
    simpl. rewrite Ha, Hea, Heb. subst n. simpl element_type_of.
    apply lift2_vec_splat_lane; [|done].
    intros ??. done. }
  split.
  { intros a p q r s ty Ha Hp Hq Hr Hs. unfold _add, _mul.
    repeat split;
      repeat (rewrite broadcast_then_same
                by (simpl; rewrite ?(type_of_muli_fold _ _ ty); congruence);
              cbn [mbind result_bind]); done. }
  intros lhs rhs s1 t1 s2 t2 Hl Hr Hne.
  destruct lhs as [l|ln ld], rhs as [r|rn rd]; cbn [components] in Hl, Hr;
    repeat match goal with
           | H : Forall _ (_ :: _) |- _ =>
               apply Forall_cons in H as [? H]
           end;
    unfold _add, _mul;
    split;
    match goal with
    | |- mbind _ (broadcast_then ?op ?a ?b) = _ =>
        by rewrite (broadcast_then_mismatch op a b s1 t1 s2 t2)
    | |- fmap _ (broadcast_then ?op ?a ?b) = _ =>
        by rewrite (broadcast_then_mismatch op a b s1 t1 s2 t2)
    end.
Qed.

(** ** Instances on the example kernels *)

Lemma broadcast_rule_witness :
  _broadcast
    (arith_constant_dense (VectorType [4%nat] IndexType) [0; 1; 2; 3])
    (gpu_thread_id 0)
  = Ok (arith_constant_dense (VectorType [4%nat] IndexType) [0; 1; 2; 3],
        vector_splat (VectorType [4%nat] IndexType) (gpu_thread_id 0))
  /\ _broadcast
       (arith_constant_dense (VectorType [4%nat] IndexType) [0; 1; 2; 3])
       (arith_constant_dense (VectorType [2%nat] IndexType) [0; 1])
     = Raise (CodegenError "Cannot broadcast")
  /\ (eval (ex_runtime_thread 5)
        (arith_addi
           (arith_constant_dense (VectorType [4%nat] IndexType) [0; 1; 2; 3])
           (vector_splat (VectorType [4%nat] IndexType) (gpu_thread_id 0)))
      ≫= fun r => lane r 2) = sem_addi IndexType 2 5
  /\ _add
       (Val (arith_constant_dense (VectorType [4%nat] IndexType)
               [0; 1; 2; 3]))
       (Val (gpu_thread_id 0))
     = Ok (Val (arith_addi
                  (arith_constant_dense (VectorType [4%nat] IndexType)
                     [0; 1; 2; 3])
                  (vector_splat (VectorType [4%nat] IndexType)
                     (gpu_thread_id 0))))
  /\ visit ex_idxc ex_dynamics []
       [Val (arith_constant_dense (VectorType [2%nat] i1) [0; 1]);
        Val (arith_constant_dense (VectorType [4%nat] i1) [0; 1; 1; 1])]
       (And BooleanTrue BooleanTrue)
     = Raise (CodegenError "Cannot broadcast").
Proof.
  destruct broadcast_rule
    as (_ & Hvs & _ & Hlane & Hvv & Hadd & _ & _ & _ & Hvisit & _).
  split; [|split; [|split; [|split]]].
  - apply (Hvs _ _ [4%nat] IndexType); reflexivity.
  - apply (Hvv _ _ [4%nat] IndexType [2%nat] IndexType arith_addi);
      [reflexivity | reflexivity | discriminate].
  - apply (Hlane (ex_runtime_thread 5) _ _ 4%nat IndexType arith_addi
             (sem_addi IndexType) [0; 1; 2; 3] 5 2%nat 2);
      [reflexivity | reflexivity | | reflexivity | reflexivity
      | reflexivity | reflexivity].
    unfold op_semantics. apply list_elem_of_here.
  - destruct Hadd as (_ & Hvec & _).
    apply (Hvec _ _ [4%nat] IndexType); reflexivity.
  - destruct (Hvisit ex_idxc ex_dynamics [] [] BooleanTrue BooleanTrue)
      as (_ & _ & _ & _ & Hmis).
    apply (Hmis _ _ [4%nat] i1 [2%nat] i1);
      [reflexivity | reflexivity | discriminate].
Defined.



Lemma mod_is_truncated_remainder_witness :
  gen_sympy_index ex_idxc ex_dynamics [] (Mod (Integer (-7)) (Integer 2))
  = Ok (arith_remsi (arith_constant (Scalar IndexType) (-7))
          (arith_constant (Scalar IndexType) 2)) /\
  eval ex_runtime
    (arith_remsi (arith_constant (Scalar IndexType) (-7))
       (arith_constant (Scalar IndexType) 2)) = Some (RInt (-1)).
Proof.
  destruct (mod_is_truncated_remainder ex_idxc ex_dynamics []
              (Integer (-7)) (Integer 2)
              (arith_constant (Scalar IndexType) (-7))
              (arith_constant (Scalar IndexType) 2) eq_refl eq_refl)
    as [_ H].
  destruct (H eq_refl eq_refl) as [Hgen Hval]. split; [exact Hgen|].
  destruct (Hval ex_runtime (-7) 2) as [He _];
    [reflexivity | reflexivity | lia | exact He].
Defined.

(** * Further properties *)

(** ** Arithmetic modulo the width of index *)

Lemma index_wrap_add a b :
  elem_wrap IndexType (elem_wrap IndexType a + elem_wrap IndexType b)
  = elem_wrap IndexType (a + b).
Proof.
  rewrite index_wrap_mod_add, (Z.add_comm a), index_wrap_mod_add.
  by rewrite Z.add_comm.
Qed.

Lemma index_wrap_mod_mul a b :
  elem_wrap IndexType (elem_wrap IndexType a * b) = elem_wrap IndexType (a * b).
Proof.
  unfold elem_wrap, wrap_signed, index_bitwidth.
  f_equal. change (64 - 1) with 63.
  rewrite <- (Zplus_mod_idemp_l (_ * b)), <- (Zplus_mod_idemp_l (a * b)).
  f_equal. f_equal.
  rewrite <- Zmult_mod_idemp_l.
  replace (((a + 2 ^ 63) mod 2 ^ 64 - 2 ^ 63) mod 2 ^ 64) with (a mod 2 ^ 64).
  { by rewrite Zmult_mod_idemp_l. }
  rewrite Zminus_mod_idemp_l. f_equal. lia.
Qed.

Lemma index_wrap_mul a b :
  elem_wrap IndexType (elem_wrap IndexType a * elem_wrap IndexType b)
  = elem_wrap IndexType (a * b).
Proof.
  rewrite index_wrap_mod_mul, (Z.mul_comm a), index_wrap_mod_mul.
  by rewrite Z.mul_comm.
Qed.

Lemma index_wrap_idem a :
  elem_wrap IndexType (elem_wrap IndexType a) = elem_wrap IndexType a.
Proof. apply index_wrap_small, index_wrap_range. Qed.

(** ** Grouping of the terms of a sum or product *)

Lemma insert_by_key_Permutation {A} (key : A -> nat) x l :
  insert_by_key key x l ≡ₚ x :: l.
Proof.
  induction l as [|y l IH]; simpl; [done|].
  destruct (key y <=? key x)%nat; [done|].
  rewrite IH. apply Permutation_swap.
Qed.

Lemma sort_by_key_reverse_Permutation {A} (key : A -> nat) l :
  sort_by_key_reverse key l ≡ₚ l.
Proof.
  unfold sort_by_key_reverse. induction l as [|x l IH]; simpl; [done|].
  by rewrite insert_by_key_Permutation, IH.
Qed.

Lemma rationals_last_Permutation vals :
  filter (fun v => is_rational v = false) vals
  ++ filter (fun v => is_rational v = true) vals ≡ₚ vals.
Proof.
  induction vals as [|v vals IH]; [done|].
  rewrite !filter_cons. destruct v as [w|n d]; simpl;
    repeat case_decide; try done.
  - simpl. by rewrite IH.
  - rewrite <- Permutation_middle. by rewrite IH.
Qed.

Lemma arrange_terms_Permutation ivs terms :
  arrange_terms ivs terms ≡ₚ map snd terms.
Proof.
  unfold arrange_terms. rewrite rationals_last_Permutation.
  destruct (0 <? length ivs)%nat; [|done].
  change (map snd ?l) with (snd <$> l).
  by rewrite sort_by_key_reverse_Permutation.
Qed.

Lemma arrange_terms_grouped ivs terms :
  exists vals rationals,
    arrange_terms ivs terms = vals ++ rationals /\
    Forall (fun v => is_rational v = false) vals /\
    Forall (fun v => is_rational v = true) rationals.
Proof.
  unfold arrange_terms. eexists _, _. split; [done|].
  split; apply Forall_forall; intros v Hv;
    by apply list_elem_of_filter in Hv as [Hv _].
Qed.

Lemma pop_terms_take args : forall stack,
  (length args <= length stack)%nat ->
  pop_terms args stack
  = Ok (zip args (take (length args) stack), drop (length args) stack).
Proof.
  induction args as [|a args IH]; intros stack Hlen; simpl.
  - by rewrite drop_0.
  - destruct stack as [|top stack]; simpl in *; [lia|].
    rewrite IH by lia. done.
Qed.

Lemma pop_terms_short args : forall stack,
  (length stack < length args)%nat ->
  pop_terms args stack = Raise (IndexError "pop from empty list").
Proof.
  induction args as [|a args IH]; intros stack Hlen; simpl in *; [lia|].
  destruct stack as [|top stack]; simpl in *; [done|].
  rewrite IH by lia. done.
Qed.

(** ** Sums and products of concrete scalars *)

Section Folding.

Context (env : runtime).

Lemma add_denotes x y a b :
  denotes env x a -> denotes env y b ->
  exists r, _add x y = Ok r /\ denotes env r (a + b).
Proof.
  intros (v & -> & Htv & Hev) (w & -> & Htw & Hew).
  exists (Val (arith_addi v w)). split.
  - simpl. rewrite broadcast_then_same by congruence. done.
  - exists (arith_addi v w). split; [done|]. split; [done|].
    simpl. rewrite Hev, Hew, Htv. simpl. unfold sem_addi.
    by rewrite index_wrap_add.
Qed.

Lemma mul_denotes x y a b :
  denotes env x a -> denotes env y b ->
  exists r, _mul x y = Ok r /\ denotes env r (a * b).
Proof.
  intros (v & -> & Htv & Hev) (w & -> & Htw & Hew).
  exists (Val (muli_fold v w)). split.
  - simpl. rewrite broadcast_then_same by congruence. done.
  - exists (muli_fold v w). split; [done|].
    split; [by apply type_of_muli_fold|].
    rewrite eval_muli_fold by done.
    simpl. rewrite Hev, Hew, Htv. simpl. unfold sem_muli.
    by rewrite index_wrap_mul.
Qed.

Lemma fold_apply_denotes (func : stack_item -> stack_item -> result stack_item)
    (op : Z -> Z -> Z) :
  (forall x y a b, denotes env x a -> denotes env y b ->
                   exists r, func x y = Ok r /\ denotes env r (op a b)) ->
  forall items zs, Forall2 (denotes env) items zs ->
  forall x a, denotes env x a ->
  exists r, fold_apply func x items = Ok r /\
            denotes env r (foldl op a zs).
Proof.
  intros Hfunc items zs H. induction H as [|it z items zs Hit _ IH];
    intros x a Hx; simpl.
  - by exists x.
  - destruct (Hfunc x it a z Hx Hit) as (r & -> & Hr). simpl. by apply IH.
Qed.

Lemma Forall2_denotes_Permutation items items' zs :
  items ≡ₚ items' -> Forall2 (denotes env) items zs ->
  exists zs', zs ≡ₚ zs' /\ Forall2 (denotes env) items' zs'.
Proof.
  intros Hp. revert zs. induction Hp as [|x l l' _ IH|x y l|l l' l'' _ IH1 _ IH2];
    intros zs H.
  - apply Forall2_nil_inv_l in H as ->. by exists [].
  - apply Forall2_cons_inv_l in H as (z & zs' & Hx & Hl & ->).
    destruct (IH _ Hl) as (zs'' & Hp' & Hf). exists (z :: zs'').
    split; [by constructor | by constructor].
  - apply Forall2_cons_inv_l in H as (z1 & zs1 & Hy & H & ->).
    apply Forall2_cons_inv_l in H as (z2 & zs2 & Hx & H & ->).
    exists (z2 :: z1 :: zs2). split; [apply Permutation_swap|].
    by repeat constructor.
  - destruct (IH1 _ H) as (zs1 & Hp1 & H1).
    destruct (IH2 _ H1) as (zs2 & Hp2 & H2).
    exists zs2. split; [by etrans | done].
Qed.

Lemma foldr_add_Permutation zs zs' :
  zs ≡ₚ zs' -> foldr Z.add 0 zs = foldr Z.add 0 zs'.
Proof. induction 1; simpl; lia. Qed.

Lemma foldr_mul_Permutation zs zs' :
  zs ≡ₚ zs' -> foldr Z.mul 1 zs = foldr Z.mul 1 zs'.
Proof. induction 1; simpl; lia. Qed.

Lemma foldl_add_sum zs : forall a, foldl Z.add a zs = a + foldr Z.add 0 zs.
Proof. induction zs as [|z zs IH]; intros a; simpl; [lia|]. rewrite IH. lia. Qed.

Lemma foldl_mul_prod zs : forall a, foldl Z.mul a zs = a * foldr Z.mul 1 zs.
Proof. induction zs as [|z zs IH]; intros a; simpl; [lia|]. rewrite IH. lia. Qed.

(** Whatever the order in which the terms are arranged, applying [_add]
    (or [_mul]) over them gives the sum (or product). *)
Lemma apply_arranged_denotes ivs func op unit_
    (terms : list (expr * stack_item)) zs :
  (forall x y a b, denotes env x a -> denotes env y b ->
                   exists r, func x y = Ok r /\ denotes env r (op a b)) ->
  (forall l l', l ≡ₚ l' -> foldr op unit_ l = foldr op unit_ l') ->
  (forall l a, foldl op a l = op a (foldr op unit_ l)) ->
  terms <> [] ->
  Forall2 (denotes env) (map snd terms) zs ->
  exists r, _apply (arrange_terms ivs terms) func = Ok r /\
            denotes env r (foldr op unit_ zs).
Proof.
  intros Hfunc Hperm Hfold Hne H.
  pose proof (arrange_terms_Permutation ivs terms) as Hp.
  symmetry in Hp.
  destruct (Forall2_denotes_Permutation _ _ _ Hp H) as (zs' & Hzs & H').
  destruct (arrange_terms ivs terms) as [|it items] eqn:Harr.
  { apply Permutation_nil_r in Hp. by destruct terms. }
  apply Forall2_cons_inv_l in H' as (z & zs'' & Hit & Hitems & ->).
  destruct (fold_apply_denotes func op Hfunc items zs'' Hitems it z Hit)
    as (r & Hr & Hd).
  exists r. split; [done|].
  rewrite Hfold in Hd. by rewrite (Hperm zs (z :: zs'') Hzs).
Qed.

End Folding.

(** ** Lowering of integer expressions *)

Lemma integral_args idxc dynamics args :
  (fix all (l : list expr) : bool :=
     match l with
     | [] => true
     | a :: l' => integral idxc dynamics a && all l'
     end) args = true ->
  Forall (fun a => integral idxc dynamics a = true) args.
Proof.
  induction args as [|a args IH]; [constructor|].
  intros H. apply andb_true_iff in H as [Ha H]. constructor; auto.
Qed.

Lemma integral_Add idxc dynamics args :
  integral idxc dynamics (Add args) = true ->
  args <> [] /\ Forall (fun a => integral idxc dynamics a = true) args.
Proof.
  destruct args as [|a args]; [done|]. intros H. split; [done|].
  by apply integral_args.
Qed.

Lemma integral_Mul idxc dynamics args :
  integral idxc dynamics (Mul args) = true ->
  args <> [] /\ Forall (fun a => integral idxc dynamics a = true) args.
Proof.
  destruct args as [|a args]; [done|]. intros H. split; [done|].
  by apply integral_args.
Qed.

Lemma int_value_Add idxc rho args :
  int_value idxc rho (Add args) = foldr Z.add 0 (map (int_value idxc rho) args).
Proof. simpl. induction args as [|a l IH]; [done|]. simpl. by rewrite IH. Qed.

Lemma int_value_Mul idxc rho args :
  int_value idxc rho (Mul args) = foldr Z.mul 1 (map (int_value idxc rho) args).
Proof. simpl. induction args as [|a l IH]; [done|]. simpl. by rewrite IH. Qed.

Section IntegerLowering.

Context (idxc : IndexingContext).
Context (dynamics : gmap string ir_value).
Context (ivs : list string).
Context (env : runtime).
Context (rho : string -> Z).

Hypothesis dynamics_sound : dynamics_denote env rho dynamics.

Lemma lower_args_denote args :
  Forall (fun a => integral idxc dynamics a = true ->
            exists it, lower idxc dynamics ivs (subs (idxc_sigma idxc) a)
                       = Ok it /\
                       denotes env it (int_value idxc rho a)) args ->
  Forall (fun a => integral idxc dynamics a = true) args ->
  exists vs,
    lower_args idxc dynamics ivs (map (subs (idxc_sigma idxc)) args) = Ok vs /\
    Forall2 (denotes env) vs (map (int_value idxc rho) args).
Proof.
  unfold lower_args.
  induction args as [|a args IH]; intros HIH Hint.
  - exists []. split; [done|constructor].
  - apply Forall_cons in HIH as [Ha HIH]. apply Forall_cons in Hint as [Hia Hint].
    destruct (Ha Hia) as (it & Hit & Hd).
    destruct (IH HIH Hint) as (vs & Hvs & Hds).
    exists (it :: vs). split.
    + simpl. rewrite Hit. simpl. rewrite Hvs. done.
    + by constructor.
Qed.

Lemma lower_group_denote func op unit_ args :
  (forall x y a b, denotes env x a -> denotes env y b ->
                   exists r, func x y = Ok r /\ denotes env r (op a b)) ->
  (forall l l', l ≡ₚ l' -> foldr op unit_ l = foldr op unit_ l') ->
  (forall l a, foldl op a l = op a (foldr op unit_ l)) ->
  args <> [] ->
  forall vs,
  lower_args idxc dynamics ivs (map (subs (idxc_sigma idxc)) args) = Ok vs ->
  Forall2 (denotes env) vs (map (int_value idxc rho) args) ->
  exists r,
    _apply (arrange_terms ivs
              (zip (map (subs (idxc_sigma idxc)) args) (reverse vs))) func
    = Ok r /\
    denotes env r (foldr op unit_ (map (int_value idxc rho) args)).
Proof.
  intros Hfunc Hperm Hfold Hne vs Hvs Hds.
  apply lower_args_length in Hvs. rewrite length_map in Hvs.
  destruct (apply_arranged_denotes env ivs func op unit_
              (zip (map (subs (idxc_sigma idxc)) args) (reverse vs))
              (reverse (map (int_value idxc rho) args)) Hfunc Hperm Hfold)
    as (r & Hr & Hd).
  - destruct args as [|a args]; [done|]. destruct vs as [|v vs]; [done|].
    rewrite reverse_cons. simpl.
    destruct (reverse vs) as [|w ws]; simpl; done.
  - change (map snd ?l) with (l.*2). rewrite snd_zip.
    + by apply Forall2_reverse.
    + rewrite length_reverse, length_map. lia.
  - exists r. split; [done|].
    by rewrite <- (Hperm _ _ (reverse_Permutation _)).
Qed.

Lemma lower_integral e :
  integral idxc dynamics e = true ->
  exists it, lower idxc dynamics ivs (subs (idxc_sigma idxc) e) = Ok it /\
             denotes env it (int_value idxc rho e).
Proof.
  induction e as [s|z|p q|args IH|args IH|p q IHp IHq|a IHa|a IHa
                 |p q IHp IHq|p q IHp IHq| | |a IHa|k args IH]
    using expr_nested_ind; intros Hint; try done.
  - destruct s as [n|k]; [|done]. simpl in *.
    destruct (idxc_subs idxc !! n) as [z|] eqn:Hn; simpl.
    + eexists. split; [done|]. by eexists.
    + rewrite Hn. simpl.
      apply orb_true_iff in Hint as [Hint|Hint];
        apply bool_decide_eq_true in Hint as [v Hv]; [done|].
      rewrite Hv. eexists. split; [done|].
      destruct (dynamics_sound n v Hv) as [Ht He].
      exists v. split; [done|]. split; [done|].
      rewrite index_wrap_small; [done|]. by eapply eval_index_range.
  - eexists. split; [done|]. by eexists.
  - apply integral_Mul in Hint as [Hne Hall].
    destruct (lower_args_denote args IH Hall) as (vs & Hvs & Hds).
    cbn [subs lower]. rewrite lower_go, Hvs. cbn [mbind result_bind].
    rewrite int_value_Mul.
    apply (lower_group_denote _mul Z.mul 1 args); try done.
    + apply mul_denotes.
    + apply foldr_mul_Permutation.
    + apply foldl_mul_prod.
  - apply integral_Add in Hint as [Hne Hall].
    destruct (lower_args_denote args IH Hall) as (vs & Hvs & Hds).
    cbn [subs lower]. rewrite lower_go, Hvs. cbn [mbind result_bind].
    rewrite int_value_Add.
    apply (lower_group_denote _add Z.add 0 args); try done.
    + apply add_denotes.
    + apply foldr_add_Permutation.
    + apply foldl_add_sum.
  - destruct (IHa Hint) as (it & Hit & Hd). exists it.
    split; [|done]. cbn [subs lower]. rewrite Hit. cbn [mbind result_bind].
    by destruct Hd as (v & -> & _).
  - destruct (IHa Hint) as (it & Hit & Hd). exists it.
    split; [|done]. cbn [subs lower]. rewrite Hit. cbn [mbind result_bind].
    by destruct Hd as (v & -> & _).
  - destruct (IHa Hint) as (it & Hit & Hd). by exists it.
Qed.

End IntegerLowering.

(** X1: an expression built from integers and frozen or dynamic symbols
    with sums, products, floor, ceiling and UnevaluatedExpr is lowered, and
    the value it is lowered to is, under every runtime binding of the
    dynamic symbols, the integer the expression denotes wrapped to the
    width of index, whatever the induction variables by which the terms are
    regrouped. *)
Theorem integer_expression_value (idxc : IndexingContext)
    (dynamics : gmap string ir_value) (ivs : list string) (env : runtime)
    (rho : string -> Z) (e : expr) :
  dynamics_denote env rho dynamics ->
  integral idxc dynamics e = true ->
  exists v,
    gen_sympy_index idxc dynamics ivs e = Ok v /\
    type_of v = Scalar IndexType /\
    eval env v = Some (RInt (elem_wrap IndexType (int_value idxc rho e))).
Proof.
  intros Hdyn Hint.
  destruct (lower_integral idxc dynamics ivs env rho Hdyn e Hint)
    as (it & Hit & v & -> & Ht & He).
  exists v. split; [|done]. by rewrite gen_lower, Hit.
Qed.

Lemma ex_dynamics_denote t :
  index_min <= t <= index_max ->
  dynamics_denote (ex_runtime_thread t) (ex_rho t) ex_dynamics.
Proof.
  intros Ht n v H. unfold ex_dynamics in H.
  apply lookup_insert_Some in H as [[<- <-]|[Hn H]].
  - split; [done|]. simpl. by rewrite index_wrap_small.
  - apply lookup_insert_Some in H as [[<- <-]|[_ H]]; [|done].
    split; [done|]. unfold ex_rho. by rewrite decide_False.
Qed.

Lemma integer_expression_value_witness :
  exists v,
    gen_sympy_index ex_idxc ex_dynamics [THREAD_0]
      (Add [Symbol (Named WORKGROUP_1);
            Mul [Symbol (Named THREAD_0); Symbol (Named "N")]; Integer 3])
    = Ok v /\
    type_of v = Scalar IndexType /\
    eval (ex_runtime_thread 5) v = Some (RInt 643).
Proof.
  apply (integer_expression_value ex_idxc ex_dynamics [THREAD_0]
           (ex_runtime_thread 5) (ex_rho 5)).
  - apply ex_dynamics_denote. unfold index_min, index_max. lia.
  - reflexivity.
Defined.

(** ** Grouping on the stack *)

(** X2: [_group_rationals] pops one stack entry per argument and fails
    with IndexError on a shorter stack; what it returns is a rearrangement
    of the popped entries in which every concrete value comes before every
    deferred rational, and without induction variables each group keeps
    the order in which it was popped. *)
Theorem group_rationals_arrangement (ivs : list string)
    (stack : list stack_item) (args : list expr) :
  ((length stack < length args)%nat ->
   _group_rationals ivs stack args
   = Raise (IndexError "pop from empty list")) /\
  ((length args <= length stack)%nat ->
   exists items vals rationals,
     _group_rationals ivs stack args
     = Ok (items, drop (length args) stack) /\
     items ≡ₚ take (length args) stack /\
     items = vals ++ rationals /\
     Forall (fun v => is_rational v = false) vals /\
     Forall (fun v => is_rational v = true) rationals /\
     (ivs = [] ->
      vals = filter (fun v => is_rational v = false)
               (take (length args) stack) /\
      rationals = filter (fun v => is_rational v = true)
                    (take (length args) stack))).
Proof.
  split.
  - intros Hlen. unfold _group_rationals. by rewrite pop_terms_short.
  - intros Hlen. unfold _group_rationals. rewrite pop_terms_take by done.
    cbn [mbind result_bind].
    assert (Hsnd : map snd (zip args (take (length args) stack))
                   = take (length args) stack).
    { change (map snd ?l) with (l.*2). apply snd_zip.
      rewrite length_take. lia. }
    eexists _, _, _. split; [done|]. split.
    { by rewrite arrange_terms_Permutation, Hsnd. }
    split; [done|].
    split; [apply Forall_forall; intros v Hv;
            by apply list_elem_of_filter in Hv as [Hv _]|].
    split; [apply Forall_forall; intros v Hv;
            by apply list_elem_of_filter in Hv as [Hv _]|].
    intros ->. simpl. by rewrite Hsnd.
Qed.

Lemma group_rationals_arrangement_witness :
  _group_rationals [] [Val (gpu_thread_id 0);
                       _Rational (gpu_thread_id 1) (gpu_thread_id 2);
                       Val (gpu_thread_id 1); Val (gpu_thread_id 2)]
    [Integer 1; Integer 2; Integer 3]
  = Ok ([Val (gpu_thread_id 0); Val (gpu_thread_id 1);
         _Rational (gpu_thread_id 1) (gpu_thread_id 2)],
        [Val (gpu_thread_id 2)]) /\
  _group_rationals [] [Val (gpu_thread_id 0)] [Integer 1; Integer 2]
  = Raise (IndexError "pop from empty list").
Proof.
  split.
  - destruct (group_rationals_arrangement []
                [Val (gpu_thread_id 0);
                 _Rational (gpu_thread_id 1) (gpu_thread_id 2);
                 Val (gpu_thread_id 1); Val (gpu_thread_id 2)]
                [Integer 1; Integer 2; Integer 3]) as [_ H].
    destruct H as (items & vals & rats & Hrun & _ & -> & _ & _ & Hstable);
      [simpl; lia|].
    destruct (Hstable eq_refl) as [-> ->]. exact Hrun.
  - apply (group_rationals_arrangement [] [Val (gpu_thread_id 0)]
             [Integer 1; Integer 2]). simpl. lia.
Defined.

(** ** Floor and ceiling of a quotient *)

Section Quotients.

Context (idxc : IndexingContext).
Context (dynamics : gmap string ir_value).
Context (ivs : list string).

Lemma lower_quotient a c d va :
  lower idxc dynamics ivs (subs (idxc_sigma idxc) a) = Ok (Val va) ->
  type_of va = Scalar IndexType ->
  lower idxc dynamics ivs (subs (idxc_sigma idxc) (Mul [Rational c d; a]))
  = Ok (_Rational (muli_fold va (arith_constant (Scalar IndexType) c))
          (arith_constant (Scalar IndexType) d)).
Proof.
  intros Ha Ht. cbn [subs map lower]. rewrite Ha.
  cbn [_get_const mbind result_bind reverse].
  change (reverse [_Rational (arith_constant (Scalar IndexType) c)
                     (arith_constant (Scalar IndexType) d); Val va])
    with [Val va; _Rational (arith_constant (Scalar IndexType) c)
                    (arith_constant (Scalar IndexType) d)].
  cbn [zip zip_with]. rewrite arrange_val_rational, apply_two.
  by apply mul_val_rational.
Qed.

(** X3: the floor of a quotient [c*a/d] is lowered to [arith.divsi], a
    division that truncates toward zero: its value is the floor for a
    numerator and a divisor of the same sign, and one more than the floor
    for an inexact quotient of opposite signs; the ceiling is lowered to
    [arith.ceildivsi], whose value is the ceiling for every sign. *)
Theorem floor_of_quotient_truncates (env : runtime) (a : expr) (c d : Z)
    (va : ir_value) (x : Z) :
  gen_sympy_index idxc dynamics ivs a = Ok va ->
  type_of va = Scalar IndexType ->
  eval env va = Some (RInt x) ->
  index_min <= c <= index_max ->
  index_min <= d <= index_max ->
  d <> 0 ->
  index_min < x * c <= index_max ->
  exists vf vc,
    gen_sympy_index idxc dynamics ivs (floor (Mul [Rational c d; a])) = Ok vf /\
    gen_sympy_index idxc dynamics ivs (ceiling (Mul [Rational c d; a]))
    = Ok vc /\
    eval env vf = Some (RInt (Z.quot (x * c) d)) /\
    eval env vc = Some (RInt (- ((- (x * c)) / d))) /\
    (0 <= x * c -> 0 < d -> Z.quot (x * c) d = (x * c) / d) /\
    (x * c < 0 -> 0 < d -> (x * c) mod d <> 0 ->
     Z.quot (x * c) d = (x * c) / d + 1).
Proof.
  intros Ha Ht He Hc Hd Hd0 Hxc.
  apply gen_Ok_lower in Ha.
  pose proof (lower_quotient a c d va Ha Ht) as Hq.
  assert (Htn : type_of (muli_fold va (arith_constant (Scalar IndexType) c))
                = type_of (arith_constant (Scalar IndexType) d)).
  { by apply type_of_muli_fold. }
  assert (Hen : eval env (muli_fold va (arith_constant (Scalar IndexType) c))
                = Some (RInt (x * c))).
  { rewrite eval_muli_fold by done. simpl. rewrite He, Ht. simpl.
    unfold sem_muli. rewrite (index_wrap_small c) by done.
    rewrite index_wrap_small by lia. done. }
  assert (Hquot : index_min <= Z.quot (x * c) d <= index_max).
  { unfold index_min, index_max in *.
    assert (Z.abs (Z.quot (x * c) d) <= Z.abs (x * c)).
    { rewrite <- Z.quot_abs by done.
      apply Z.quot_le_upper_bound; [lia|]. nia. }
    lia. }
  assert (Hceil : index_min <= - ((- (x * c)) / d) <= index_max).
  { unfold index_min, index_max in *.
    assert (Z.abs ((- (x * c)) / d) <= Z.abs (- (x * c))).
    { destruct (Z.lt_trichotomy d 0) as [Hneg|[->|Hpos]]; [|done|].
      - pose proof (Z.div_mod (- (x * c)) d Hd0).
        pose proof (Z.mod_neg_bound (- (x * c)) d Hneg). nia.
      - pose proof (Z.div_mod (- (x * c)) d Hd0).
        pose proof (Z.mod_pos_bound (- (x * c)) d Hpos). nia. }
    lia. }
  eexists _, _.
  split; [by apply (gen_floor_rational idxc dynamics ivs _ _ _ Hq)|].
  split; [by apply (gen_ceiling_rational idxc dynamics ivs _ _ _ Hq)|].
  split; [|split; [|split]].
  - cbn [eval]. rewrite Hen. cbn [eval type_of element_type_of].
    rewrite type_of_muli_fold with (T := Scalar IndexType) by done.
    cbn [element_type_of lift2]. rewrite (index_wrap_small d) by done.
    unfold sem_divsi. destruct (Z.eqb_spec d 0); [done|]. simpl.
    by rewrite index_wrap_small.
  - cbn [eval]. rewrite Hen. cbn [eval type_of element_type_of].
    rewrite type_of_muli_fold with (T := Scalar IndexType) by done.
    cbn [element_type_of lift2]. rewrite (index_wrap_small d) by done.
    unfold sem_ceildivsi, ceil_div. destruct (Z.eqb_spec d 0); [done|]. simpl.
    by rewrite index_wrap_small.
  - intros. by apply Z.quot_div_nonneg.
  - intros Hneg Hpos Hmod.
    pose proof (Z.div_mod (x * c) d Hd0).
    pose proof (Z.mod_pos_bound (x * c) d Hpos).
    pose proof (Z.quot_rem' (x * c) d).
    pose proof (Z.rem_bound_abs (x * c) d Hd0).
    assert (Z.rem (x * c) d <= 0) by (apply Z.rem_nonpos; lia).
    assert (0 < d * (Z.quot (x * c) d - (x * c) / d) < 2 * d) by lia.
    nia.
Qed.

End Quotients.

Lemma floor_of_quotient_truncates_witness :
  exists vf vc,
    gen_sympy_index ex_idxc ex_dynamics []
      (floor (Mul [Rational 1 2;
                   Add [Symbol (Named THREAD_0); Integer (-8)]])) = Ok vf /\
    gen_sympy_index ex_idxc ex_dynamics []
      (ceiling (Mul [Rational 1 2;
                     Add [Symbol (Named THREAD_0); Integer (-8)]])) = Ok vc /\
    eval (ex_runtime_thread 1) vf = Some (RInt (-3)) /\
    eval (ex_runtime_thread 1) vc = Some (RInt (-3)).
Proof.
  destruct (floor_of_quotient_truncates ex_idxc ex_dynamics []
              (ex_runtime_thread 1)
              (Add [Symbol (Named THREAD_0); Integer (-8)]) 1 2
              (arith_addi (arith_constant (Scalar IndexType) (-8))
                 (gpu_thread_id 0)) (-7))
    as (vf & vc & Hf & Hc & Hef & Hec & _);
    [reflexivity | reflexivity | vm_compute; reflexivity
    | unfold index_min, index_max; lia | unfold index_min, index_max; lia
    | lia | unfold index_min, index_max; lia |].
  exists vf, vc. split; [exact Hf|]. split; [exact Hc|].
  split; [exact Hef | exact Hec].
Defined.

(** ** Symbols and operands the compiler refuses *)

Section Refusals.

Context (idxc : IndexingContext).
Context (dynamics : gmap string ir_value).
Context (ivs : list string).

Lemma lower_args_Ok_inv args : forall vs,
  lower_args idxc dynamics ivs args = Ok vs ->
  Forall (fun a => exists it, lower idxc dynamics ivs a = Ok it) args.
Proof.
  unfold lower_args. induction args as [|a args IH]; intros vs; simpl.
  - constructor.
  - destruct (lower idxc dynamics ivs a) as [it|] eqn:Ha; [|done]. simpl.
    destruct (mapM _ args) as [vs'|] eqn:Hvs; [|done]. simpl. intros _.
    constructor; [by exists it | by eapply IH].
Qed.

Lemma lower_Ok_symbols_bound e : forall it,
  lower idxc dynamics ivs (subs (idxc_sigma idxc) e) = Ok it ->
  Forall (bound_symbol idxc dynamics) (free_symbols e).
Proof.
  induction e as [s|z|p q|args IH|args IH|p q IHp IHq|a IHa|a IHa
                 |p q IHp IHq|p q IHp IHq| | |a IHa|k args IH]
    using expr_nested_ind; intros it.
  - intros H. constructor; [|constructor]. destruct s as [n|k]; [|done].
    simpl in *. destruct (idxc_subs idxc !! n) as [z|] eqn:Hn; simpl in *.
    + left. by eexists.
    + rewrite Hn in H. simpl in H. right.
      destruct (dynamics !! n); [by eexists|done].
  - intros _. constructor.
  - intros _. constructor.
  - cbn [subs lower]. rewrite lower_go, free_symbols_Mul.
    destruct (lower_args _ _ _ _) as [vs|] eqn:Hvs; [|done]. intros _.
    apply lower_args_Ok_inv in Hvs.
    change (map ?f ?l) with (f <$> l) in Hvs. rewrite Forall_fmap in Hvs.
    apply Forall_concat. change (map ?f ?l) with (f <$> l).
    rewrite Forall_fmap.
    eapply Forall_impl; [apply Forall_and; split; [exact IH|exact Hvs]|].
    intros a [Ha [it' Hit]]. by eapply Ha.
  - cbn [subs lower]. rewrite lower_go, free_symbols_Add.
    destruct (lower_args _ _ _ _) as [vs|] eqn:Hvs; [|done]. intros _.
    apply lower_args_Ok_inv in Hvs.
    change (map ?f ?l) with (f <$> l) in Hvs. rewrite Forall_fmap in Hvs.
    apply Forall_concat. change (map ?f ?l) with (f <$> l).
    rewrite Forall_fmap.
    eapply Forall_impl; [apply Forall_and; split; [exact IH|exact Hvs]|].
    intros a [Ha [it' Hit]]. by eapply Ha.
  - cbn [subs lower free_symbols].
    destruct (lower _ _ _ (subs _ p)) as [l|] eqn:Hp; [|done].
    cbn [mbind result_bind].
    destruct (lower _ _ _ (subs _ q)) as [r|] eqn:Hq; [|done]. intros _.
    apply Forall_app. split; [by eapply IHp | by eapply IHq].
  - cbn [subs lower free_symbols].
    destruct (lower _ _ _ (subs _ a)) as [l|] eqn:Hp; [|done]. intros _.
    by eapply IHa.
  - cbn [subs lower free_symbols].
    destruct (lower _ _ _ (subs _ a)) as [l|] eqn:Hp; [|done]. intros _.
    by eapply IHa.
  - cbn [subs lower free_symbols].
    destruct (lower _ _ _ (subs _ p)) as [l|] eqn:Hp; [|done].
    cbn [mbind result_bind].
    destruct (lower _ _ _ (subs _ q)) as [r|] eqn:Hq; [|done]. intros _.
    apply Forall_app. split; [by eapply IHp | by eapply IHq].
  - cbn [subs lower free_symbols].
    destruct (lower _ _ _ (subs _ p)) as [l|] eqn:Hp; [|done].
    cbn [mbind result_bind].
    destruct (lower _ _ _ (subs _ q)) as [r|] eqn:Hq; [|done]. intros _.
    apply Forall_app. split; [by eapply IHp | by eapply IHq].
  - intros _. constructor.
  - intros _. constructor.
  - cbn [subs lower free_symbols]. by apply IHa.
  - cbn [subs lower]. rewrite lower_go.
    destruct (lower_args _ _ _ _); done.
Qed.


(** X4: the index compiler never invents a value for a symbol: when it
    returns, every symbol of the expression is an iota, frozen or dynamic;
    a symbol that is neither is refused with CodegenError, and a frozen
    symbol lowers to its constant whatever [dynamics] binds it to. *)
Theorem lowered_symbols_are_bound (e : expr) (n : string) :
  (forall v, gen_sympy_index idxc dynamics ivs e = Ok v ->
             Forall (bound_symbol idxc dynamics) (free_symbols e)) /\
  (idxc_subs idxc !! n = None -> dynamics !! n = None ->
   gen_sympy_index idxc dynamics ivs (Symbol (Named n))
   = Raise (CodegenError "Unknown symbol")) /\
  (forall z, idxc_subs idxc !! n = Some z ->
             gen_sympy_index idxc dynamics ivs (Symbol (Named n))
             = Ok (arith_constant (Scalar IndexType) z)).
Proof.
  split; [|split].
  - intros v Hv. apply gen_Ok_lower in Hv. by eapply lower_Ok_symbols_bound.
  - intros Hn Hd. rewrite gen_lower. simpl. rewrite Hn. simpl.
    by rewrite Hn, Hd.
  - intros z Hz. rewrite gen_lower. simpl. by rewrite Hz.
Qed.

Lemma lower_subs_Mod p q :
  lower idxc dynamics ivs (subs (idxc_sigma idxc) (Mod p q))
  = (l ← lower idxc dynamics ivs (subs (idxc_sigma idxc) p);
     r ← lower idxc dynamics ivs (subs (idxc_sigma idxc) q);
     lower_binary arith_remsi l r).
Proof. done. Qed.

Lemma lower_subs_StrictLessThan p q :
  lower idxc dynamics ivs (subs (idxc_sigma idxc) (StrictLessThan p q))
  = (l ← lower idxc dynamics ivs (subs (idxc_sigma idxc) p);
     r ← lower idxc dynamics ivs (subs (idxc_sigma idxc) q);
     lower_binary arith_cmpi_slt l r).
Proof. done. Qed.

Lemma lower_subs_And p q :
  lower idxc dynamics ivs (subs (idxc_sigma idxc) (And p q))
  = (l ← lower idxc dynamics ivs (subs (idxc_sigma idxc) p);
     r ← lower idxc dynamics ivs (subs (idxc_sigma idxc) q);
     lower_binary arith_andi l r).
Proof. done. Qed.

Lemma lower_subs_floor a :
  lower idxc dynamics ivs (subs (idxc_sigma idxc) (floor a))
  = (v ← lower idxc dynamics ivs (subs (idxc_sigma idxc) a); _floor v).
Proof. done. Qed.

(** X5: a deferred rational is accepted only under a floor or a ceiling:
    as an operand, on either side, of Mod, of a comparison or of And it is
    refused with CodegenError, while the same operand under a floor is
    lowered. *)
Theorem rational_operand_refused (a q : expr) (c d : Z) (va vq : ir_value) :
  gen_sympy_index idxc dynamics ivs a = Ok va ->
  type_of va = Scalar IndexType ->
  gen_sympy_index idxc dynamics ivs q = Ok vq ->
  let r := Mul [Rational c d; a] in
  let refused := Raise (CodegenError "Rational is not supported yet") in
  gen_sympy_index idxc dynamics ivs (Mod r q) = refused /\
  gen_sympy_index idxc dynamics ivs (Mod q r) = refused /\
  gen_sympy_index idxc dynamics ivs (StrictLessThan r q) = refused /\
  gen_sympy_index idxc dynamics ivs (StrictLessThan q r) = refused /\
  gen_sympy_index idxc dynamics ivs (And r q) = refused /\
  gen_sympy_index idxc dynamics ivs (And q r) = refused /\
  gen_sympy_index idxc dynamics ivs (Mod (floor r) q)
  = broadcast_then arith_remsi
      (arith_divsi (muli_fold va (arith_constant (Scalar IndexType) c))
         (arith_constant (Scalar IndexType) d)) vq.
Proof.
  intros Ha Ht Hq r refused. subst r refused.
  apply gen_Ok_lower in Ha, Hq.
  pose proof (lower_quotient idxc dynamics ivs a c d va Ha Ht) as Hr.
  repeat split; rewrite gen_lower;
    rewrite ?lower_subs_Mod, ?lower_subs_StrictLessThan, ?lower_subs_And,
      ?lower_subs_floor, ?Hr, ?Hq; try done.
  cbn [mbind result_bind _floor fmap result_fmap].
  rewrite broadcast_then_same by (by apply type_of_muli_fold).
  cbn [mbind result_bind fmap result_fmap]. unfold lower_binary.
  cbn [_enforce_non_rational mbind result_bind].
  destruct (broadcast_then arith_remsi _ vq); done.
Qed.

End Refusals.

Lemma lowered_symbols_are_bound_witness :
  gen_sympy_index ex_idxc ex_dynamics [] (Symbol (Named "K"))
  = Raise (CodegenError "Unknown symbol") /\
  gen_sympy_index ex_idxc (<["N" := gpu_thread_id 0]> ex_dynamics) []
    (Symbol (Named "N"))
  = Ok (arith_constant (Scalar IndexType) 128).
Proof.
  split.
  - apply (lowered_symbols_are_bound ex_idxc ex_dynamics [] (Integer 0) "K");
      reflexivity.
  - apply (lowered_symbols_are_bound ex_idxc
             (<["N" := gpu_thread_id 0]> ex_dynamics) [] (Integer 0) "N").
    reflexivity.
Defined.

Lemma rational_operand_refused_witness :
  gen_sympy_index ex_idxc ex_dynamics []
    (Mod (Mul [Rational 1 2; Symbol (Named THREAD_0)]) (Integer 4))
  = Raise (CodegenError "Rational is not supported yet").
Proof.
  apply (rational_operand_refused ex_idxc ex_dynamics []
           (Symbol (Named THREAD_0)) (Integer 4) 1 2 (gpu_thread_id 0)
           (arith_constant (Scalar IndexType) 4)); reflexivity.
Defined.

(** ** Lookups in the value cache *)

(** X6: a lookup returns what was bound last; a lookup of a node without
    an entry resolves it by reference, once: the value is cached, a second
    lookup returns it from the cache and changes nothing, and no other
    entry is touched; when the resolution fails, so does the lookup. *)
Theorem lookup_memoizes (st : state) (node : nat) :
  (forall v, lookup_node_values (bind_node_proxy st node v) node
             = Ok ([v], bind_node_proxy st node v)) /\
  (forall vs, lookup_node_values (bind_node_proxies st node vs) node
              = Ok (vs, bind_node_proxies st node vs)) /\
  (forall vs st',
     lookup_node_values st node = Ok (vs, st') ->
     lookup_node_values st' node = Ok (vs, st') /\
     _node_values st' !! node = Some vs /\
     (forall other, other <> node ->
        _node_values st' !! other = _node_values st !! other) /\
     (_node_values st !! node = None ->
      exists v, resolve_by_reference (self st) node = Ok v /\ vs = [v])) /\
  (forall e,
     _node_values st !! node = None ->
     resolve_by_reference (self st) node = Raise e ->
     lookup_node_values st node = Raise e).
Proof.
  split; [|split; [|split]].
  - intros v. unfold lookup_node_values, bind_node_proxy. simpl.
    by rewrite lookup_insert_eq.
  - intros vs. unfold lookup_node_values, bind_node_proxies. simpl.
    by rewrite lookup_insert_eq.
  - intros vs st'. unfold lookup_node_values.
    destruct (_node_values st !! node) as [ws|] eqn:Hn.
    + intros [= <- <-]. rewrite Hn. done.
    + destruct (resolve_by_reference (self st) node) as [v|] eqn:Hr; [|done].
      intros [= <- <-]. simpl. rewrite lookup_insert_eq.
      split; [done|]. split; [done|]. split.
      * intros other Hne. by apply lookup_insert_ne.
      * intros _. by exists v.
  - intros e Hn Hr. unfold lookup_node_values. by rewrite Hn, Hr.
Qed.

Lemma lookup_memoizes_witness :
  lookup_node_values ex_ready_state 0
  = Ok ([BlockArgument "a" ex_memref],
        bind_node_proxy ex_ready_state 0 (BlockArgument "a" ex_memref)) /\
  lookup_node_values ex_ready_state 99 = Raise (KeyError "node").
Proof.
  destruct (lookup_memoizes ex_ready_state 99) as (_ & _ & _ & Hfail).
  split; [reflexivity|]. apply Hfail; reflexivity.
Defined.

(** ** Dispatch and traversal *)

Section Traversal.

Context (idxc : IndexingContext).
Context (find_index_bounds :
           list Constraint -> index_dict -> option (list string)).
Context (strides_from_symbolic_shape :
           IndexingContext -> list string -> list expr).
Context (other_handlers : string -> state -> fx_node -> result state).

Lemma OP_HANDLERS_None name :
  OP_HANDLERS idxc find_index_bounds strides_from_symbolic_shape
    other_handlers name = None <-> name ∉ registered_ops.
Proof.
  unfold OP_HANDLERS, registered_ops.
  repeat (destruct (decide _) as [->|?];
          [split; [done|]; intros H; exfalso; apply H;
           apply elem_of_app; left; set_solver|]).
  rewrite elem_of_app.
  destruct (bool_decide (name ∈ other_handler_names)) eqn:Hb.
  - apply bool_decide_eq_true in Hb. split; [done|]. intros H. exfalso. auto.
  - apply bool_decide_eq_false in Hb. split; [|done]. intros _ [H|H]; [|done].
    repeat (apply elem_of_cons in H as [->|H]; [done|]).
    by apply elem_of_nil in H.
Qed.

(** X7: a call node whose operation has no registered handler is refused
    with CodegenError, and only such a node is refused at dispatch: for a
    registered operation the result is that of its handler.  The handler
    of [getitem] is a stub that always fails, and a shared memory barrier
    always succeeds, appends one [amdgpu.lds_barrier] and binds nothing. *)
Theorem dispatch_by_name (st : state) (node : fx_node) :
  (tkw_op_name (info_of node) ∉ registered_ops ->
   _emit_function_call_node idxc find_index_bounds
     strides_from_symbolic_shape other_handlers st node
   = Raise (CodegenError "No handler registered for op")) /\
  (tkw_op_name (info_of node) ∈ registered_ops ->
   exists handler,
     OP_HANDLERS idxc find_index_bounds strides_from_symbolic_shape
       other_handlers (tkw_op_name (info_of node)) = Some handler /\
     _emit_function_call_node idxc find_index_bounds
       strides_from_symbolic_shape other_handlers st node
     = handler (_emit_graph idxc find_index_bounds
                  strides_from_symbolic_shape other_handlers
                  (subgraph_of node)) st node) /\
  (tkw_op_name (info_of node) = "getitem" ->
   _emit_function_call_node idxc find_index_bounds
     strides_from_symbolic_shape other_handlers st node
   = Raise (NotImplementedError
              "getitem: Currently only stub implementation")) /\
  (tkw_op_name (info_of node) = "shared_memory_barrier" ->
   exists st',
     _emit_function_call_node idxc find_index_bounds
       strides_from_symbolic_shape other_handlers st node = Ok st' /\
     ip_ops (self st')
     = ip_ops (self st) ++ [other_operation "amdgpu.lds_barrier" []] /\
     _node_values st' = _node_values st).
Proof.
  rewrite emit_function_call_node_unfold. unfold emit_function_call_node_with.
  split; [|split; [|split]].
  - intros H. apply OP_HANDLERS_None in H. by rewrite H.
  - intros H.
    destruct (OP_HANDLERS _ _ _ _ _) as [handler|] eqn:Hh.
    + by exists handler.
    + apply OP_HANDLERS_None in Hh. done.
  - intros ->. done.
  - intros ->. eexists. split; [done|]. done.
Qed.

Lemma emit_graph_passed_over graph st :
  Forall passed_over graph ->
  _emit_graph idxc find_index_bounds strides_from_symbolic_shape
    other_handlers graph st = Ok (None, st).
Proof.
  induction 1 as [|n g (H1 & H2 & H3) _ IH]; [done|].
  cbn [_emit_graph].
  rewrite !bool_decide_eq_false_2 by done. cbn [orb mbind result_bind].
  exact IH.
Qed.

(** X8: [_emit_graph] lowers the call nodes in order and stops at the
    first output node, whose operands it returns: the nodes after it are
    never lowered.  Nodes that are neither calls nor the output are passed
    over, and a graph without an output node returns None. *)
Theorem emit_graph_stops_at_output (pre post : list fx_node) (out : fx_node)
    (st : state) :
  node_op (info_of out) = "output" ->
  Forall (fun n => node_op (info_of n) <> "output") pre ->
  _emit_graph idxc find_index_bounds strides_from_symbolic_shape
    other_handlers (pre ++ out :: post) st
  = _emit_graph idxc find_index_bounds strides_from_symbolic_shape
      other_handlers (pre ++ [out]) st /\
  (forall r st',
     _emit_graph idxc find_index_bounds strides_from_symbolic_shape
       other_handlers (pre ++ out :: post) st = Ok (r, st') ->
     r = Some (node_args (info_of out))) /\
  (forall r st',
     _emit_graph idxc find_index_bounds strides_from_symbolic_shape
       other_handlers pre st = Ok (r, st') ->
     r = None /\
     _emit_graph idxc find_index_bounds strides_from_symbolic_shape
       other_handlers (pre ++ out :: post) st
     = Ok (Some (node_args (info_of out)), st')) /\
  (Forall passed_over pre ->
   _emit_graph idxc find_index_bounds strides_from_symbolic_shape
     other_handlers (pre ++ out :: post) st
   = Ok (Some (node_args (info_of out)), st)).
Proof.
  intros Hout Hpre.
  assert (Hstep : forall post' s,
    _emit_graph idxc find_index_bounds strides_from_symbolic_shape
      other_handlers (out :: post') s
    = Ok (Some (node_args (info_of out)), s)).
  { intros post' s. cbn [_emit_graph]. rewrite Hout. done. }
  assert (Hgen : forall post' s,
    _emit_graph idxc find_index_bounds strides_from_symbolic_shape
      other_handlers (pre ++ out :: post') s
    = ('(_, s') ← _emit_graph idxc find_index_bounds
                    strides_from_symbolic_shape other_handlers pre s;
       Ok (Some (node_args (info_of out)), s'))
    /\ forall r s', _emit_graph idxc find_index_bounds
                      strides_from_symbolic_shape other_handlers pre s
                    = Ok (r, s') -> r = None).
  { intros post'. induction Hpre as [|n g Hn _ IH]; intros s.
    - split; [apply Hstep|]. by intros r s' [= <- _].
    - cbn [app _emit_graph].
      match goal with
      | |- (?e ≫= _) = _ /\ _ => destruct e as [s1|]; [|done]
      end.
      cbn [mbind result_bind]. rewrite bool_decide_eq_false_2 by done.
      apply IH. }
  split; [|split; [|split]].
  - by rewrite (proj1 (Hgen post st)), (proj1 (Hgen [] st)).
  - intros r st'. rewrite (proj1 (Hgen post st)).
    destruct (_emit_graph _ _ _ _ pre st) as [[r0 s0]|]; [|done].
    by intros [= <- _].
  - intros r st' Hrun. split; [by eapply (proj2 (Hgen post st))|].
    by rewrite (proj1 (Hgen post st)), Hrun.
  - intros Hpass. rewrite (proj1 (Hgen post st)).
    by rewrite (emit_graph_passed_over pre st Hpass).
Qed.

End Traversal.

Lemma dispatch_by_name_witness :
  _emit_function_call_node ex_idxc ex_no_bounds ex_strides ex_other_handlers
    ex_ready_state
    (FxNode (ex_node 50 "call_function" "permute" [] None None false) [])
  = Raise (CodegenError "No handler registered for op").
Proof.
  apply (dispatch_by_name ex_idxc ex_no_bounds ex_strides ex_other_handlers).
  unfold registered_ops, other_handler_names. simpl.
  intros H. repeat (apply elem_of_cons in H as [H|H]; [discriminate H|]).
  by apply elem_of_nil in H.
Defined.

Lemma emit_graph_stops_at_output_witness :
  _emit_graph ex_idxc ex_no_bounds ex_strides ex_other_handlers
    ([FxNode (ex_node 0 "placeholder" "placeholder" [] None None false) []]
     ++ ex_output_node 12 [ArgNone]
     :: [ex_mapped_read ex_swap_both; ex_write_node]) ex_ready_state
  = Ok (Some [ArgNone], ex_ready_state).
Proof.
  apply (emit_graph_stops_at_output ex_idxc ex_no_bounds ex_strides
           ex_other_handlers
           [FxNode (ex_node 0 "placeholder" "placeholder" [] None None false)
              []]
           [ex_mapped_read ex_swap_both; ex_write_node]
           (ex_output_node 12 [ArgNone]) ex_ready_state).
  - reflexivity.
  - constructor; [discriminate|constructor].
  - constructor; [|constructor]. repeat split; discriminate.
Defined.

(** ** Program invariants and dynamic symbols *)

Lemma bind_dynamic_dims_Ok args : forall symbols dims,
  (length (index_arguments args) <= length symbols)%nat ->
  bind_dynamic_dims args symbols dims
  = Ok (foldl (fun m kv => <[kv.1 := kv.2]> m) dims
          (zip symbols (index_arguments args))).
Proof.
  unfold index_arguments.
  induction args as [|a args IH]; intros symbols dims Hlen; simpl.
  - by destruct symbols.
  - rewrite filter_cons in *. destruct (decide (type_of a = Scalar IndexType)).
    + destruct symbols as [|s symbols]; simpl in *; [lia|].
      rewrite IH by lia. done.
    + by apply IH.
Qed.

Lemma bind_dynamic_dims_short args : forall symbols dims,
  (length symbols < length (index_arguments args))%nat ->
  bind_dynamic_dims args symbols dims = Raise StopIteration.
Proof.
  unfold index_arguments.
  induction args as [|a args IH]; intros symbols dims Hlen; simpl in *.
  - lia.
  - rewrite filter_cons in *. destruct (decide (type_of a = Scalar IndexType)).
    + destruct symbols as [|s symbols]; simpl in *; [done|].
      apply IH. lia.
    + by apply IH.
Qed.

Lemma foldl_insert_keep (l : list (string * ir_value)) :
  forall (m : gmap string ir_value) s,
  s ∉ l.*1 ->
  foldl (fun m kv => <[kv.1 := kv.2]> m) m l !! s = m !! s.
Proof.
  induction l as [|[k w] l IH]; intros m s Hs; [done|]. simpl in *.
  apply not_elem_of_cons in Hs as [Hne Hs].
  rewrite IH by done. by apply lookup_insert_ne.
Qed.

Lemma zip_keys_subset (symbols : list string) (vals : list ir_value) s :
  s ∈ (zip symbols vals).*1 -> s ∈ symbols.
Proof.
  intros Hin. apply list_elem_of_fmap in Hin as ([k w] & -> & Hin).
  simpl. by apply elem_of_zip_l in Hin.
Qed.

Lemma foldl_insert_lookup (symbols : list string) :
  forall (vals : list ir_value) (dims : gmap string ir_value) i s v,
  NoDup symbols ->
  symbols !! i = Some s -> vals !! i = Some v ->
  foldl (fun m kv => <[kv.1 := kv.2]> m) dims (zip symbols vals) !! s = Some v.
Proof.
  induction symbols as [|s0 symbols IH]; intros vals dims i s v Hnd Hs Hv;
    [done|].
  destruct vals as [|v0 vals]; [done|]. apply NoDup_cons in Hnd as [Hnot Hnd].
  destruct i as [|i]; simpl in *.
  - injection Hs as ->. injection Hv as ->.
    rewrite foldl_insert_keep; [by rewrite lookup_insert_eq|].
    intros Hin. by apply Hnot, (zip_keys_subset symbols vals).
  - by eapply IH.
Qed.

(** X9: [emit_program_invariants] gives the entry block arguments of type
    index, in order, to the dynamic symbols, in order, and passes over the
    other arguments; with more such arguments than dynamic symbols it
    fails with StopIteration.  It sets the thread and workgroup ids,
    forgets the induction variables, and leaves the value cache and the
    constraints as they are. *)
Theorem program_invariants (st : state) :
  ((length (dynamic_symbols (self st))
    < length (index_arguments (entry_block_arguments (self st))))%nat ->
   emit_program_invariants st = Raise StopIteration) /\
  ((length (index_arguments (entry_block_arguments (self st)))
    <= length (dynamic_symbols (self st)))%nat ->
   exists st',
     emit_program_invariants st = Ok st' /\
     thread_ids (self st')
     = [gpu_thread_id 0; gpu_thread_id 1; gpu_thread_id 2] /\
     workgroup_ids (self st')
     = [stream_dispatch_workgroup_id 0; stream_dispatch_workgroup_id 1;
        stream_dispatch_workgroup_id 2] /\
     induction_vars (self st') = ∅ /\
     _node_values st' = _node_values st /\
     constraints (self st') = constraints (self st) /\
     (NoDup (dynamic_symbols (self st)) ->
      forall i sym arg,
        dynamic_symbols (self st) !! i = Some sym ->
        index_arguments (entry_block_arguments (self st)) !! i = Some arg ->
        dynamic_dims (self st') !! sym = Some arg) /\
     (forall sym, sym ∉ dynamic_symbols (self st) ->
                  dynamic_dims (self st') !! sym = None)).
Proof.
  split.
  - intros Hlen. unfold emit_program_invariants.
    by rewrite bind_dynamic_dims_short.
  - intros Hlen. unfold emit_program_invariants.
    rewrite bind_dynamic_dims_Ok by done. cbn [mbind result_bind].
    eexists. split; [done|]. cbn.
    repeat (split; [done|]). split.
    + intros Hnd i sym arg Hs Ha. by eapply foldl_insert_lookup.
    + intros sym Hsym. rewrite foldl_insert_keep; [done|].
      intros Hin. by apply Hsym, (zip_keys_subset _ _ _ Hin).
Qed.

Lemma tiling_induction_vars_Ok cs ivs :
  Forall (fun tc => is_Some (ivs !! tc.1)) (tiling_constraints cs) ->
  exists vals,
    tiling_induction_vars cs ivs = Ok (map snd (tiling_constraints cs), vals) /\
    Forall2 (fun tc v => ivs !! tc.1 = Some v) (tiling_constraints cs) vals.
Proof.
  unfold tiling_constraints.
  induction cs as [|c cs IH]; intros H; simpl in *.
  - exists []. split; [done|constructor].
  - destruct c as [shape|dim|dim|dim iv]; simpl in *; try by apply IH.
    apply Forall_cons in H as [[v Hv] H]. destruct (IH H) as (vals & Hrun & Hf).
    exists (v :: vals). simpl in Hv. rewrite Hv, Hrun. split; [done|].
    by constructor.
Qed.

Lemma tiling_induction_vars_missing cs ivs :
  Exists (fun tc => ivs !! tc.1 = None) (tiling_constraints cs) ->
  tiling_induction_vars cs ivs
  = Raise (AssertionError "Could not find induction var").
Proof.
  unfold tiling_constraints.
  induction cs as [|c cs IH]; intros H; simpl in *.
  - by apply Exists_nil in H.
  - destruct c as [shape|dim|dim|dim iv]; simpl in *; try by apply IH.
    destruct (ivs !! dim) as [v|] eqn:Hd; [|done].
    apply Exists_cons in H as [H|H]; [simpl in H; congruence|].
    by rewrite (IH H).
Qed.

(** X10: while no induction variable is registered, [get_induction_vars]
    returns nothing, whatever the constraints; once one is registered it
    returns, for every tiling constraint in order, the constraint's
    induction variable symbol and the value registered for its dimension,
    and fails with AssertionError when the dimension of any tiling
    constraint has no registered value. *)
Theorem induction_vars_of_tiling (emitter : WaveEmitter) :
  (induction_vars emitter = ∅ -> get_induction_vars emitter = Ok ([], [])) /\
  (induction_vars emitter <> ∅ ->
   Forall (fun tc => is_Some (induction_vars emitter !! tc.1))
     (tiling_constraints (constraints emitter)) ->
   exists vals,
     get_induction_vars emitter
     = Ok (map snd (tiling_constraints (constraints emitter)), vals) /\
     Forall2 (fun tc v => induction_vars emitter !! tc.1 = Some v)
       (tiling_constraints (constraints emitter)) vals) /\
  (induction_vars emitter <> ∅ ->
   Exists (fun tc => induction_vars emitter !! tc.1 = None)
     (tiling_constraints (constraints emitter)) ->
   get_induction_vars emitter
   = Raise (AssertionError "Could not find induction var") /\
   forall idxc e,
     _gen_sympy_index_full idxc emitter e
     = Raise (AssertionError "Could not find induction var")).
Proof.
  unfold get_induction_vars. split; [|split].
  - intros ->. done.
  - intros Hne Hall. rewrite decide_False by done.
    by apply tiling_induction_vars_Ok.
  - intros Hne Hex. rewrite decide_False by done.
    pose proof (tiling_induction_vars_missing _ _ Hex) as Hfail.
    split; [done|]. intros idxc e.
    unfold _gen_sympy_index_full, get_emitter_subs, get_induction_vars.
    rewrite decide_False by done. by rewrite Hfail.
Qed.

(** X11: after [emit_program_invariants], an index expression that is the
    symbol of a thread or workgroup id lowers to that id, and a dynamic
    symbol lowers to the entry block argument it was given, which takes
    precedence over an id symbol of the same name; a symbol frozen in the
    indexing context lowers to its constant before either. *)
Theorem symbols_after_invariants (idxc : IndexingContext) (st st' : state) :
  emit_program_invariants st = Ok st' ->
  (forall sym v,
     (sym, v) ∈ id_symbols ->
     idxc_subs idxc !! sym = None ->
     dynamic_dims (self st') !! sym = None ->
     _gen_sympy_index_full idxc (self st') (Symbol (Named sym)) = Ok v) /\
  (forall sym arg,
     dynamic_dims (self st') !! sym = Some arg ->
     idxc_subs idxc !! sym = None ->
     _gen_sympy_index_full idxc (self st') (Symbol (Named sym)) = Ok arg) /\
  (forall sym z,
     idxc_subs idxc !! sym = Some z ->
     _gen_sympy_index_full idxc (self st') (Symbol (Named sym))
     = Ok (arith_constant (Scalar IndexType) z)).
Proof.
  unfold emit_program_invariants.
  destruct (bind_dynamic_dims _ _ _) as [dims|]; [|done].
  cbn [mbind result_bind]. intros [= <-].
  assert (Hfull : forall e,
    _gen_sympy_index_full idxc
      (self (set_self
         {| constraints := constraints (self st);
            dynamic_symbols := dynamic_symbols (self st);
            entry_block_arguments := entry_block_arguments (self st);
            resolve_by_reference := resolve_by_reference (self st);
            workgroup_ids := [stream_dispatch_workgroup_id 0;
                              stream_dispatch_workgroup_id 1;
                              stream_dispatch_workgroup_id 2];
            thread_ids := [gpu_thread_id 0; gpu_thread_id 1;
                           gpu_thread_id 2];
            induction_vars := ∅;
            dynamic_dims := dims;
            ip_ops := ip_ops (self st) |} st)) e
    = gen_sympy_index idxc
        (dims ∪ dict_of_zip
                  [THREAD_0; THREAD_1; THREAD_2;
                   WORKGROUP_0; WORKGROUP_1; WORKGROUP_2]
                  [gpu_thread_id 0; gpu_thread_id 1; gpu_thread_id 2;
                   stream_dispatch_workgroup_id 0;
                   stream_dispatch_workgroup_id 1;
                   stream_dispatch_workgroup_id 2]) [] e).
  { intros e. done. }
  cbn [self set_self dynamic_dims] in *.
  split; [|split].
  - intros sym v Hin Hfrozen Hdyn. rewrite Hfull, gen_lower. simpl.
    rewrite Hfrozen. simpl. rewrite Hfrozen. simpl.
    rewrite lookup_union_r by done.
    unfold id_symbols in Hin.
    repeat (apply elem_of_cons in Hin as [[= -> ->]|Hin]; [done|]).
    by apply elem_of_nil in Hin.
  - intros sym arg Hdyn Hfrozen. rewrite Hfull, gen_lower. simpl.
    rewrite Hfrozen. simpl. rewrite Hfrozen. simpl.
    by rewrite (lookup_union_Some_l _ _ _ _ Hdyn).
  - intros sym z Hz. rewrite Hfull, gen_lower. simpl. by rewrite Hz.
Qed.

Lemma program_invariants_witness :
  emit_program_invariants (ex_dynamic_state ["MD"]) = Raise StopIteration /\
  exists st',
    emit_program_invariants (ex_dynamic_state ["MD"; "ND"]) = Ok st' /\
    dynamic_dims (self st') !! "MD"
    = Some (BlockArgument "m" (Scalar IndexType)) /\
    dynamic_dims (self st') !! "ND"
    = Some (BlockArgument "n" (Scalar IndexType)).
Proof.
  split.
  - apply (program_invariants (ex_dynamic_state ["MD"])). simpl. lia.
  - destruct (program_invariants (ex_dynamic_state ["MD"; "ND"])) as [_ H].
    destruct H as (st' & Hrun & _ & _ & _ & _ & _ & Hdims & _);
      [simpl; lia|].
    exists st'. split; [exact Hrun|].
    assert (Hnd : NoDup (dynamic_symbols (self (ex_dynamic_state ["MD"; "ND"]))))
      by (simpl; apply NoDup_cons_2; [|apply NoDup_singleton];
          intros H; apply list_elem_of_singleton in H; discriminate H).
    split.
    + apply (Hdims Hnd 0%nat); reflexivity.
    + apply (Hdims Hnd 1%nat); reflexivity.
Defined.

Lemma induction_vars_of_tiling_witness :
  get_induction_vars (self (ex_dynamic_state [])) = Ok ([], []) /\
  get_induction_vars
    (set_induction_vars (<["K" := induction_variable 0]> ∅)
       (self (ex_dynamic_state [])))
  = Raise (AssertionError "Could not find induction var").
Proof.
  split.
  - apply (induction_vars_of_tiling (self (ex_dynamic_state []))).
    reflexivity.
  - apply (induction_vars_of_tiling
             (set_induction_vars (<["K" := induction_variable 0]> ∅)
                (self (ex_dynamic_state [])))).
    + simpl. intros H.
      assert (Hk : (<["K" := induction_variable 0]> ∅
                    : gmap string ir_value) !! "K" = None)
        by (by rewrite H).
      rewrite lookup_insert_eq in Hk. discriminate Hk.
    + simpl. apply Exists_cons_tl, Exists_cons_hd. reflexivity.
Defined.

Lemma symbols_after_invariants_witness :
  _gen_sympy_index_full ex_idxc (self ex_ready_state)
    (Symbol (Named THREAD_1)) = Ok (gpu_thread_id 1) /\
  _gen_sympy_index_full ex_idxc (self ex_ready_state)
    (Symbol (Named "N")) = Ok (arith_constant (Scalar IndexType) 128).
Proof.
  destruct (symbols_after_invariants ex_idxc ex_fresh_state ex_ready_state
              eq_refl) as (Hid & _ & Hfrozen).
  split.
  - apply Hid; [|reflexivity|reflexivity].
    unfold id_symbols. apply list_elem_of_further, list_elem_of_here.
  - apply Hfrozen. reflexivity.
Defined.

(** ** Reads and writes *)

Section ReadsAndWrites.

Context (idxc : IndexingContext).
Context (find_index_bounds :
           list Constraint -> index_dict -> option (list string)).
Context (strides_from_symbolic_shape :
           IndexingContext -> list string -> list expr).

(** The steps of a read that returns. *)
Lemma handle_read_inv st node st' :
  handle_read idxc find_index_bounds strides_from_symbolic_shape st node
  = Ok st' ->
  exists memory e mp x ept kb ty st1 index shape mapping r st2,
    node_args (info_of node) = [memory; e; mp; x] /\
    cast_py_literal e = Ok ept /\
    cast_kernel_buffer st memory = Ok (kb, ty, st1) /\
    node_index (info_of node) = Some index /\
    _get_symbolic_shape memory = Ok shape /\
    as_mapping mp = Ok mapping /\
    read_path idxc find_index_bounds strides_from_symbolic_shape st1 node kb
      (VectorType [ept] (element_type_of ty)) shape index mapping ept
    = Ok (r, st2) /\
    st' = bind_node_proxy st2 (node_name (info_of node)) r.
Proof.
  unfold handle_read.
  destruct (node_args (info_of node)) as [|memory [|e [|mp [|x [|]]]]];
    try done.
  destruct (cast_py_literal e) as [ept|] eqn:He; [|done].
  cbn [mbind result_bind].
  destruct (cast_kernel_buffer st memory) as [[[kb ty] st1]|] eqn:Hkb; [|done].
  cbn [mbind result_bind].
  destruct (node_index (info_of node)) as [index|] eqn:Hidx; [|done].
  destruct (_get_symbolic_shape memory) as [shape|] eqn:Hsh; [|done].
  cbn [mbind result_bind].
  destruct (as_mapping mp) as [mapping|] eqn:Hmp; [|done].
  cbn [mbind result_bind].
  match goal with
  | |- (?p ≫= _) = _ -> _ => destruct p as [[r st2]|] eqn:Hp; [|done]
  end.
  cbn [mbind result_bind]. intros [= <-].
  exists memory, e, mp, x, ept, kb, ty, st1, index, shape, mapping, r, st2.
  repeat (split; [done|]). done.
Qed.

(** The steps of a write that returns. *)
Lemma handle_write_inv st node st' :
  handle_write idxc find_index_bounds strides_from_symbolic_shape st node
  = Ok st' ->
  exists register memory e mp kb ty st1 v st2 ept index ishape oshape mapping,
    node_args (info_of node) = [register; memory; e; mp] /\
    cast_kernel_buffer st memory = Ok (kb, ty, st1) /\
    cast_vector st1 register (Some (element_type_of ty)) = Ok (v, st2) /\
    cast_py_literal e = Ok ept /\
    shape_of (type_of v) = [ept] /\
    node_index (info_of node) = Some index /\
    _get_symbolic_shape register = Ok ishape /\
    _get_symbolic_shape memory = Ok oshape /\
    as_mapping mp = Ok mapping /\
    write_path idxc find_index_bounds strides_from_symbolic_shape st2 node kb
      v ishape oshape index mapping ept = Ok st'.
Proof.
  unfold handle_write.
  destruct (node_args (info_of node)) as [|register [|memory [|e [|mp [|]]]]];
    try done.
  destruct (cast_kernel_buffer st memory) as [[[kb ty] st1]|] eqn:Hkb; [|done].
  cbn [mbind result_bind].
  destruct (cast_vector st1 register _) as [[v st2]|] eqn:Hv; [|done].
  cbn [mbind result_bind].
  destruct (cast_py_literal e) as [ept|] eqn:He; [|done].
  cbn [mbind result_bind].
  destruct (decide (shape_of (type_of v) ≠ [ept])) as [|Hshape]; [done|].
  destruct (node_index (info_of node)) as [index|] eqn:Hidx; [|done].
  destruct (_get_symbolic_shape register) as [ishape|] eqn:Hi; [|done].
  cbn [mbind result_bind].
  destruct (_get_symbolic_shape memory) as [oshape|] eqn:Ho; [|done].
  cbn [mbind result_bind].
  destruct (as_mapping mp) as [mapping|] eqn:Hmp; [|done].
  cbn [mbind result_bind]. intros Hp.
  exists register, memory, e, mp, kb, ty, st1, v, st2, ept, index, ishape,
    oshape, mapping.
  repeat (split; [done|]).
  split; [destruct (decide (shape_of (type_of v) = [ept])); [done|by destruct Hshape]|].
  repeat (split; [done|]). done.
Qed.


(** X12: a read or a write with a mapping that is an identity mapping for
    the shapes at hand is lowered exactly as the same node without a
    mapping. *)
Theorem identity_mapping_elided (st : state) (node : fx_node)
    (m : IndexMapping) :
  (forall memory e x shape,
     _get_symbolic_shape memory = Ok shape ->
     _is_identity_mapping m (Some shape) None = true ->
     handle_read idxc find_index_bounds strides_from_symbolic_shape st
       (with_args node [memory; e; ArgMapping m; x])
     = handle_read idxc find_index_bounds strides_from_symbolic_shape st
         (with_args node [memory; e; ArgNone; x])) /\
  (forall register memory e ishape oshape,
     _get_symbolic_shape register = Ok ishape ->
     _get_symbolic_shape memory = Ok oshape ->
     _is_identity_mapping m (Some ishape) (Some oshape) = true ->
     handle_write idxc find_index_bounds strides_from_symbolic_shape st
       (with_args node [register; memory; e; ArgMapping m])
     = handle_write idxc find_index_bounds strides_from_symbolic_shape st
         (with_args node [register; memory; e; ArgNone])).
Proof.
  destruct node as [info subgraph]. split.
  - intros memory e x shape Hshape Hid. unfold handle_read.
    cbn [with_args info_of node_args node_index node_name].
    destruct (cast_py_literal e) as [ept|]; [|done]. cbn [mbind result_bind].
    destruct (cast_kernel_buffer st memory) as [[[kb ty] st1]|]; [|done].
    cbn [mbind result_bind].
    destruct (node_index info) as [index|]; [|done].
    rewrite Hshape. cbn [mbind result_bind as_mapping]. by rewrite Hid.
  - intros register memory e ishape oshape Hi Ho Hid. unfold handle_write.
    cbn [with_args info_of node_args node_index node_name].
    destruct (cast_kernel_buffer st memory) as [[[kb ty] st1]|]; [|done].
    cbn [mbind result_bind].
    destruct (cast_vector st1 register _) as [[v st2]|]; [|done].
    cbn [mbind result_bind].
    destruct (cast_py_literal e) as [ept|]; [|done]. cbn [mbind result_bind].
    destruct (decide _); [done|].
    destruct (node_index info) as [index|]; [|done].
    rewrite Hi, Ho. cbn [mbind result_bind as_mapping]. by rewrite Hid.
Qed.

Lemma read_path_identity st node kb vt shape index mp mapping ept :
  as_mapping mp = Ok mapping ->
  identity_or_absent mp (Some shape) None ->
  read_path idxc find_index_bounds strides_from_symbolic_shape st node kb vt
    shape index mapping ept
  = read_identity_path idxc find_index_bounds st node kb vt index ept.
Proof.
  intros Hmp [-> | (m & -> & Hid)]; injection Hmp as <-; [done|].
  unfold read_path. by rewrite Hid.
Qed.

Lemma write_path_identity st node kb v ishape oshape index mp mapping ept :
  as_mapping mp = Ok mapping ->
  identity_or_absent mp (Some ishape) (Some oshape) ->
  write_path idxc find_index_bounds strides_from_symbolic_shape st node kb v
    ishape oshape index mapping ept
  = write_identity_path idxc find_index_bounds st node kb v index ept.
Proof.
  intros Hmp [-> | (m & -> & Hid)]; injection Hmp as <-; [done|].
  unfold write_path. by rewrite Hid.
Qed.

(** X13: with bounded dimensions, a read with an absent or identity
    mapping is a [vector.maskedload] under the bounds mask, with a splat
    of zero for the lanes that are masked off, and a write is a
    [vector.maskedstore]; in the shared address space the mask is built
    but not used, and the read and the write are a plain [vector.load]
    and [vector.store]. *)
Theorem masked_access (st st' : state) (node : fx_node)
    (index : index_dict) (bounds : list string) :
  node_index (info_of node) = Some index ->
  find_index_bounds (constraints (self st)) index = Some bounds ->
  (forall memory e mp x shape,
     node_args (info_of node) = [memory; e; mp; x] ->
     _get_symbolic_shape memory = Ok shape ->
     identity_or_absent mp (Some shape) None ->
     handle_read idxc find_index_bounds strides_from_symbolic_shape st node
     = Ok st' ->
     exists ept id kb elem starts mask,
       cast_py_literal e = Ok ept /\
       _build_start_indices idxc (self st) index = Ok starts /\
       _build_mask idxc find_index_bounds (self st) index ept
       = Ok (Some mask) /\
       ip_ops (self st')
       = ip_ops (self st)
         ++ [if decide (memory_type_address_space (info_of node)
                        = SHARED_ADDRESS_SPACE)
             then vector_load id (VectorType [ept] elem) kb starts
             else vector_maskedload id (VectorType [ept] elem) kb starts
                    mask (vector_splat (VectorType [ept] elem)
                            (get_constant 0 elem))]) /\
  (forall register memory e mp ishape oshape,
     node_args (info_of node) = [register; memory; e; mp] ->
     _get_symbolic_shape register = Ok ishape ->
     _get_symbolic_shape memory = Ok oshape ->
     identity_or_absent mp (Some ishape) (Some oshape) ->
     handle_write idxc find_index_bounds strides_from_symbolic_shape st node
     = Ok st' ->
     exists ept kb v starts mask,
       cast_py_literal e = Ok ept /\
       _build_start_indices idxc (self st) index = Ok starts /\
       _build_mask idxc find_index_bounds (self st) index ept
       = Ok (Some mask) /\
       ip_ops (self st')
       = ip_ops (self st)
         ++ [if decide (memory_type_address_space (info_of node)
                        = SHARED_ADDRESS_SPACE)
             then vector_store v kb starts
             else vector_maskedstore kb starts mask v]).
Proof.
  intros Hidx Hfib. split.
  - intros memory e mp x shape Hargs Hshape Hmap Hok.
    apply handle_read_inv in Hok
      as (memory' & e' & mp' & x' & ept & kb & ty & st1 & index' & shape'
          & mapping & r & st2 & Hargs' & He & Hkb & Hidx' & Hshape' & Hmp
          & Hpath & ->).
    rewrite Hargs in Hargs'. injection Hargs' as <- <- <- <-.
    rewrite Hidx in Hidx'. injection Hidx' as <-.
    rewrite Hshape in Hshape'. injection Hshape' as <-.
    rewrite (read_path_identity _ _ _ _ _ _ mp) in Hpath by done.
    apply cast_kernel_buffer_self in Hkb.
    unfold read_identity_path in Hpath. rewrite Hkb in Hpath.
    destruct (_build_start_indices idxc (self st) index) as [starts|]; [|done].
    cbn [mbind result_bind] in Hpath.
    destruct (_build_mask idxc find_index_bounds (self st) index ept)
      as [mask|] eqn:Hmask; [|done].
    cbn [mbind result_bind] in Hpath.
    assert (exists mk, mask = Some mk) as [mk ->].
    { unfold _build_mask in Hmask. rewrite Hfib in Hmask.
      destruct (mask_preds _ _ _); [|done]. cbn [mbind result_bind] in Hmask.
      destruct (gen_mask_expr _ _ _); [|done].
      cbn [mbind result_bind] in Hmask.
      destruct (decide _); injection Hmask as <-; by eexists. }
    exists ept, (next_op st1), kb, (element_type_of ty), starts, mk.
    split; [done|]. split; [done|]. split; [done|].
    cbn [create_op] in Hpath.
    destruct (decide _); injection Hpath as <- <-; cbn; by rewrite Hkb.
  - intros register memory e mp ishape oshape Hargs Hi Ho Hmap Hok.
    apply handle_write_inv in Hok
      as (register' & memory' & e' & mp' & kb & ty & st1 & v & st2 & ept
          & index' & ishape' & oshape' & mapping & Hargs' & Hkb & Hv & He
          & Hsh & Hidx' & Hi' & Ho' & Hmp & Hpath).
    rewrite Hargs in Hargs'. injection Hargs' as <- <- <- <-.
    rewrite Hidx in Hidx'. injection Hidx' as <-.
    rewrite Hi in Hi'. injection Hi' as <-.
    rewrite Ho in Ho'. injection Ho' as <-.
    rewrite (write_path_identity _ _ _ _ _ _ _ mp) in Hpath by done.
    apply cast_kernel_buffer_self in Hkb. apply cast_vector_self in Hv.
    unfold write_identity_path in Hpath. rewrite Hv, Hkb in Hpath.
    destruct (_build_start_indices idxc (self st) index) as [starts|]; [|done].
    cbn [mbind result_bind] in Hpath.
    destruct (_build_mask idxc find_index_bounds (self st) index ept)
      as [mask|] eqn:Hmask; [|done].
    cbn [mbind result_bind] in Hpath.
    assert (exists mk, mask = Some mk) as [mk ->].
    { unfold _build_mask in Hmask. rewrite Hfib in Hmask.
      destruct (mask_preds _ _ _); [|done]. cbn [mbind result_bind] in Hmask.
      destruct (gen_mask_expr _ _ _); [|done].
      cbn [mbind result_bind] in Hmask.
      destruct (decide _); injection Hmask as <-; by eexists. }
    exists ept, kb, v, starts, mk.
    split; [done|]. split; [done|]. split; [done|].
    destruct (decide _); injection Hpath as <-; cbn; by rewrite Hv, Hkb.
Qed.



Lemma gather_scatter_ip_ops ops emitter shape index m ept is_read offset :
  _construct_gather_scatter_indices idxc find_index_bounds
    strides_from_symbolic_shape (set_ip_ops ops emitter) shape index m ept
    is_read offset
  = _construct_gather_scatter_indices idxc find_index_bounds
      strides_from_symbolic_shape emitter shape index m ept is_read offset.
Proof. reflexivity. Qed.

(** The gathers of the lanes of a mapped read. *)
Lemma read_lanes_gathers kb elem passthru shape index m lanes :
  forall st res r st',
  read_lanes idxc find_index_bounds strides_from_symbolic_shape st kb elem
    passthru shape index m lanes res = Ok (r, st') ->
  exists ops,
    ip_ops (self st') = ip_ops (self st) ++ ops /\
    self st' = set_ip_ops (ip_ops (self st')) (self st) /\
    _node_values st' = _node_values st /\
    type_of r = type_of res /\
    Forall2 (fun i op =>
               exists id start_indices offsets_vec mask,
                 op = vector_gather id (VectorType [1%nat] elem) kb
                        start_indices offsets_vec mask passthru /\
                 _construct_gather_scatter_indices idxc find_index_bounds
                   strides_from_symbolic_shape (self st) shape index m 1 true
                   (Z.of_nat i) = Ok (start_indices, offsets_vec, mask))
            lanes ops.
Proof.
  induction lanes as [|i lanes IH]; intros st res r st'; cbn [read_lanes].
  - intros [= <- <-]. exists []. rewrite app_nil_r.
    split; [done|]. split; [by destruct st as [? []]|]. split; [done|].
    split; [done|constructor].
  - destruct (_construct_gather_scatter_indices _ _ _ (self st) _ _ _ _ _ _)
      as [[[si ov] mk]|] eqn:Hsynth; [|done].
    cbn [mbind result_bind create_op]. intros Hrest.
    apply IH in Hrest as (ops & Hops & Hself & Hnv & Hty & Hall).
    cbn in Hops, Hnv, Hty.
    exists (vector_gather (next_op st) (VectorType [1%nat] elem) kb si ov mk
              passthru :: ops).
    split; [by rewrite Hops, <- app_assoc|].
    split; [by rewrite Hself|]. split; [done|]. split; [done|].
    constructor; [by eexists _, _, _, _|].
    eapply Forall2_impl; [exact Hall|].
    intros j op (id & si' & ov' & mk' & -> & Hs). by eexists _, _, _, _.
Qed.

(** X14: a read with a mapping that is not an identity mapping is lowered
    lane by lane: for k elements per thread the memory operations it
    appends are exactly k [vector.gather]s of one element each, the i-th
    with the indices the synthesizer gives for thread offset i, all with a
    splat of zero as passthrough, and it binds the node to one value of k
    elements. *)
Theorem mapped_read_gathers (st st' : state) (node : fx_node)
    (memory e x : py_arg) (m : IndexMapping) (ept : nat)
    (shape : list string) (index : index_dict) :
  node_args (info_of node) = [memory; e; ArgMapping m; x] ->
  cast_py_literal e = Ok ept ->
  node_index (info_of node) = Some index ->
  _get_symbolic_shape memory = Ok shape ->
  _is_identity_mapping m (Some shape) None = false ->
  handle_read idxc find_index_bounds strides_from_symbolic_shape st node
  = Ok st' ->
  exists kb elem ops r,
    ip_ops (self st') = ip_ops (self st) ++ ops /\
    length ops = ept /\
    (forall i op,
       ops !! i = Some op ->
       exists id start_indices offsets_vec mask,
         op = vector_gather id (VectorType [1%nat] elem) kb start_indices
                offsets_vec mask
                (vector_splat (VectorType [1%nat] elem)
                   (get_constant 0 elem)) /\
         _construct_gather_scatter_indices idxc find_index_bounds
           strides_from_symbolic_shape (self st) shape index m 1 true
           (Z.of_nat i) = Ok (start_indices, offsets_vec, mask)) /\
    _node_values st' !! node_name (info_of node) = Some [r] /\
    type_of r = VectorType [ept] elem.
Proof.
  intros Hargs He Hidx Hshape Hid Hok.
  apply handle_read_inv in Hok
    as (memory' & e' & mp' & x' & ept' & kb & ty & st1 & index' & shape'
        & mapping & r & st2 & Hargs' & He' & Hkb & Hidx' & Hshape' & Hmp
        & Hpath & ->).
  rewrite Hargs in Hargs'. injection Hargs' as <- <- <- <-.
  rewrite He in He'. injection He' as <-.
  rewrite Hidx in Hidx'. injection Hidx' as <-.
  rewrite Hshape in Hshape'. injection Hshape' as <-.
  injection Hmp as <-. unfold read_path in Hpath. rewrite Hid in Hpath.
  unfold read_mapped_path in Hpath.
  apply read_lanes_gathers in Hpath as (ops & Hops & _ & _ & Hty & Hall).
  apply cast_kernel_buffer_self in Hkb. rewrite Hkb in Hops, Hall.
  exists kb, (element_type_of ty), ops, r.
  split; [done|]. split.
  { apply Forall2_length in Hall. by rewrite length_seq in Hall. }
  split.
  { intros i op Hop.
    destruct (Forall2_lookup_r _ _ _ _ _ Hall Hop) as (j & Hj & H).
    apply lookup_seq in Hj as [-> _]. exact H. }
  split; [cbn; by rewrite lookup_insert_eq | done].
Qed.

End ReadsAndWrites.

Lemma identity_mapping_elided_witness :
  handle_read ex_idxc ex_no_bounds ex_strides ex_ready_state
    (with_args ex_read_node
       [ArgNode (ex_ref 0 ["M"; "N"]); ArgInt 4; ArgMapping ex_identity;
        ArgNone])
  = handle_read ex_idxc ex_no_bounds ex_strides ex_ready_state
      (with_args ex_read_node
         [ArgNode (ex_ref 0 ["M"; "N"]); ArgInt 4; ArgNone; ArgNone]).
Proof.
  apply (proj1 (identity_mapping_elided ex_idxc ex_no_bounds ex_strides
                  ex_ready_state ex_read_node ex_identity)
           _ _ _ ["M"; "N"]); reflexivity.
Defined.

Lemma masked_access_witness :
  exists ept id kb elem starts mask,
    cast_py_literal (ArgInt 4) = Ok ept /\
    _build_start_indices ex_idxc (self ex_ready_state) ex_index = Ok starts /\
    _build_mask ex_idxc ex_bounds_N (self ex_ready_state) ex_index ept
    = Ok (Some mask) /\
    ip_ops (self ex_after_masked_read)
    = ip_ops (self ex_ready_state)
      ++ [if decide (memory_type_address_space (info_of ex_read_node)
                     = SHARED_ADDRESS_SPACE)
          then vector_load id (VectorType [ept] elem) kb starts
          else vector_maskedload id (VectorType [ept] elem) kb starts mask
                 (vector_splat (VectorType [ept] elem)
                    (get_constant 0 elem))].
Proof.
  refine (proj1 (masked_access ex_idxc ex_bounds_N ex_strides ex_ready_state
                   ex_after_masked_read ex_read_node ex_index ["N"]
                   eq_refl eq_refl)
            _ _ _ _ ["M"; "N"] eq_refl eq_refl _ _).
  - by left.
  - vm_compute. reflexivity.
Defined.

Lemma mapped_read_gathers_witness :
  exists kb elem ops r,
    ip_ops (self ex_after_mapped_read)
    = ip_ops (self ex_ready_state) ++ ops /\
    length ops = 2%nat /\
    (forall i op,
       ops !! i = Some op ->
       exists id start_indices offsets_vec mask,
         op = vector_gather id (VectorType [1%nat] elem) kb start_indices
                offsets_vec mask
                (vector_splat (VectorType [1%nat] elem)
                   (get_constant 0 elem)) /\
         _construct_gather_scatter_indices ex_idxc ex_no_bounds ex_strides
           (self ex_ready_state) ["M"; "N"] ex_index ex_swap_inputs 1 true
           (Z.of_nat i) = Ok (start_indices, offsets_vec, mask)) /\
    _node_values ex_after_mapped_read
      !! node_name (info_of (ex_mapped_read ex_swap_inputs)) = Some [r] /\
    type_of r = VectorType [2%nat] elem.
Proof.
  refine (mapped_read_gathers ex_idxc ex_no_bounds ex_strides ex_ready_state
            ex_after_mapped_read (ex_mapped_read ex_swap_inputs)
            _ _ _ ex_swap_inputs 2 ["M"; "N"] ex_index eq_refl eq_refl
            eq_refl eq_refl eq_refl _).
  vm_compute. reflexivity.
Defined.

(** ** Mapped writes *)

(** Lowering an operand binds no node but the operand itself. *)
Lemma lookup_node_values_other st n vs st' k :
  lookup_node_values st n = Ok (vs, st') ->
  n <> k ->
  _node_values st' !! k = _node_values st !! k.
Proof.
  unfold lookup_node_values. destruct (_node_values st !! n).
  - by intros [= _ <-].
  - destruct (resolve_by_reference (self st) n); [|done].
    intros [= _ <-] Hk. cbn. by rewrite lookup_insert_ne.
Qed.

Lemma cast_py_value_other st a t v st' k :
  cast_py_value st a t = Ok (v, st') ->
  ~ refers_to a k ->
  _node_values st' !! k = _node_values st !! k.
Proof.
  unfold cast_py_value. destruct a as [r| | | | | |]; try done.
  - destruct (lookup_node_values st (ref_name r)) as [[vs st1]|] eqn:E;
      [|done].
    cbn [mbind result_bind]. destruct vs as [|v0 [|]]; try done.
    intros [= _ <-] Hk. eapply lookup_node_values_other; [exact E|].
    intros Heq. apply Hk. by exists r.
  - by intros [= _ <-].
Qed.

Lemma cast_vector_other st a t v st' k :
  cast_vector st a t = Ok (v, st') ->
  ~ refers_to a k ->
  _node_values st' !! k = _node_values st !! k.
Proof.
  unfold cast_vector.
  destruct (cast_py_value st a t) as [[v0 st1]|] eqn:E; [|done].
  cbn [mbind result_bind]. intros H Hk.
  rewrite <- (cast_py_value_other _ _ _ _ _ _ E Hk).
  by destruct (type_of v0); injection H as _ <-.
Qed.

Lemma cast_kernel_buffer_other st a v ty st' k :
  cast_kernel_buffer st a = Ok (v, ty, st') ->
  ~ refers_to a k ->
  _node_values st' !! k = _node_values st !! k.
Proof.
  unfold cast_kernel_buffer.
  destruct (cast_py_value st a None) as [[v0 st1]|] eqn:E; [|done].
  cbn [mbind result_bind]. intros H Hk.
  rewrite <- (cast_py_value_other _ _ _ _ _ _ E Hk).
  destruct (type_of v0); try done. by injection H as _ _ <-.
Qed.

Section MappedWrites.

Context (idxc : IndexingContext).
Context (find_index_bounds :
           list Constraint -> index_dict -> option (list string)).
Context (strides_from_symbolic_shape :
           IndexingContext -> list string -> list expr).

(** X15: a write with a mapping that is not an identity mapping appends
    one memory operation built from the indices of the synthesizer: a
    [vector.maskedstore] when it stores one element per thread (the offsets
    vector is dropped), a [vector.scatter] otherwise.  A write binds no
    node: the cache changes only at the operands it resolves. *)
Theorem mapped_write_scatter (st st' : state) (node : fx_node)
    (register memory e : py_arg) (m : IndexMapping)
    (ishape oshape : list string) (index : index_dict) :
  node_args (info_of node) = [register; memory; e; ArgMapping m] ->
  node_index (info_of node) = Some index ->
  _get_symbolic_shape register = Ok ishape ->
  _get_symbolic_shape memory = Ok oshape ->
  _is_identity_mapping m (Some ishape) (Some oshape) = false ->
  handle_write idxc find_index_bounds strides_from_symbolic_shape st node
  = Ok st' ->
  (exists ept kb v start_indices offsets_vec mask,
     cast_py_literal e = Ok ept /\
     shape_of (type_of v) = [ept] /\
     _construct_gather_scatter_indices idxc find_index_bounds
       strides_from_symbolic_shape (self st) oshape index m ept false 0
     = Ok (start_indices, offsets_vec, mask) /\
     ip_ops (self st')
     = ip_ops (self st)
       ++ [if decide (ept = 1%nat)
           then vector_maskedstore kb start_indices mask v
           else vector_scatter kb start_indices offsets_vec mask v]) /\
  forall k, ~ refers_to register k -> ~ refers_to memory k ->
            _node_values st' !! k = _node_values st !! k.
Proof.
  intros Hargs Hidx Hi Ho Hid Hok.
  apply handle_write_inv in Hok
    as (register' & memory' & e' & mp' & kb & ty & st1 & v & st2 & ept
        & index' & ishape' & oshape' & mapping & Hargs' & Hkb & Hv & He
        & Hshape & Hidx' & Hi' & Ho' & Hmp & Hpath).
  rewrite Hargs in Hargs'. injection Hargs' as <- <- <- <-.
  rewrite Hidx in Hidx'. injection Hidx' as <-.
  rewrite Hi in Hi'. injection Hi' as <-.
  rewrite Ho in Ho'. injection Ho' as <-.
  injection Hmp as <-. unfold write_path in Hpath. rewrite Hid in Hpath.
  unfold write_mapped_path in Hpath.
  destruct (decide (ishape ≠ input_shape m)); [done|].
  pose proof (cast_kernel_buffer_frame _ _ _ _ _ Hkb) as (Hs1 & Hn1 & Hr1).
  pose proof (cast_vector_frame _ _ _ _ _ Hv) as (Hs2 & Hn2 & Hr2).
  rewrite Hs2, Hs1 in Hpath.
  destruct (_construct_gather_scatter_indices _ _ _ (self st) _ _ _ _ _ _)
    as [[[si ov] mk]|] eqn:Hsynth; [|done].
  cbn [mbind result_bind] in Hpath.
  assert (st' = insert_op
                  (if decide (ept = 1%nat)
                   then vector_maskedstore kb si mk v
                   else vector_scatter kb si ov mk v) st2) as ->.
  { by destruct (decide (ept = 1%nat)); injection Hpath as <-. }
  split.
  { exists ept, kb, v, si, ov, mk. repeat (split; [done|]).
    cbn. by rewrite Hs2, Hs1. }
  intros k Hr Hm. cbn.
  rewrite (cast_vector_other _ _ _ _ _ _ Hv Hr).
  exact (cast_kernel_buffer_other _ _ _ _ _ _ Hkb Hm).
Qed.

End MappedWrites.

Lemma mapped_write_scatter_witness :
  (exists ept kb v start_indices offsets_vec mask,
     cast_py_literal (ArgInt 4) = Ok ept /\
     shape_of (type_of v) = [ept] /\
     _construct_gather_scatter_indices ex_idxc ex_no_bounds ex_strides
       (self ex_after_read) ["N"; "M"] ex_index ex_swap_outputs ept false 0
     = Ok (start_indices, offsets_vec, mask) /\
     ip_ops (self ex_after_mapped_write)
     = ip_ops (self ex_after_read)
       ++ [if decide (ept = 1%nat)
           then vector_maskedstore kb start_indices mask v
           else vector_scatter kb start_indices offsets_vec mask v]) /\
  forall k, ~ refers_to (ArgNode (ex_ref 10 ["M"; "N"])) k ->
            ~ refers_to (ArgNode (ex_ref 1 ["N"; "M"])) k ->
            _node_values ex_after_mapped_write !! k
            = _node_values ex_after_read !! k.
Proof.
  refine (mapped_write_scatter ex_idxc ex_no_bounds ex_strides ex_after_read
            ex_after_mapped_write (ex_mapped_write ex_swap_outputs)
            _ _ _ ex_swap_outputs ["M"; "N"] ["N"; "M"] ex_index eq_refl
            eq_refl eq_refl eq_refl eq_refl _).
  vm_compute. reflexivity.
Defined.

(** ** Start indices and linear offsets *)

Section StartIndices.

Context (idxc : IndexingContext).
Context (env : runtime).
Context (rho : string -> Z).

(** X16: the start indices of an access are lowered one per dimension of
    the index, in the order of the index; when every start is an integer
    expression over frozen and dynamic symbols, each is a scalar of type
    index whose runtime value is the start coordinate of its dimension,
    wrapped to the width of index. *)
Theorem start_indices_value (emitter : WaveEmitter) (index : index_dict)
    (dynamics : gmap string ir_value) :
  get_emitter_subs emitter = Ok dynamics ->
  dynamics_denote env rho dynamics ->
  Forall (fun kv => integral idxc dynamics (_get_start_index kv.2) = true)
         index ->
  exists starts,
    _build_start_indices idxc emitter index = Ok starts /\
    Forall2 (fun kv v =>
               type_of v = Scalar IndexType /\
               eval env v
               = Some (RInt (elem_wrap IndexType
                               (int_value idxc rho (_get_start_index kv.2)))))
            index starts.
Proof.
  intros Hsubs Hdyn Hall.
  assert (exists ivs, forall e,
            _gen_sympy_index_full idxc emitter e
            = gen_sympy_index idxc dynamics ivs e) as [ivs Hfull].
  { unfold _gen_sympy_index_full. rewrite Hsubs.
    unfold get_emitter_subs in Hsubs.
    destruct (get_induction_vars emitter) as [[syms vars]|]; [|done].
    by exists syms. }
  unfold _build_start_indices, _get_start_indices.
  induction Hall as [|kv index Hkv Hall IH].
  - exists []. split; [done|constructor].
  - destruct IH as (starts & Hstarts & Hvals).
    destruct (lower_integral idxc dynamics ivs env rho Hdyn _ Hkv)
      as (it & Hit & v & -> & Ht & He).
    exists (v :: starts). split; [|by constructor].
    cbn [map mapM]. rewrite Hfull, gen_lower, Hit.
    cbn [mbind result_bind concrete]. by rewrite Hstarts.
Qed.

(** X17: for indices and strides that are integer expressions over frozen
    and dynamic symbols, the linear offset [_compute_offset] builds is
    lowered to a scalar of type index whose runtime value is the sum of the
    products of the indices and the strides, pair by pair up to the shorter
    of the two lists, wrapped to the width of index. *)
Theorem linear_offset_value (dynamics : gmap string ir_value)
    (ivs : list string) (indices strides : list expr) :
  dynamics_denote env rho dynamics ->
  Forall (fun e => integral idxc dynamics e = true) indices ->
  Forall (fun e => integral idxc dynamics e = true) strides ->
  exists v,
    gen_sympy_index idxc dynamics ivs (_compute_offset indices strides)
    = Ok v /\
    type_of v = Scalar IndexType /\
    eval env v
    = Some (RInt (elem_wrap IndexType
                    (dot_product (map (int_value idxc rho) indices)
                                 (map (int_value idxc rho) strides)))).
Proof.
  intros Hdyn Hi Hs.
  assert (forall acc l,
            integral idxc dynamics acc = true ->
            Forall (fun e => integral idxc dynamics e = true) l ->
            integral idxc dynamics (foldl py_add acc l) = true /\
            int_value idxc rho (foldl py_add acc l)
            = int_value idxc rho acc
              + foldr Z.add 0 (map (int_value idxc rho) l)) as Hfold.
  { intros acc l Hacc Hl. revert acc Hacc.
    induction Hl as [|e l He Hl IH]; intros acc Hacc.
    - split; [done|]. simpl. lia.
    - cbn [foldl]. destruct (IH (py_add acc e)) as [H1 H2].
      { unfold py_add. cbn. by rewrite Hacc, He. }
      split; [done|]. rewrite H2. unfold py_add. cbn. lia. }
  assert (Forall (fun e => integral idxc dynamics e = true)
                 (zip_with py_mul indices strides) /\
          map (int_value idxc rho) (zip_with py_mul indices strides)
          = zip_with Z.mul (map (int_value idxc rho) indices)
                           (map (int_value idxc rho) strides)) as [Hz Hv].
  { revert strides Hs. induction Hi as [|i indices Hi0 Hi IH];
      intros strides Hs; [by split|].
    destruct Hs as [|s strides Hs0 Hs]; [by split|].
    destruct (IH _ Hs) as [H1 H2]. split.
    - constructor; [|done]. unfold py_mul. cbn. by rewrite Hi0, Hs0.
    - cbn [zip_with map]. rewrite H2. f_equal. unfold py_mul. cbn. lia. }
  destruct (Hfold (Integer 0) _ eq_refl Hz) as [Hint Hval].
  destruct (lower_integral idxc dynamics ivs env rho Hdyn _ Hint)
    as (it & Hit & v & -> & Ht & He).
  exists v. unfold _compute_offset, dot_product.
  split; [by rewrite gen_lower, Hit|]. split; [done|].
  by rewrite He, Hval, Hv.
Qed.

End StartIndices.

Lemma ex_ready_dynamics_denote t :
  index_min <= t <= index_max ->
  dynamics_denote (ex_runtime_thread t) (ex_rho t) ex_ready_dynamics.
Proof.
  intros Ht n v H. unfold ex_ready_dynamics, dict_of_zip in H.
  cbn [zip zip_with foldl fst snd] in H.
  repeat (apply lookup_insert_Some in H as [[<- <-]|[_ H]];
          [split; [done|]; try done;
           simpl; by rewrite index_wrap_small|]).
  done.
Qed.

Lemma start_indices_value_witness :
  exists starts,
    _build_start_indices ex_idxc (self ex_ready_state) ex_index = Ok starts /\
    Forall2 (fun kv v =>
               type_of v = Scalar IndexType /\
               eval (ex_runtime_thread 5) v
               = Some (RInt (elem_wrap IndexType
                               (int_value ex_idxc (ex_rho 5)
                                  (_get_start_index kv.2)))))
            ex_index starts.
Proof.
  apply (start_indices_value ex_idxc (ex_runtime_thread 5) (ex_rho 5)
           (self ex_ready_state) ex_index ex_ready_dynamics).
  - vm_compute. reflexivity.
  - apply ex_ready_dynamics_denote. unfold index_min, index_max. lia.
  - repeat constructor.
Defined.

Lemma linear_offset_value_witness :
  exists v,
    gen_sympy_index ex_idxc ex_ready_dynamics []
      (_compute_offset
         [Symbol (Named WORKGROUP_1); Mul [Integer 4; Symbol (Named THREAD_0)]]
         [Symbol (Named "N"); Integer 1])
    = Ok v /\
    type_of v = Scalar IndexType /\
    eval (ex_runtime_thread 5) v
    = Some (RInt (elem_wrap IndexType
                    (dot_product
                       (map (int_value ex_idxc (ex_rho 5))
                          [Symbol (Named WORKGROUP_1);
                           Mul [Integer 4; Symbol (Named THREAD_0)]])
                       (map (int_value ex_idxc (ex_rho 5))
                          [Symbol (Named "N"); Integer 1])))).
Proof.
  apply (linear_offset_value ex_idxc (ex_runtime_thread 5) (ex_rho 5)
           ex_ready_dynamics []).
  - apply ex_ready_dynamics_denote. unfold index_min, index_max. lia.
  - repeat constructor.
  - repeat constructor.
Defined.

(** ** The body of a reduction *)

Lemma lookup_node_values_entry st n vs st' :
  lookup_node_values st n = Ok (vs, st') ->
  _node_values st' !! n = Some vs /\
  forall k, is_Some (_node_values st !! k) \/ k <> n ->
            _node_values st' !! k = _node_values st !! k.
Proof.
  unfold lookup_node_values.
  destruct (_node_values st !! n) as [vs0|] eqn:Hn.
  - intros [= <- <-]. by split.
  - destruct (resolve_by_reference (self st) n); [|done].
    intros [= <- <-]. cbn. split; [by rewrite lookup_insert_eq|].
    intros k [[x Hx]|Hk]; rewrite lookup_insert_ne; try done.
    intros ->. by rewrite Hn in Hx.
Qed.

(** The carried placeholders after the loop of [bind_iter_args]. *)
Lemma bind_iter_args_lookup its inner : forall st i st',
  bind_iter_args st its inner i = Ok st' ->
  (length inner <= length its - i)%nat /\
  (forall k, (forall j, (j < length inner)%nat -> its !! (i + j)%nat <> Some k) ->
             _node_values st' !! k = _node_values st !! k) /\
  (NoDup its ->
   forall j n v, inner !! j = Some v -> its !! (i + j)%nat = Some n ->
                 _node_values st' !! n = Some [v]).
Proof.
  induction inner as [|v0 inner IH]; intros st i st'; cbn [bind_iter_args].
  - intros [= <-]. split; [simpl; lia|]. split; [done|]. by intros _ j n v.
  - destruct (its !! i) as [n0|] eqn:Hi; [|done]. intros Hrest.
    apply IH in Hrest as (Hlen & Hframe & Hbound).
    pose proof (lookup_lt_Some _ _ _ Hi) as Hlt.
    split; [simpl; lia|]. split.
    + intros k Hk. rewrite Hframe.
      * cbn. rewrite lookup_insert_ne; [done|].
        intros ->. apply (Hk 0%nat); [simpl; lia|]. by rewrite Nat.add_0_r.
      * intros j Hj. replace (S i + j)%nat with (i + S j)%nat by lia.
        apply Hk. simpl. lia.
    + intros Hnd [|j] n v Hv Hn.
      * injection Hv as <-. rewrite Nat.add_0_r, Hi in Hn. injection Hn as <-.
        rewrite Hframe; [cbn; by rewrite lookup_insert_eq|].
        intros j Hj Hj'.
        pose proof (NoDup_lookup _ _ _ _ Hnd Hi Hj'). lia.
      * apply (Hbound Hnd j n v Hv).
        by replace (S i + j)%nat with (i + S j)%nat by lia.
Qed.

(** The captured placeholders after the loop of [alias_captured]. *)
Lemma alias_captured_lookup pairs : forall st st',
  alias_captured st pairs = Ok st' ->
  (forall k, k ∉ pairs.*2 ->
             is_Some (_node_values st !! k)
             \/ (forall r, ArgNode r ∈ pairs.*1 -> ref_name r <> k) ->
             _node_values st' !! k = _node_values st !! k) /\
  (NoDup pairs.*2 ->
   (forall r, ArgNode r ∈ pairs.*1 -> ref_name r ∉ pairs.*2) ->
   forall r c, (ArgNode r, c) ∈ pairs ->
               is_Some (_node_values st' !! c) /\
               _node_values st' !! c = _node_values st' !! ref_name r).
Proof.
  induction pairs as [|[root c0] pairs IH]; intros st st';
    cbn [alias_captured].
  - intros [= <-]. split; [done|]. intros _ _ r c H.
    by apply elem_of_nil in H.
  - destruct root as [r0| | | | | |]; try done.
    destruct (lookup_node_values st (ref_name r0)) as [[vs st1]|] eqn:Hl;
      [|done].
    cbn [mbind result_bind]. intros Hrest.
    apply lookup_node_values_entry in Hl as [Hr0 Hkeep].
    apply IH in Hrest as [Hframe Halias]. cbn in Hframe.
    assert (forall k, k ∉ ((ArgNode r0, c0) :: pairs).*2 ->
              is_Some (_node_values st !! k)
              \/ (forall r, ArgNode r ∈ ((ArgNode r0, c0) :: pairs).*1 ->
                            ref_name r <> k) ->
              _node_values st' !! k = _node_values st !! k) as Hframe'.
    { intros k Hk Hor. cbn in Hk.
      apply not_elem_of_cons in Hk as [Hk0 Hk].
      rewrite Hframe; [|done|].
      - rewrite lookup_insert_ne by done. apply Hkeep.
        destruct Hor as [?|Hor]; [by left|right].
        intros ->. eapply Hor; [|done]. cbn. apply list_elem_of_here.
      - destruct Hor as [Hs|Hor].
        + left. rewrite lookup_insert_ne by done.
          rewrite Hkeep; [done|by left].
        + right. intros r Hr. apply Hor. cbn. by apply list_elem_of_further. }
    split; [exact Hframe'|].
    intros Hnd Hroots r c Hin. cbn in Hnd, Hroots.
    apply NoDup_cons in Hnd as [Hc0 Hnd].
    assert (forall k, k ∉ pairs.*2 ->
              is_Some (<[c0 := vs]> (_node_values st1) !! k) ->
              _node_values st' !! k = <[c0 := vs]> (_node_values st1) !! k)
      as Hlater.
    { intros k Hk Hs. apply Hframe; [done|by left]. }
    apply elem_of_cons in Hin as [[= -> ->]|Hin].
    + assert (ref_name r0 ∉ c0 :: pairs.*2) as Hr.
      { apply Hroots. apply list_elem_of_here. }
      apply not_elem_of_cons in Hr as [Hne Hr].
      rewrite (Hlater c0), (Hlater (ref_name r0)); try done.
      * rewrite lookup_insert_eq, lookup_insert_ne by done.
        by rewrite Hr0.
      * rewrite lookup_insert_ne by done. by rewrite Hr0.
      * by rewrite lookup_insert_eq.
    + apply Halias; [done| |done].
      intros r' Hr'. specialize (Hroots r').
      assert (ref_name r' ∉ c0 :: pairs.*2) as H
        by (apply Hroots; by apply list_elem_of_further).
      by apply not_elem_of_cons in H as [_ H].
Qed.

Lemma zip_fst_sublist {A B} (l : list A) (k : list B) :
  (zip l k).*1 `sublist_of` l.
Proof.
  revert k. induction l as [|a l IH]; intros [|b k]; cbn;
    try apply sublist_nil_l.
  by apply sublist_skip.
Qed.

Lemma zip_snd_sublist {A B} (l : list A) (k : list B) :
  (zip l k).*2 `sublist_of` k.
Proof.
  revert k. induction l as [|a l IH]; intros [|b k]; cbn;
    try apply sublist_nil_l.
  by apply sublist_skip.
Qed.

(** The steps of a reduction that returns. *)
Lemma handle_reduction_steps
    (emit_subgraph : state -> result (option (list py_arg) * state))
    (st st' : state) (node : fx_node)
    (axis init_args subgraph implicit_capture : py_arg) :
  node_args (info_of node) = [axis; init_args; subgraph; implicit_capture] ->
  handle_reduction emit_subgraph st node = Ok st' ->
  exists inits st1 count a caps s0 s2 s_in rv s_out yielded s_end,
    cast_py_values st (tree_flatten init_args) = Ok (inits, st1) /\
    node_count (info_of node) = Some count /\
    as_symbol_name axis = Ok a /\
    as_seq implicit_capture = Ok caps /\
    _node_values s0 = _node_values st1 /\
    self s0
    = set_ip_ops []
        (set_induction_vars
           (<[a := induction_variable (next_op st1)]>
              (induction_vars (self st1))) (self st1)) /\
    bind_iter_args s0 (iter_args (subgraph_of node))
      (imap (fun i v => inner_iter_arg (next_op st1) i (type_of v)) inits) 0
    = Ok s2 /\
    alias_captured s2 (zip caps (captured_vars (subgraph_of node)))
    = Ok s_in /\
    emit_subgraph s_in = Ok (rv, s_out) /\
    cast_py_values s_out (return_leaves rv) = Ok (yielded, s_end) /\
    st' = bind_node_proxies
            (set_self
               (set_ip_ops
                  (ip_ops (self st1)
                   ++ [scf_for (next_op st1)
                         (arith_constant (Scalar IndexType) 0)
                         (arith_constant (Scalar IndexType) count)
                         (arith_constant (Scalar IndexType) 1)
                         inits (ip_ops (self s_end)) yielded])
                  (self s_end)) s_end)
            (node_name (info_of node))
            (results_of_types (next_op st1) (map type_of inits)).
Proof.
  intros Hargs. unfold handle_reduction. rewrite Hargs.
  destruct (cast_py_values st (tree_flatten init_args)) as [[inits st1]|]
    eqn:Hinit; [|done].
  cbn [mbind result_bind].
  destruct (node_count (info_of node)) as [count|]; [|done].
  cbn [int_of_count mbind result_bind value_truthy negb create_op].
  destruct (as_symbol_name axis) as [a|]; [|done]. cbn [mbind result_bind].
  match goal with
  | |- (bind_iter_args ?s _ _ _ ≫= _) = _ -> _ =>
      set (s0 := s);
      destruct (bind_iter_args s0 (iter_args (subgraph_of node))
                  (imap (fun i v => inner_iter_arg (next_op st1) i (type_of v))
                     inits) 0) as [s2|] eqn:Hbind; [|done]
  end.
  cbn [mbind result_bind].
  destruct (as_seq implicit_capture) as [caps|]; [|done].
  cbn [mbind result_bind].
  destruct (alias_captured s2 _) as [s_in|] eqn:Halias; [|done].
  cbn [mbind result_bind].
  destruct (emit_subgraph s_in) as [[rv s_out]|] eqn:Hemit; [|done].
  cbn [mbind result_bind].
  destruct (cast_py_values s_out (return_leaves rv)) as [[yielded s_end]|]
    eqn:Hret; [|done].
  cbn [mbind result_bind]. intros [= <-].
  exists inits, st1, count, a, caps, s0, s2, s_in, rv, s_out, yielded, s_end.
  repeat (split; [done|]). done.
Qed.

(** X18: the body of a reduction is lowered at a fresh insertion point,
    with the induction variable of the loop registered under the axis; what
    the subgraph emits there is the body of the loop.  When the placeholders
    of the subgraph are distinct from one another and from the captured
    outer nodes, the i-th carried placeholder is bound to the i-th block
    argument of the loop and every captured placeholder to the values of
    the outer node it stands for.  A subgraph with fewer carried
    placeholders than initial values is not lowered. *)
Theorem reduction_body
    (emit_subgraph : state -> result (option (list py_arg) * state))
    (st st' : state) (node : fx_node)
    (axis init_args subgraph implicit_capture : py_arg) :
  node_args (info_of node) = [axis; init_args; subgraph; implicit_capture] ->
  handle_reduction emit_subgraph st node = Ok st' ->
  exists forOp a count inits caps s_in rv s_out yielded,
    as_symbol_name axis = Ok a /\
    as_seq implicit_capture = Ok caps /\
    (exists st1,
       cast_py_values st (tree_flatten init_args) = Ok (inits, st1)) /\
    emit_subgraph s_in = Ok (rv, s_out) /\
    ip_ops (self s_in) = [] /\
    induction_vars (self s_in)
    = <[a := induction_variable forOp]> (induction_vars (self st)) /\
    ip_ops (self st')
    = ip_ops (self st)
      ++ [scf_for forOp (arith_constant (Scalar IndexType) 0)
            (arith_constant (Scalar IndexType) count)
            (arith_constant (Scalar IndexType) 1) inits
            (ip_ops (self s_out)) yielded] /\
    (length inits <= length (iter_args (subgraph_of node)))%nat /\
    (NoDup (iter_args (subgraph_of node)
            ++ captured_vars (subgraph_of node)) ->
     (forall r, ArgNode r ∈ caps ->
                ref_name r ∉ iter_args (subgraph_of node)
                             ++ captured_vars (subgraph_of node)) ->
     (forall i n v,
        iter_args (subgraph_of node) !! i = Some n ->
        inits !! i = Some v ->
        _node_values s_in !! n
        = Some [inner_iter_arg forOp i (type_of v)]) /\
     (forall j r c,
        caps !! j = Some (ArgNode r) ->
        captured_vars (subgraph_of node) !! j = Some c ->
        is_Some (_node_values s_in !! c) /\
        _node_values s_in !! c = _node_values s_in !! ref_name r)).
Proof.
  intros Hargs Hok.
  destruct (handle_reduction_steps _ _ _ _ _ _ _ _ Hargs Hok)
    as (inits & st1 & count & a & caps & s0 & s2 & s_in & rv & s_out
        & yielded & s_end & Hinit & Hcount & Haxis & Hcaps & Hnv0 & Hself0
        & Hbind & Halias & Hemit & Hret & ->).
  pose proof (cast_py_values_frame _ _ _ _ Hinit) as (Hs1 & _ & _).
  pose proof (cast_py_values_frame _ _ _ _ Hret) as (Hse & _ & _).
  pose proof (bind_iter_args_frame _ _ _ _ _ Hbind) as (Hb1 & _ & _).
  pose proof (alias_captured_frame _ _ _ Halias) as (Ha1 & _ & _).
  apply bind_iter_args_lookup in Hbind as (Hlen & Hbframe & Hbound).
  apply alias_captured_lookup in Halias as (Haframe & Haalias).
  rewrite length_imap in Hlen.
  exists (next_op st1), a, count, inits, caps, s_in, rv, s_out, yielded.
  split; [done|]. split; [done|]. split; [by exists st1|].
  split; [done|]. split; [by rewrite Ha1, Hb1, Hself0|].
  split; [by rewrite Ha1, Hb1, Hself0, <- Hs1|].
  split; [cbn; by rewrite Hse, Hs1|]. split; [lia|].
  intros Hnd Hroots.
  apply NoDup_app in Hnd as (Hnd1 & Hdisj & Hnd2).
  set (its := iter_args (subgraph_of node)) in *.
  set (cvs := captured_vars (subgraph_of node)) in *.
  split.
  - intros i n v Hn Hv.
    assert (n ∈ its) as Hin by (by eapply list_elem_of_lookup_2).
    assert (_node_values s2 !! n
            = Some [inner_iter_arg (next_op st1) i (type_of v)]) as Hs2.
    { apply (Hbound Hnd1 i); [|done].
      rewrite list_lookup_imap, Hv. done. }
    rewrite Haframe; [done| |left; by rewrite Hs2].
    intros Hc. apply (Hdisj n Hin).
    apply list_elem_of_fmap in Hc as ([x c] & -> & Hc).
    by apply elem_of_zip_r in Hc.
  - intros j r c Hr Hc.
    pose proof (zip_fst_sublist caps cvs) as Hsub1.
    pose proof (zip_snd_sublist caps cvs) as Hsub2.
    apply Haalias.
    + by eapply sublist_NoDup.
    + intros r' Hr' Hin'.
      apply (Hroots r'); [by eapply elem_of_sublist|].
      apply elem_of_app. right. by eapply elem_of_sublist.
    + exact (elem_of_lookup_zip_with_2 pair caps cvs (ArgNode r) c
               (ArgNode r, c) j Hr Hc).
Qed.

Lemma reduction_body_witness :
  exists forOp a count inits caps s_in rv s_out yielded,
    as_symbol_name (ArgExpr (Symbol (Named "K"))) = Ok a /\
    as_seq (ArgSeq []) = Ok caps /\
    (exists st1,
       cast_py_values ex_ready_state
         (tree_flatten (ArgSeq [ArgNode (ex_ref 2 ["M"; "N"])]))
       = Ok (inits, st1)) /\
    _emit_graph ex_idxc ex_no_bounds ex_strides ex_other_handlers
      (subgraph_of ex_reduction_node) s_in = Ok (rv, s_out) /\
    ip_ops (self s_in) = [] /\
    induction_vars (self s_in)
    = <[a := induction_variable forOp]> (induction_vars (self ex_ready_state))
    /\
    ip_ops (self ex_after_reduction)
    = ip_ops (self ex_ready_state)
      ++ [scf_for forOp (arith_constant (Scalar IndexType) 0)
            (arith_constant (Scalar IndexType) count)
            (arith_constant (Scalar IndexType) 1) inits
            (ip_ops (self s_out)) yielded] /\
    (length inits <= length (iter_args (subgraph_of ex_reduction_node)))%nat /\
    (NoDup (iter_args (subgraph_of ex_reduction_node)
            ++ captured_vars (subgraph_of ex_reduction_node)) ->
     (forall r, ArgNode r ∈ caps ->
                ref_name r ∉ iter_args (subgraph_of ex_reduction_node)
                             ++ captured_vars (subgraph_of ex_reduction_node)) ->
     (forall i n v,
        iter_args (subgraph_of ex_reduction_node) !! i = Some n ->
        inits !! i = Some v ->
        _node_values s_in !! n
        = Some [inner_iter_arg forOp i (type_of v)]) /\
     (forall j r c,
        caps !! j = Some (ArgNode r) ->
        captured_vars (subgraph_of ex_reduction_node) !! j = Some c ->
        is_Some (_node_values s_in !! c) /\
        _node_values s_in !! c = _node_values s_in !! ref_name r)).
Proof.
  refine (reduction_body
            (_emit_graph ex_idxc ex_no_bounds ex_strides ex_other_handlers
               (subgraph_of ex_reduction_node))
            ex_ready_state ex_after_reduction ex_reduction_node
            _ _ _ _ eq_refl _).
  vm_compute. reflexivity.
Defined.

(** ** What lowering keeps of the emitter *)

Lemma emitter_kept_refl e : emitter_kept e e.
Proof.
  repeat (split; [done|]). exists []. by rewrite app_nil_r.
Qed.

Lemma emitter_kept_eq e e' : e' = e -> emitter_kept e e'.
Proof. intros ->. apply emitter_kept_refl. Qed.

Lemma emitter_kept_trans e1 e2 e3 :
  emitter_kept e1 e2 -> emitter_kept e2 e3 -> emitter_kept e1 e3.
Proof.
  intros (A1 & A2 & A3 & A4 & A5 & A6 & A7 & A8 & ops1 & A9)
         (B1 & B2 & B3 & B4 & B5 & B6 & B7 & B8 & ops2 & B9).
  repeat (split; [congruence|]). split; [by auto|].
  exists (ops1 ++ ops2). by rewrite B9, A9, app_assoc.
Qed.

Lemma emitter_kept_insert_op op st :
  emitter_kept (self st) (self (insert_op op st)).
Proof. repeat (split; [done|]). by exists [op]. Qed.

Section ReadWriteKept.

Context (idxc : IndexingContext).
Context (find_index_bounds :
           list Constraint -> index_dict -> option (list string)).
Context (strides_from_symbolic_shape :
           IndexingContext -> list string -> list expr).

Lemma handle_read_emitter_kept st node st' :
  handle_read idxc find_index_bounds strides_from_symbolic_shape st node
  = Ok st' ->
  emitter_kept (self st) (self st').
Proof.
  intros Hok.
  apply handle_read_inv in Hok
    as (memory & e & mp & x & ept & kb & ty & st1 & index & shape
        & mapping & r & st2 & _ & _ & Hkb & _ & _ & _ & Hpath & ->).
  apply cast_kernel_buffer_self in Hkb. rewrite <- Hkb.
  change (self (bind_node_proxy st2 (node_name (info_of node)) r))
    with (self st2).
  assert (read_identity_path idxc find_index_bounds st1 node kb
            (VectorType [ept] (element_type_of ty)) index ept = Ok (r, st2) ->
          emitter_kept (self st1) (self st2)) as Hidentity.
  { unfold read_identity_path.
    destruct (_build_start_indices idxc (self st1) index); [|done].
    cbn [mbind result_bind].
    destruct (_build_mask idxc find_index_bounds (self st1) index ept)
      as [[mask|]|]; [| |done]; cbn [mbind result_bind create_op].
    - destruct (decide _); intros [= _ <-]; repeat (split; [done|]);
        by eexists [_].
    - intros [= _ <-]. repeat (split; [done|]). by eexists [_]. }
  unfold read_path in Hpath. destruct mapping as [m|]; [|by apply Hidentity].
  destruct (_is_identity_mapping m (Some shape) None); [by apply Hidentity|].
  unfold read_mapped_path in Hpath.
  apply read_lanes_gathers in Hpath as (ops & Hops & Hself & _).
  rewrite Hself. repeat (split; [done|]). by exists ops.
Qed.

Lemma handle_write_emitter_kept st node st' :
  handle_write idxc find_index_bounds strides_from_symbolic_shape st node
  = Ok st' ->
  emitter_kept (self st) (self st').
Proof.
  intros Hok.
  apply handle_write_inv in Hok
    as (register & memory & e & mp & kb & ty & st1 & v & st2 & ept
        & index & ishape & oshape & mapping & _ & Hkb & Hv & _ & _ & _ & _
        & _ & _ & Hpath).
  apply cast_kernel_buffer_self in Hkb. apply cast_vector_self in Hv.
  rewrite <- Hkb, <- Hv.
  assert (write_identity_path idxc find_index_bounds st2 node kb v index ept
          = Ok st' -> emitter_kept (self st2) (self st')) as Hidentity.
  { unfold write_identity_path.
    destruct (_build_start_indices idxc (self st2) index); [|done].
    cbn [mbind result_bind].
    destruct (_build_mask idxc find_index_bounds (self st2) index ept)
      as [[mask|]|]; [| |done]; cbn [mbind result_bind].
    - destruct (decide _); intros [= <-]; apply emitter_kept_insert_op.
    - intros [= <-]. apply emitter_kept_insert_op. }
  unfold write_path in Hpath. destruct mapping as [m|]; [|by apply Hidentity].
  destruct (_is_identity_mapping m (Some ishape) (Some oshape));
    [by apply Hidentity|].
  unfold write_mapped_path in Hpath.
  destruct (decide (ishape ≠ input_shape m)); [done|].
  destruct (_construct_gather_scatter_indices _ _ _ _ _ _ _ _ _ _)
    as [[[si ov] mk]|]; [|done].
  cbn [mbind result_bind] in Hpath.
  destruct (decide (ept = 1%nat)); injection Hpath as <-;
    apply emitter_kept_insert_op.
Qed.

End ReadWriteKept.

Lemma handle_shuffle_self st node st' :
  handle_shuffle st node = Ok st' -> self st' = self st.
Proof.
  unfold handle_shuffle.
  destruct (node_args (info_of node)) as [|src [|o [|w [|]]]]; try done.
  destruct (negb (is_int_literal o) || negb (is_int_literal w)); [done|].
  destruct (cast_py_value st src None) as [[v1 s1]|] eqn:H1; [|done].
  cbn [mbind result_bind]. apply cast_py_value_self in H1.
  destruct (cast_py_value s1 o _) as [[v2 s2]|] eqn:H2; [|done].
  cbn [mbind result_bind]. apply cast_py_value_self in H2.
  destruct (cast_py_value s2 w _) as [[v3 s3]|] eqn:H3; [|done].
  cbn [mbind result_bind]. apply cast_py_value_self in H3.
  destruct (type_of v1); try done.
  destruct (decide _); [done|]. destruct (negb _); [done|].
  destruct (32 <? _); [done|]. intros [= <-]. cbn. congruence.
Qed.

Lemma handle_get_result_self st node st' :
  handle_get_result st node = Ok st' -> self st' = self st.
Proof.
  unfold handle_get_result.
  destruct (node_args (info_of node)) as [|value [|idx [|]]]; try done.
  destruct value; try done. destruct idx; try done.
  destruct (lookup_node_values st (ref_name n)) as [[vs s1]|] eqn:H1; [|done].
  cbn [mbind result_bind]. apply lookup_node_values_self in H1.
  destruct (py_getitem vs 0); [|done]. cbn [mbind result_bind].
  destruct (owner_results s1 _); [|done]. cbn [mbind result_bind].
  destruct (py_getitem _ z); [|done]. cbn [mbind result_bind].
  by intros [= <-].
Qed.

Lemma handle_reduction_emitter_kept emit_subgraph st node st' :
  (forall s r s', emit_subgraph s = Ok (r, s') ->
                  emitter_kept (self s) (self s')) ->
  handle_reduction emit_subgraph st node = Ok st' ->
  emitter_kept (self st) (self st').
Proof.
  intros Hsub Hok.
  destruct (node_args (info_of node)) as [|a0 [|b [|c [|d [|]]]]] eqn:Hargs;
    try (unfold handle_reduction in Hok; by rewrite Hargs in Hok).
  destruct (handle_reduction_steps _ _ _ _ _ _ _ _ Hargs Hok)
    as (inits & st1 & count & a & caps & s0 & s2 & s_in & rv & s_out
        & yielded & s_end & Hinit & _ & _ & _ & _ & Hself0
        & Hbind & Halias & Hemit & Hret & ->).
  pose proof (cast_py_values_frame _ _ _ _ Hinit) as (Hs1 & _ & _).
  pose proof (cast_py_values_frame _ _ _ _ Hret) as (Hse & _ & _).
  pose proof (bind_iter_args_frame _ _ _ _ _ Hbind) as (Hb1 & _ & _).
  pose proof (alias_captured_frame _ _ _ Halias) as (Ha1 & _ & _).
  apply Hsub in Hemit
    as (B1 & B2 & B3 & B4 & B5 & B6 & B7 & B8 & ops & B9).
  rewrite Ha1, Hb1, Hself0, Hs1 in B1, B2, B3, B4, B5, B6, B7, B8.
  cbn in B1, B2, B3, B4, B5, B6, B7, B8.
  cbn [self bind_node_proxies set_node_values set_self].
  rewrite Hse.
  repeat (split; [done|]). split.
  - intros x Hx. apply B8. destruct (decide (a = x)) as [->|Hne].
    + rewrite lookup_insert_eq. by eexists.
    + by rewrite lookup_insert_ne.
  - cbn. rewrite Hs1. by eexists.
Qed.

Section EmissionKept.

Context (idxc : IndexingContext).
Context (find_index_bounds :
           list Constraint -> index_dict -> option (list string)).
Context (strides_from_symbolic_shape :
           IndexingContext -> list string -> list expr).
Context (other_handlers : string -> state -> fx_node -> result state).

(** The handlers outside the sources keep the emitter in the same way. *)
Hypothesis other_handlers_emitter_kept : forall name s node s',
  other_handlers name s node = Ok s' -> emitter_kept (self s) (self s').

Lemma emit_function_call_node_with_emitter_kept emit_subgraph st node st' :
  (forall s r s', emit_subgraph s = Ok (r, s') ->
                  emitter_kept (self s) (self s')) ->
  emit_function_call_node_with idxc find_index_bounds
    strides_from_symbolic_shape other_handlers emit_subgraph st node = Ok st' ->
  emitter_kept (self st) (self st').
Proof.
  intros Hsub. unfold emit_function_call_node_with, OP_HANDLERS.
  repeat (destruct (decide _); [first
    [ apply handle_read_emitter_kept | apply handle_write_emitter_kept
    | exact (fun H => emitter_kept_eq _ _ (handle_shuffle_self _ _ _ H))
    | by apply handle_reduction_emitter_kept
    | exact (fun H => emitter_kept_eq _ _ (handle_get_result_self _ _ _ H))
    | by (intros [= <-]; apply emitter_kept_insert_op)
    | done ]|]).
  destruct (bool_decide _); [apply other_handlers_emitter_kept|done].
Qed.

Lemma emit_graph_emitter_kept_of graph :
  Forall (fun n => forall st st',
            _emit_function_call_node idxc find_index_bounds
              strides_from_symbolic_shape other_handlers st n = Ok st' ->
            emitter_kept (self st) (self st')) graph ->
  forall s r s',
    _emit_graph idxc find_index_bounds strides_from_symbolic_shape
      other_handlers graph s = Ok (r, s') ->
    emitter_kept (self s) (self s').
Proof.
  induction graph as [|n g IH]; intros Hall s r s'; cbn [_emit_graph].
  - intros [= _ <-]. apply emitter_kept_refl.
  - apply Forall_cons in Hall as [Hn Hg]. specialize (IH Hg).
    match goal with
    | |- (?e ≫= _) = _ -> _ => destruct e as [s1|] eqn:Hs1; [|done]
    end.
    cbn [mbind result_bind].
    assert (emitter_kept (self s) (self s1)) as Hk.
    { destruct (_ || _); [by apply Hn|].
      injection Hs1 as <-. apply emitter_kept_refl. }
    destruct (bool_decide (node_op (info_of n) = "output")).
    + intros [= _ <-]. exact Hk.
    + intros H. apply IH in H. by eapply emitter_kept_trans.
Qed.

Lemma emit_function_call_node_emitter_kept node : forall st st',
  _emit_function_call_node idxc find_index_bounds
    strides_from_symbolic_shape other_handlers st node = Ok st' ->
  emitter_kept (self st) (self st').
Proof.
  induction node as [info subgraph IH] using fx_node_nested_ind.
  intros st st'. rewrite emit_function_call_node_unfold.
  apply emit_function_call_node_with_emitter_kept. cbn [subgraph_of].
  by apply emit_graph_emitter_kept_of.
Qed.

(** X19: lowering a graph, with the subgraphs of its reductions, only
    appends operations at the insertion point it started from, leaves the
    constraints, the thread and workgroup ids and the dynamic dimensions of
    the emitter as they were, and never unregisters an induction variable:
    one that is registered when the lowering starts is registered when it
    ends. *)
Theorem emission_keeps_emitter (graph : list fx_node) (s s' : state)
    (r : option (list py_arg)) :
  _emit_graph idxc find_index_bounds strides_from_symbolic_shape
    other_handlers graph s = Ok (r, s') ->
  emitter_kept (self s) (self s').
Proof.
  apply emit_graph_emitter_kept_of, Forall_forall.
  intros n _. apply emit_function_call_node_emitter_kept.
Qed.

End EmissionKept.

Lemma emission_keeps_emitter_witness :
  emitter_kept (self ex_ready_state) (self ex_after_loop).
Proof.
  refine (emission_keeps_emitter ex_idxc ex_no_bounds ex_strides
            ex_other_handlers _ ex_loop_graph ex_ready_state ex_after_loop
            (Some [ArgNone]) _).
  - intros name s node s' H. discriminate H.
  - vm_compute. reflexivity.
Defined.

(** ** Bounds that do not fit the index *)

Section MaskEdges.

Context (idxc : IndexingContext).
Context (find_index_bounds :
           list Constraint -> index_dict -> option (list string)).

Lemma dict_get_present (d : list (string * expr)) (k : string) :
  k ∈ d.*1 -> exists e, dict_get d k = Ok e.
Proof.
  intros Hk. unfold dict_get.
  destruct (list_find (fun kv => kv.1 = k) d) as [[i [k' e]]|] eqn:Hf;
    [by eexists|].
  apply list_find_None in Hf.
  apply list_elem_of_fmap in Hk as ([k' e] & -> & Hin).
  rewrite Forall_forall in Hf. by destruct (Hf _ Hin).
Qed.

Lemma dict_get_absent (d : list (string * expr)) (k : string) :
  k ∉ d.*1 -> dict_get d k = Raise (KeyError k).
Proof.
  intros Hk. unfold dict_get.
  destruct (list_find (fun kv => kv.1 = k) d) as [[i [k' e]]|] eqn:Hf;
    [|done].
  apply list_find_Some in Hf as (Hi & Heq & _). simpl in Heq. subst k'.
  destruct Hk. apply list_elem_of_fmap. exists (k, e).
  split; [done|]. by eapply list_elem_of_lookup_2.
Qed.

Lemma mapM_bound_missing (new_index : list (string * expr))
    (pre post : list string) (d : string) :
  Forall (fun b => b ∈ new_index.*1) pre ->
  d ∉ new_index.*1 ->
  mapM (fun dim => e ← dict_get new_index dim;
                   Ok (py_lt e (Symbol (Named dim)))) (pre ++ d :: post)
  = Raise (KeyError d).
Proof.
  intros Hpre Hd. induction Hpre as [|b pre Hb Hpre IH]; cbn [app mapM].
  - by rewrite dict_get_absent.
  - destruct (dict_get_present new_index b Hb) as [e ->].
    cbn [mbind result_bind]. by rewrite IH.
Qed.

Lemma new_index_keys (index : index_dict) (last_dim : string) (k : nat) :
  (map (fun kv : string * expr =>
          if decide (kv.1 = last_dim)
          then (kv.1, py_add kv.2 (iota k)) else kv)
       (map (fun kv : string * index_entry =>
               (kv.1, _get_start_index kv.2)) index)).*1
  = index.*1.
Proof.
  induction index as [|[key v] l IH]; [done|].
  cbn. cbn in IH. rewrite IH. f_equal. by destruct (decide _).
Qed.

(** X21: [_build_mask] on bounds that do not fit the index: with an empty
    index it fails with IndexError, with an empty list of bounded
    dimensions (which is not None) it fails with TypeError, the reduction
    of an empty sequence, and with a bounded dimension that the index does
    not have it fails with KeyError on the first such dimension. *)
Theorem build_mask_edges (em : WaveEmitter) (index : index_dict) (k : nat)
    (bounds : list string) :
  find_index_bounds (constraints em) index = Some bounds ->
  (index = [] ->
   exists msg,
     _build_mask idxc find_index_bounds em index k = Raise (IndexError msg)) /\
  (index <> [] -> bounds = [] ->
   exists msg,
     _build_mask idxc find_index_bounds em index k = Raise (TypeError msg)) /\
  (index <> [] ->
   forall pre d post,
     bounds = pre ++ d :: post ->
     Forall (fun b => b ∈ index.*1) pre ->
     d ∉ index.*1 ->
     _build_mask idxc find_index_bounds em index k = Raise (KeyError d)).
Proof.
  intros Hfib. unfold _build_mask, mask_preds. rewrite Hfib.
  split; [|split].
  - intros ->. by eexists.
  - intros Hne ->. unfold py_last.
    destruct (last (map fst index)) as [last_dim|] eqn:Hlast.
    + by eexists.
    + apply last_None in Hlast. by destruct index.
  - intros Hne pre d post -> Hpre Hd. unfold py_last.
    destruct (last (map fst index)) as [last_dim|] eqn:Hlast;
      [|apply last_None in Hlast; by destruct index].
    cbn [mbind result_bind].
    rewrite mapM_bound_missing; [done| |]; by rewrite new_index_keys.
Qed.

End MaskEdges.

Lemma build_mask_edges_witness :
  (exists msg,
     _build_mask ex_idxc ex_bounds_N ex_emitter [] 4 = Raise (IndexError msg))
  /\
  _build_mask ex_idxc ex_bounds_N ex_emitter [("M", ex_seq (Integer 0))] 4
  = Raise (KeyError "N").
Proof.
  split.
  - apply (build_mask_edges ex_idxc ex_bounds_N ex_emitter [] 4 ["N"]);
      reflexivity.
  - apply (proj2 (proj2 (build_mask_edges ex_idxc ex_bounds_N ex_emitter
                           [("M", ex_seq (Integer 0))] 4 ["N"] eq_refl))
             ltac:(done) [] "N" []).
    + reflexivity.
    + constructor.
    + intros H. apply list_elem_of_singleton in H. discriminate H.
Defined.

(** * The bounds mask of an access *)

Section BoundsMaskOfAccess.

Context (idxc : IndexingContext).
Context (find_index_bounds :
           list Constraint -> index_dict -> option (list string)).
Context (strides_from_symbolic_shape :
           IndexingContext -> list string -> list expr).

Lemma mapM_length {A B} (f : A -> result B) (l : list A) (r : list B) :
  mapM f l = Ok r -> length r = length l.
Proof.
  revert r. induction l as [|a l IH]; intros r; cbn [mapM].
  - by intros [= <-].
  - destruct (f a); [|done]. cbn [mbind result_bind].
    destruct (mapM f l) as [bs|]; [|done]. cbn [mbind result_bind].
    intros [= <-]. simpl. f_equal. by apply IH.
Qed.

(** The mask the synthesizer returns does not depend on the thread
    offset. *)
Lemma gather_scatter_mask em shape index m k is_read thread_offset
    start_indices offsets_vec mask :
  _construct_gather_scatter_indices idxc find_index_bounds
    strides_from_symbolic_shape em shape index m k is_read thread_offset
  = Ok (start_indices, offsets_vec, mask) ->
  exists bm,
    _build_mask idxc find_index_bounds em index k = Ok bm /\
    mask = mask_or_all_true bm k.
Proof.
  unfold _construct_gather_scatter_indices.
  destruct (gather_scatter_setup _ _ _ _ _ _) as [su|]; [|done].
  cbn [mbind result_bind].
  destruct (constant_offsets _ _) as [[offsets need]|]; [|done].
  cbn [mbind result_bind].
  match goal with
  | |- (?p ≫= _) = _ -> _ => destruct p as [[si ov]|]; [|done]
  end.
  cbn [mbind result_bind].
  destruct (_build_mask idxc find_index_bounds em index k) as [bm|]; [|done].
  cbn [mbind result_bind]. intros [= _ _ <-]. by exists bm.
Qed.

Lemma build_mask_three bounds em index k :
  find_index_bounds (constraints em) index = Some bounds ->
  (3 <= length bounds)%nat ->
  is_ok (_build_mask idxc find_index_bounds em index k) = false.
Proof.
  intros Hfib Hlen. unfold _build_mask. rewrite Hfib.
  destruct (mask_preds index k bounds) as [preds|] eqn:Hpreds; [|done].
  cbn [mbind result_bind].
  assert (length preds = length bounds) as Hl.
  { unfold mask_preds in Hpreds.
    destruct (py_last (map fst index)); [|done].
    cbn [mbind result_bind] in Hpreds. by apply mapM_length in Hpreds. }
  destruct preds as [|p0 [|p1 [|p2 preds]]]; try (simpl in Hl; lia).
  cbn [gen_mask_expr].
  destruct (get_emitter_subs em) as [dyn|]; [|done]. cbn [mbind result_bind].
  destruct (get_induction_vars em) as [[ivs vars]|]; [|done].
  cbn [mbind result_bind].
  pose proof (gen_And_many idxc dyn ivs (p0 :: p1 :: p2 :: preds)) as H.
  destruct (gen_sympy_index_And idxc dyn ivs _); [|done].
  discriminate H. simpl. lia.
Qed.

Lemma handle_read_identity_access st node memory e mp x shape index st' :
  node_args (info_of node) = [memory; e; mp; x] ->
  node_index (info_of node) = Some index ->
  _get_symbolic_shape memory = Ok shape ->
  identity_or_absent mp (Some shape) None ->
  handle_read idxc find_index_bounds strides_from_symbolic_shape st node
  = Ok st' ->
  exists ept id kb elem starts bm,
    cast_py_literal e = Ok ept /\
    _build_start_indices idxc (self st) index = Ok starts /\
    _build_mask idxc find_index_bounds (self st) index ept = Ok bm /\
    ip_ops (self st')
    = ip_ops (self st)
      ++ [match bm with
          | None => vector_load id (VectorType [ept] elem) kb starts
          | Some mask =>
              if decide (memory_type_address_space (info_of node)
                         = SHARED_ADDRESS_SPACE)
              then vector_load id (VectorType [ept] elem) kb starts
              else vector_maskedload id (VectorType [ept] elem) kb starts
                     mask (vector_splat (VectorType [ept] elem)
                             (get_constant 0 elem))
          end].
Proof.
  intros Hargs Hidx Hshape Hmap Hok.
  apply handle_read_inv in Hok
    as (memory' & e' & mp' & x' & ept & kb & ty & st1 & index' & shape'
        & mapping & r & st2 & Hargs' & He & Hkb & Hidx' & Hshape' & Hmp
        & Hpath & ->).
  rewrite Hargs in Hargs'. injection Hargs' as <- <- <- <-.
  rewrite Hidx in Hidx'. injection Hidx' as <-.
  rewrite Hshape in Hshape'. injection Hshape' as <-.
  rewrite (read_path_identity _ _ _ _ _ _ _ _ _ mp) in Hpath by done.
  apply cast_kernel_buffer_self in Hkb.
  unfold read_identity_path in Hpath. rewrite Hkb in Hpath.
  destruct (_build_start_indices idxc (self st) index) as [starts|]; [|done].
  cbn [mbind result_bind] in Hpath.
  destruct (_build_mask idxc find_index_bounds (self st) index ept)
    as [bm|] eqn:Hmask; [|done].
  cbn [mbind result_bind create_op] in Hpath.
  exists ept, (next_op st1), kb, (element_type_of ty), starts, bm.
  split; [done|]. split; [done|]. split; [done|].
  destruct bm as [mask|]; [destruct (decide _)|];
    injection Hpath as <- <-; cbn; by rewrite Hkb.
Qed.

Lemma handle_write_identity_access st node register memory e mp ishape
    oshape index st' :
  node_args (info_of node) = [register; memory; e; mp] ->
  node_index (info_of node) = Some index ->
  _get_symbolic_shape register = Ok ishape ->
  _get_symbolic_shape memory = Ok oshape ->
  identity_or_absent mp (Some ishape) (Some oshape) ->
  handle_write idxc find_index_bounds strides_from_symbolic_shape st node
  = Ok st' ->
  exists ept kb v starts bm,
    cast_py_literal e = Ok ept /\
    _build_start_indices idxc (self st) index = Ok starts /\
    _build_mask idxc find_index_bounds (self st) index ept = Ok bm /\
    ip_ops (self st')
    = ip_ops (self st)
      ++ [match bm with
          | None => vector_store v kb starts
          | Some mask =>
              if decide (memory_type_address_space (info_of node)
                         = SHARED_ADDRESS_SPACE)
              then vector_store v kb starts
              else vector_maskedstore kb starts mask v
          end].
Proof.
  intros Hargs Hidx Hi Ho Hmap Hok.
  apply handle_write_inv in Hok
    as (register' & memory' & e' & mp' & kb & ty & st1 & v & st2 & ept
        & index' & ishape' & oshape' & mapping & Hargs' & Hkb & Hv & He
        & Hsh & Hidx' & Hi' & Ho' & Hmp & Hpath).
  rewrite Hargs in Hargs'. injection Hargs' as <- <- <- <-.
  rewrite Hidx in Hidx'. injection Hidx' as <-.
  rewrite Hi in Hi'. injection Hi' as <-.
  rewrite Ho in Ho'. injection Ho' as <-.
  rewrite (write_path_identity _ _ _ _ _ _ _ _ _ _ mp) in Hpath by done.
  apply cast_kernel_buffer_self in Hkb. apply cast_vector_self in Hv.
  unfold write_identity_path in Hpath. rewrite Hv, Hkb in Hpath.
  destruct (_build_start_indices idxc (self st) index) as [starts|]; [|done].
  cbn [mbind result_bind] in Hpath.
  destruct (_build_mask idxc find_index_bounds (self st) index ept)
    as [bm|] eqn:Hmask; [|done].
  cbn [mbind result_bind] in Hpath.
  exists ept, kb, v, starts, bm.
  split; [done|]. split; [done|]. split; [done|].
  destruct bm as [mask|]; [destruct (decide _)|];
    injection Hpath as <-; cbn; by rewrite Hv, Hkb.
Qed.

Lemma handle_read_mapped_access st node memory e m x shape index st' :
  node_args (info_of node) = [memory; e; ArgMapping m; x] ->
  node_index (info_of node) = Some index ->
  _get_symbolic_shape memory = Ok shape ->
  _is_identity_mapping m (Some shape) None = false ->
  handle_read idxc find_index_bounds strides_from_symbolic_shape st node
  = Ok st' ->
  exists ept ops,
    cast_py_literal e = Ok ept /\
    ip_ops (self st') = ip_ops (self st) ++ ops /\
    length ops = ept /\
    forall i op,
      ops !! i = Some op ->
      exists id ty kb start_indices offsets_vec passthru bm,
        _build_mask idxc find_index_bounds (self st) index 1 = Ok bm /\
        op = vector_gather id ty kb start_indices offsets_vec
               (mask_or_all_true bm 1) passthru.
Proof.
  intros Hargs Hidx Hshape Hid Hok.
  apply handle_read_inv in Hok
    as (memory' & e' & mp' & x' & ept & kb & ty & st1 & index' & shape'
        & mapping & r & st2 & Hargs' & He & Hkb & Hidx' & Hshape' & Hmp
        & Hpath & ->).
  rewrite Hargs in Hargs'. injection Hargs' as <- <- <- <-.
  rewrite Hidx in Hidx'. injection Hidx' as <-.
  rewrite Hshape in Hshape'. injection Hshape' as <-.
  injection Hmp as <-. unfold read_path in Hpath. rewrite Hid in Hpath.
  unfold read_mapped_path in Hpath.
  apply read_lanes_gathers in Hpath as (ops & Hops & _ & _ & _ & Hall).
  apply cast_kernel_buffer_self in Hkb. rewrite Hkb in Hops, Hall.
  exists ept, ops. split; [done|]. split; [done|]. split.
  { apply Forall2_length in Hall. by rewrite length_seq in Hall. }
  intros i op Hop.
  destruct (Forall2_lookup_r _ _ _ _ _ Hall Hop)
    as (j & Hj & id & si & ov & mk & -> & Hsynth).
  apply gather_scatter_mask in Hsynth as (bm & Hbm & ->).
  by eexists _, _, _, _, _, _, bm.
Qed.

Lemma handle_write_mapped_access st node register memory e m ishape oshape
    index st' :
  node_args (info_of node) = [register; memory; e; ArgMapping m] ->
  node_index (info_of node) = Some index ->
  _get_symbolic_shape register = Ok ishape ->
  _get_symbolic_shape memory = Ok oshape ->
  _is_identity_mapping m (Some ishape) (Some oshape) = false ->
  handle_write idxc find_index_bounds strides_from_symbolic_shape st node
  = Ok st' ->
  exists ept kb v start_indices offsets_vec bm,
    cast_py_literal e = Ok ept /\
    _build_mask idxc find_index_bounds (self st) index ept = Ok bm /\
    ip_ops (self st')
    = ip_ops (self st)
      ++ [if decide (ept = 1%nat)
          then vector_maskedstore kb start_indices
                 (mask_or_all_true bm ept) v
          else vector_scatter kb start_indices offsets_vec
                 (mask_or_all_true bm ept) v].
Proof.
  intros Hargs Hidx Hi Ho Hid Hok.
  apply handle_write_inv in Hok
    as (register' & memory' & e' & mp' & kb & ty & st1 & v & st2 & ept
        & index' & ishape' & oshape' & mapping & Hargs' & Hkb & Hv & He
        & Hshape & Hidx' & Hi' & Ho' & Hmp & Hpath).
  rewrite Hargs in Hargs'. injection Hargs' as <- <- <- <-.
  rewrite Hidx in Hidx'. injection Hidx' as <-.
  rewrite Hi in Hi'. injection Hi' as <-.
  rewrite Ho in Ho'. injection Ho' as <-.
  injection Hmp as <-. unfold write_path in Hpath. rewrite Hid in Hpath.
  unfold write_mapped_path in Hpath.
  destruct (decide (ishape ≠ input_shape m)); [done|].
  apply cast_kernel_buffer_self in Hkb. apply cast_vector_self in Hv.
  rewrite Hv, Hkb in Hpath.
  destruct (_construct_gather_scatter_indices _ _ _ (self st) _ _ _ _ _ _)
    as [[[si ov] mk]|] eqn:Hsynth; [|done].
  cbn [mbind result_bind] in Hpath.
  apply gather_scatter_mask in Hsynth as (bm & Hbm & ->).
  exists ept, kb, v, si, ov, bm. split; [done|]. split; [done|].
  destruct (decide (ept = 1%nat)); injection Hpath as <-; cbn;
    by rewrite Hv, Hkb.
Qed.

(** C4: the bounds mask.  Without bounded dimensions [_build_mask] builds
    no mask, and a read or write with an absent or identity mapping emits
    a plain [vector.load] or [vector.store]; with bounded dimensions it
    emits a masked load or store under the mask [_build_mask] builds
    (outside shared memory).  A write through another mapping puts that
    mask, or a constant mask of true lanes when nothing is bounded, on its
    scatter; a read through another mapping puts on each of its gathers
    the mask [_build_mask] builds for one element.  For one or two bounded
    dimensions the mask is, lane by lane, the conjunction over the bounded
    dimensions of start + lane offset < size: for one bound B on the
    innermost dimension and k elements per thread, lane i is true iff
    start + i < B, all lanes are false when start = B and all are true
    when start = 0 and B = k (the lanes being within the range of
    [index]).  For three or more bounded dimensions no mask is built: the
    lowering of the conjunction fails. *)
Theorem bounds_mask :
  (forall em index k,
     find_index_bounds (constraints em) index = None ->
     _build_mask idxc find_index_bounds em index k = Ok None) /\
  (forall st node memory e mapping unused index shape st',
     node_args (info_of node) = [memory; e; mapping; unused] ->
     node_index (info_of node) = Some index ->
     _get_symbolic_shape memory = Ok shape ->
     identity_or_absent mapping (Some shape) None ->
     handle_read idxc find_index_bounds strides_from_symbolic_shape st node
       = Ok st' ->
     exists ept id kb elem starts bm,
       cast_py_literal e = Ok ept /\
       _build_start_indices idxc (self st) index = Ok starts /\
       _build_mask idxc find_index_bounds (self st) index ept = Ok bm /\
       ip_ops (self st')
       = ip_ops (self st)
         ++ [match bm with
             | None => vector_load id (VectorType [ept] elem) kb starts
             | Some mask =>
                 if decide (memory_type_address_space (info_of node)
                            = SHARED_ADDRESS_SPACE)
                 then vector_load id (VectorType [ept] elem) kb starts
                 else vector_maskedload id (VectorType [ept] elem) kb
                        starts mask
                        (vector_splat (VectorType [ept] elem)
                           (get_constant 0 elem))
             end]) /\
  (forall st node register memory e mapping index in_shape out_shape st',
     node_args (info_of node) = [register; memory; e; mapping] ->
     node_index (info_of node) = Some index ->
     _get_symbolic_shape register = Ok in_shape ->
     _get_symbolic_shape memory = Ok out_shape ->
     identity_or_absent mapping (Some in_shape) (Some out_shape) ->
     handle_write idxc find_index_bounds strides_from_symbolic_shape st node
       = Ok st' ->
     exists ept kb v starts bm,
       cast_py_literal e = Ok ept /\
       _build_start_indices idxc (self st) index = Ok starts /\
       _build_mask idxc find_index_bounds (self st) index ept = Ok bm /\
       ip_ops (self st')
       = ip_ops (self st)
         ++ [match bm with
             | None => vector_store v kb starts
             | Some mask =>
                 if decide (memory_type_address_space (info_of node)
                            = SHARED_ADDRESS_SPACE)
                 then vector_store v kb starts
                 else vector_maskedstore kb starts mask v
             end]) /\
  (forall st node memory e m unused index shape st',
     node_args (info_of node) = [memory; e; ArgMapping m; unused] ->
     node_index (info_of node) = Some index ->
     _get_symbolic_shape memory = Ok shape ->
     _is_identity_mapping m (Some shape) None = false ->
     handle_read idxc find_index_bounds strides_from_symbolic_shape st node
       = Ok st' ->
     exists ept ops,
       cast_py_literal e = Ok ept /\
       ip_ops (self st') = ip_ops (self st) ++ ops /\
       length ops = ept /\
       forall i op,
         ops !! i = Some op ->
         exists id ty kb start_indices offsets_vec passthru bm,
           _build_mask idxc find_index_bounds (self st) index 1 = Ok bm /\
           op = vector_gather id ty kb start_indices offsets_vec
                  (mask_or_all_true bm 1) passthru) /\
  (forall st node register memory e m index in_shape out_shape st',
     node_args (info_of node) = [register; memory; e; ArgMapping m] ->
     node_index (info_of node) = Some index ->
     _get_symbolic_shape register = Ok in_shape ->
     _get_symbolic_shape memory = Ok out_shape ->
     _is_identity_mapping m (Some in_shape) (Some out_shape) = false ->
     handle_write idxc find_index_bounds strides_from_symbolic_shape st node
       = Ok st' ->
     exists ept kb v start_indices offsets_vec bm,
       cast_py_literal e = Ok ept /\
       _build_mask idxc find_index_bounds (self st) index ept = Ok bm /\
       ip_ops (self st')
       = ip_ops (self st)
         ++ [if decide (ept = 1%nat)
             then vector_maskedstore kb start_indices
                    (mask_or_all_true bm ept) v
             else vector_scatter kb start_indices offsets_vec
                    (mask_or_all_true bm ept) v]) /\
  (forall em index k env starts sizes bounds,
     find_index_bounds (constraints em) index = Some bounds ->
     bounds <> [] ->
     (length bounds <= 2)%nat ->
     Forall (bounded_dim_lowers idxc em env index starts sizes) bounds ->
     exists mask,
       _build_mask idxc find_index_bounds em index k = Ok (Some mask) /\
       type_of mask = VectorType [k] i1 /\
       eval env mask =
         Some (RVec (map (fun i => b2z (lane_in_bounds index starts sizes
                                          bounds i)) (seq 0 k)))) /\
  (forall em index k env start B d,
     find_index_bounds (constraints em) index = Some [d] ->
     last_dim index = Some d ->
     bounded_dim_lowers idxc em env index (fun _ => start) (fun _ => B) d ->
     start + Z.of_nat k - 1 <= index_max ->
     exists mask,
       _build_mask idxc find_index_bounds em index k = Ok (Some mask) /\
       (forall i, (i < k)%nat ->
          (eval env mask ≫= fun r => lane r i) =
          Some (b2z (start + Z.of_nat i <? B))) /\
       (start = B -> eval env mask = Some (RVec (repeat 0 k))) /\
       (start = 0 -> B = Z.of_nat k ->
        eval env mask = Some (RVec (repeat 1 k)))) /\
  (forall em index k bounds,
     find_index_bounds (constraints em) index = Some bounds ->
     (3 <= length bounds)%nat ->
     is_ok (_build_mask idxc find_index_bounds em index k) = false).
Proof.
  split.
  { intros em index k H. unfold _build_mask. by rewrite H. }
  split; [intros *; apply handle_read_identity_access|].
  split; [intros *; apply handle_write_identity_access|].
  split; [intros *; apply handle_read_mapped_access|].
  split; [intros *; apply handle_write_mapped_access|].
  split.
  { intros em index k env starts sizes bounds. apply build_mask_bounded. }
  split; [|intros em index k bounds; apply build_mask_three].
  intros em index k env start B d Hfib Hlast Hd Hmax.
  pose proof (bounded_dim_start_range _ _ _ _ _ _ _ Hd) as Hrange.
  simpl in Hrange.
  destruct (build_mask_bounded idxc find_index_bounds em index k env
              (fun _ => start) (fun _ => B) [d] Hfib ltac:(done)
              ltac:(simpl; lia) ltac:(by constructor))
    as (mask & Hm & _ & He).
  assert (Hlane : forall i, (i < k)%nat ->
    lane_in_bounds index (fun _ => start) (fun _ => B) [d] i =
    (start + Z.of_nat i <? B)).
  { intros i Hi. unfold lane_in_bounds, lane_offset. simpl.
    rewrite decide_True by done. rewrite andb_true_r.
    rewrite index_wrap_small; [done|]. lia. }
  assert (Hmap : forall g : nat -> Z,
    (forall i, (i < k)%nat ->
       b2z (lane_in_bounds index (fun _ => start) (fun _ => B) [d] i) = g i) ->
    eval env mask = Some (RVec (map g (seq 0 k)))).
  { intros g Hg. rewrite He. f_equal. f_equal.
    apply map_ext_in. intros i Hi. apply in_seq in Hi. apply Hg. lia. }
  exists mask. split; [done|]. split; [|split].
  - intros i Hi. rewrite He. cbn [mbind option_bind lane].
    rewrite map_seq_lookup by done. by rewrite Hlane.
  - intros ->. rewrite (repeat_map_seq 0 k 0). apply Hmap.
    intros i Hi. rewrite (Hlane i Hi).
    destruct (Z.ltb_spec (B + Z.of_nat i) B); [lia|done].
  - intros -> ->. rewrite (repeat_map_seq 1 k 0). apply Hmap.
    intros i Hi. rewrite (Hlane i Hi).
    destruct (Z.ltb_spec (0 + Z.of_nat i) (Z.of_nat k)); [done|lia].
Qed.

End BoundsMaskOfAccess.

Lemma bounds_mask_witness :
  (exists mask,
     _build_mask ex_idxc ex_bounds_N (self ex_ready_state) ex_index 4
     = Ok (Some mask) /\
     eval (ex_runtime_thread 32) mask = Some (RVec [0; 0; 0; 0])) /\
  (exists mask,
     _build_mask ex_idxc ex_bounds_MN (self ex_ready_state) ex_index 4
     = Ok (Some mask) /\
     type_of mask = VectorType [4%nat] i1 /\
     eval (ex_runtime_thread 31) mask = Some (RVec [1; 1; 1; 1])) /\
  _build_mask ex_idxc ex_no_bounds (self ex_ready_state) ex_index 4
  = Ok None /\
  is_ok (_build_mask ex_idxc3 ex_bounds_KMN (self ex_ready_state) ex_index3 4)
  = false /\
  _build_mask ex_idxc3 ex_bounds_KMN (self ex_ready_state) ex_index3 4
  = Raise (CodegenError "Expected single result").
Proof.
  destruct (bounds_mask ex_idxc ex_bounds_N ex_strides)
    as (_ & _ & _ & _ & _ & _ & Hlast & _).
  destruct (bounds_mask ex_idxc ex_bounds_MN ex_strides)
    as (_ & _ & _ & _ & _ & Htwo & _).
  destruct (bounds_mask ex_idxc ex_no_bounds ex_strides) as (Hnone & _).
  destruct (bounds_mask ex_idxc3 ex_bounds_KMN ex_strides)
    as (_ & _ & _ & _ & _ & _ & _ & Hthree).
  destruct (Hlast (self ex_ready_state) ex_index 4%nat (ex_runtime_thread 32)
              128 128 "N") as (mask & Hmask & _ & Hzero & _).
  - reflexivity.
  - reflexivity.
  - exists (Mul [Integer 4; Symbol (Named THREAD_0)]),
      (arith_muli (gpu_thread_id 0) (arith_constant (Scalar IndexType) 4)),
      (arith_constant (Scalar IndexType) 128).
    repeat split; vm_compute; reflexivity.
  - unfold index_max. lia.
  - split; [exists mask; split; [exact Hmask|exact (Hzero eq_refl)]|].
    split.
    { destruct (Htwo (self ex_ready_state) ex_index 4%nat
                  (ex_runtime_thread 31)
                  (fun d => if decide (d = "M") then 0 else 124)
                  (fun d => if decide (d = "M") then 256 else 128)
                  ["M"; "N"]) as (mask2 & Hmask2 & Hty2 & Hev2).
      - reflexivity.
      - discriminate.
      - simpl. lia.
      - repeat constructor.
        + exists (Symbol (Named WORKGROUP_1)),
            (stream_dispatch_workgroup_id 1),
            (arith_constant (Scalar IndexType) 256).
          repeat split; vm_compute; reflexivity.
        + exists (Mul [Integer 4; Symbol (Named THREAD_0)]),
            (arith_muli (gpu_thread_id 0)
               (arith_constant (Scalar IndexType) 4)),
            (arith_constant (Scalar IndexType) 128).
          repeat split; vm_compute; reflexivity.
      - exists mask2. split; [exact Hmask2|]. split; [exact Hty2|].
        rewrite Hev2. vm_compute. reflexivity. }
    split; [apply Hnone; reflexivity|].
    split; [|vm_compute; reflexivity].
    apply (Hthree (self ex_ready_state) ex_index3 4%nat ["K"; "M"; "N"]).
    + reflexivity.
    + simpl. lia.
Defined.
